(* ===== verification/_CoqProject ===== *)
-Q . S2P
Prelude.v
Hlc.v
Store.v
Buffer.v
Wire.v
Replication.v
Server.v
Cluster.v
Interleave.v
Grid.v
Simulate.v
Strong.v
Causal.v
Converge.v
Delivery.v
Fine.v
Stamps.v
Settle.v
Chain.v
Agree.v
Progress.v
Trace.v
Session.v
Float.v
Env.v
World.v
Process.v
Csv.v
Workload.v
Driver.v
Experiments.v
Trial.v
Checker.v
Deploy.v
Bench.v
Flags.v
Args.v
NodeCmd.v
Cmd.v
Commands.v
Probe.v
