(* ===== verification/Prelude.v ===== *)
(** * Verification of the replicated key-value store

    The program is a replicated in-memory key-value store in Go with three
    consistency modes (eventual, causal, strong), and the tools that measure it.
    Each node serves [Put], [Get] and [Delete] to clients and [Replicate] to its
    peers; all values carry hybrid-logical-clock timestamps, replicas resolve
    conflicts by last-writer-wins, and in causal mode a write carries the
    versions its client had read and waits in a buffer until they are there.

    ** Files and the code they model

    - [Prelude.v] (this file): results of fallible calls, Go's fixed-width
      integers on [Z], the case-splitting tactics, the hint database [go], and
      generic lemmas on options, lists, permutations and majorities.
    - [Hlc.v], [internal/hlc/hlc.go]: [Timestamp], [Compare], [Clock] and its
      [Send] and [Receive]; the wall-clock reading is an argument.
    - [Store.v], [internal/store/store.go]: the store as a [gmap]; the
      specification is a map of last-writer-wins registers ([lww]).
    - [Buffer.v], [internal/buffer/buffer.go]: dependency test, [Receive] and the
      in-place sweep on the shared array; the specification is [causal_run], the
      application of writes each with its dependencies present.
    - [Wire.v], [proto/]: the messages' fields.
    - [Replication.v], [internal/replication/replication.go]: [OnWrite] of the
      three handlers, as instances of the class [Handler]; the class
      [HandlerLaws] is what the node relies on.
    - [Server.v], [internal/server/node.go]: the read tracker and the node's
      handlers, each run whole.
    - [Cluster.v], [cmd/node/main.go] with the above: nodes as [main] starts them,
      the RPCs in flight, and runs of client calls, deliveries in any order and
      losses, in the asynchronous modes.
    - [Interleave.v], [internal/server/node.go]: the handlers of one node split at
      their lock boundaries and run under any schedule.
    - [Grid.v], [replication.go] and [node.go]: a whole cluster at that grain, in
      the three modes: calls of clients at every node, each RPC served by a handler
      of its own, answered or failed at any moment; [wg.Wait] of a strong write.
    - [Simulate.v]: the runs of [Cluster.v] as runs of [Grid.v].
    - [Strong.v]: runs of a strong cluster, the invariant of its quorums.
    - [Causal.v]: runs of a causal cluster, the invariant of its stores.
    - [Converge.v]: histories of runs, and convergence once all RPCs arrived.
    - [Delivery.v], [buffer.go] again: the methods of the buffer as programs over
      the store's accesses, with a logic for interference between the accesses
      (what the others may do is a preorder, [rely]; [good] is what a program
      achieves under it).
    - [Fine.v], [buffer.go] and [node.go]: [Grid.v] with these programs in the
      place of [Receive]: [FLock] takes the buffer's mutex of a node, [FAccess] is
      the next access of the handler that has it, [FUnlock] gives it back, and
      [FStep] is any step of the others.  Causal safety at that grain.
    - [Stamps.v]: histories of its runs; the timestamps of one node differ.
    - [Settle.v]: convergence once all calls have ended and all RPCs are served.
    - [Chain.v]: a read and then a write of a client, with concurrent handlers.
    - [Agree.v]: what the stores of a strong cluster hold in the end.
    - [Progress.v]: every call and every delivery can come to its end.
    - [Trace.v]: where the values of its runs come from, in the three modes.
    - [Session.v]: where stored writes come from, and what a causal client gets.
    - [Float.v]: float64 as the standard library's binary64, and the rank
      [int(float64(n) * p)] of the percentiles, with its rounding error.
    - [Env.v]: the interfaces of the tools to the world (service, time, random
      numbers, formatting) with their laws, and a concrete world for examples.
    - [World.v]: a running cluster of [Cluster.v] as a world of [Env.v]: RPCs are
      delivered and lost, and other clients work, before each call of the tool and
      while it waits, as a schedule says; what its steps leave alone.
    - [Process.v]: what a command does to its surroundings (lines, log, files,
      connections, exit status, panics, deferred calls), as a monad with a
      weakest-precondition calculus.
    - [Csv.v]: what the tools use of [encoding/csv], [bufio] and [os]: files as
      bytes, records as text, buffered writers whose writes may fail; and a reader.
    - [Workload.v], [Driver.v], [bench/workload.go] and [bench/ycsb_driver.go].
    - [Experiments.v], [internal/experiments/experiments.go].
    - [Checker.v], [internal/checker/checker.go].
    - [Deploy.v], [Bench.v] and [Trial.v]: the checker, the benchmark and the
      causal-chain experiment run against the clusters of [World.v].
    - [Flags.v]: the comma-separated lists; [NodeCmd.v], [cmd/node/main.go];
      [Cmd.v], the other [cmd/*/main.go]; [Probe.v], [scripts/*.go].
    - [Args.v]: what the commands use of [flag], [strconv] and
      [time.ParseDuration]; [Commands.v]: the flags each [main] declares, and the
      commands run on their arguments.

    Definitions keep the Go names, with the receiver type in front of a method
    ([Clock.Send] is [Clock_Send]).  A pointer shared between components (the
    store, the clock, the buffer) is the value threaded through the operations
    that share it.  A mutex makes each method of the clock, the store and the read
    tracker one step; [Buffer.Receive], which holds its mutex over several
    accesses to the store, is one step in [Interleave.v] and [Grid.v] and many in
    [Fine.v].

    ** What the theorems show

    - Clock: comparison is a total order, [Send] and [Receive] on every branch,
      monotonicity and absence of overflow along runs, and a defect: a message
      that ties with the wall time and is ahead in the counter is not passed.
    - Store: [Apply] refines a last-writer-wins register; replicas that applied
      the same writes are equal; equal timestamps break this.
    - Buffer: the in-place sweep is the sweep on lists, draining terminates and
      leaves no applicable write, [Receive] loses nothing and keeps the store
      causally closed; writes that can be applied are, in any order of arrival.
    - Replication: a strong write succeeds exactly with a majority of holders, so
      two successful ones share a node.
    - Strong clusters: as long as writes to one key do not overlap and no request
      ties with its receiver's clock while ahead of it, an acknowledged write is on
      a majority at every later point and acknowledged writes are ordered as they
      were made; when they overlap, or at such a tie, an acknowledged write can be
      overwritten by an earlier one; a failed write stays where it was accepted,
      and reads are local.  Once all is served, the nodes have all writes sent but
      for their own failed ones, if no acknowledged write was stored over a later
      one.
    - Node: [Put] on every branch, its round trip to a peer, the dependencies of a
      causal write; an empty value is deleted at the peers.
    - Cluster (asynchronous modes): causal closure and monotonic versions in every
      run; convergence of every lossless run once all RPCs have arrived; order of
      read-then-write chains at every node; own writes are not ordered, a put of
      another client takes away the dependencies of a read, and a local write does
      not release held ones.
    - The same with concurrent handlers and deliveries interrupted between any two
      accesses to the store: causal closure and monotonic versions in every run in
      which no local write is stored over a later version of its key (two
      overlapping puts break both), convergence once all calls have ended and all
      RPCs are served, and order of read-then-write chains when no other write of
      the node takes the read from the tracker in between.  [Receive] alone is the
      function of [Buffer.v], and the runs of [Grid.v] are runs of [Fine.v].
    - All modes, all schedules: every node, handler and request stays well-typed;
      no state is stuck, every call can return, every RPC be answered and every
      delivery give the mutex back; no value is stored or read that no client
      wrote; runs with whole handlers are runs with concurrent ones.
    - Concurrency: handlers split at their locks refine the whole ones; unique
      timestamps under every schedule; no lost update between handlers on
      different keys, and a lost update between two puts of one key.
    - Tools: the verdicts of the checker and its acceptance of converged clusters;
      termination and counts of the polls, experiments and runs; on running
      clusters with others at work, the causal-chain experiment and the benchmark's
      load and run; sorting and percentiles; keys within the loaded range.
    - Commands: on any command line each ends in one of the ways its theorem lists,
      with its lines, its file's rows and its connections closed when it returns;
      arguments that spell out all flags are read back as these flags; the nodes
      of commands that name each other are the initial cluster; rows can be read
      back, whatever their fields hold; a full disk is not noticed; a strong node
      that could dial no peer acknowledges alone; the smoke test passes on a
      running cluster.

    ** Assumptions and bounds

    Cluster theorems assume wall-clock readings that are non-negative int64s and
    runs in which no delivery hits the tie defect ([no_tie]); convergence also
    assumes no loss, no empty puts and that no two nodes give one timestamp to
    writes of one key (one node never does; each is necessary: see the theorems
    named above).  With concurrent handlers the tie defect is harmless, but no
    local write may be stored over a later version of its key ([g_forward]), again
    necessary; [no_thin_air] assumes nothing.  The theorems on strong clusters
    assume that writes to one key do not overlap ([g_exclusive]) and the
    same on readings and ties, but for [strong_agreement], which assumes that no
    acknowledged write is stored at its origin over a later version
    ([store_forward]), no empty puts and no ties between nodes.  The tools run
    against clusters ([World.v]) assume no absence of ties, but that others leave
    the keys of the tool alone; the smoke test and the benchmark, that no later
    version of these keys is on its way at the start and that the logical counters
    have room for the steps to come; the causal-chain experiment, that its keys are
    new, that nobody else writes at its origin (the tracker is the node's) and that
    the readings there are positive.  The checker's theorem has the conditions of
    convergence.  [make] panics on a slice of more than 2^48 bytes ([maxAlloc]);
    short of that memory is unbounded.  Loops that are not structural take fuel:
    [drain_loop] one more than the held writes, the parser of durations the length
    of its text, the polls one per interval and two more; each has a theorem that
    this is enough, from the laws of time of [Env.v] where time bounds the loop.

    ** Not modelled

    The gRPC library, its generated stubs and the (de)serialisation of messages;
    the text of a usage message (a parameter) and signals, beyond the server's
    return.  The transcendental [math.Pow], the random generator, float formatting
    and quoting, file reading and YAML decoding are parameters; so is what the
    system answers to a write (how many bytes reached the file, and the error).
    Closing a file has no effect.  The profiling goroutine logs where it is
    started. *)

From stdpp Require Export prelude gmap strings list sorting.
From Stdlib Require Export ZArith Lia Strings.Byte.

(** ** Results of fallible Go calls

    A Go call of type [(T, error)] returns [Ok v] where the source returns
    [v, nil] and [Err msg] where it returns an error built from the message
    [msg]; callers of this program never look at the value beside an error. *)

Inductive res (A : Type) : Type :=
| Ok (a : A)
| Err (msg : string).

Arguments Ok {A} a.
Arguments Err {A} msg.

#[export] Instance res_eq_dec {A : Type} `{EqDecision A} : EqDecision (res A).
Proof. solve_decision. Defined.

Definition is_ok {A : Type} (r : res A) : bool :=
  match r with Ok _ => true | Err _ => false end.

Definition res_map {A B : Type} (f : A -> B) (r : res A) : res B :=
  match r with Ok a => Ok (f a) | Err e => Err e end.

(** The values of the successful calls of a run, in order. *)
Definition oks {A : Type} (rs : list (res A)) : list A :=
  omap (fun r => match r with Ok a => Some a | Err _ => None end) rs.

(** ** Go's fixed-width integers

    [int32], [int64] and [uint64] values are [Z]s in the type's range; an
    arithmetic operation of the source is the operation on [Z] followed by the
    wrap-around of its type. *)

Definition wrap_s (w x : Z) : Z :=
  ((x + 2 ^ (w - 1)) mod 2 ^ w - 2 ^ (w - 1))%Z.

Definition wrap_u (w x : Z) : Z := (x mod 2 ^ w)%Z.

Definition int32 (x : Z) : Z := wrap_s 32 x.
Definition int64 (x : Z) : Z := wrap_s 64 x.
Definition uint64 (x : Z) : Z := wrap_u 64 x.

Definition in_int32 (x : Z) : Prop := (- 2147483648 <= x <= 2147483647)%Z.
Definition in_int64 (x : Z) : Prop :=
  (- 9223372036854775808 <= x <= 9223372036854775807)%Z.
Definition in_uint64 (x : Z) : Prop :=
  (0 <= x <= 18446744073709551615)%Z.

Lemma int32_small x : in_int32 x -> int32 x = x.
Proof.
  unfold int32, wrap_s, in_int32; intros Hx.
  change (2 ^ (32 - 1))%Z with 2147483648%Z.
  change (2 ^ 32)%Z with 4294967296%Z.
  rewrite Z.mod_small; lia.
Qed.

Lemma int64_small x : in_int64 x -> int64 x = x.
Proof.
  unfold int64, wrap_s, in_int64; intros Hx.
  change (2 ^ (64 - 1))%Z with 9223372036854775808%Z.
  change (2 ^ 64)%Z with 18446744073709551616%Z.
  rewrite Z.mod_small; lia.
Qed.

Lemma uint64_range x : in_uint64 (uint64 x).
Proof.
  unfold uint64, wrap_u, in_uint64.
  change (2 ^ 64)%Z with 18446744073709551616%Z.
  pose proof (Z.mod_pos_bound x 18446744073709551616 ltac:(lia)); lia.
Qed.

(** ** Automation

    [go_cases] splits every [if] and [match] of the goal on an equation that
    stays in the context; [bool_facts] turns boolean tests on [Z] and [string]
    in the context into propositions. *)

Ltac bool_facts :=
  repeat match goal with
  | H : (_ && _)%bool = true |- _ => apply andb_true_iff in H; destruct H
  | H : (_ || _)%bool = false |- _ => apply orb_false_iff in H; destruct H
  | H : negb _ = true |- _ => apply negb_true_iff in H
  | H : negb _ = false |- _ => apply negb_false_iff in H
  | H : Z.ltb _ _ = true |- _ => apply Z.ltb_lt in H
  | H : Z.ltb _ _ = false |- _ => apply Z.ltb_ge in H
  | H : Z.leb _ _ = true |- _ => apply Z.leb_le in H
  | H : Z.leb _ _ = false |- _ => apply Z.leb_gt in H
  | H : Z.eqb _ _ = true |- _ => apply Z.eqb_eq in H
  | H : Z.eqb _ _ = false |- _ => apply Z.eqb_neq in H
  | H : String.eqb _ _ = true |- _ => apply String.eqb_eq in H
  | H : String.eqb _ _ = false |- _ => apply String.eqb_neq in H
  end.

Ltac go_cases :=
  repeat (case_match; simplify_eq/=; bool_facts).

Create HintDb go.
#[export] Hint Resolve int32_small int64_small uint64_range : go.

(** ** Generic lemmas on options, pairs and lists *)

Definition isSome {A : Type} (o : option A) : bool :=
  match o with Some _ => true | None => false end.

Lemma isSome_default {A : Type} (d : A) (o : option A) :
  isSome o = true -> o = Some (default d o).
Proof. by destruct o. Qed.

Lemma triple_eta {A B C : Type} (p : A * B * C) :
  p = (fst (fst p), snd (fst p), snd p).
Proof. by destruct p as [[? ?] ?]. Qed.

Section lists.
Context {A B : Type}.

(** A fold that preserves an invariant of its accumulator. *)
Lemma foldl_invariant (P : B -> Prop) (f : B -> A -> B) (l : list A) (b : B) :
  P b -> (forall b a, a ∈ l -> P b -> P (f b a)) -> P (foldl f b l).
Proof.
  revert b; induction l as [|a l IH]; intros b Hb Hf; simpl; [done|].
  apply IH; [apply Hf; [left|done] | intros; apply Hf; [by right|done]].
Qed.

Lemma elem_of_snoc (l : list A) (x y : A) :
  x ∈ l ++ [y] <-> x ∈ l \/ x = y.
Proof. rewrite elem_of_app, list_elem_of_singleton; done. Qed.

(** Filtering by a test and by its negation splits a list. *)
Lemma filter_split_Permutation (f : A -> bool) (l : list A) :
  List.filter f l ++ List.filter (fun a => negb (f a)) l ≡ₚ l.
Proof.
  induction l as [|a l IH]; simpl; [done|].
  destruct (f a); simpl; [by rewrite IH|].
  rewrite <- Permutation_middle; by rewrite IH.
Qed.

(** Moving one element past the tail of a list up to permutation. *)
Lemma Permutation_snoc_swap (l k : list A) (x : A) :
  (l ++ [x]) ++ k ≡ₚ (l ++ k) ++ [x].
Proof. by rewrite <- !app_assoc, (Permutation_app_comm [x]). Qed.

Lemma filter_length_Permutation (f : A -> bool) (l k : list A) :
  l ≡ₚ k -> length (List.filter f l) = length (List.filter f k).
Proof.
  induction 1 as [|x l k _ IH|x y l|l k m _ IH1 _ IH2]; simpl; try congruence.
  - destruct (f x); simpl; congruence.
  - by destruct (f x), (f y).
Qed.

End lists.

Lemma insert_lookup_cases {A} (l : list A) i j x y :
  <[i := x]> l !! j = Some y -> (i = j /\ x = y) \/ (i <> j /\ l !! j = Some y).
Proof.
  destruct (decide (i = j)) as [->|]; [|rewrite list_lookup_insert_ne by done; auto].
  intros H; left; split; [done|].
  rewrite list_lookup_insert in H; case_decide as Hd; simplify_eq; [done|].
  exfalso; apply Hd; split; [done|]; by apply lookup_lt_Some in H.
Qed.

(** A set of positions of a list at which a test holds is no larger than the
    list of the elements that pass it. *)
Lemma size_filter_le {A} (f : A -> bool) (l : list A) (Q : gset nat) :
  (forall p, p ∈ Q -> exists x, l !! p = Some x /\ f x = true) ->
  size Q <= length (List.filter f l).
Proof.
  intros HQ; set (at_ := fun (l : list A) p => match l !! p with Some x => f x | None => false end).
  assert (Hlen : length (List.filter (at_ l) (seq 0 (length l))) = length (List.filter f l)).
  { clear HQ; induction l as [|x l IH] using rev_ind; [done|].
    rewrite length_app, Nat.add_1_r, seq_S, !List.filter_app, !length_app, <- IH; f_equal.
    - f_equal; apply List.filter_ext_in; intros p Hp%in_seq; unfold at_.
      by rewrite lookup_app_l by lia.
    - unfold at_; simpl; rewrite list_lookup_middle by done; by destruct (f x). }
  rewrite <- Hlen; apply submseteq_length, NoDup_submseteq; [apply NoDup_elements|].
  intros p [x [Hx Hf]]%elem_of_elements%HQ; apply list_elem_of_In, List.filter_In.
  split; [apply in_seq; pose proof (lookup_lt_Some _ _ _ Hx); lia|].
  unfold at_; by rewrite Hx.
Qed.

(** Two subsets that each hold more than half of a finite set have a common
    element. *)
Lemma majorities_intersect {A : Type} `{Countable A} (U X Y : gset A) :
  X ⊆ U -> Y ⊆ U -> size U < 2 * size X -> size U < 2 * size Y -> X ∩ Y <> ∅.
Proof.
  intros HX HY Hx Hy Hdisj.
  assert (Hle : size (X ∪ Y) <= size U) by (apply subseteq_size, union_least; done).
  rewrite size_union in Hle by (apply disjoint_intersection_L; done); lia.
Qed.
