(* ===== verification/Hlc.v ===== *)
(** * The hybrid logical clock ([src/internal/hlc/hlc.go])

    Timestamps with their comparison, and the clock whose [Send] and [Receive]
    issue them.  Every clock method holds the clock's mutex from its first read
    of the fields to its return, so a method is one atomic state transformer;
    the reading of the machine's clock that [wallNow] takes inside the critical
    section is an argument. *)

From S2P Require Import Prelude.
#[local] Open Scope Z_scope.

(** ** Timestamps *)

Definition maxLogical : Z := 2147483647.

Record Timestamp := MkTimestamp { WallTime : Z; Logical : Z }.

#[export] Instance Timestamp_eq_dec : EqDecision Timestamp.
Proof. solve_decision. Defined.

Definition zeroTimestamp : Timestamp := MkTimestamp 0 0.

Definition Compare (a b : Timestamp) : Z :=
  if WallTime a <? WallTime b then -1
  else if WallTime b <? WallTime a then 1
  else if Logical a <? Logical b then -1
  else if Logical b <? Logical a then 1
  else 0.

Definition Before (t other : Timestamp) : bool := Compare t other <? 0.
Definition After (t other : Timestamp) : bool := 0 <? Compare t other.
Definition Equal (t other : Timestamp) : bool := Compare t other =? 0.
Definition AfterOrEqual (t other : Timestamp) : bool := 0 <=? Compare t other.

(** ** The clock *)

Record Clock := MkClock { Clock_l : Z; Clock_c : Z }.

(** [max64] is variadic and reads its first argument unconditionally; every
    call passes at least two, so the first one is a separate argument here. *)
Definition max64 (v0 : Z) (vals : list Z) : Z :=
  foldl (fun m v => if m <? v then v else m) v0 vals.
#[global] Arguments max64 : simpl never.

Definition hlc_New (now : Z) : Clock := MkClock now 0.

Definition Clock_Now (clk : Clock) : Timestamp :=
  MkTimestamp (Clock_l clk) (Clock_c clk).

Definition errOverflow : string := "hlc: logical counter overflow".
Definition errInvalid : string := "hlc: invalid logical counter".

Definition Clock_Send (now : Z) (clk : Clock) : Clock * res Timestamp :=
  let lPrime := max64 (Clock_l clk) [now] in
  if lPrime =? Clock_l clk then
    if maxLogical <=? Clock_c clk then (clk, Err errOverflow)
    else
      let clk' := MkClock lPrime (int32 (Clock_c clk + 1)) in
      (clk', Ok (MkTimestamp (Clock_l clk') (Clock_c clk')))
  else
    let clk' := MkClock lPrime 0 in
    (clk', Ok (MkTimestamp (Clock_l clk') (Clock_c clk'))).

Definition Clock_Receive (now : Z) (msg : Timestamp) (clk : Clock)
    : Clock * res Timestamp :=
  if Logical msg <? 0 then (clk, Err errInvalid)
  else
    let lPrime := max64 (Clock_l clk) [WallTime msg; now] in
    if lPrime =? Clock_l clk then
      if maxLogical <=? Clock_c clk then (clk, Err errOverflow)
      else
        let clk' := MkClock lPrime (int32 (Clock_c clk + 1)) in
        (clk', Ok (MkTimestamp (Clock_l clk') (Clock_c clk')))
    else if lPrime =? WallTime msg then
      if maxLogical <=? Logical msg then (clk, Err errOverflow)
      else
        let clk' := MkClock lPrime (int32 (Logical msg + 1)) in
        (clk', Ok (MkTimestamp (Clock_l clk') (Clock_c clk')))
    else
      let clk' := MkClock lPrime 0 in
      (clk', Ok (MkTimestamp (Clock_l clk') (Clock_c clk'))).

(** A run of clock events: each one a local [Send] or a [Receive], with the
    wall-clock reading it took. *)
Inductive clock_event :=
| EvSend (now : Z)
| EvReceive (now : Z) (msg : Timestamp).

Definition clock_step (clk : Clock) (e : clock_event) : Clock * res Timestamp :=
  match e with
  | EvSend now => Clock_Send now clk
  | EvReceive now msg => Clock_Receive now msg clk
  end.

Fixpoint clock_run (clk : Clock) (es : list clock_event)
    : Clock * list (res Timestamp) :=
  match es with
  | [] => (clk, [])
  | e :: es =>
      let '(clk', r) := clock_step clk e in
      let '(clk'', rs) := clock_run clk' es in
      (clk'', r :: rs)
  end.

(** ** The order on timestamps *)

(** The specification: lexicographic order on (wall time, logical counter). *)
Definition ts_lt (a b : Timestamp) : Prop :=
  WallTime a < WallTime b \/ (WallTime a = WallTime b /\ Logical a < Logical b).
Definition ts_le (a b : Timestamp) : Prop := a = b \/ ts_lt a b.

Lemma Timestamp_ext a b :
  WallTime a = WallTime b -> Logical a = Logical b -> a = b.
Proof. destruct a, b; simpl; congruence. Qed.

(** Case analysis of a comparison against the specification order. *)
Inductive Compare_view (a b : Timestamp) : Z -> Prop :=
| Compare_lt : ts_lt a b -> Compare_view a b (-1)
| Compare_eq : a = b -> Compare_view a b 0
| Compare_gt : ts_lt b a -> Compare_view a b 1.

Lemma CompareP a b : Compare_view a b (Compare a b).
Proof.
  unfold Compare; go_cases; constructor; unfold ts_lt; try lia.
  apply Timestamp_ext; lia.
Qed.

Lemma ts_le_alt a b :
  ts_le a b <-> WallTime a < WallTime b \/
    (WallTime a = WallTime b /\ Logical a <= Logical b).
Proof.
  unfold ts_le, ts_lt; split; [intros [->|]; lia|].
  intros [?|[? ?]]; [lia|].
  destruct (decide (Logical a = Logical b)); [left; by apply Timestamp_ext|lia].
Qed.

Ltac ts_order :=
  repeat match goal with
  | H : ts_le _ _ |- _ => rewrite ts_le_alt in H
  | |- ts_le _ _ => rewrite ts_le_alt
  end;
  unfold ts_lt in *; simpl in *; lia.

#[export] Instance ts_lt_strict : StrictOrder ts_lt.
Proof. split; [intros a Ha|intros a b d Hab Hbd]; ts_order. Qed.

#[export] Instance ts_le_total_order : TotalOrder ts_le.
Proof.
  split.
  - split; [split; [by left|intros a b d Hab Hbd; ts_order]|].
    intros a b Hab Hba; rewrite ts_le_alt in Hab, Hba; apply Timestamp_ext; lia.
  - intros a b. destruct (CompareP a b); unfold strict, ts_le; subst.
    + left; split; [by right|]. intros [->|Hba]; ts_order.
    + right; by left.
    + right; right; split; [by right|]. intros [->|Hba]; ts_order.
Qed.

Lemma ts_le_lt_trans a b d : ts_le a b -> ts_lt b d -> ts_lt a d.
Proof. intros; ts_order. Qed.
Lemma ts_lt_le_trans a b d : ts_lt a b -> ts_le b d -> ts_lt a d.
Proof. intros; ts_order. Qed.
Lemma ts_lt_le a b : ts_lt a b -> ts_le a b.
Proof. by right. Qed.
Lemma ts_lt_irrefl a : ~ ts_lt a a.
Proof. intros ?; ts_order. Qed.
Lemma ts_nlt_le a b : ~ ts_lt a b <-> ts_le b a.
Proof.
  split; [|intros ? ?; ts_order].
  intros Hn; destruct (CompareP a b); [done|subst; by left|by right].
Qed.

Lemma ts_nle_lt a b : ~ ts_le a b <-> ts_lt b a.
Proof.
  split; [|intros ? ?; ts_order].
  intros Hn; destruct (CompareP a b); [|subst|done]; exfalso; apply Hn;
    [by right|by left].
Qed.

Lemma Compare_le a b : (Compare a b <=? 0) = true <-> ts_le a b.
Proof.
  destruct (CompareP a b) as [H|H|H]; split; intros; try done.
  - by right.
  - by left.
  - exfalso; ts_order.
Qed.

Lemma AfterOrEqual_le t o : AfterOrEqual t o = true <-> ts_le o t.
Proof.
  unfold AfterOrEqual; destruct (CompareP t o) as [H|H|H]; split; intros; try done.
  - exfalso; ts_order.
  - subst; by left.
  - by right.
Qed.

#[export] Instance ts_le_dec a b : Decision (ts_le a b).
Proof.
  destruct (Compare a b <=? 0) eqn:E.
  - left; by apply Compare_le.
  - right; rewrite <- Compare_le; congruence.
Defined.

#[export] Hint Resolve ts_lt_le ts_le_lt_trans ts_lt_le_trans ts_lt_irrefl : go.
#[export] Hint Extern 1 (ts_le ?a ?a) => (left; reflexivity) : go.

(** ** Correctness of the clock *)

(** A clock the Go types and the code's own counter bound allow. *)
Record clock_wf (clk : Clock) : Prop := {
  wf_l : in_int64 (Clock_l clk);
  wf_c : 0 <= Clock_c clk <= maxLogical
}.

Definition ts_typed (t : Timestamp) : Prop :=
  in_int64 (WallTime t) /\ in_int32 (Logical t).

Definition event_typed (e : clock_event) : Prop :=
  match e with
  | EvSend now => in_int64 now
  | EvReceive now msg => in_int64 now /\ ts_typed msg
  end.

(** The wall-clock readings and message times an event brings in. *)
Definition event_walls (e : clock_event) : list Z :=
  match e with
  | EvSend now => [now]
  | EvReceive now msg => [WallTime msg; now]
  end.

Lemma max64_spec v0 vals :
  max64 v0 vals = foldr Z.max v0 vals.
Proof.
  unfold max64; revert v0; induction vals as [|v vals IH]; intros v0; simpl; [done|].
  rewrite IH; clear IH.
  assert (Hm : (if v0 <? v then v else v0) = Z.max v v0) by (go_cases; lia).
  rewrite Hm; clear Hm.
  induction vals as [|w vals IH]; simpl; [done|]. rewrite IH; lia.
Qed.

Lemma max64_2 a b : max64 a [b] = Z.max a b.
Proof. rewrite max64_spec; simpl; lia. Qed.
Lemma max64_3 a b d : max64 a [b; d] = Z.max a (Z.max b d).
Proof. rewrite max64_spec; simpl; lia. Qed.

Lemma max64_ge v0 vals v : v ∈ v0 :: vals -> v <= max64 v0 vals.
Proof.
  rewrite max64_spec, elem_of_cons. induction vals as [|w vals IH]; simpl.
  - intros [->|Hv]; [lia|]. by apply not_elem_of_nil in Hv.
  - rewrite elem_of_cons; intros [->|[->|Hv]];
      [specialize (IH (or_introl eq_refl)); lia|lia|].
    specialize (IH (or_intror Hv)); lia.
Qed.

Lemma max64_app v0 xs ys : max64 v0 (xs ++ ys) = max64 (max64 v0 xs) ys.
Proof. unfold max64. by rewrite foldl_app. Qed.

(** [int32 (x + 1)] is [x + 1] below the counter's guard. *)
Lemma int32_succ x : 0 <= x < maxLogical -> int32 (x + 1) = x + 1.
Proof.
  intros Hx; apply int32_small; unfold in_int32; unfold maxLogical in Hx; lia.
Qed.

(** The situation in which [Receive] does not move past the message: the
    message's wall time ties with the clock's, no later reading breaks the tie,
    and the message's counter is ahead of the clock's.  The first case of the
    source's switch then increments the clock's own counter and ignores the
    message's. *)
Definition tie_behind (clk : Clock) (now : Z) (msg : Timestamp) : bool :=
  (WallTime msg =? Clock_l clk) && (now <=? Clock_l clk)
  && (Clock_c clk <? Logical msg).

(** What one event does, whichever it is: on success the new clock is the
    timestamp returned, it is later than the old clock, its wall time is the
    largest of those seen, and it is later than the message exactly when the
    message does not tie with the clock and run ahead of it. *)
Record step_ok (clk : Clock) (e : clock_event) (clk' : Clock) (t : Timestamp)
    : Prop := {
  ok_now : t = Clock_Now clk';
  ok_later : ts_lt (Clock_Now clk) t;
  ok_wall : WallTime t = max64 (Clock_l clk) (event_walls e);
  ok_counter : 0 <= Logical t <= maxLogical;
  ok_msg : match e with
           | EvSend _ => True
           | EvReceive now msg => ts_lt msg t <-> tie_behind clk now msg = false
           end
}.

(** When an event fails. *)
Definition step_error (clk : Clock) (e : clock_event) : option string :=
  match e with
  | EvSend now =>
      if (now <=? Clock_l clk) && (maxLogical <=? Clock_c clk)
      then Some errOverflow else None
  | EvReceive now msg =>
      if Logical msg <? 0 then Some errInvalid
      else if (WallTime msg <=? Clock_l clk) && (now <=? Clock_l clk)
      then if maxLogical <=? Clock_c clk then Some errOverflow else None
      else if (Clock_l clk <? WallTime msg) && (now <=? WallTime msg)
      then if maxLogical <=? Logical msg then Some errOverflow else None
      else None
  end.

Ltac clock_arith :=
  unfold step_error, tie_behind, event_walls, ts_lt, errOverflow, errInvalid, Clock_Now in *;
  rewrite ?max64_2, ?max64_3 in *; simpl in *;
  rewrite ?int32_succ in * by lia; simpl in *;
  try congruence; try lia.

Lemma Clock_Send_view now clk :
  clock_wf clk ->
  match Clock_Send now clk with
  | (clk', Ok t) => step_ok clk (EvSend now) clk' t /\ step_error clk (EvSend now) = None
  | (clk', Err m) => clk' = clk /\ step_error clk (EvSend now) = Some m
  end.
Proof.
  intros [Hl Hc]; unfold Clock_Send; rewrite max64_2.
  repeat case_match; simplify_eq/=; bool_facts;
    (split; [first [done | split; clock_arith; try done] | clock_arith; go_cases; done || lia]).
Qed.

Lemma Clock_Receive_view now msg clk :
  clock_wf clk -> Logical msg <= maxLogical ->
  match Clock_Receive now msg clk with
  | (clk', Ok t) =>
      step_ok clk (EvReceive now msg) clk' t /\ step_error clk (EvReceive now msg) = None
  | (clk', Err m) => clk' = clk /\ step_error clk (EvReceive now msg) = Some m
  end.
Proof.
  intros [Hl Hc] Hm; unfold Clock_Receive; rewrite max64_3.
  repeat case_match; simplify_eq/=; bool_facts;
    (split; [first [done | split; clock_arith; try done] | clock_arith; go_cases; done || lia]).
Qed.

Lemma clock_step_view clk e :
  clock_wf clk -> event_typed e ->
  match clock_step clk e with
  | (clk', Ok t) => step_ok clk e clk' t /\ step_error clk e = None
  | (clk', Err m) => clk' = clk /\ step_error clk e = Some m
  end.
Proof.
  intros Hclk He; destruct e as [now|now msg]; simpl in *.
  - by apply Clock_Send_view.
  - apply Clock_Receive_view; [done|].
    destruct He as (_ & _ & ?); unfold in_int32 in *; unfold maxLogical; lia.
Qed.

Lemma clock_step_wf clk e clk' r :
  clock_wf clk -> event_typed e -> clock_step clk e = (clk', r) -> clock_wf clk'.
Proof.
  intros Hclk He Hs; pose proof (clock_step_view clk e Hclk He) as Hv.
  rewrite Hs in Hv; destruct r as [t|m]; [|by destruct Hv as [-> _]].
  destruct Hv as [[Hnow Hlater Hwall Hc _] _]; rewrite Hnow in *; simpl in *.
  destruct Hclk as [Hl _]; split; [|done]. rewrite Hwall.
  unfold in_int64 in *; destruct e as [now|now msg]; simpl in *;
    unfold ts_typed, in_int64 in *; rewrite ?max64_2, ?max64_3; lia.
Qed.

Lemma clock_step_mono clk e clk' r :
  clock_wf clk -> event_typed e -> clock_step clk e = (clk', r) ->
  ts_le (Clock_Now clk) (Clock_Now clk').
Proof.
  intros Hclk He Hs; pose proof (clock_step_view clk e Hclk He) as Hv.
  rewrite Hs in Hv; destruct r as [t|m].
  - destruct Hv as [[-> Hlater _ _ _] _]; by right.
  - destruct Hv as [-> _]; by left.
Qed.

Lemma clock_run_later clk es clk' rs :
  clock_wf clk -> Forall event_typed es -> clock_run clk es = (clk', rs) ->
  clock_wf clk' /\ ts_le (Clock_Now clk) (Clock_Now clk') /\
  Forall (fun t => ts_lt (Clock_Now clk) t /\ ts_le t (Clock_Now clk')) (oks rs).
Proof.
  intros Hclk Hes; revert clk clk' rs Hclk.
  induction Hes as [|e es He Hes IH]; intros clk clk' rs Hclk Hrun; simpl in Hrun.
  { simplify_eq; split; [done|]. split; [by left|constructor]. }
  destruct (clock_step clk e) as [clk1 r] eqn:Hs.
  destruct (clock_run clk1 es) as [clk2 rs2] eqn:Hr; simplify_eq.
  pose proof (clock_step_wf _ _ _ _ Hclk He Hs) as Hwf1.
  pose proof (clock_step_mono _ _ _ _ Hclk He Hs) as Hmono.
  destruct (IH _ _ _ Hwf1 Hr) as (Hwf2 & Hle & Hall).
  split; [done|]. split; [by etrans|].
  pose proof (clock_step_view clk e Hclk He) as Hv; rewrite Hs in Hv.
  assert (Hrest : Forall (fun t => ts_lt (Clock_Now clk) t /\ ts_le t (Clock_Now clk'))
                    (oks rs2)).
  { eapply Forall_impl; [exact Hall|]. intros t [Ht ?]; split; eauto with go. }
  destruct r as [t|m]; simpl; [|done].
  destruct Hv as [[-> Hlater _ _ _] _]; by constructor.
Qed.

(** ** Properties *)

(** [Compare] is a three-way comparison of a total order: it is the sign of
    the lexicographic order on wall time and logical counter, it returns 0 on
    equal timestamps only, swapping the arguments negates it, and being
    negative is transitive. *)
Theorem Compare_total_order a b d :
  (Compare a b = -1 <-> ts_lt a b) /\ (Compare a b = 0 <-> a = b) /\
  (Compare a b = 1 <-> ts_lt b a) /\ Compare b a = - Compare a b /\
  (Compare a b = -1 -> Compare b d = -1 -> Compare a d = -1).
Proof.
  destruct (CompareP a b) as [H|H|H], (CompareP b a) as [H'|H'|H'];
    destruct (CompareP b d), (CompareP a d); subst;
    repeat split; intros; subst; try done; exfalso; ts_order.
Qed.

Definition c_clk := MkClock 100 7.

Lemma c_clk_wf : clock_wf c_clk.
Proof. split; simpl; unfold in_int64, maxLogical; lia. Qed.

(** [Send] fails, with the clock unchanged, exactly when the counter is
    saturated and the wall clock has not moved past the clock; otherwise the
    timestamp is the new clock, strictly later than the old one, its wall time
    is the later of the two readings and its counter has not wrapped. *)
Theorem Clock_Send_correct now clk :
  clock_wf clk ->
  match Clock_Send now clk with
  | (clk', Ok t) =>
      (now <= Clock_l clk -> Clock_c clk < maxLogical) /\
      t = Clock_Now clk' /\ ts_lt (Clock_Now clk) t /\
      WallTime t = Z.max (Clock_l clk) now /\ 0 <= Logical t <= maxLogical
  | (clk', Err m) =>
      clk' = clk /\ m = errOverflow /\ now <= Clock_l clk /\ Clock_c clk = maxLogical
  end.
Proof.
  intros Hclk; pose proof (Clock_Send_view now clk Hclk) as Hv.
  destruct (Clock_Send now clk) as [clk' [t|m]]; destruct Hv as [Hv He];
    simpl in He; case_match eqn:Hb; simplify_eq.
  - destruct Hv as [? ? Hw ? _]; simpl in Hw; rewrite max64_2 in Hw.
    apply andb_false_iff in Hb; destruct Hb; bool_facts; repeat split; try done; lia.
  - bool_facts; destruct Hclk; repeat split; try done; lia.
Qed.

Lemma Clock_Send_correct_witness :
  Clock_Send 50 c_clk = (MkClock 100 8, Ok (MkTimestamp 100 8)) /\
  ts_lt (Clock_Now c_clk) (MkTimestamp 100 8).
Proof.
  split; [reflexivity|].
  exact (proj1 (proj2 (proj2 (Clock_Send_correct 50 c_clk c_clk_wf)))).
Defined.

(** C13: [Receive] fails, with the clock unchanged, exactly on a negative
    counter or on the overflow [step_error] spells out; otherwise the clock
    moves strictly forward, to the largest wall time seen, without wrapping,
    and past the message exactly when [tie_behind] is false. *)
Theorem Clock_Receive_correct now msg clk :
  clock_wf clk -> Logical msg <= maxLogical ->
  match Clock_Receive now msg clk with
  | (clk', Ok t) =>
      step_error clk (EvReceive now msg) = None /\
      t = Clock_Now clk' /\ ts_lt (Clock_Now clk) t /\
      WallTime t = Z.max (Clock_l clk) (Z.max (WallTime msg) now) /\
      0 <= Logical t <= maxLogical /\
      (ts_lt msg t <-> tie_behind clk now msg = false)
  | (clk', Err m) => clk' = clk /\ step_error clk (EvReceive now msg) = Some m
  end.
Proof.
  intros Hclk Hm; pose proof (Clock_Receive_view now msg clk Hclk Hm) as Hv.
  destruct (Clock_Receive now msg clk) as [clk' [t|m]]; destruct Hv as [Hv He]; [|done].
  destruct Hv as [? ? Hw ? ?]; simpl in Hw; rewrite max64_3 in Hw; done.
Qed.

Lemma Clock_Receive_correct_witness :
  Clock_Receive 50 (MkTimestamp 200 4) c_clk =
    (MkClock 200 5, Ok (MkTimestamp 200 5)) /\
  ts_lt (Clock_Now c_clk) (MkTimestamp 200 5).
Proof.
  split; [reflexivity|].
  exact (proj1 (proj2 (proj2 (Clock_Receive_correct 50 (MkTimestamp 200 4) c_clk c_clk_wf
    ltac:(vm_compute; discriminate))))).
Defined.

(** A defect of [Receive]: a message whose wall time ties with the clock
    (and no later reading) and whose counter is ahead is accepted, and the
    clock it leaves is not later than the message, so the next local timestamp
    need not be later than what the node has received. *)
Theorem Clock_Receive_tie_defect now msg clk :
  clock_wf clk -> tie_behind clk now msg = true -> Clock_c clk < maxLogical ->
  exists clk' t, Clock_Receive now msg clk = (clk', Ok t) /\
    ts_le t msg /\ ts_le (Clock_Now clk') msg.
Proof.
  unfold tie_behind; intros [Hl Hc] Ht Hmax; bool_facts.
  unfold Clock_Receive; rewrite max64_3.
  destruct (Z.ltb_spec (Logical msg) 0); [lia|].
  destruct (Z.eqb_spec (Clock_l clk `max` (WallTime msg `max` now)) (Clock_l clk)); [|lia].
  destruct (Z.leb_spec maxLogical (Clock_c clk)); [lia|].
  eexists _, _; split; [reflexivity|].
  rewrite !ts_le_alt; simpl; rewrite int32_succ by lia; lia.
Qed.

Lemma Clock_Receive_tie_defect_witness :
  exists clk' t, Clock_Receive 90 (MkTimestamp 100 40) c_clk = (clk', Ok t) /\
    ts_le t (MkTimestamp 100 40) /\ ts_le (Clock_Now clk') (MkTimestamp 100 40).
Proof.
  apply (Clock_Receive_tie_defect 90 (MkTimestamp 100 40) c_clk c_clk_wf);
    [reflexivity|unfold maxLogical; simpl; lia].
Defined.

(** C12: over any run of a clock, with failed events in it or not, the
    timestamps handed out are strictly increasing in the order of issue (so no
    two of them are equal), all later than the clock at the start and none
    later than the clock at the end, and the counter stays within [0,
    maxLogical]. *)
Theorem clock_run_increasing clk es clk' rs :
  clock_wf clk -> Forall event_typed es -> clock_run clk es = (clk', rs) ->
  StronglySorted ts_lt (Clock_Now clk :: oks rs) /\
  Forall (fun t => ts_le t (Clock_Now clk')) (oks rs) /\ clock_wf clk'.
Proof.
  intros Hclk Hes; revert clk clk' rs Hclk.
  induction Hes as [|e es He Hes IH]; intros clk clk' rs Hclk Hrun.
  { simpl in Hrun; simplify_eq; repeat constructor; apply Hclk. }
  pose proof (clock_run_later clk (e :: es) clk' rs Hclk ltac:(by constructor) Hrun)
    as (Hwf & _ & Hall).
  split; [|split; [|done]]; [|eapply Forall_impl; [exact Hall|]; by intros t [_ ?]].
  constructor; [|eapply Forall_impl; [exact Hall|]; by intros t [? _]].
  simpl in Hrun; destruct (clock_step clk e) as [clk1 r] eqn:Hs.
  destruct (clock_run clk1 es) as [clk2 rs2] eqn:Hr; simplify_eq.
  pose proof (clock_step_wf _ _ _ _ Hclk He Hs) as Hwf1.
  destruct (IH _ _ _ Hwf1 Hr) as (Hsorted & _ & _).
  pose proof (clock_step_view clk e Hclk He) as Hv; rewrite Hs in Hv.
  destruct r as [t|m]; simpl; [|by inversion Hsorted].
  destruct Hv as [[-> _ _ _ _] _]; done.
Qed.

Lemma clock_run_increasing_witness :
  let run := clock_run c_clk [EvSend 50; EvReceive 60 (MkTimestamp 200 4);
                              EvReceive 60 (MkTimestamp 1 (-1)); EvSend 300] in
  oks (snd run) = [MkTimestamp 100 8; MkTimestamp 200 5; MkTimestamp 300 0] /\
  StronglySorted ts_lt (Clock_Now c_clk :: oks (snd run)).
Proof.
  split; [reflexivity|].
  refine (proj1 (clock_run_increasing c_clk _ _ _ c_clk_wf _ (surjective_pairing _))).
  repeat constructor; vm_compute; try discriminate.
Defined.

(** The counter grows by at most one per event beyond the counters received. *)
Lemma clock_step_counter clk e clk' r M :
  clock_wf clk -> event_typed e -> clock_step clk e = (clk', r) ->
  Clock_c clk <= M ->
  match e with EvSend _ => True | EvReceive _ msg => 0 <= Logical msg <= M end ->
  M < maxLogical -> is_ok r = true /\ Clock_c clk' <= M + 1.
Proof.
  intros [Hl Hc] He Hs HM Hmsg Hmax; destruct e as [now|now msg]; simpl in *;
    unfold Clock_Send, Clock_Receive in Hs;
    repeat case_match; simplify_eq/=; bool_facts; try lia;
    rewrite ?int32_succ by lia; split; done || lia.
Qed.

(** No overflow in practice: if the clock's counter and the counters of all
    messages received are at most [M], then the first [maxLogical - M] events
    all succeed, whatever the wall clock does (it may stand still or run
    backwards). *)
Theorem clock_run_no_overflow clk es M :
  clock_wf clk -> Forall event_typed es -> Clock_c clk <= M ->
  Forall (fun e => match e with
                   | EvSend _ => True
                   | EvReceive _ msg => 0 <= Logical msg <= M
                   end) es ->
  M + Z.of_nat (length es) <= maxLogical ->
  Forall (fun r => is_ok r = true) (snd (clock_run clk es)).
Proof.
  intros Hclk Hes; revert clk M Hclk.
  induction Hes as [|e es He Hes IH]; intros clk M Hclk Hc Hb Hlen; simpl; [constructor|].
  destruct (clock_step clk e) as [clk1 r] eqn:Hs.
  destruct (clock_run clk1 es) as [clk2 rs] eqn:Hr; simpl.
  apply Forall_cons in Hb as [Hb Hbs]; simpl in Hlen.
  destruct (clock_step_counter clk e clk1 r M) as [Hok Hc1]; try done; [lia|].
  constructor; [done|].
  specialize (IH clk1 (M + 1)); rewrite Hr in IH; apply IH; try lia.
  - by eapply clock_step_wf.
  - eapply Forall_impl; [exact Hbs|]; intros [] ?; simpl in *; lia.
Qed.

Lemma clock_run_no_overflow_witness :
  Forall (fun r => is_ok r = true)
    (snd (clock_run c_clk [EvSend 50; EvReceive 60 (MkTimestamp 200 4); EvSend 10])).
Proof.
  apply (clock_run_no_overflow c_clk _ 7 c_clk_wf);
    repeat constructor; vm_compute; try discriminate; try lia.
Defined.
