(* ===== verification/Store.v ===== *)
(** * The versioned store ([src/internal/store/store.go])

    A map from keys to values with a timestamp, causal dependencies and a
    tombstone flag.  Each method runs under the store's read-write mutex, so it
    is one atomic transformer of the map; [*store.Store] is the map itself,
    threaded through the operations that share the pointer. *)

From S2P Require Import Prelude Hlc.

(** ** Data *)

#[export] Instance byte_eq_dec : EqDecision byte := Byte.byte_eq_dec.

Record Dependency := MkDependency {
  Dependency_Key : string;
  Dependency_MinTS : Timestamp
}.

#[export] Instance Dependency_eq_dec : EqDecision Dependency.
Proof. solve_decision. Defined.

(** A nil and an empty [Data] or [Deps] slice are the same list: the source
    only takes their length and elements. *)
Record Value := MkValue {
  Value_Data : list byte;
  Value_Timestamp : Timestamp;
  Value_Deps : list Dependency;
  Value_Deleted : bool
}.

#[export] Instance Value_eq_dec : EqDecision Value.
Proof. solve_decision. Defined.

Definition zeroValue : Value := MkValue [] zeroTimestamp [] false.

(** [Value{Timestamp: ts, Deleted: true}], what a deletion stores. *)
Definition tombstone (ts : Timestamp) : Value := MkValue [] ts [] true.

Abbreviation Store := (gmap string Value).

(** ** Operations *)

Definition store_New : Store := ∅.

Definition Store_Put (key : string) (val : Value) (s : Store) : Store :=
  <[key:=val]> s.

Definition Store_Apply (key : string) (val : Value) (s : Store) : Store * bool :=
  match s !! key with
  | Some cur =>
      if (Compare (Value_Timestamp val) (Value_Timestamp cur) <=? 0)%Z
      then (s, false)
      else (<[key:=val]> s, true)
  | None => (<[key:=val]> s, true)
  end.

Definition Store_Get (key : string) (s : Store) : Value * bool :=
  match s !! key with
  | None => (zeroValue, false)
  | Some val => if Value_Deleted val then (zeroValue, false) else (val, true)
  end.

Definition Store_GetVersion (key : string) (s : Store) : Timestamp * bool :=
  match s !! key with
  | None => (zeroTimestamp, false)
  | Some val => (Value_Timestamp val, true)
  end.

Definition Store_Delete (key : string) (ts : Timestamp) (s : Store) : Store :=
  <[key:=tombstone ts]> s.

Definition Store_ApplyDelete (key : string) (ts : Timestamp) (s : Store)
    : Store * bool :=
  let val := tombstone ts in
  match s !! key with
  | Some cur =>
      if (Compare ts (Value_Timestamp cur) <=? 0)%Z
      then (s, false)
      else (<[key:=val]> s, true)
  | None => (<[key:=val]> s, true)
  end.

(** ** Specification: a map of last-writer-wins registers

    A register keeps the value with the latest timestamp; the one already there
    wins a tie. *)

Definition lww (cur : option Value) (val : Value) : option Value :=
  match cur with
  | Some v => if decide (ts_le (Value_Timestamp val) (Value_Timestamp v))
              then Some v else Some val
  | None => Some val
  end.

(** A replicated write: what a peer is asked to apply. *)
Record write := MkWrite { write_key : string; write_val : Value }.

#[export] Instance write_eq_dec : EqDecision write.
Proof. solve_decision. Defined.

Definition write_ts (w : write) : Timestamp := Value_Timestamp (write_val w).

(** The value a write leaves in the store: a deletion leaves a bare tombstone. *)
Definition write_stored (w : write) : Value :=
  if Value_Deleted (write_val w) then tombstone (write_ts w) else write_val w.

Definition apply_write (s : Store) (w : write) : Store :=
  fst (if Value_Deleted (write_val w)
       then Store_ApplyDelete (write_key w) (write_ts w) s
       else Store_Apply (write_key w) (write_val w) s).

Definition apply_writes (s : Store) (ws : list write) : Store :=
  foldl apply_write s ws.

(** The version of a key: its timestamp, zero when the key is absent. *)
Definition version (s : Store) (key : string) : Timestamp :=
  fst (Store_GetVersion key s).

(** One store has seen at least as much as another. *)
Definition store_le (s s' : Store) : Prop :=
  forall key v, s !! key = Some v ->
    exists v', s' !! key = Some v' /\
      ts_le (Value_Timestamp v) (Value_Timestamp v').

(** ** Lemmas *)

Lemma write_stored_ts w : Value_Timestamp (write_stored w) = write_ts w.
Proof. unfold write_stored; by destruct (Value_Deleted _). Qed.

Lemma Store_Apply_spec key val s :
  fst (Store_Apply key val s) = <[key := default val (lww (s !! key) val)]> s.
Proof.
  unfold Store_Apply, lww; destruct (s !! key) as [cur|] eqn:Hk; simpl; [|done].
  destruct (Compare _ _ <=? 0)%Z eqn:Hc; case_decide as Hd; simpl; try done.
  - by rewrite insert_id.
  - by apply Compare_le in Hc.
  - apply Compare_le in Hd; congruence.
Qed.

Lemma Store_Apply_accepted key val s :
  snd (Store_Apply key val s) = true <->
  (forall cur, s !! key = Some cur ->
     ts_lt (Value_Timestamp cur) (Value_Timestamp val)).
Proof.
  unfold Store_Apply; destruct (s !! key) as [cur|] eqn:Hk; simpl; [|naive_solver].
  destruct (Compare _ _ <=? 0)%Z eqn:Hc; simpl; split; intros H; try done.
  - apply Compare_le in Hc; specialize (H _ eq_refl); exfalso; ts_order.
  - intros cur' [= <-]. destruct (CompareP (Value_Timestamp val) (Value_Timestamp cur)); done.
Qed.

Lemma Store_ApplyDelete_Apply key ts s :
  Store_ApplyDelete key ts s = Store_Apply key (tombstone ts) s.
Proof. done. Qed.

Lemma apply_write_spec s w :
  apply_write s w =
  <[write_key w := default (write_stored w) (lww (s !! write_key w) (write_stored w))]> s.
Proof.
  unfold apply_write, write_stored; destruct (Value_Deleted _);
    rewrite ?Store_ApplyDelete_Apply; apply Store_Apply_spec.
Qed.

Lemma apply_write_lookup s w key :
  apply_write s w !! key =
  if decide (write_key w = key) then lww (s !! key) (write_stored w) else s !! key.
Proof.
  rewrite apply_write_spec, lookup_insert; case_decide; subst; [|done].
  unfold lww; destruct (s !! write_key w); [by case_decide|done].
Qed.

Lemma apply_writes_app s ws ws' :
  apply_writes s (ws ++ ws') = apply_writes (apply_writes s ws) ws'.
Proof. apply foldl_app. Qed.

Lemma apply_writes_snoc s ws w :
  apply_writes s (ws ++ [w]) = apply_write (apply_writes s ws) w.
Proof. by rewrite apply_writes_app. Qed.

Lemma lww_ge cur val :
  exists v, lww cur val = Some v /\
    ts_le (Value_Timestamp val) (Value_Timestamp v) /\
    (forall v0, cur = Some v0 -> ts_le (Value_Timestamp v0) (Value_Timestamp v)).
Proof.
  unfold lww; destruct cur as [v0|]; [case_decide as Hd|].
  - exists v0; split_and!; [done..|]. intros ? [= ->]; by left.
  - exists val; split_and!; [done|by left|].
    intros ? [= ->]. apply ts_nle_lt in Hd; by right.
  - exists val; split_and!; [done|by left|done].
Qed.

Lemma lww_later cur val :
  (forall v, cur = Some v -> ts_lt (Value_Timestamp v) (Value_Timestamp val)) ->
  lww cur val = Some val.
Proof.
  unfold lww; destruct cur as [v|]; [|done]; intros Hlt.
  rewrite decide_False; [done|by apply ts_nle_lt, Hlt].
Qed.

Lemma lww_kept v val :
  ts_le (Value_Timestamp val) (Value_Timestamp v) -> lww (Some v) val = Some v.
Proof. unfold lww; intros; by rewrite decide_True. Qed.

Lemma lww_from cur val v : lww cur val = Some v -> cur = Some v \/ v = val.
Proof. unfold lww; destruct cur; [case_decide|]; intros [= <-]; auto. Qed.

#[export] Instance store_le_preorder : PreOrder store_le.
Proof.
  split.
  - intros s key v Hv; exists v; split; [done|by left].
  - intros s1 s2 s3 H12 H23 key v Hv.
    destruct (H12 _ _ Hv) as (v2 & Hv2 & ?), (H23 _ _ Hv2) as (v3 & ? & ?).
    exists v3; split; [done|by etrans].
Qed.

Lemma apply_write_le s w : store_le s (apply_write s w).
Proof.
  intros key v Hv; rewrite apply_write_lookup; case_decide; subst; [|by eauto with go].
  destruct (lww_ge (s !! write_key w) (write_stored w)) as (v' & -> & _ & H); eauto.
Qed.

Lemma apply_writes_le s ws : store_le s (apply_writes s ws).
Proof.
  revert s; induction ws as [|w ws IH]; intros s; simpl; [done|].
  etrans; [apply apply_write_le|apply IH].
Qed.

Lemma Store_Put_le key val s :
  (forall cur, s !! key = Some cur ->
     ts_le (Value_Timestamp cur) (Value_Timestamp val)) ->
  store_le s (Store_Put key val s).
Proof.
  intros Hts k v Hv; unfold Store_Put; rewrite lookup_insert; case_decide; subst.
  - exists val; auto.
  - by eauto with go.
Qed.

(** Where a stored value comes from. *)
Lemma apply_writes_from s ws key v :
  apply_writes s ws !! key = Some v ->
  s !! key = Some v \/ exists w, w ∈ ws /\ write_key w = key /\ v = write_stored w.
Proof.
  induction ws as [|w ws IH] using rev_ind; [by left|].
  rewrite apply_writes_snoc, apply_write_lookup; case_decide as Hk.
  - intros [Hv| ->]%lww_from.
    + destruct (IH Hv) as [?|(w' & ? & ?)]; [by left|right; exists w'].
      by rewrite elem_of_snoc; auto.
    + right; exists w; by rewrite elem_of_snoc; auto.
  - intros Hv; destruct (IH Hv) as [?|(w' & ? & ?)]; [by left|right; exists w'].
    by rewrite elem_of_snoc; auto.
Qed.

(** A write no newer than its key's version changes nothing. *)
Lemma apply_write_old s w v :
  s !! write_key w = Some v -> ts_le (write_ts w) (Value_Timestamp v) ->
  apply_write s w = s.
Proof.
  intros Hv Hle; rewrite apply_write_spec, Hv; unfold lww.
  rewrite write_stored_ts, decide_True by done; by apply insert_id.
Qed.

#[export] Hint Resolve apply_write_le apply_writes_le : go.

(** What a sequence of applied writes leaves under a key: nothing if no write
    names the key, else the stored form of a latest write to it. *)
Lemma apply_writes_lookup ws key :
  match apply_writes ∅ ws !! key with
  | None => forall w, w ∈ ws -> write_key w <> key
  | Some v => exists w, w ∈ ws /\ write_key w = key /\ v = write_stored w /\
      forall w', w' ∈ ws -> write_key w' = key -> ts_le (write_ts w') (write_ts w)
  end.
Proof.
  induction ws as [|w ws IH] using rev_ind.
  { simpl; rewrite lookup_empty; intros w Hw; by apply not_elem_of_nil in Hw. }
  rewrite apply_writes_snoc, apply_write_lookup; case_decide as Hk.
  - destruct (apply_writes ∅ ws !! key) as [v|] eqn:Hv; unfold lww.
    + destruct IH as (w0 & Hin & Hkey & -> & Hmax).
      case_decide as Hd; rewrite !write_stored_ts in Hd.
      * exists w0; rewrite elem_of_snoc; split_and!; auto.
        intros w' [?| ->]%elem_of_snoc Hk'; auto.
      * exists w; rewrite elem_of_snoc; split_and!; auto.
        apply ts_nle_lt in Hd.
        intros w' [Hw'| ->]%elem_of_snoc Hk'; [|by left].
        specialize (Hmax _ Hw' Hk'); right; eauto with go.
    + exists w; rewrite elem_of_snoc; split_and!; auto.
      intros w' [Hw'| ->]%elem_of_snoc Hk'; [|by left]. exfalso; by eapply IH.
  - destruct (apply_writes ∅ ws !! key) as [v|].
    + destruct IH as (w0 & Hin & Hkey & -> & Hmax); exists w0.
      rewrite elem_of_snoc; split_and!; auto.
      intros w' [?| ->]%elem_of_snoc Hk'; [auto|done].
    + intros w' [?| ->]%elem_of_snoc; auto.
Qed.

(** No two writes to one key share a timestamp and differ in what they store. *)
Definition ts_distinct (ws : list write) : Prop :=
  Forall (fun w => Forall (fun w' =>
    (write_key w, write_ts w) = (write_key w', write_ts w') ->
    write_stored w = write_stored w') ws) ws.

#[export] Instance ts_distinct_dec ws : Decision (ts_distinct ws).
Proof. unfold ts_distinct; apply _. Defined.

Lemma ts_distinct_eq ws w w' :
  ts_distinct ws -> w ∈ ws -> w' ∈ ws -> write_key w = write_key w' ->
  write_ts w = write_ts w' -> write_stored w = write_stored w'.
Proof.
  unfold ts_distinct; rewrite Forall_forall; intros H Hw Hw' ? ?.
  specialize (H w Hw); rewrite Forall_forall in H; apply H; congruence.
Qed.

Lemma apply_writes_version ws w :
  w ∈ ws -> exists v, apply_writes ∅ ws !! write_key w = Some v /\
    ts_le (write_ts w) (Value_Timestamp v).
Proof.
  intros Hw; pose proof (apply_writes_lookup ws (write_key w)) as H.
  destruct (_ !! _) as [v|]; [|by destruct (H w Hw)].
  destruct H as (w0 & _ & _ & -> & Hmax); eexists; split; [done|].
  rewrite write_stored_ts; auto.
Qed.

Lemma apply_writes_set_eq ws1 ws2 :
  (forall w, w ∈ ws1 <-> w ∈ ws2) -> ts_distinct ws1 ->
  apply_writes ∅ ws1 = apply_writes ∅ ws2.
Proof.
  intros Hset Hd; apply map_eq; intros key.
  pose proof (apply_writes_lookup ws1 key) as H1.
  pose proof (apply_writes_lookup ws2 key) as H2.
  destruct (apply_writes ∅ ws1 !! key) as [v1|], (apply_writes ∅ ws2 !! key) as [v2|].
  - destruct H1 as (w1 & Hin1 & Hk1 & -> & Hm1), H2 as (w2 & Hin2 & Hk2 & -> & Hm2).
    f_equal; apply (ts_distinct_eq ws1); [done|done|by apply Hset|congruence|].
    apply (anti_symm ts_le); [apply Hm2|apply Hm1]; try done; by apply Hset.
  - destruct H1 as (w1 & Hin1 & Hk1 & _); by destruct (H2 w1 (proj1 (Hset _) Hin1)).
  - destruct H2 as (w2 & Hin2 & Hk2 & _); by destruct (H1 w2 (proj2 (Hset _) Hin2)).
  - done.
Qed.

(** ** Properties *)

(** C9: a replicated write implements a last-writer-wins register: [Apply]
    accepts a write exactly when it is strictly newer than the version of its
    key (a missing key has none), keeps the store unchanged otherwise, never
    touches another key, and leaves at the key the join of the old register and
    the new value. *)
Theorem Store_Apply_refines_lww key val s s' ok :
  Store_Apply key val s = (s', ok) ->
  (ok = true <-> forall cur, s !! key = Some cur ->
     ts_lt (Value_Timestamp cur) (Value_Timestamp val)) /\
  (ok = false -> s' = s) /\
  s' !! key = lww (s !! key) val /\
  (forall key', key' <> key -> s' !! key' = s !! key').
Proof.
  intros H; pose proof (Store_Apply_accepted key val s) as Ha.
  pose proof (Store_Apply_spec key val s) as Hs; rewrite H in Ha, Hs; simpl in *.
  split_and!; [done| | |].
  - intros ->. unfold Store_Apply in H; repeat case_match; by simplify_eq.
  - rewrite Hs, lookup_insert_eq.
    destruct (lww_ge (s !! key) val) as (v & -> & _); done.
  - intros key' Hne; rewrite Hs; by rewrite lookup_insert_ne.
Qed.

Definition c_val (wall : Z) (b : byte) : Value :=
  MkValue [b] (MkTimestamp wall 0) [] false.

Lemma Store_Apply_refines_lww_witness :
  let s := Store_Put "k" (c_val 10 x61) store_New in
  Store_Apply "k" (c_val 20 x62) s = (<["k" := c_val 20 x62]> s, true) /\
  (<["k" := c_val 20 x62]> s) !! "k" = lww (s !! "k") (c_val 20 x62).
Proof.
  split; [reflexivity|].
  exact (proj1 (proj2 (proj2 (Store_Apply_refines_lww "k" (c_val 20 x62)
    (Store_Put "k" (c_val 10 x61) store_New) _ true eq_refl)))).
Defined.

(** C8: replicas converge: two stores that have applied the same set of
    replicated writes, each in its own order and with any repetitions, are
    equal, provided no two different writes to one key carry the same
    timestamp. *)
Theorem replicas_converge ws1 ws2 :
  (forall w, w ∈ ws1 <-> w ∈ ws2) -> ts_distinct ws1 ->
  apply_writes store_New ws1 = apply_writes store_New ws2.
Proof. apply apply_writes_set_eq. Qed.

Definition c_w (key : string) (wall : Z) (b : byte) : write :=
  MkWrite key (c_val wall b).

Lemma replicas_converge_witness :
  apply_writes store_New [c_w "k" 1 x61; c_w "k" 2 x62; c_w "j" 3 x63] =
  apply_writes store_New [c_w "j" 3 x63; c_w "k" 2 x62; c_w "k" 1 x61; c_w "k" 2 x62].
Proof.
  apply (replicas_converge [c_w "k" 1 x61; c_w "k" 2 x62; c_w "j" 3 x63]).
  - intros w; rewrite !elem_of_cons; tauto.
  - apply (bool_decide_unpack _); vm_compute; exact I.
Defined.

(** Timestamps carry no node identity, and a tie is kept by whoever came
    first: two different writes to one key with the same timestamp leave two
    replicas that apply them in opposite orders different for good. *)
Theorem timestamp_tie_diverges key v1 v2 :
  let w1 := MkWrite key v1 in let w2 := MkWrite key v2 in
  Value_Timestamp v1 = Value_Timestamp v2 -> write_stored w1 <> write_stored w2 ->
  let s1 := apply_writes store_New [w1; w2] in
  let s2 := apply_writes store_New [w2; w1] in
  s1 !! key = Some (write_stored w1) /\ s2 !! key = Some (write_stored w2) /\
  apply_writes s1 [w2; w1] = s1 /\ apply_writes s2 [w1; w2] = s2.
Proof.
  intros w1 w2 Hts Hne s1 s2; subst s1 s2; simpl.
  assert (H1 : apply_write store_New w1 !! key = Some (write_stored w1))
    by (rewrite apply_write_lookup, decide_True by done; done).
  assert (H2 : apply_write store_New w2 !! key = Some (write_stored w2))
    by (rewrite apply_write_lookup, decide_True by done; done).
  assert (Hle : forall a b, a ∈ [w1; w2] -> b ∈ [w1; w2] ->
                  ts_le (write_ts a) (Value_Timestamp (write_stored b))).
  { intros a b; rewrite write_stored_ts, !elem_of_cons.
    intros [->|[->|[]%not_elem_of_nil]] [->|[->|[]%not_elem_of_nil]];
      left; unfold write_ts; simpl; congruence. }
  rewrite !(apply_write_old _ w2 _ H1), !(apply_write_old _ w1 _ H1),
    !(apply_write_old _ w1 _ H2), !(apply_write_old _ w2 _ H2);
    try done; apply Hle; set_solver.
Qed.

Lemma timestamp_tie_diverges_witness :
  let s1 := apply_writes store_New [c_w "k" 5 x61; c_w "k" 5 x62] in
  let s2 := apply_writes store_New [c_w "k" 5 x62; c_w "k" 5 x61] in
  Store_Get "k" s1 = (c_val 5 x61, true) /\ Store_Get "k" s2 = (c_val 5 x62, true) /\
  s1 !! "k" = Some (c_val 5 x61).
Proof.
  split; [reflexivity|]. split; [reflexivity|].
  exact (proj1 (timestamp_tie_diverges "k" (c_val 5 x61) (c_val 5 x62) eq_refl
    ltac:(vm_compute; discriminate))).
Defined.
