(* ===== verification/Buffer.v ===== *)
(** * The causal delivery buffer ([src/internal/buffer/buffer.go])

    A replicated write is applied at once when its dependencies are satisfied by
    the store and held back otherwise; after each write applied the held ones
    are swept until a sweep applies none.  [Receive] runs under the buffer's
    mutex.  The buffer's [store] pointer is the node's store, which is threaded
    through the operations next to the buffer's own field.

    The sweep of the source compacts the held writes in place: [remaining]
    starts as [b.held[:0]] and shares its backing array with the slice being
    ranged over.  [drain_pass] models that array; [sweep] is the sweep as a
    function on lists, and the two are proved equal. *)

From S2P Require Import Prelude Hlc Store.

(** ** Definitions *)

Record Buffer := MkBuffer { Buffer_held : list write }.

Definition buffer_New : Buffer := MkBuffer [].

Fixpoint depsSatisfied (st : Store) (deps : list Dependency) : bool :=
  match deps with
  | [] => true
  | dep :: deps =>
      let '(ts, ok) := Store_GetVersion (Dependency_Key dep) st in
      let ts := if negb ok then zeroTimestamp else ts in
      if negb (AfterOrEqual ts (Dependency_MinTS dep)) then false
      else depsSatisfied st deps
  end.

Definition write_deps (w : write) : list Dependency := Value_Deps (write_val w).

Definition applyLocked (key : string) (val : Value) (st : Store) : Store :=
  if Value_Deleted val then fst (Store_ApplyDelete key (Value_Timestamp val) st)
  else fst (Store_Apply key val st).

(** The state of one sweep: the store, the array behind [b.held] and
    [remaining], the length of [remaining], and [progressed]. *)
Record pass := MkPass {
  pass_store : Store;
  pass_arr : list write;
  pass_len : nat;
  pass_progressed : bool
}.

(** The body of the inner loop at index [i]: [p] is read from the array as it is
    now, and [append(remaining, p)] writes it at index [len(remaining)]. *)
Definition drain_body (ps : pass) (i : nat) : pass :=
  match pass_arr ps !! i with
  | None => ps
  | Some p =>
      if depsSatisfied (pass_store ps) (write_deps p)
      then MkPass (applyLocked (write_key p) (write_val p) (pass_store ps))
             (pass_arr ps) (pass_len ps) true
      else MkPass (pass_store ps) (<[pass_len ps := p]> (pass_arr ps))
             (S (pass_len ps)) (pass_progressed ps)
  end.

Definition drain_pass (st : Store) (held : list write) : Store * list write * bool :=
  let ps := foldl drain_body (MkPass st held 0 false) (seq 0 (length held)) in
  (pass_store ps, take (pass_len ps) (pass_arr ps), pass_progressed ps).

#[global] Arguments drain_pass : simpl never.

(** The outer loop, [None] when [fuel] sweeps all made progress. *)
Fixpoint drain_loop (fuel : nat) (st : Store) (held : list write)
    : option (Store * list write) :=
  match fuel with
  | O => None
  | S fuel =>
      let '(st', remaining, progressed) := drain_pass st held in
      if progressed then drain_loop fuel st' remaining else Some (st', remaining)
  end.

(** One sweep more than there are held writes is enough ([drain_loop_total]). *)
Definition drainLocked (st : Store) (held : list write) : Store * list write :=
  default (st, held) (drain_loop (S (length held)) st held).

#[global] Arguments drainLocked : simpl never.

Definition Buffer_Receive (key : string) (val : Value) (st : Store) (b : Buffer)
    : Store * Buffer * bool :=
  if depsSatisfied st (Value_Deps val) then
    let st' := applyLocked key val st in
    let '(st'', held) := drainLocked st' (Buffer_held b) in
    (st'', MkBuffer held, true)
  else (st, MkBuffer (Buffer_held b ++ [MkWrite key val]), false).

Definition Buffer_Len (b : Buffer) : nat := length (Buffer_held b).

(** ** Specification *)

(** The sweep on lists. *)
Definition sweep_step (acc : Store * list write * bool) (p : write)
    : Store * list write * bool :=
  let '(st, remaining, progressed) := acc in
  if depsSatisfied st (write_deps p)
  then (apply_write st p, remaining, true)
  else (st, remaining ++ [p], progressed).

Definition sweep (st : Store) (held : list write) : Store * list write * bool :=
  foldl sweep_step (st, [], false) held.

(** Writes applied one after the other, each with its dependencies satisfied by
    the store it is applied to. *)
Inductive causal_run : Store -> list write -> Store -> Prop :=
| causal_nil st : causal_run st [] st
| causal_cons st w ws st' :
    depsSatisfied st (write_deps w) = true ->
    causal_run (apply_write st w) ws st' ->
    causal_run st (w :: ws) st'.

(** No held write could be applied. *)
Definition blocked (st : Store) (held : list write) : Prop :=
  Forall (fun w => depsSatisfied st (write_deps w) = false) held.

(** Every value in the store has its dependencies in the store. *)
Definition causally_closed (st : Store) : Prop :=
  forall key v, st !! key = Some v -> depsSatisfied st (Value_Deps v) = true.

(** No timestamp before the epoch. *)
Definition store_nonneg (st : Store) : Prop :=
  forall key v, st !! key = Some v -> ts_le zeroTimestamp (Value_Timestamp v).

Definition write_nonneg (w : write) : Prop := ts_le zeroTimestamp (write_ts w).

(** ** Dependencies and versions *)

Lemma depsSatisfied_spec st deps :
  depsSatisfied st deps = true <->
  Forall (fun d => ts_le (Dependency_MinTS d) (version st (Dependency_Key d))) deps.
Proof.
  induction deps as [|d deps IH]; simpl; [split; auto|].
  rewrite Forall_cons, <- IH, <- AfterOrEqual_le.
  unfold version, Store_GetVersion.
  destruct (st !! Dependency_Key d); simpl;
    destruct (AfterOrEqual _ _); simpl; intuition congruence.
Qed.

Lemma version_mono st st' key :
  store_le st st' -> store_nonneg st' -> ts_le (version st key) (version st' key).
Proof.
  unfold version, Store_GetVersion; intros Hle Hpos.
  destruct (st !! key) as [v|] eqn:Hv; simpl.
  - destruct (Hle _ _ Hv) as (v' & -> & ?); done.
  - destruct (st' !! key) as [v'|] eqn:Hv'; simpl; [by eapply Hpos|by left].
Qed.

Lemma depsSatisfied_mono st st' deps :
  store_le st st' -> store_nonneg st' ->
  depsSatisfied st deps = true -> depsSatisfied st' deps = true.
Proof.
  intros Hle Hpos; rewrite !depsSatisfied_spec; intros H.
  eapply Forall_impl; [exact H|]; intros d Hd.
  etrans; [exact Hd|by apply version_mono].
Qed.

Lemma applyLocked_apply_write key val st :
  applyLocked key val st = apply_write st (MkWrite key val).
Proof. unfold applyLocked, apply_write; simpl; by destruct (Value_Deleted val). Qed.

Lemma applyLocked_write st w :
  applyLocked (write_key w) (write_val w) st = apply_write st w.
Proof. rewrite applyLocked_apply_write; by destruct w. Qed.

Lemma apply_write_nonneg st w :
  store_nonneg st -> write_nonneg w -> store_nonneg (apply_write st w).
Proof.
  intros Hst Hw key v; rewrite apply_write_lookup; case_decide as Hk; [|apply Hst].
  unfold lww; destruct (st !! key) as [v0|] eqn:Hv0; [case_decide|]; intros [= <-];
    rewrite ?write_stored_ts; eauto.
Qed.

Lemma apply_writes_nonneg st ws :
  store_nonneg st -> Forall write_nonneg ws -> store_nonneg (apply_writes st ws).
Proof.
  intros Hst Hws; revert st Hst; induction Hws; intros st Hst; simpl; [done|].
  eauto using apply_write_nonneg.
Qed.

Lemma store_nonneg_empty : store_nonneg ∅.
Proof. intros key v; by rewrite lookup_empty. Qed.

Lemma causally_closed_empty : causally_closed ∅.
Proof. intros key v; by rewrite lookup_empty. Qed.

#[export] Hint Resolve apply_write_nonneg apply_writes_nonneg store_nonneg_empty : go.

(** Applying a write whose dependencies hold keeps the store causally closed. *)
Lemma apply_write_closed st w :
  causally_closed st -> store_nonneg st -> write_nonneg w ->
  depsSatisfied st (write_deps w) = true -> causally_closed (apply_write st w).
Proof.
  intros Hcl Hst Hw Hd key v Hv.
  apply (depsSatisfied_mono st); [apply apply_write_le|by apply apply_write_nonneg|].
  rewrite apply_write_lookup in Hv; case_decide as Hk; [|by eapply Hcl].
  unfold lww in Hv; destruct (st !! key) as [v0|] eqn:Hv0; [case_decide|];
    simplify_eq; [by eapply Hcl| |]; unfold write_stored;
    destruct (Value_Deleted (write_val w)); done.
Qed.

Lemma causal_run_apply st ws st' : causal_run st ws st' -> st' = apply_writes st ws.
Proof. by induction 1. Qed.

Lemma causal_run_app st ws st' ws' st'' :
  causal_run st ws st' -> causal_run st' ws' st'' -> causal_run st (ws ++ ws') st''.
Proof. induction 1; simpl; [done|]; intros; econstructor; eauto. Qed.

Lemma causal_run_closed st ws st' :
  causal_run st ws st' -> causally_closed st -> store_nonneg st ->
  Forall write_nonneg ws -> causally_closed st' /\ store_nonneg st'.
Proof.
  induction 1; intros Hcl Hst; [done|]; intros [Hw Hws]%Forall_cons.
  apply IHcausal_run; eauto using apply_write_closed, apply_write_nonneg.
Qed.

(** ** The sweep in place is the sweep on lists *)

Lemma sweep_snoc st ws w :
  sweep st (ws ++ [w]) = sweep_step (sweep st ws) w.
Proof. apply foldl_snoc. Qed.

(** Invariant of the inner loop after the writes [done] of [held = done ++ todo]:
    the array holds [remaining], then slots already read, then [todo]. *)
Definition pass_inv (st : Store) (done todo : list write) (ps : pass) : Prop :=
  exists remaining stale,
    sweep st done = (pass_store ps, remaining, pass_progressed ps) /\
    pass_arr ps = remaining ++ stale ++ todo /\
    pass_len ps = length remaining /\
    length remaining + length stale = length done.

Lemma drain_body_inv st done p todo ps :
  pass_inv st done (p :: todo) ps ->
  pass_inv st (done ++ [p]) todo (drain_body ps (length done)).
Proof.
  intros (rem & stale & Hsw & Harr & Hlen & Hsum).
  unfold pass_inv, drain_body; rewrite sweep_snoc, Hsw, Harr, length_app; simpl.
  rewrite app_assoc, list_lookup_middle by (rewrite length_app; lia).
  destruct (depsSatisfied _ _) eqn:Hd; simpl.
  - exists rem, (stale ++ [p]); rewrite applyLocked_write, length_app; simpl.
    rewrite <- !app_assoc; split_and!; auto; lia.
  - rewrite Hlen; destruct stale as [|q stale]; simpl in *.
    + exists (rem ++ [p]), []; rewrite app_nil_r, length_app; simpl.
      rewrite insert_app_r_alt, Nat.sub_diag by lia; simpl.
      rewrite <- app_assoc; split_and!; auto; lia.
    + exists (rem ++ [p]), (stale ++ [p]); rewrite !length_app; simpl.
      rewrite <- app_assoc, insert_app_r_alt, Nat.sub_diag by lia; simpl.
      rewrite <- !app_assoc; split_and!; auto; lia.
Qed.

Lemma drain_fold_inv st done todo ps :
  pass_inv st done todo ps ->
  pass_inv st (done ++ todo) [] (foldl drain_body ps (seq (length done) (length todo))).
Proof.
  revert done ps; induction todo as [|p todo IH]; intros done ps Hinv; simpl.
  { by rewrite app_nil_r. }
  specialize (IH (done ++ [p]) (drain_body ps (length done))).
  rewrite length_app in IH; simpl in IH; rewrite Nat.add_1_r, <- app_assoc in IH.
  by apply IH, drain_body_inv.
Qed.

Lemma drain_pass_sweep st held : drain_pass st held = sweep st held.
Proof.
  assert (Hinv : pass_inv st [] held (MkPass st held 0 false)).
  { exists [], []; done. }
  destruct (drain_fold_inv _ _ _ _ Hinv) as (rem & stale & Hsw & Harr & Hlen & _).
  unfold drain_pass; simpl in *; rewrite Hsw, Harr, Hlen, take_app_length; done.
Qed.

(** ** What draining does *)

Lemma sweep_spec st held :
  exists st' ws remaining b, sweep st held = (st', remaining, b) /\
    causal_run st ws st' /\ ws ++ remaining ≡ₚ held /\
    (b = false -> ws = [] /\ st' = st /\ remaining = held /\ blocked st held) /\
    (b = true -> length remaining < length held).
Proof.
  induction held as [|p held IH] using rev_ind.
  { exists st, [], [], false; split_and!; try done; [constructor|].
    intros _; split_and!; auto; constructor. }
  destruct IH as (st' & ws & rem & b & Hsw & Hrun & Hperm & Hf & Ht).
  rewrite sweep_snoc, Hsw; unfold sweep_step.
  destruct (depsSatisfied st' (write_deps p)) eqn:Hd.
  - exists (apply_write st' p), (ws ++ [p]), rem, true; split_and!; try done.
    + eapply causal_run_app; [done|]; econstructor; [done|constructor].
    + by rewrite Permutation_snoc_swap, Hperm.
    + intros _; rewrite length_app; simpl.
      apply Permutation_length in Hperm; rewrite length_app in Hperm; lia.
  - exists st', ws, (rem ++ [p]), b; split_and!; auto.
    + by rewrite app_assoc, Hperm.
    + intros ->; destruct (Hf eq_refl) as (-> & -> & -> & Hb); split_and!; auto.
      apply Forall_app; split; [done|]; by repeat constructor.
    + intros ->; rewrite !length_app; simpl; specialize (Ht eq_refl); lia.
Qed.

Lemma drain_loop_S fuel st held :
  drain_loop (S fuel) st held =
  let '(st', remaining, progressed) := drain_pass st held in
  if progressed then drain_loop fuel st' remaining else Some (st', remaining).
Proof. done. Qed.

Lemma drain_loop_total fuel st held :
  length held < fuel ->
  exists st' ws remaining, drain_loop fuel st held = Some (st', remaining) /\
    causal_run st ws st' /\ ws ++ remaining ≡ₚ held /\ blocked st' remaining.
Proof.
  revert st held; induction fuel as [|fuel IH]; intros st held Hlen; [lia|].
  rewrite drain_loop_S, drain_pass_sweep.
  destruct (sweep_spec st held) as (st1 & ws1 & rem1 & b & -> & Hrun & Hperm & Hf & Ht).
  destruct b.
  - specialize (Ht eq_refl); destruct (IH st1 rem1) as (st2 & ws2 & rem2 & -> & Hr & Hp & Hb);
      [lia|].
    exists st2, (ws1 ++ ws2), rem2; split_and!; try done; [by eapply causal_run_app|].
    by rewrite <- Hperm, <- Hp, app_assoc.
  - destruct (Hf eq_refl) as (-> & -> & -> & Hb); exists st, [], held; split_and!; done.
Qed.

Lemma drainLocked_spec st held :
  exists ws, let '(st', remaining) := drainLocked st held in
    causal_run st ws st' /\ ws ++ remaining ≡ₚ held /\ blocked st' remaining.
Proof.
  destruct (drain_loop_total (S (length held)) st held ltac:(lia))
    as (st' & ws & rem & Hd & Hrest).
  exists ws; unfold drainLocked; by rewrite Hd.
Qed.

(** What [Receive] does, in one statement: the writes [ws] it applies are
    applied in causal order, nothing is lost or duplicated, and the answer tells
    whether the new write was among those applied. *)
Lemma Buffer_Receive_spec key val st b st' b' now :
  Buffer_Receive key val st b = (st', b', now) ->
  exists ws, causal_run st ws st' /\
    ws ++ Buffer_held b' ≡ₚ Buffer_held b ++ [MkWrite key val] /\
    now = depsSatisfied st (Value_Deps val) /\
    (if now then (exists ws', ws = MkWrite key val :: ws') /\ blocked st' (Buffer_held b')
     else ws = [] /\ Buffer_held b' = Buffer_held b ++ [MkWrite key val]).
Proof.
  unfold Buffer_Receive; destruct (depsSatisfied st (Value_Deps val)) eqn:Hd.
  - rewrite applyLocked_apply_write.
    pose proof (drainLocked_spec (apply_write st (MkWrite key val)) (Buffer_held b)) as [ws Hws].
    destruct (drainLocked _ _) as [st1 rem]; intros [= <- <- <-].
    destruct Hws as (Hrun & Hperm & Hb).
    exists (MkWrite key val :: ws); split_and!; try done; [by constructor| |by eauto].
    simpl; by rewrite Hperm, Permutation_cons_append.
  - intros [= <- <- <-]; exists []; split_and!; try done; constructor.
Qed.

Lemma drain_loop_more fuel fuel' st held r :
  drain_loop fuel st held = Some r -> fuel <= fuel' -> drain_loop fuel' st held = Some r.
Proof.
  revert fuel' st held; induction fuel as [|fuel IH]; intros fuel' st held Hr Hle; [done|].
  destruct fuel' as [|fuel']; [lia|]. rewrite drain_loop_S in Hr |- *.
  destruct (drain_pass st held) as [[st1 rem1] [|]]; [|done].
  apply IH; [done|lia].
Qed.

(** The deliveries of a list of writes, in order. *)
Definition receive_all (st : Store) (b : Buffer) (ws : list write) : Store * Buffer :=
  foldl (fun sb w => fst (Buffer_Receive (write_key w) (write_val w) (fst sb) (snd sb)))
    (st, b) ws.

Lemma receive_all_snoc st b ws w :
  receive_all st b (ws ++ [w]) =
  let sb := receive_all st b ws in
  fst (Buffer_Receive (write_key w) (write_val w) (fst sb) (snd sb)).
Proof. unfold receive_all; by rewrite foldl_snoc. Qed.

(** After any deliveries, the writes received are the applied and the held
    ones, and no held write could be applied. *)
Lemma receive_all_inv ws :
  let sb := receive_all ∅ buffer_New ws in
  exists applied, causal_run ∅ applied (fst sb) /\
    applied ++ Buffer_held (snd sb) ≡ₚ ws /\ blocked (fst sb) (Buffer_held (snd sb)).
Proof.
  induction ws as [|w ws IH] using rev_ind; cbn zeta.
  { exists []; split_and!; constructor. }
  rewrite receive_all_snoc; destruct IH as (applied & Hrun & Hperm & Hb).
  destruct (receive_all ∅ buffer_New ws) as [st b]; simpl in *.
  destruct (Buffer_Receive _ _ st b) as [[st' b'] now] eqn:Hr; simpl.
  apply Buffer_Receive_spec in Hr as (ws' & Hrun' & Hperm' & -> & Hnow).
  replace (MkWrite (write_key w) (write_val w)) with w in * by (by destruct w).
  exists (applied ++ ws'); split_and!; [by eapply causal_run_app| |].
  - by rewrite <- app_assoc, Hperm', app_assoc, Hperm.
  - destruct (depsSatisfied st (Value_Deps (write_val w))) eqn:Hd; [by destruct Hnow|].
    destruct Hnow as [-> ->]; inversion Hrun'; subst.
    apply Forall_app; split; [done|]. by repeat constructor.
Qed.

Lemma apply_writes_subset_le ws1 ws2 :
  (forall w, w ∈ ws1 -> w ∈ ws2) -> store_le (apply_writes ∅ ws1) (apply_writes ∅ ws2).
Proof.
  intros Hsub key v Hv; pose proof (apply_writes_lookup ws1 key) as H1.
  rewrite Hv in H1; destruct H1 as (w & Hw & <- & -> & _).
  destruct (apply_writes_version ws2 w (Hsub _ Hw)) as (v' & Hv' & Hle).
  exists v'; split; [done|by rewrite write_stored_ts].
Qed.

Lemma causal_run_split st pre w post st' :
  causal_run st (pre ++ w :: post) st' ->
  depsSatisfied (apply_writes st pre) (write_deps w) = true.
Proof.
  revert st; induction pre as [|w0 pre IH]; intros st H; inversion H; subst; [done|].
  by apply IH.
Qed.

Lemma depsSatisfied_subset pre applied deps :
  (forall w, w ∈ pre -> w ∈ applied) -> Forall write_nonneg applied ->
  depsSatisfied (apply_writes ∅ pre) deps = true ->
  depsSatisfied (apply_writes ∅ applied) deps = true.
Proof.
  intros Hsub Hpos; apply depsSatisfied_mono; [by apply apply_writes_subset_le|].
  auto with go.
Qed.

(** If some writes can be applied in a causal order, a blocked buffer that has
    received exactly those has applied them all. *)
Lemma blocked_empty ws st' applied held :
  causal_run ∅ ws st' -> Forall write_nonneg ws -> applied ++ held ≡ₚ ws ->
  blocked (apply_writes ∅ applied) held -> held = [].
Proof.
  intros Hrun Hpos Hperm Hb; unfold blocked in Hb; rewrite Forall_forall in Hb.
  rewrite <- Hperm in Hpos; apply Forall_app in Hpos as [Hpos _].
  assert (Hblk : forall pre w post, ws = pre ++ w :: post ->
            (forall w', w' ∈ pre -> w' ∈ applied) -> w ∉ held).
  { intros pre w post -> Hpre Hin; apply causal_run_split in Hrun.
    specialize (Hb w Hin); by rewrite (depsSatisfied_subset pre) in Hb. }
  assert (Happ : forall pre post, ws = pre ++ post -> forall w, w ∈ pre -> w ∈ applied).
  { induction pre as [|w pre IH] using rev_ind; intros post Hws w' Hw'.
    { by apply not_elem_of_nil in Hw'. }
    rewrite <- app_assoc in Hws; specialize (IH _ Hws).
    apply elem_of_snoc in Hw' as [Hw'| ->]; [by apply IH|].
    assert (Hin : w ∈ applied ++ held) by (rewrite Hperm, Hws; set_solver).
    apply elem_of_app in Hin as [?|Hin]; [done|]. by destruct (Hblk _ _ _ Hws IH). }
  destruct held as [|w held]; [done|exfalso].
  assert (Hw : w ∈ ws) by (rewrite <- Hperm; set_solver).
  apply list_elem_of_split in Hw as (pre & post & Hws).
  apply (Hblk _ _ _ Hws); [|left].
  intros w' Hw'; apply (Happ pre (w :: post)); done.
Qed.

(** ** Properties *)

(** C10: compacting the held writes in place, through a slice that shares its
    array with the one being ranged over, is the sweep on lists: no held write
    is overwritten before it is read, and what remains is exactly the writes
    found unsatisfied, in their order. *)
Theorem drain_in_place_refines_sweep st held : drain_pass st held = sweep st held.
Proof. apply drain_pass_sweep. Qed.

(** Draining terminates: with one sweep more than there are held writes, or
    any larger number, the outer loop returns the result of [drainLocked]; then
    no held write has its dependencies satisfied, and the writes that left the
    buffer were applied one by one, each with its dependencies satisfied. *)
Theorem drainLocked_terminates st held fuel :
  length held < fuel ->
  drain_loop fuel st held = Some (drainLocked st held) /\
  blocked (fst (drainLocked st held)) (snd (drainLocked st held)) /\
  exists ws, causal_run st ws (fst (drainLocked st held)) /\
    ws ++ snd (drainLocked st held) ≡ₚ held.
Proof.
  intros Hf.
  destruct (drain_loop_total (S (length held)) st held ltac:(lia))
    as (st' & ws & rem & Hd & Hrun & Hperm & Hb).
  assert (Hdr : drainLocked st held = (st', rem)) by (unfold drainLocked; by rewrite Hd).
  rewrite Hdr; split; [eapply drain_loop_more; [exact Hd|lia]|].
  split; [done|]. by exists ws.
Qed.

Definition c_held : list write :=
  [ MkWrite "z" (MkValue [x7a] (MkTimestamp 3 0) [MkDependency "y" (MkTimestamp 2 0)] false);
    MkWrite "y" (MkValue [x79] (MkTimestamp 2 0) [MkDependency "x" (MkTimestamp 1 0)] false);
    MkWrite "w" (MkValue [x77] (MkTimestamp 9 0) [MkDependency "v" (MkTimestamp 8 0)] false) ].

Definition c_store : Store := Store_Put "x" (c_val 1 x78) store_New.

Lemma drainLocked_terminates_witness :
  drain_loop 4 c_store c_held = Some (drainLocked c_store c_held) /\
  map write_key (snd (drainLocked c_store c_held)) = ["w"].
Proof.
  split; [|reflexivity].
  exact (proj1 (drainLocked_terminates c_store c_held 4 ltac:(simpl; lia))).
Defined.

(** C11: [Receive] answers true exactly when the dependencies hold on arrival,
    and then the new write is the first one applied and no held write is left
    that could be; otherwise the store is unchanged and the write is held last.
    In both cases every write is either applied, in causal order, or still held:
    none is lost or duplicated. *)
Theorem Buffer_Receive_correct key val st b st' b' now :
  Buffer_Receive key val st b = (st', b', now) ->
  now = depsSatisfied st (Value_Deps val) /\
  exists ws, causal_run st ws st' /\
    ws ++ Buffer_held b' ≡ₚ Buffer_held b ++ [MkWrite key val] /\
    (now = true -> head ws = Some (MkWrite key val) /\ blocked st' (Buffer_held b')) /\
    (now = false -> st' = st /\ Buffer_held b' = Buffer_held b ++ [MkWrite key val]).
Proof.
  intros H; apply Buffer_Receive_spec in H as (ws & Hrun & Hperm & Hnow & Hif).
  split; [done|]; exists ws; split_and!; try done.
  - intros ->; destruct Hif as [[ws' ->] ?]; done.
  - intros ->; destruct Hif as [-> ?]; inversion Hrun; done.
Qed.

Definition c_receive : Store * Buffer * bool :=
  Buffer_Receive "x" (c_val 1 x78) store_New (MkBuffer c_held).

Lemma Buffer_Receive_correct_witness :
  map write_key (Buffer_held (snd (fst c_receive))) = ["w"] /\ snd c_receive = true /\
  blocked (fst (fst c_receive)) (Buffer_held (snd (fst c_receive))).
Proof.
  split; [reflexivity|]. split; [reflexivity|].
  destruct (Buffer_Receive_correct "x" (c_val 1 x78) store_New (MkBuffer c_held) _ _ _
    (triple_eta c_receive)) as (_ & ws & _ & _ & H & _).
  exact (proj2 (H eq_refl)).
Defined.

(** Causal safety of delivery: a store in which every value has its
    dependencies present is kept so by every [Receive], applied or held, for
    any held writes (timestamps from the epoch on). *)
Theorem Buffer_Receive_causally_closed key val st b st' b' now :
  Buffer_Receive key val st b = (st', b', now) ->
  causally_closed st -> store_nonneg st ->
  Forall write_nonneg (MkWrite key val :: Buffer_held b) ->
  causally_closed st' /\ store_nonneg st' /\ Forall write_nonneg (Buffer_held b').
Proof.
  intros H Hcl Hst Hws; apply Buffer_Receive_spec in H as (ws & Hrun & Hperm & _).
  assert (Hall : Forall write_nonneg (ws ++ Buffer_held b')).
  { rewrite Hperm; apply Forall_app; split; [by inversion Hws|].
    constructor; [by inversion Hws|constructor]. }
  apply Forall_app in Hall as [Hws' Hheld].
  destruct (causal_run_closed _ _ _ Hrun Hcl Hst Hws'); done.
Qed.

Lemma Buffer_Receive_causally_closed_witness :
  causally_closed (fst (fst c_receive)).
Proof.
  refine (proj1 (Buffer_Receive_causally_closed "x" (c_val 1 x78) store_New
    (MkBuffer c_held) _ _ _ (triple_eta c_receive) causally_closed_empty
    store_nonneg_empty _)).
  repeat constructor; vm_compute; left; congruence || (right; auto).
Defined.

(** C25: no write is stuck: if a set of writes, none from before the epoch, can be
    applied in some order that respects their dependencies, then delivering them in
    any order whatever leaves the buffer empty; and if no two different writes to
    one key share a timestamp, it leaves the store the causal order leaves. *)
Theorem receive_all_delivers ws ws' st' :
  causal_run store_New ws st' -> Forall write_nonneg ws -> ws' ≡ₚ ws ->
  Buffer_held (snd (receive_all store_New buffer_New ws')) = [] /\
  (ts_distinct ws -> fst (receive_all store_New buffer_New ws') = st').
Proof.
  intros Hrun Hpos Hperm.
  destruct (receive_all_inv ws') as (applied & Happ & Hp & Hb).
  pose proof (causal_run_apply _ _ _ Happ) as Hst; rewrite Hst in Hb.
  apply (fun H => Permutation_trans H Hperm) in Hp.
  pose proof (blocked_empty _ _ _ _ Hrun Hpos Hp Hb) as Hheld.
  split; [done|intros Hdist]. rewrite Hheld, app_nil_r in Hp.
  unfold store_New in *; rewrite Hst, (causal_run_apply _ _ _ Hrun).
  symmetry; apply apply_writes_set_eq; [intros w; by rewrite Hp|done].
Qed.

Definition c_chain : list write := rev (take 2 c_held ++ [c_w "x" 1 x78]).

Lemma c_chain_run : causal_run store_New c_chain (apply_writes store_New c_chain).
Proof. repeat (constructor; [reflexivity|]); constructor. Qed.

Lemma receive_all_delivers_witness :
  Buffer_held (snd (receive_all store_New buffer_New (rev c_chain))) = [] /\
  fst (receive_all store_New buffer_New (rev c_chain)) = apply_writes store_New c_chain.
Proof.
  assert (Hd : ts_distinct c_chain) by (apply (bool_decide_unpack _); vm_compute; exact I).
  destruct (receive_all_delivers c_chain (rev c_chain) (apply_writes store_New c_chain)) as [Hheld Hst].
  - exact c_chain_run.
  - repeat constructor; vm_compute; right; auto.
  - apply Permutation_sym, Permutation_rev.
  - split; [exact Hheld|exact (Hst Hd)].
Defined.
