(* ===== verification/Wire.v ===== *)
(** * RPC messages ([src/proto/kv/kv.pb.go], [src/proto/replication/replication.pb.go])

    The fields of the generated message structs that the program reads or
    writes.  A message-typed field is a Go pointer, [None] when nil; a request
    or response that an RPC carries is never nil (the RPC layer allocates it),
    so messages themselves are not optional unless the program handles a nil. *)

From S2P Require Import Prelude Hlc Store.

(** ** The replication service *)

Record repb_HLCTimestamp := MkRepbTS {
  repb_WallTime : Z;
  repb_Logical : Z
}.

Record repb_Dependency := MkRepbDep {
  repb_Dep_Key : string;
  repb_Dep_MinTs : option repb_HLCTimestamp
}.

Record ReplicateRequest := MkReplicateRequest {
  RR_Key : string;
  RR_Value : list byte;
  RR_Timestamp : option repb_HLCTimestamp;
  RR_Deps : list (option repb_Dependency)
}.

Record ReplicateResponse := MkReplicateResponse { RR_Success : bool }.

(** ** The key-value service *)

Record kv_HLCTimestamp := MkKvTS { kv_WallTime : Z; kv_Logical : Z }.

Record PutRequest := MkPutRequest { PutReq_Key : string; PutReq_Value : list byte }.
Record PutResponse := MkPutResponse { PutResp_Timestamp : option kv_HLCTimestamp }.
Record GetRequest := MkGetRequest { GetReq_Key : string }.

Record GetResponse := MkGetResponse {
  GetResp_Value : list byte;
  GetResp_Timestamp : option kv_HLCTimestamp;
  GetResp_Found : bool
}.

Record DeleteRequest := MkDeleteRequest { DelReq_Key : string }.
Record DeleteResponse := MkDeleteResponse { DelResp_Timestamp : option kv_HLCTimestamp }.

#[export] Instance repb_HLCTimestamp_eq_dec : EqDecision repb_HLCTimestamp.
Proof. solve_decision. Defined.
#[export] Instance repb_Dependency_eq_dec : EqDecision repb_Dependency.
Proof. solve_decision. Defined.
#[export] Instance ReplicateRequest_eq_dec : EqDecision ReplicateRequest.
Proof. solve_decision. Defined.
#[export] Instance ReplicateResponse_eq_dec : EqDecision ReplicateResponse.
Proof. solve_decision. Defined.
#[export] Instance kv_HLCTimestamp_eq_dec : EqDecision kv_HLCTimestamp.
Proof. solve_decision. Defined.
#[export] Instance GetResponse_eq_dec : EqDecision GetResponse.
Proof. solve_decision. Defined.
