(* ===== verification/Replication.v ===== *)
(** * Replication handlers ([src/internal/replication/replication.go])

    What a node does with a local write: the requests it sends to its peers and
    the error it returns.  The handlers' [Store] and [HLC] pointers are never
    used by the code and are not modelled.

    A peer's [ReplicationClient] is an opaque handle.  [OnWrite] is split at the
    RPC boundary: it returns the RPCs it starts, each with the sleep before it,
    and takes the replies in the order in which the goroutines put them into the
    channel.  The asynchronous handlers start their RPCs and return; the strong
    one waits for every reply. *)

From S2P Require Import Prelude Hlc Store Wire.
#[local] Open Scope Z_scope.

(** ** Definitions *)

Abbreviation peer := nat (only parsing).

Record Options := MkOptions {
  Options_DelayPrefix : string;
  Options_Delay : Z;      (* time.Duration: int64 nanoseconds *)
  Options_PeerDelay : Z
}.

(** The duration of the call to [time.Sleep], if it is made. *)
Definition sleepBeforeReplicate (opts : Options) (key : string) : option Z :=
  let d := 0 in
  let d := if 0 <? Options_PeerDelay opts
           then int64 (d + Options_PeerDelay opts) else d in
  let d := if (0 <? Options_Delay opts)
              && negb (String.eqb (Options_DelayPrefix opts) "")
              && String.prefix (Options_DelayPrefix opts) key
           then int64 (d + Options_Delay opts) else d in
  if 0 <? d then Some d else None.

Definition toReplicateTS (ts : Timestamp) : repb_HLCTimestamp :=
  MkRepbTS (WallTime ts) (Logical ts).

Definition buildReplicateRequest (key : string) (val : Value) (deps : list Dependency)
    : ReplicateRequest :=
  MkReplicateRequest key (Value_Data val)
    (Some (toReplicateTS (Value_Timestamp val)))
    (map (fun dep => Some (MkRepbDep (Dependency_Key dep)
                             (Some (toReplicateTS (Dependency_MinTS dep))))) deps).

(** An RPC started by a handler, and what an RPC returned. *)
Record outgoing := MkOutgoing {
  out_peer : peer;
  out_sleep : option Z;
  out_req : ReplicateRequest
}.

Record rpc_reply := MkReply {
  reply_resp : option ReplicateResponse;
  reply_err : option string
}.

(** [ok: err == nil && resp != nil && resp.Success] *)
Definition reply_ok (r : rpc_reply) : bool :=
  match reply_err r, reply_resp r with
  | None, Some resp => RR_Success resp
  | _, _ => false
  end.

Definition sends (opts : Options) (peers : list peer) (req : ReplicateRequest)
    : list outgoing :=
  map (fun p => MkOutgoing p (sleepBeforeReplicate opts (RR_Key req)) req) peers.

(** The interface: [OnWrite] of a handler returns the RPCs it starts and its
    error, given the replies it waits for. *)
Class Handler (H : Type) := {
  OnWrite : H -> string -> Value -> list rpc_reply -> list outgoing * option string
}.

Record EventualHandler := MkEventual {
  Eventual_Peers : list peer;
  Eventual_Opts : Options
}.

Definition EventualHandler_OnWrite (h : EventualHandler) (key : string) (val : Value)
    (_ : list rpc_reply) : list outgoing * option string :=
  let req := buildReplicateRequest key val [] in
  (sends (Eventual_Opts h) (Eventual_Peers h) req, None).

Record CausalHandler := MkCausal {
  Causal_Peers : list peer;
  Causal_Opts : Options
}.

Definition CausalHandler_OnWrite (h : CausalHandler) (key : string) (val : Value)
    (_ : list rpc_reply) : list outgoing * option string :=
  let req := buildReplicateRequest key val (Value_Deps val) in
  (sends (Causal_Opts h) (Causal_Peers h) req, None).

Record StrongHandler := MkStrong {
  Strong_Peers : list peer;
  Strong_Quorum : Z;
  Strong_Opts : Options
}.

Definition errQuorum : string := "replication: quorum not reached".

(** [for r := range results { if r.ok { acks++ } }] *)
Definition count_acks (replies : list rpc_reply) : Z :=
  foldl (fun acks r => if reply_ok r then acks + 1 else acks) 0 replies.

Definition StrongHandler_OnWrite (h : StrongHandler) (key : string) (val : Value)
    (replies : list rpc_reply) : list outgoing * option string :=
  if Nat.eqb (length (Strong_Peers h)) 0 then ([], None)
  else
    let req := buildReplicateRequest key val [] in
    let remoteNeeded := Strong_Quorum h - 1 in
    if remoteNeeded <=? 0 then ([], None)
    else
      let started := sends (Strong_Opts h) (Strong_Peers h) req in
      let acks := count_acks replies in
      if acks <? remoteNeeded then (started, Some errQuorum)
      else (started, None).

#[export] Instance Eventual_Handler : Handler EventualHandler :=
  {| OnWrite := EventualHandler_OnWrite |}.
#[export] Instance Causal_Handler : Handler CausalHandler :=
  {| OnWrite := CausalHandler_OnWrite |}.
#[export] Instance Strong_Handler : Handler StrongHandler :=
  {| OnWrite := StrongHandler_OnWrite |}.

(** A value of the interface type: one of the three implementations. *)
Inductive AnyHandler :=
| HEventual (h : EventualHandler)
| HCausal (h : CausalHandler)
| HStrong (h : StrongHandler).

#[export] Instance Any_Handler : Handler AnyHandler :=
  {| OnWrite h := match h with
                  | HEventual h => OnWrite h
                  | HCausal h => OnWrite h
                  | HStrong h => OnWrite h
                  end |}.

(** [None] is the panic on an invalid mode. *)
Definition NewHandler (mode : string) (peers : list peer) (opts : Options)
    : option AnyHandler :=
  if String.eqb mode "eventual" then Some (HEventual (MkEventual peers opts))
  else if String.eqb mode "causal" then Some (HCausal (MkCausal peers opts))
  else if String.eqb mode "strong" then
    let total := Z.of_nat (length peers) + 1 in
    Some (HStrong (MkStrong peers (Z.quot total 2 + 1) opts))
  else None.

(** ** What a handler promises to the node

    The RPCs it starts do not depend on the replies, carry the write's key,
    timestamp and data, and go to each peer at most once; it fails only after
    having started them. *)
Class HandlerLaws (H : Type) `{Handler H} := {
  handler_peers : H -> list peer;
  on_write_stable h key val rs rs' :
    fst (OnWrite h key val rs) = fst (OnWrite h key val rs');
  on_write_request h key val rs o :
    o ∈ fst (OnWrite h key val rs) ->
    exists deps, (deps = [] \/ deps = Value_Deps val) /\
      out_req o = buildReplicateRequest key val deps;
  on_write_peers h key val rs :
    map out_peer (fst (OnWrite h key val rs)) = handler_peers h \/
    fst (OnWrite h key val rs) = [];
  on_write_error h key val rs e :
    snd (OnWrite h key val rs) = Some e ->
    map out_peer (fst (OnWrite h key val rs)) = handler_peers h
}.

Lemma sends_peers opts peers req : map out_peer (sends opts peers req) = peers.
Proof. unfold sends; rewrite map_map; simpl; apply map_id. Qed.

Lemma sends_req opts peers req o : o ∈ sends opts peers req -> out_req o = req.
Proof. unfold sends; rewrite list_elem_of_In, in_map_iff; by intros (p & <- & _). Qed.

#[export] Instance Eventual_laws : HandlerLaws EventualHandler.
Proof.
  refine {| handler_peers := Eventual_Peers |}; simpl; intros; try done.
  - exists []; split; [by left|]. by eapply sends_req.
  - left; apply sends_peers.
Defined.

#[export] Instance Causal_laws : HandlerLaws CausalHandler.
Proof.
  refine {| handler_peers := Causal_Peers |}; simpl; intros; try done.
  - exists (Value_Deps val); split; [by right|]. by eapply sends_req.
  - left; apply sends_peers.
Defined.

Lemma Strong_OnWrite_cases h key val rs :
  let r := StrongHandler_OnWrite h key val rs in
  (fst r = sends (Strong_Opts h) (Strong_Peers h) (buildReplicateRequest key val []) \/
   fst r = [] /\ snd r = None) /\
  (forall rs', fst r = fst (StrongHandler_OnWrite h key val rs')).
Proof.
  unfold StrongHandler_OnWrite; destruct (Nat.eqb _ 0), (Strong_Quorum h - 1 <=? 0); simpl; auto;
    split; intros; repeat case_match; auto.
Qed.

#[export] Instance Strong_laws : HandlerLaws StrongHandler.
Proof.
  refine {| handler_peers := Strong_Peers |}; simpl; intros.
  - by apply Strong_OnWrite_cases.
  - destruct (Strong_OnWrite_cases h key val rs) as [[Hr|[Hr _]] _]; rewrite Hr in *.
    + exists []; split; [by left|]. by eapply sends_req.
    + by apply not_elem_of_nil in H.
  - destruct (Strong_OnWrite_cases h key val rs) as [[Hr|[Hr _]] _]; rewrite Hr.
    + left; apply sends_peers.
    + by right.
  - destruct (Strong_OnWrite_cases h key val rs) as [[Hr|[_ Hr]] _]; [|congruence].
    rewrite Hr; apply sends_peers.
Defined.

#[export] Instance Any_laws : HandlerLaws AnyHandler.
Proof.
  refine {| handler_peers h := match h with
              | HEventual h => handler_peers h
              | HCausal h => handler_peers h
              | HStrong h => handler_peers h
              end |}.
  - intros [h|h|h] key val rs rs'; exact (on_write_stable h key val rs rs').
  - intros [h|h|h] key val rs o; exact (on_write_request h key val rs o).
  - intros [h|h|h] key val rs; exact (on_write_peers h key val rs).
  - intros [h|h|h] key val rs e; exact (on_write_error h key val rs e).
Defined.

(** ** Properties *)

Lemma count_acks_spec replies :
  count_acks replies = Z.of_nat (length (List.filter reply_ok replies)).
Proof.
  unfold count_acks.
  assert (H : forall n, foldl (fun acks r => if reply_ok r then acks + 1 else acks) n replies
              = n + Z.of_nat (length (List.filter reply_ok replies))).
  { induction replies as [|r rs IH]; intros n; simpl; [lia|].
    rewrite IH; destruct (reply_ok r); simpl; lia. }
  by rewrite H.
Qed.

Lemma NewHandler_strong peers opts :
  NewHandler "strong" peers opts =
  Some (HStrong (MkStrong peers (Z.quot (Z.of_nat (length peers) + 1) 2 + 1) opts)).
Proof. done. Qed.

(** The nodes that hold a strong write after its replies: the origin and the
    peers that acknowledged it. *)
Definition holders (self : peer) (peers : list peer) (replies : list rpc_reply)
    : gset peer :=
  {[self]} ∪ list_to_set (map fst (List.filter (fun pr => reply_ok (snd pr))
                                     (zip peers replies))).

Lemma holders_size self peers replies :
  NoDup (self :: peers) -> length replies = length peers ->
  Z.of_nat (size (holders self peers replies)) = 1 + count_acks replies.
Proof.
  intros [Hself Hnd]%NoDup_cons Hlen; unfold holders; rewrite count_acks_spec.
  set (acked := map fst _).
  assert (Hacked : sublist acked peers /\ length acked = length (List.filter reply_ok replies)).
  { subst acked; clear Hself Hnd; revert replies Hlen.
    induction peers as [|p peers IH]; intros [|r rs] Hlen; simplify_eq/=; [by split|].
    destruct (IH rs Hlen) as [Hsub Hl].
    destruct (reply_ok r); simpl; (split; [by constructor|lia]). }
  destruct Hacked as [Hsub Hl]; rewrite size_union, size_singleton, size_list_to_set.
  - rewrite Hl; lia.
  - by eapply sublist_NoDup.
  - intros x ->%elem_of_singleton Hx%elem_of_list_to_set; apply Hself.
    by eapply elem_of_sublist.
Qed.

Lemma holders_subset self peers replies :
  holders self peers replies ⊆ list_to_set (self :: peers).
Proof.
  intros x; unfold holders; rewrite elem_of_union, elem_of_singleton, !elem_of_list_to_set.
  rewrite elem_of_cons, (list_elem_of_In (map _ _)), in_map_iff.
  intros [->|([p r] & <- & Hin)]; [by left|right].
  apply filter_In in Hin as [Hin _]; apply list_elem_of_In; by eapply in_combine_l.
Qed.

(** Success of the handler built by [NewHandler], counted in nodes. *)
Lemma strong_holders_majority self peers opts h key val replies :
  NewHandler "strong" peers opts = Some h -> NoDup (self :: peers) ->
  length replies = length peers ->
  snd (OnWrite h key val replies) = None <->
    Z.of_nat (length (self :: peers)) < 2 * Z.of_nat (size (holders self peers replies)).
Proof.
  rewrite NewHandler_strong; intros [= <-] Hnd Hlen; simpl.
  unfold StrongHandler_OnWrite; simpl; rewrite (holders_size _ _ _ Hnd Hlen).
  pose proof (count_acks_spec replies) as Hacks.
  assert (Hle : (length (List.filter reply_ok replies) <= length peers)%nat)
    by (rewrite <- Hlen; apply filter_length_le).
  rewrite Z.quot_div_nonneg by lia.
  destruct (Nat.eqb_spec (length peers) 0); [simpl; split; [lia|done]|].
  go_cases; simpl; split; intros; try done; Z.to_euclidean_division_equations; lia.
Qed.

Lemma count_acks_Permutation replies replies' :
  replies' ≡ₚ replies -> count_acks replies' = count_acks replies.
Proof. intros Hp; by rewrite !count_acks_spec, (filter_length_Permutation _ _ _ Hp). Qed.

(** C14: the quorum rule: with the handler [NewHandler] builds for strong mode
    and one reply per peer, [OnWrite] returns nil exactly when the nodes holding
    the write (the origin and the peers that acknowledged it) are a strict
    majority of the cluster, whatever the order in which the replies arrive. *)
Theorem strong_OnWrite_majority self peers opts h key val replies :
  NewHandler "strong" peers opts = Some h -> NoDup (self :: peers) ->
  length replies = length peers ->
  (snd (OnWrite h key val replies) = None <->
     Z.of_nat (length (self :: peers)) <
       2 * Z.of_nat (size (holders self peers replies))) /\
  (forall replies', replies' ≡ₚ replies ->
     OnWrite h key val replies' = OnWrite h key val replies).
Proof.
  intros Hh Hnd Hlen; split; [by eapply strong_holders_majority|].
  rewrite NewHandler_strong in Hh; intros replies' Hp; simplify_eq/=.
  unfold StrongHandler_OnWrite; by rewrite (count_acks_Permutation _ _ Hp).
Qed.

Definition c_opts : Options := MkOptions "" 0 0.
Definition ack : rpc_reply := MkReply (Some (MkReplicateResponse true)) None.
Definition nack : rpc_reply := MkReply (Some (MkReplicateResponse false)) None.
Definition rpc_fail : rpc_reply := MkReply None (Some "unavailable").

Definition c_strong : AnyHandler := HStrong (MkStrong [1%nat; 2%nat] 2 c_opts).

Lemma strong_OnWrite_majority_witness :
  snd (OnWrite c_strong "k" (c_val 1 x61) [rpc_fail; ack]) = None /\
  (Z.of_nat (length [0%nat; 1%nat; 2%nat]) <
     2 * Z.of_nat (size (holders 0 [1%nat; 2%nat] [rpc_fail; ack]))).
Proof.
  split; [reflexivity|].
  refine (proj1 (proj1 (strong_OnWrite_majority 0 [1%nat; 2%nat] c_opts c_strong
    "k" (c_val 1 x61) [rpc_fail; ack] eq_refl _ eq_refl)) eq_refl).
  apply (bool_decide_unpack _); vm_compute; exact I.
Defined.

(** Quorums intersect: two strong writes that both succeed, from the same or
    different origins of one fully connected cluster, were each acknowledged by
    some common node. *)
Theorem strong_quorums_intersect self1 peers1 h1 rs1 self2 peers2 h2 rs2
    opts1 opts2 key1 key2 val1 val2 :
  NewHandler "strong" peers1 opts1 = Some h1 ->
  NewHandler "strong" peers2 opts2 = Some h2 ->
  NoDup (self1 :: peers1) -> self1 :: peers1 ≡ₚ self2 :: peers2 ->
  length rs1 = length peers1 -> length rs2 = length peers2 ->
  snd (OnWrite h1 key1 val1 rs1) = None -> snd (OnWrite h2 key2 val2 rs2) = None ->
  exists n, n ∈ holders self1 peers1 rs1 /\ n ∈ holders self2 peers2 rs2.
Proof.
  intros Hh1 Hh2 Hnd1 Hperm Hl1 Hl2 Ho1 Ho2.
  assert (Hnd2 : NoDup (self2 :: peers2)) by (by rewrite <- Hperm).
  apply (strong_holders_majority self1 _ _ _ _ _ _ Hh1 Hnd1 Hl1) in Ho1.
  apply (strong_holders_majority self2 _ _ _ _ _ _ Hh2 Hnd2 Hl2) in Ho2.
  pose proof (holders_subset self1 peers1 rs1) as Hs1.
  pose proof (holders_subset self2 peers2 rs2) as Hs2.
  rewrite <- Hperm in Ho2, Hs2.
  setoid_rewrite <- elem_of_intersection.
  apply set_choose_L, (majorities_intersect (list_to_set (self1 :: peers1))); try done;
    rewrite size_list_to_set by done; lia.
Qed.

Lemma strong_quorums_intersect_witness :
  exists n, n ∈ holders 0 [1%nat; 2%nat] [ack; nack] /\
            n ∈ holders 2 [0%nat; 1%nat] [rpc_fail; ack].
Proof.
  refine (strong_quorums_intersect 0 [1%nat; 2%nat] c_strong [ack; nack] 2 [0%nat; 1%nat]
    (HStrong (MkStrong [0%nat; 1%nat] 2 c_opts)) [rpc_fail; ack] c_opts c_opts "k" "k"
    (c_val 1 x61) (c_val 2 x62) eq_refl eq_refl _ _ eq_refl eq_refl eq_refl eq_refl).
  - apply (bool_decide_unpack _); vm_compute; exact I.
  - apply (bool_decide_unpack _); vm_compute; exact I.
Defined.
