(* ===== verification/Server.v ===== *)
(** * A node ([src/internal/server/node.go])

    The RPC handlers of a node over its store, clock, buffer, replication
    handler and read tracker.  Each definition is a whole handler, run to its
    end without another handler in between; [Interleave.v] splits the handlers
    at their lock boundaries.

    A handler takes the reading [wallNow] returns when its clock call is made
    and, for writes, the replies its [OnWrite] receives; it returns the node
    after it, the RPCs it started and its result. *)

From S2P Require Import Prelude Hlc Store Buffer Wire Replication.

(** ** Conversions between messages and values *)

Definition toProtoTS (ts : Timestamp) : kv_HLCTimestamp :=
  MkKvTS (WallTime ts) (Logical ts).

Definition fromProtoTS (ts : repb_HLCTimestamp) : Timestamp :=
  MkTimestamp (repb_WallTime ts) (repb_Logical ts).

Fixpoint fromProtoDeps (deps : list (option repb_Dependency)) : list Dependency :=
  match deps with
  | [] => []
  | dep :: deps =>
      match dep with
      | None => fromProtoDeps deps
      | Some d =>
          match repb_Dep_MinTs d with
          | None => fromProtoDeps deps
          | Some ts =>
              MkDependency (repb_Dep_Key d) (MkTimestamp (repb_WallTime ts) (repb_Logical ts))
                :: fromProtoDeps deps
          end
      end
  end.

(** ** The read tracker *)

Record ReadTracker := MkReadTracker { ReadTracker_reads : list Dependency }.

Definition NewReadTracker : ReadTracker := MkReadTracker [].

Definition ReadTracker_Record (key : string) (ts : Timestamp) (rt : ReadTracker)
    : ReadTracker :=
  MkReadTracker (ReadTracker_reads rt ++ [MkDependency key ts]).

Definition ReadTracker_SnapshotAndClear (rt : ReadTracker)
    : ReadTracker * list Dependency :=
  (MkReadTracker [], ReadTracker_reads rt).

(** ** The node *)

Record Node (H : Type) := MkNode {
  Node_Mode : string;
  Node_Store : Store;
  Node_Clock : Clock;
  Node_Buffer : option Buffer;
  Node_Handler : H;
  Node_Tracker : option ReadTracker
}.

Arguments MkNode {H}.
Arguments Node_Mode {H}.
Arguments Node_Store {H}.
Arguments Node_Clock {H}.
Arguments Node_Buffer {H}.
Arguments Node_Handler {H}.
Arguments Node_Tracker {H}.

Section handlers.
Context {H : Type} `{Handler H}.

Definition NewNode (mode : string) (s : Store) (clk : Clock) (buf : option Buffer)
    (handler : H) : Node H :=
  MkNode mode s clk buf handler
    (if String.eqb mode "causal" then Some NewReadTracker else None).

Definition with_store (s : Store) (n : Node H) : Node H :=
  MkNode (Node_Mode n) s (Node_Clock n) (Node_Buffer n) (Node_Handler n) (Node_Tracker n).
Definition with_clock (c : Clock) (n : Node H) : Node H :=
  MkNode (Node_Mode n) (Node_Store n) c (Node_Buffer n) (Node_Handler n) (Node_Tracker n).
Definition with_buffer (b : Buffer) (n : Node H) : Node H :=
  MkNode (Node_Mode n) (Node_Store n) (Node_Clock n) (Some b) (Node_Handler n)
    (Node_Tracker n).
Definition with_tracker (rt : ReadTracker) (n : Node H) : Node H :=
  MkNode (Node_Mode n) (Node_Store n) (Node_Clock n) (Node_Buffer n) (Node_Handler n)
    (Some rt).

(** [n.Mode == "causal" && n.Tracker != nil]: the tracker in use. *)
Definition active_tracker (n : Node H) : option ReadTracker :=
  if String.eqb (Node_Mode n) "causal" then Node_Tracker n else None.

(** The dependencies a causal write takes, cleared from the tracker. *)
Definition take_deps (n : Node H) : Node H * list Dependency :=
  match active_tracker n with
  | Some rt =>
      let '(rt', deps) := ReadTracker_SnapshotAndClear rt in (with_tracker rt' n, deps)
  | None => (n, [])
  end.

Definition Node_Put (now : Z) (req : PutRequest) (replies : list rpc_reply) (n : Node H)
    : Node H * list outgoing * res PutResponse :=
  match Clock_Send now (Node_Clock n) with
  | (clk, Err e) => (with_clock clk n, [], Err e)
  | (clk, Ok ts) =>
      let n := with_clock clk n in
      let '(n, deps) := take_deps n in
      let val := MkValue (PutReq_Value req) ts deps false in
      let '(rpcs, err) := OnWrite (Node_Handler n) (PutReq_Key req) val replies in
      let stored := with_store (Store_Put (PutReq_Key req) val (Node_Store n)) n in
      if String.eqb (Node_Mode n) "strong" then
        match err with
        | Some e => (n, rpcs, Err e)
        | None => (stored, rpcs, Ok (MkPutResponse (Some (toProtoTS ts))))
        end
      else
        match err with
        | Some e => (stored, rpcs, Err e)
        | None => (stored, rpcs, Ok (MkPutResponse (Some (toProtoTS ts))))
        end
  end.

Definition Node_Get (req : GetRequest) (n : Node H) : Node H * res GetResponse :=
  let '(val, ok) := Store_Get (GetReq_Key req) (Node_Store n) in
  if negb ok then (n, Ok (MkGetResponse [] None false))
  else
    let n := match active_tracker n with
             | Some rt =>
                 with_tracker
                   (ReadTracker_Record (GetReq_Key req) (Value_Timestamp val) rt) n
             | None => n
             end in
    (n, Ok (MkGetResponse (Value_Data val) (Some (toProtoTS (Value_Timestamp val))) true)).

Definition Node_Delete (now : Z) (req : DeleteRequest) (replies : list rpc_reply)
    (n : Node H) : Node H * list outgoing * res DeleteResponse :=
  match Clock_Send now (Node_Clock n) with
  | (clk, Err e) => (with_clock clk n, [], Err e)
  | (clk, Ok ts) =>
      let n := with_clock clk n in
      let '(n, deps) := take_deps n in
      let val := MkValue [] ts deps true in
      let '(rpcs, err) := OnWrite (Node_Handler n) (DelReq_Key req) val replies in
      let stored := with_store (Store_Delete (DelReq_Key req) ts (Node_Store n)) n in
      if String.eqb (Node_Mode n) "strong" then
        match err with
        | Some e => (n, rpcs, Err e)
        | None => (stored, rpcs, Ok (MkDeleteResponse (Some (toProtoTS ts))))
        end
      else
        match err with
        | Some e => (stored, rpcs, Err e)
        | None => (stored, rpcs, Ok (MkDeleteResponse (Some (toProtoTS ts))))
        end
  end.

(** The value [Replicate] rebuilds from a request. *)
Definition request_value (req : ReplicateRequest) (inTS : Timestamp) : Value :=
  MkValue (RR_Value req) inTS (fromProtoDeps (RR_Deps req))
    (Nat.eqb (length (RR_Value req)) 0).

Definition Node_Replicate (now : Z) (req : ReplicateRequest) (n : Node H)
    : Node H * res ReplicateResponse :=
  match RR_Timestamp req with
  | None => (n, Ok (MkReplicateResponse false))
  | Some pts =>
      let inTS := fromProtoTS pts in
      match Clock_Receive now inTS (Node_Clock n) with
      | (clk, Err e) => (with_clock clk n, Err e)
      | (clk, Ok _) =>
          let n := with_clock clk n in
          let val := request_value req inTS in
          match (if String.eqb (Node_Mode n) "causal" then Node_Buffer n else None) with
          | Some b =>
              let '(s, b', _) := Buffer_Receive (RR_Key req) val (Node_Store n) b in
              (with_buffer b' (with_store s n), Ok (MkReplicateResponse true))
          | None =>
              let '(s, ok) := if Value_Deleted val
                              then Store_ApplyDelete (RR_Key req) inTS (Node_Store n)
                              else Store_Apply (RR_Key req) val (Node_Store n) in
              (with_store s n, Ok (MkReplicateResponse ok))
          end
      end
  end.

End handlers.

(** ** Lemmas *)

Lemma fromProto_toReplicateTS ts : fromProtoTS (toReplicateTS ts) = ts.
Proof. by destruct ts. Qed.

Lemma fromProtoDeps_build key val deps :
  fromProtoDeps (RR_Deps (buildReplicateRequest key val deps)) = deps.
Proof.
  simpl; induction deps as [|[k [w l]] deps IH]; simpl; [done|]. by rewrite IH.
Qed.

(** What a request built from a value decodes to: the value with the request's
    dependencies, deleted exactly when it carries no data. *)
Lemma request_value_build key val deps :
  request_value (buildReplicateRequest key val deps) (Value_Timestamp val) =
  MkValue (Value_Data val) (Value_Timestamp val) deps (Nat.eqb (length (Value_Data val)) 0).
Proof. unfold request_value; by rewrite fromProtoDeps_build. Qed.

(** A value the wire format carries faithfully: deleted exactly when empty. *)
Definition wire_faithful (v : Value) : Prop :=
  Value_Deleted v = Nat.eqb (length (Value_Data v)) 0.

#[export] Instance wire_faithful_dec v : Decision (wire_faithful v).
Proof. unfold wire_faithful; apply _. Defined.

Lemma request_value_faithful key val :
  wire_faithful val ->
  request_value (buildReplicateRequest key val (Value_Deps val)) (Value_Timestamp val) = val.
Proof.
  intros Hf; rewrite request_value_build; destruct val; unfold wire_faithful in Hf.
  simpl in *; by rewrite Hf.
Qed.

Section lemmas.
Context {H : Type} `{Handler H}.
Implicit Type n : Node H.

Lemma take_deps_fst n :
  Node_Store (fst (take_deps n)) = Node_Store n /\
  Node_Clock (fst (take_deps n)) = Node_Clock n /\
  Node_Buffer (fst (take_deps n)) = Node_Buffer n /\
  Node_Mode (fst (take_deps n)) = Node_Mode n /\
  Node_Handler (fst (take_deps n)) = Node_Handler n.
Proof. unfold take_deps; by destruct (active_tracker n). Qed.

Lemma Node_Get_spec req n :
  snd (Node_Get req n) =
  match Node_Store n !! GetReq_Key req with
  | Some v => if Value_Deleted v then Ok (MkGetResponse [] None false)
              else Ok (MkGetResponse (Value_Data v) (Some (toProtoTS (Value_Timestamp v))) true)
  | None => Ok (MkGetResponse [] None false)
  end.
Proof.
  unfold Node_Get, Store_Get; destruct (Node_Store n !! GetReq_Key req) as [v|]; [|done].
  by destruct (Value_Deleted v).
Qed.

Lemma Node_Get_frame req n :
  Node_Store (fst (Node_Get req n)) = Node_Store n /\
  Node_Clock (fst (Node_Get req n)) = Node_Clock n /\
  Node_Buffer (fst (Node_Get req n)) = Node_Buffer n.
Proof.
  unfold Node_Get; destruct (Store_Get _ _) as [v ok]; destruct ok; simpl; [|done].
  by destruct (active_tracker n).
Qed.

Lemma Node_Get_handler req n : Node_Handler (fst (Node_Get req n)) = Node_Handler n.
Proof.
  unfold Node_Get; destruct (Store_Get _ _) as [v ok]; destruct ok; simpl; [|done].
  by destruct (active_tracker n).
Qed.

(** [Put] and [Delete] are one operation: they issue a timestamp, take the
    tracked reads as dependencies, and store the stored form of the write. *)
Definition node_write (now : Z) (key : string) (data : list byte) (deleted : bool)
    (replies : list rpc_reply) (n : Node H) : Node H * list outgoing * res Timestamp :=
  match Clock_Send now (Node_Clock n) with
  | (clk, Err e) => (with_clock clk n, [], Err e)
  | (clk, Ok ts) =>
      let '(n, deps) := take_deps (with_clock clk n) in
      let w := MkWrite key (MkValue data ts deps deleted) in
      let '(rpcs, err) := OnWrite (Node_Handler n) key (write_val w) replies in
      let stored := with_store (<[key := write_stored w]> (Node_Store n)) n in
      match err with
      | Some e => (if String.eqb (Node_Mode n) "strong" then n else stored, rpcs, Err e)
      | None => (stored, rpcs, Ok ts)
      end
  end.

Lemma Node_Put_write now req rs n :
  Node_Put now req rs n =
  let '(n', rpcs, r) := node_write now (PutReq_Key req) (PutReq_Value req) false rs n in
  (n', rpcs, res_map (fun ts => MkPutResponse (Some (toProtoTS ts))) r).
Proof.
  unfold Node_Put, node_write; destruct (Clock_Send _ _) as [clk [ts|e]]; [|done].
  destruct (take_deps _) as [n1 deps], (OnWrite _ _ _ _) as [rpcs [e|]];
    by destruct (String.eqb (Node_Mode n1) "strong").
Qed.

Lemma Node_Delete_write now req rs n :
  Node_Delete now req rs n =
  let '(n', rpcs, r) := node_write now (DelReq_Key req) [] true rs n in
  (n', rpcs, res_map (fun ts => MkDeleteResponse (Some (toProtoTS ts))) r).
Proof.
  unfold Node_Delete, node_write; destruct (Clock_Send _ _) as [clk [ts|e]]; [|done].
  destruct (take_deps _) as [n1 deps], (OnWrite _ _ _ _) as [rpcs [e|]];
    by destruct (String.eqb (Node_Mode n1) "strong").
Qed.

(** The dependencies a write issued now would carry. *)
Definition pending_deps (n : Node H) : list Dependency := snd (take_deps n).

Lemma pending_deps_alt n :
  pending_deps n = match active_tracker n with
                   | Some rt => ReadTracker_reads rt
                   | None => []
                   end.
Proof. unfold pending_deps, take_deps; by destruct (active_tracker n). Qed.

Lemma pending_deps_store s n : pending_deps (with_store s n) = pending_deps n.
Proof. by rewrite !pending_deps_alt. Qed.

Lemma active_tracker_alt n n' :
  Node_Mode n' = Node_Mode n -> is_Some (Node_Tracker n') <-> is_Some (Node_Tracker n) ->
  is_Some (active_tracker n') <-> is_Some (active_tracker n).
Proof. unfold active_tracker; intros -> Ht; by destruct (String.eqb _ _). Qed.

Lemma take_deps_tracker n :
  is_Some (Node_Tracker (fst (take_deps n))) <-> is_Some (Node_Tracker n).
Proof.
  unfold take_deps, active_tracker; destruct (String.eqb _ _), (Node_Tracker n) eqn:Ht; simpl;
    by rewrite ?Ht.
Qed.

(** A write keeps the read tracker in place. *)
Lemma node_write_tracker now key data deleted rs n :
  is_Some (active_tracker (fst (fst (node_write now key data deleted rs n)))) <->
  is_Some (active_tracker n).
Proof.
  pose proof (take_deps_fst (with_clock (fst (Clock_Send now (Node_Clock n))) n)) as (_ & _ & _ & Hm & _).
  pose proof (take_deps_tracker (with_clock (fst (Clock_Send now (Node_Clock n))) n)) as Ht.
  unfold node_write; destruct (Clock_Send now (Node_Clock n)) as [clk [ts|e]]; simpl in *;
    [|by apply active_tracker_alt].
  destruct (take_deps (with_clock clk n)) as [n1 deps], (OnWrite _ _ _ _) as [rpcs [e|]]; simpl in *;
    [destruct (String.eqb _ _)|]; by apply active_tracker_alt.
Qed.

(** A write that gets a timestamp. *)
Lemma node_write_done now key data deleted rs n n' rpcs r :
  clock_wf (Node_Clock n) -> is_ok (snd (Clock_Send now (Node_Clock n))) = true ->
  node_write now key data deleted rs n = (n', rpcs, r) ->
  exists ts, let w := MkWrite key (MkValue data ts (pending_deps n) deleted) in
    ts_lt (Clock_Now (Node_Clock n)) ts /\ WallTime ts = Z.max (Clock_l (Node_Clock n)) now /\
    ts = Clock_Now (Node_Clock n') /\ (0 <= Logical ts <= maxLogical)%Z /\
    Node_Mode n' = Node_Mode n /\ Node_Handler n' = Node_Handler n /\
    Node_Buffer n' = Node_Buffer n /\ pending_deps n' = [] /\
    rpcs = fst (OnWrite (Node_Handler n) key (write_val w) rs) /\
    match snd (OnWrite (Node_Handler n) key (write_val w) rs) with
    | None => r = Ok ts /\ Node_Store n' = <[key := write_stored w]> (Node_Store n)
    | Some e => r = Err e /\
        Node_Store n' = if String.eqb (Node_Mode n) "strong" then Node_Store n
                        else <[key := write_stored w]> (Node_Store n)
    end.
Proof.
  intros Hwf Hok; unfold node_write; pose proof (Clock_Send_view now _ Hwf) as Hv.
  destruct (Clock_Send now (Node_Clock n)) as [clk [ts|e]]; [|done].
  destruct Hv as [[Hnow Hlater Hwall Hc _] _]; simpl in Hwall; rewrite max64_2 in Hwall.
  assert (Hp : snd (take_deps (with_clock clk n)) = pending_deps n).
  { unfold pending_deps, take_deps, active_tracker; simpl.
    by destruct (String.eqb _ _); [destruct (Node_Tracker n)|]. }
  assert (Hc0 : pending_deps (fst (take_deps (with_clock clk n))) = []).
  { unfold pending_deps, take_deps, active_tracker; simpl.
    destruct (String.eqb (Node_Mode n) "causal") eqn:Hm; simpl; [|by rewrite Hm].
    destruct (Node_Tracker n) eqn:Ht; simpl; rewrite Hm; [done|by rewrite Ht]. }
  pose proof (take_deps_fst (with_clock clk n)) as (Hs & Hk & Hb & Hm & Hh).
  destruct (take_deps (with_clock clk n)) as [n1 deps]; simpl in *; subst deps.
  rewrite Hh; destruct (OnWrite _ _ _ _) as [rpcs1 [e|]] eqn:Ho; intros [= <- <- <-];
    exists ts; rewrite Ho, ?Hm; simpl; split_and!; simpl;
    try destruct (String.eqb (Node_Mode n) "strong"); simpl; rewrite ?pending_deps_store; congruence || lia || done.
Qed.

(** A write is refused exactly when the clock is exhausted. *)
Lemma node_write_refused now key data deleted rs n n' rpcs r :
  clock_wf (Node_Clock n) -> node_write now key data deleted rs n = (n', rpcs, r) ->
  if ((now <=? Clock_l (Node_Clock n)) && (maxLogical <=? Clock_c (Node_Clock n)))%Z
  then r = Err errOverflow /\ n' = n /\ rpcs = []
  else is_ok (snd (Clock_Send now (Node_Clock n))) = true.
Proof.
  intros Hwf; unfold node_write; pose proof (Clock_Send_view now _ Hwf) as Hv.
  destruct (Clock_Send now (Node_Clock n)) as [clk [ts|e]]; destruct Hv as [Hv He]; simpl in He.
  - by destruct (_ && _)%bool.
  - intros [= <- <- <-]; subst clk; destruct (_ && _)%bool; simplify_eq; by destruct n.
Qed.

(** Every branch of a write. *)
Lemma node_write_spec now key data deleted rs n n' rpcs r :
  clock_wf (Node_Clock n) ->
  node_write now key data deleted rs n = (n', rpcs, r) ->
  (r = Err errOverflow /\ n' = n /\ rpcs = []) \/
  exists ts, let w := MkWrite key (MkValue data ts (pending_deps n) deleted) in
    ts_lt (Clock_Now (Node_Clock n)) ts /\ WallTime ts = Z.max (Clock_l (Node_Clock n)) now /\
    ts = Clock_Now (Node_Clock n') /\ (0 <= Logical ts <= maxLogical)%Z /\
    Node_Mode n' = Node_Mode n /\ Node_Handler n' = Node_Handler n /\
    Node_Buffer n' = Node_Buffer n /\ pending_deps n' = [] /\
    rpcs = fst (OnWrite (Node_Handler n) key (write_val w) rs) /\
    match snd (OnWrite (Node_Handler n) key (write_val w) rs) with
    | None => r = Ok ts /\ Node_Store n' = <[key := write_stored w]> (Node_Store n)
    | Some e => r = Err e /\
        Node_Store n' = if String.eqb (Node_Mode n) "strong" then Node_Store n
                        else <[key := write_stored w]> (Node_Store n)
    end.
Proof.
  intros Hwf Hw; pose proof (node_write_refused _ _ _ _ _ _ _ _ _ Hwf Hw) as Hr.
  destruct (_ && _)%bool; [by left|right; by eapply node_write_done].
Qed.

(** A write that is not refused clears the tracker. *)
Lemma node_write_active now key data deleted rs n n' rpcs r :
  node_write now key data deleted rs n = (n', rpcs, r) ->
  is_ok (snd (Clock_Send now (Node_Clock n))) = true ->
  active_tracker n' = (fun _ => NewReadTracker) <$> active_tracker n.
Proof.
  unfold node_write; destruct (Clock_Send now (Node_Clock n)) as [clk [ts|e]]; intros Hw Hok; [|done].
  assert (Ha : active_tracker (fst (take_deps (with_clock clk n))) = (fun _ => NewReadTracker) <$> active_tracker n).
  { unfold take_deps, active_tracker; simpl; destruct (String.eqb (Node_Mode n) "causal") eqn:Hm; simpl; [|by rewrite Hm].
    destruct (Node_Tracker n) eqn:Ht; simpl; by rewrite Hm. }
  destruct (take_deps _) as [n1 deps]; simpl in Ha; destruct (OnWrite _ _ _ _) as [rpcs1 [e|]]; simplify_eq; [|done].
  by destruct (String.eqb _ _).
Qed.

End lemmas.

(** A successful write, for a handler that keeps its promises. *)
Lemma node_write_ok {H} `{HandlerLaws H} now key data deleted rs (n n' : Node H) rpcs ts :
  clock_wf (Node_Clock n) ->
  node_write now key data deleted rs n = (n', rpcs, Ok ts) ->
  let v := MkValue data ts (pending_deps n) deleted in
  ts_lt (Clock_Now (Node_Clock n)) (Value_Timestamp v) /\ ts = Clock_Now (Node_Clock n') /\
  (Logical (Value_Timestamp v) <= maxLogical)%Z /\
  Node_Store n' = <[key := write_stored (MkWrite key v)]> (Node_Store n) /\
  (forall o, o ∈ rpcs -> exists deps, out_req o = buildReplicateRequest key v deps).
Proof.
  intros Hwf Hw; apply node_write_spec in Hw
    as [(? & _)|(ts' & Hlt & _ & Hts & Hlog & _ & _ & _ & _ & Hrpcs & Hr)]; [done| |done].
  destruct (snd (OnWrite _ _ _ rs)); destruct Hr as [Heq Hs]; simplify_eq.
  split_and!; [done|done|apply Hlog|done|].
  intros o Ho; apply on_write_request in Ho as (deps & _ & ->); by exists deps.
Qed.

Lemma res_map_ok {A B} (f : A -> B) r b : res_map f r = Ok b -> exists a, r = Ok a /\ b = f a.
Proof. destruct r; simpl; intros [= <-]; eauto. Qed.

Section delivery.
Context {H : Type} `{Handler H}.
Implicit Type n : Node H.

(** [n.Mode == "causal" && n.Buffer != nil]: the buffer in use. *)
Definition active_buffer (n : Node H) : option Buffer :=
  if String.eqb (Node_Mode n) "causal" then Node_Buffer n else None.

(** A delivery applied directly or through the buffer, once the clock has
    accepted its timestamp. *)
Lemma Node_Replicate_spec now req pts n :
  clock_wf (Node_Clock n) -> RR_Timestamp req = Some pts ->
  (Logical (fromProtoTS pts) <= maxLogical)%Z ->
  let w := MkWrite (RR_Key req) (request_value req (fromProtoTS pts)) in
  let '(n', r) := Node_Replicate now req n in
  Node_Mode n' = Node_Mode n /\ Node_Handler n' = Node_Handler n /\
  Node_Tracker n' = Node_Tracker n /\
  match Clock_Receive now (fromProtoTS pts) (Node_Clock n) with
  | (_, Err e) => n' = n /\ r = Err e
  | (clk, Ok _) => Node_Clock n' = clk /\
      match active_buffer n with
      | Some b =>
          let '(s, b', _) := Buffer_Receive (write_key w) (write_val w) (Node_Store n) b in
          Node_Store n' = s /\ Node_Buffer n' = Some b' /\ r = Ok (MkReplicateResponse true)
      | None =>
          Node_Store n' = apply_write (Node_Store n) w /\ Node_Buffer n' = Node_Buffer n /\
          r = Ok (MkReplicateResponse
                    (snd (Store_Apply (write_key w) (write_stored w) (Node_Store n))))
      end
  end.
Proof.
  intros Hwf Hpts Hlog; unfold Node_Replicate; rewrite Hpts.
  pose proof (Clock_Receive_view now _ _ Hwf Hlog) as Hv.
  destruct (Clock_Receive now (fromProtoTS pts) (Node_Clock n)) as [clk [ts|e]].
  - unfold active_buffer; simpl.
    destruct (if String.eqb _ _ then Node_Buffer n else None) as [b|].
    + by destruct (Buffer_Receive _ _ _ _) as [[s b'] now'].
    + unfold apply_write, write_stored, write_ts; simpl.
      destruct (Nat.eqb _ 0); rewrite ?Store_ApplyDelete_Apply;
        [|unfold request_value in *]; by destruct (Store_Apply _ _ _).
  - destruct Hv as [-> _]; by destruct n.
Qed.

(** The direct case, for a request built from a value. *)
Lemma Node_Replicate_direct now key val deps n clk ts :
  clock_wf (Node_Clock n) -> (Logical (Value_Timestamp val) <= maxLogical)%Z ->
  active_buffer n = None ->
  Clock_Receive now (Value_Timestamp val) (Node_Clock n) = (clk, Ok ts) ->
  (forall cur, Node_Store n !! key = Some cur ->
     ts_lt (Value_Timestamp cur) (Value_Timestamp val)) ->
  let req := buildReplicateRequest key val deps in
  let w := MkWrite key (request_value req (Value_Timestamp val)) in
  exists n', Node_Replicate now req n = (n', Ok (MkReplicateResponse true)) /\
    Node_Store n' = <[key := write_stored w]> (Node_Store n).
Proof.
  intros Hwf Hlog Hbuf Hrecv Hnew req w.
  pose proof (Node_Replicate_spec now req _ n Hwf eq_refl) as Hspec.
  rewrite fromProto_toReplicateTS in Hspec; specialize (Hspec Hlog).
  destruct (Node_Replicate now req n) as [n' r]; exists n'.
  rewrite Hrecv, Hbuf in Hspec; destruct Hspec as (_ & _ & _ & _ & Hs & _ & Hr).
  change (RR_Key req) with key in *.
  assert (Hacc : snd (Store_Apply key (write_stored w) (Node_Store n)) = true).
  { apply Store_Apply_accepted; rewrite write_stored_ts; exact Hnew. }
  subst w; simpl in Hr; rewrite Hacc in Hr; split; [by rewrite Hr|].
  rewrite Hs, apply_write_spec; simpl; f_equal; unfold lww.
  destruct (Node_Store n !! key) as [cur|] eqn:Hcur; [|done].
  rewrite decide_False; [done|]. rewrite write_stored_ts; apply ts_nle_lt, Hnew; done.
Qed.

End delivery.

(** ** Properties *)

(** C24: [Put] on every branch, for any handler that keeps its promises.  It is
    refused exactly when the clock has no timestamp left, and then nothing
    happens.  Otherwise it gets the clock's next timestamp; the reads recorded in
    the tracker become the dependencies of the write and are cleared; the handler
    is called with that write: the RPCs started are exactly those the handler
    starts for it, each with the key, the data and the timestamp, and [Put] fails
    exactly when the handler does, with its error and after an RPC to every peer.
    A [Get] of the key at this node then answers the data under that timestamp and
    the other keys keep their values, but for a write that failed in strong mode,
    which leaves the store as it was. *)
Theorem Node_Put_correct {H} `{HandlerLaws H} now req rs (n n' : Node H) rpcs r :
  clock_wf (Node_Clock n) -> Node_Put now req rs n = (n', rpcs, r) ->
  if ((now <=? Clock_l (Node_Clock n)) && (maxLogical <=? Clock_c (Node_Clock n)))%Z
  then r = Err errOverflow /\ n' = n /\ rpcs = []
  else exists ts,
    let deps := match active_tracker n with Some rt => ReadTracker_reads rt | None => [] end in
    let answer := OnWrite (Node_Handler n) (PutReq_Key req) (MkValue (PutReq_Value req) ts deps false) rs in
    ts_lt (Clock_Now (Node_Clock n)) ts /\ WallTime ts = Z.max (Clock_l (Node_Clock n)) now /\
    Clock_Now (Node_Clock n') = ts /\ active_tracker n' = (fun _ => NewReadTracker) <$> active_tracker n /\
    Node_Mode n' = Node_Mode n /\ Node_Handler n' = Node_Handler n /\ Node_Buffer n' = Node_Buffer n /\
    rpcs = fst answer /\
    (forall o, o ∈ rpcs -> RR_Key (out_req o) = PutReq_Key req /\
       RR_Value (out_req o) = PutReq_Value req /\ RR_Timestamp (out_req o) = Some (toReplicateTS ts)) /\
    match snd answer with
    | None => r = Ok (MkPutResponse (Some (toProtoTS ts)))
    | Some e => r = Err e /\ map out_peer rpcs = handler_peers (Node_Handler n)
    end /\
    if (negb (is_ok r) && String.eqb (Node_Mode n) "strong")%bool then Node_Store n' = Node_Store n
    else snd (Node_Get (MkGetRequest (PutReq_Key req)) n') =
           Ok (MkGetResponse (PutReq_Value req) (Some (toProtoTS ts)) true) /\
         forall k, k <> PutReq_Key req -> Node_Store n' !! k = Node_Store n !! k.
Proof.
  intros Hwf; rewrite Node_Put_write.
  destruct (node_write _ _ _ _ _ _) as [[n1 rpcs1] r1] eqn:Hw; intros [= <- <- <-].
  pose proof (node_write_refused _ _ _ _ _ _ _ _ _ Hwf Hw) as Hrefused.
  destruct (_ && _)%bool; [by destruct Hrefused as (-> & -> & ->)|].
  pose proof (node_write_active _ _ _ _ _ _ _ _ _ Hw Hrefused) as Htr.
  apply node_write_done in Hw as (ts & Hlt & Hwall & Hnow & _ & Hm & Hh & Hb & _ & -> & Hr); [|done..].
  exists ts; rewrite <- pending_deps_alt; cbn zeta; do 8 (split; [done|]).
  split; [by intros o Ho; apply on_write_request in Ho as (deps & _ & ->)|].
  destruct (snd (OnWrite _ _ _ rs)) as [e|] eqn:Ho; destruct Hr as [-> Hs]; simpl.
  - split; [split; [done|by eapply on_write_error]|].
    destruct (String.eqb _ _); [done|]; split; [|intros k Hk; by rewrite Hs, lookup_insert_ne].
    rewrite Node_Get_spec, Hs; simpl; by rewrite lookup_insert_eq.
  - split; [done|]; split; [|intros k Hk; by rewrite Hs, lookup_insert_ne].
    rewrite Node_Get_spec, Hs; simpl; by rewrite lookup_insert_eq.
Qed.

Definition c_node (mode : string) (h : AnyHandler) : Node AnyHandler :=
  NewNode mode store_New (hlc_New 100) None h.

Lemma c_node_wf mode h : clock_wf (Node_Clock (c_node mode h)).
Proof. split; simpl; unfold in_int64, maxLogical; lia. Qed.

Lemma Node_Put_correct_witness :
  let p := Node_Put 200 (MkPutRequest "k" [x61]) [nack; nack] (c_node "strong" c_strong) in
  snd p = Err errQuorum /\ map out_peer (snd (fst p)) = [1; 2] /\
  Node_Store (fst (fst p)) = store_New.
Proof.
  split; [reflexivity|].
  pose proof (Node_Put_correct 200 (MkPutRequest "k" [x61]) [nack; nack]
    (c_node "strong" c_strong) _ _ _ (c_node_wf _ _) (triple_eta _)) as Hc.
  destruct Hc as (ts & _ & _ & _ & _ & _ & _ & _ & _ & _ & [_ Hp] & Hs).
  split; [exact Hp|exact Hs].
Defined.

(** End to end: data put on one node and delivered to another (outside
    causal buffering) that has nothing newer is accepted, and a [Get] there
    answers exactly what a [Get] at the origin answers. *)
Theorem Put_reaches_peer {H} `{HandlerLaws H} now req rs (a a' b : Node H) rpcs resp o
    now' clk t :
  clock_wf (Node_Clock a) -> clock_wf (Node_Clock b) ->
  Node_Put now req rs a = (a', rpcs, Ok resp) -> PutReq_Value req <> [] ->
  o ∈ rpcs -> active_buffer b = None ->
  (let ts := Clock_Now (Node_Clock a') in
   Clock_Receive now' ts (Node_Clock b) = (clk, Ok t) /\
   (forall cur, Node_Store b !! PutReq_Key req = Some cur ->
      ts_lt (Value_Timestamp cur) ts)) ->
  exists b', Node_Replicate now' (out_req o) b = (b', Ok (MkReplicateResponse true)) /\
    snd (Node_Get (MkGetRequest (PutReq_Key req)) b') =
    snd (Node_Get (MkGetRequest (PutReq_Key req)) a').
Proof.
  intros Hwfa Hwfb; rewrite Node_Put_write.
  destruct (node_write _ _ _ _ _ _) as [[n1 rpcs1] r1] eqn:Hw; intros [= -> -> Hr1] Hne Ho Hbuf.
  apply res_map_ok in Hr1 as (ts & -> & ->); intros [Hrecv Hnew].
  apply node_write_ok in Hw as (_ & Hts & Hlog & Hsa & Hreq); [|done].
  rewrite <- Hts in *; destruct (Hreq _ Ho) as (deps & ->).
  destruct (Node_Replicate_direct now' (PutReq_Key req) _ deps b clk t Hwfb Hlog Hbuf
    Hrecv Hnew) as (b' & -> & Hsb).
  exists b'; split; [done|]; rewrite !Node_Get_spec, Hsb, Hsa; simpl.
  rewrite !lookup_insert_eq; unfold write_stored, write_ts; simpl.
  by destruct (PutReq_Value req).
Qed.

Lemma Put_reaches_peer_witness :
  let a := c_node "strong" c_strong in
  let p := Node_Put 200 (MkPutRequest "k" [x61]) [ack; nack] a in
  exists b', Node_Replicate 150 (buildReplicateRequest "k" (c_val 200 x61) []) a =
               (b', Ok (MkReplicateResponse true)) /\
    snd (Node_Get (MkGetRequest "k") b') = snd (Node_Get (MkGetRequest "k") (fst (fst p))).
Proof.
  refine (Put_reaches_peer 200 (MkPutRequest "k" [x61]) [ack; nack]
    (c_node "strong" c_strong) (fst (fst (Node_Put 200 (MkPutRequest "k" [x61]) [ack; nack]
      (c_node "strong" c_strong)))) (c_node "strong" c_strong) _
    (MkPutResponse (Some (MkKvTS 200 0)))
    (MkOutgoing 1 None (buildReplicateRequest "k" (c_val 200 x61) []))
    150 (MkClock 200 1) (MkTimestamp 200 1)
    (c_node_wf _ _) (c_node_wf _ _) eq_refl _ _ eq_refl _).
  - discriminate.
  - left.
  - split; [reflexivity|]. intros cur Hc; simpl in Hc; discriminate Hc.
Defined.

(** An empty value is stored at the origin, where [Get] finds it, but is
    replicated as a deletion: after the delivery the peer answers not found.
    The wire format carries no tombstone flag and [Replicate] derives it from
    the length of the value. *)
Theorem empty_Put_replicates_as_delete {H} `{HandlerLaws H} now key rs (a a' b : Node H)
    rpcs resp o now' clk t :
  clock_wf (Node_Clock a) -> clock_wf (Node_Clock b) ->
  Node_Put now (MkPutRequest key []) rs a = (a', rpcs, Ok resp) ->
  o ∈ rpcs -> active_buffer b = None ->
  (let ts := Clock_Now (Node_Clock a') in
   Clock_Receive now' ts (Node_Clock b) = (clk, Ok t) /\
   (forall cur, Node_Store b !! key = Some cur -> ts_lt (Value_Timestamp cur) ts)) ->
  (exists t, snd (Node_Get (MkGetRequest key) a') = Ok (MkGetResponse [] (Some t) true)) /\
  exists b', Node_Replicate now' (out_req o) b = (b', Ok (MkReplicateResponse true)) /\
    snd (Node_Get (MkGetRequest key) b') = Ok (MkGetResponse [] None false).
Proof.
  intros Hwfa Hwfb; rewrite Node_Put_write; simpl.
  destruct (node_write _ _ _ _ _ _) as [[n1 rpcs1] r1] eqn:Hw; intros [= -> -> Hr1] Ho Hbuf.
  apply res_map_ok in Hr1 as (ts & -> & ->); intros [Hrecv Hnew].
  apply node_write_ok in Hw as (_ & Hts & Hlog & Hsa & Hreq); [|done].
  rewrite <- Hts in *; destruct (Hreq _ Ho) as (deps & ->); split.
  - exists (toProtoTS ts); rewrite Node_Get_spec, Hsa; simpl; by rewrite lookup_insert_eq.
  - destruct (Node_Replicate_direct now' key _ deps b clk t Hwfb Hlog Hbuf Hrecv Hnew)
      as (b' & -> & Hsb).
    exists b'; split; [done|]. rewrite Node_Get_spec, Hsb; simpl; by rewrite lookup_insert_eq.
Qed.

Lemma empty_Put_replicates_as_delete_witness :
  let a := c_node "strong" c_strong in
  let p := Node_Put 200 (MkPutRequest "k" []) [ack; nack] a in
  (exists t, snd (Node_Get (MkGetRequest "k") (fst (fst p))) =
             Ok (MkGetResponse [] (Some t) true)) /\
  exists b', Node_Replicate 150
      (buildReplicateRequest "k" (MkValue [] (MkTimestamp 200 0) [] false) []) a =
      (b', Ok (MkReplicateResponse true)) /\
    snd (Node_Get (MkGetRequest "k") b') = Ok (MkGetResponse [] None false).
Proof.
  refine (empty_Put_replicates_as_delete 200 "k" [ack; nack]
    (c_node "strong" c_strong) (fst (fst (Node_Put 200 (MkPutRequest "k" []) [ack; nack]
      (c_node "strong" c_strong)))) (c_node "strong" c_strong) _
    (MkPutResponse (Some (MkKvTS 200 0)))
    (MkOutgoing 1 None (buildReplicateRequest "k" (MkValue [] (MkTimestamp 200 0) [] false) []))
    150 (MkClock 200 1) (MkTimestamp 200 1)
    (c_node_wf _ _) (c_node_wf _ _) eq_refl _ eq_refl _).
  - left.
  - split; [reflexivity|]. intros cur Hc; simpl in Hc; discriminate Hc.
Defined.

(** A series of reads at one node. *)
Definition Node_Gets {H} `{Handler H} (keys : list string) (n : Node H) : Node H :=
  foldl (fun n key => fst (Node_Get (MkGetRequest key) n)) n keys.

(** The dependency a read of a key records: its version, if it is found. *)
Definition read_dep {H} (n : Node H) (key : string) : option Dependency :=
  match Node_Store n !! key with
  | Some v => if Value_Deleted v then None else Some (MkDependency key (Value_Timestamp v))
  | None => None
  end.

Lemma Node_Get_deps {H} `{Handler H} key (n : Node H) :
  pending_deps (fst (Node_Get (MkGetRequest key) n)) =
  pending_deps n ++ match active_tracker n with
                    | Some _ => match read_dep n key with Some d => [d] | None => [] end
                    | None => []
                    end /\
  Node_Mode (fst (Node_Get (MkGetRequest key) n)) = Node_Mode n /\
  Node_Handler (fst (Node_Get (MkGetRequest key) n)) = Node_Handler n /\
  (is_Some (active_tracker n) ->
     is_Some (active_tracker (fst (Node_Get (MkGetRequest key) n)))) /\
  (active_tracker n = None ->
     fst (Node_Get (MkGetRequest key) n) = n).
Proof.
  unfold Node_Get, read_dep, Store_Get; rewrite !pending_deps_alt; simpl.
  destruct (Node_Store n !! key) as [v|]; [destruct (Value_Deleted v)|]; simpl;
    destruct (active_tracker n) as [rt|] eqn:Ha; rewrite ?app_nil_r, ?Ha; split_and!; try done;
    unfold active_tracker in *; simpl; by destruct (String.eqb _ _).
Qed.

Lemma Node_Gets_deps {H} `{Handler H} keys (n : Node H) :
  is_Some (active_tracker n) ->
  pending_deps (Node_Gets keys n) = pending_deps n ++ omap (read_dep n) keys /\
  Node_Store (Node_Gets keys n) = Node_Store n /\
  Node_Clock (Node_Gets keys n) = Node_Clock n /\
  Node_Handler (Node_Gets keys n) = Node_Handler n.
Proof.
  revert n; induction keys as [|key keys IH]; intros n Ha; simpl; [by rewrite app_nil_r|].
  pose proof (Node_Get_deps key n) as (Hd & _ & Hh & Ha' & _).
  pose proof (Node_Get_frame (MkGetRequest key) n) as (Hs & Hc & _).
  destruct (IH _ (Ha' Ha)) as (IH1 & IH2 & IH3 & IH4).
  split_and!; [|congruence..]. etrans; [exact IH1|]. rewrite Hd.
  destruct Ha as [rt ->]; rewrite <- app_assoc; f_equal.
  assert (Hr : forall k, read_dep (fst (Node_Get (MkGetRequest key) n)) k = read_dep n k).
  { intros k; unfold read_dep; by rewrite Hs. }
  rewrite (list_omap_ext _ (read_dep n) keys keys) by (by apply Forall_Forall2_diag, Forall_forall).
  by destruct (read_dep n key).
Qed.

(** The dependencies of a causal write: after reading some keys, a write
    sends to every peer, as dependencies, the pending ones and then the version
    of each key read and found, in the order of the reads; the dependencies
    the peer decodes are those, and the next write carries none of them. *)
Theorem causal_write_dependencies peers opts keys now req (n n' : Node AnyHandler) rpcs resp o :
  clock_wf (Node_Clock n) -> is_Some (active_tracker n) ->
  Node_Handler n = HCausal (MkCausal peers opts) ->
  Node_Put now req [] (Node_Gets keys n) = (n', rpcs, Ok resp) ->
  map out_peer rpcs = peers /\ pending_deps n' = [] /\
  (o ∈ rpcs -> fromProtoDeps (RR_Deps (out_req o)) =
     pending_deps n ++ omap (read_dep n) keys).
Proof.
  intros Hwf Ha Hh; rewrite Node_Put_write.
  destruct (Node_Gets_deps keys n Ha) as (Hd & _ & Hc & Hh'); rewrite Hh in Hh'.
  destruct (node_write _ _ _ _ _ _) as [[n1 rpcs1] r1] eqn:Hw; intros [= -> -> Hr1].
  apply res_map_ok in Hr1 as (ts & -> & ->).
  apply node_write_spec in Hw
    as [(? & _)|(ts' & _ & _ & _ & _ & _ & _ & _ & Hp & -> & _)]; [done| |by rewrite Hc].
  rewrite Hh'; split_and!; [apply sends_peers|done|].
  intros Ho%sends_req; rewrite Ho, fromProtoDeps_build; exact Hd.
Qed.

Definition c_causal_node : Node AnyHandler :=
  with_store {["x" := c_val 7 x78; "y" := c_val 8 x79; "z" := tombstone (MkTimestamp 9 0)]}
    (NewNode "causal" store_New (hlc_New 100) (Some buffer_New)
       (HCausal (MkCausal [1; 2] c_opts))).

Lemma causal_write_dependencies_witness :
  let p := Node_Put 200 (MkPutRequest "k" [x61]) [] (Node_Gets ["x"; "z"; "y"] c_causal_node) in
  map out_peer (snd (fst p)) = [1; 2] /\ pending_deps (fst (fst p)) = [] /\
  omap (read_dep c_causal_node) ["x"; "z"; "y"] =
    [MkDependency "x" (MkTimestamp 7 0); MkDependency "y" (MkTimestamp 8 0)].
Proof.
  destruct (causal_write_dependencies [1; 2] c_opts ["x"; "z"; "y"] 200 (MkPutRequest "k" [x61])
    c_causal_node _ _ (MkPutResponse (Some (MkKvTS 200 0)))
    (MkOutgoing 1 None (buildReplicateRequest "k" (c_val 200 x61) []))
    (ltac:(split; simpl; unfold in_int64, maxLogical; lia) : clock_wf (Node_Clock c_causal_node))
    ltac:(by eexists) eq_refl (triple_eta _)) as (Hp & Hd & _).
  split; [exact Hp|]. split; [exact Hd|]. reflexivity.
Defined.
