(* ===== verification/Cluster.v ===== *)
(** * A cluster of nodes ([src/cmd/node/main.go], [src/internal/replication],
      [src/internal/server])

    Nodes started by [main] in an asynchronous mode (eventual or causal), and
    the replication RPCs in flight between them.  A run is a list of labels:
    client calls at a node, deliveries of RPCs in any order, losses.  [step] is
    a function of the label, so a run can be evaluated. *)

From S2P Require Import Prelude Hlc Store Buffer Wire Replication Server.

(** ** Starting nodes *)

Definition validModes : list string := ["eventual"; "causal"; "strong"].

Fixpoint contains (ss : list string) (s : string) : bool :=
  match ss with
  | [] => false
  | v :: ss => if String.eqb v s then true else contains ss s
  end.

(** What [main] builds from its flags: [None] is the fatal exit on an invalid
    mode (the panic of [NewHandler] is then unreachable). *)
Definition start_node (mode : string) (peers : list peer) (opts : Options) (now : Z)
    : option (Node AnyHandler) :=
  if negb (contains validModes mode) then None
  else
    let s := store_New in
    let clk := hlc_New now in
    let buf := if String.eqb mode "causal" then Some buffer_New else None in
    match NewHandler mode peers opts with
    | Some handler => Some (NewNode mode s clk buf handler)
    | None => None
    end.

(** ** The cluster *)

Record cluster := MkCluster {
  nodes : list (Node AnyHandler);
  net : list (peer * ReplicateRequest)
}.

(** Node [i] of [n] has every other node as a peer. *)
Definition other_peers (n i : nat) : list peer :=
  List.filter (fun j => negb (Nat.eqb j i)) (seq 0 n).

Definition init_cluster (mode : string) (opts : Options) (nows : list Z) : option cluster :=
  ns ← mapM (fun p => start_node mode (other_peers (length nows) (fst p)) opts (snd p))
         (imap pair nows);
  Some (MkCluster ns []).

Inductive label :=
| LPut (i : nat) (now : Z) (req : PutRequest)
| LGet (i : nat) (req : GetRequest)
| LDelete (i : nat) (now : Z) (req : DeleteRequest)
| LDeliver (m : nat) (now : Z)   (* the [m]-th RPC in flight *)
| LDrop (m : nat).

Definition messages (rpcs : list outgoing) : list (peer * ReplicateRequest) :=
  map (fun o => (out_peer o, out_req o)) rpcs.

Definition step (lb : label) (c : cluster) : option cluster :=
  match lb with
  | LPut i now req =>
      n ← nodes c !! i;
      let '(n', rpcs, _) := Node_Put now req [] n in
      Some (MkCluster (<[i := n']> (nodes c)) (net c ++ messages rpcs))
  | LGet i req =>
      n ← nodes c !! i;
      let '(n', _) := Node_Get req n in
      Some (MkCluster (<[i := n']> (nodes c)) (net c))
  | LDelete i now req =>
      n ← nodes c !! i;
      let '(n', rpcs, _) := Node_Delete now req [] n in
      Some (MkCluster (<[i := n']> (nodes c)) (net c ++ messages rpcs))
  | LDeliver m now =>
      msg ← net c !! m;
      n ← nodes c !! fst msg;
      let '(n', _) := Node_Replicate now (snd msg) n in
      Some (MkCluster (<[fst msg := n']> (nodes c)) (delete m (net c)))
  | LDrop m =>
      _ ← net c !! m;
      Some (MkCluster (nodes c) (delete m (net c)))
  end.

Fixpoint run (ls : list label) (c : cluster) : option cluster :=
  match ls with
  | [] => Some c
  | lb :: ls => c' ← step lb c; run ls c'
  end.

(** ** Assumptions on runs

    A wall-clock reading is an int64 and not before the epoch. *)
Definition reading_ok (now : Z) : bool := ((0 <=? now) && (now <=? 9223372036854775807))%Z.

(** A delivery whose timestamp does not tie with the receiver's clock while
    running ahead of it (see [tie_behind]). *)
Definition no_tie (lb : label) (c : cluster) : bool :=
  match lb with
  | LDeliver m now =>
      match net c !! m with
      | Some (d, req) =>
          match nodes c !! d, RR_Timestamp req with
          | Some n, Some pts => negb (tie_behind (Node_Clock n) now (fromProtoTS pts))
          | _, _ => true
          end
      | None => true
      end
  | _ => true
  end.

Definition label_now (lb : label) : option Z :=
  match lb with
  | LPut _ now _ | LDelete _ now _ | LDeliver _ now => Some now
  | _ => None
  end.

Definition label_ok (lb : label) (c : cluster) : bool :=
  match label_now lb with Some now => reading_ok now | None => true end && no_tie lb c.

Fixpoint run_ok (ls : list label) (c : cluster) : bool :=
  match ls with
  | [] => true
  | lb :: ls => label_ok lb c &&
      match step lb c with Some c' => run_ok ls c' | None => true end
  end.

(** ** Invariant of a node in an asynchronous mode *)

Definition async (mode : string) : Prop := mode = "eventual" \/ mode = "causal".

Definition held {H} (n : Node H) : list write :=
  match active_buffer n with Some b => Buffer_held b | None => [] end.

Record node_safe (mode : string) (peers : list peer) (opts : Options)
    (n : Node AnyHandler) : Prop := {
  ns_async : async mode;
  ns_mode : Node_Mode n = mode;
  ns_handler : NewHandler mode peers opts = Some (Node_Handler n);
  ns_buffer : is_Some (active_buffer n) <-> mode = "causal";
  ns_clock : clock_wf (Node_Clock n);
  ns_store_le : forall key v, Node_Store n !! key = Some v ->
    ts_le (Value_Timestamp v) (Clock_Now (Node_Clock n));
  ns_held_le : Forall (fun w => ts_le (write_ts w) (Clock_Now (Node_Clock n))) (held n);
  ns_store_nonneg : store_nonneg (Node_Store n);
  ns_held_nonneg : Forall write_nonneg (held n);
  ns_closed : causally_closed (Node_Store n);
  ns_tracker : mode = "causal" -> is_Some (active_tracker n);
  ns_pending : depsSatisfied (Node_Store n) (pending_deps n) = true
}.

(** What a request in flight looks like. *)
Record msg_ok (mode : string) (req : ReplicateRequest) (pts : repb_HLCTimestamp) : Prop := {
  mo_ts : RR_Timestamp req = Some pts;
  mo_wall : in_int64 (repb_WallTime pts);
  mo_logical : (0 <= repb_Logical pts <= maxLogical)%Z;
  mo_nonneg : ts_le zeroTimestamp (fromProtoTS pts);
  mo_deps : mode = "eventual" -> RR_Deps req = []
}.

Definition request_write (req : ReplicateRequest) (pts : repb_HLCTimestamp) : write :=
  MkWrite (RR_Key req) (request_value req (fromProtoTS pts)).

Lemma async_OnWrite mode peers opts h key val rs :
  async mode -> NewHandler mode peers opts = Some h ->
  (mode = "eventual" -> Value_Deps val = []) ->
  OnWrite h key val rs =
    (sends opts peers (buildReplicateRequest key val (Value_Deps val)), None).
Proof.
  intros [->| ->] [= <-] Hd; simpl; [|done].
  unfold EventualHandler_OnWrite; by rewrite Hd.
Qed.

Lemma eventual_pending mode n :
  mode = "eventual" -> Node_Mode (H:=AnyHandler) n = mode -> pending_deps n = [].
Proof. intros -> Hm; rewrite pending_deps_alt; unfold active_tracker; by rewrite Hm. Qed.

(** ** One handler preserves the invariant *)

Lemma reading_ok_spec now : reading_ok now = true -> in_int64 now /\ (0 <= now)%Z.
Proof. unfold reading_ok, in_int64; intros H; bool_facts; lia. Qed.

Lemma active_buffer_frame {H} (n n' : Node H) :
  Node_Buffer n' = Node_Buffer n -> Node_Mode n' = Node_Mode n ->
  active_buffer n' = active_buffer n.
Proof. unfold active_buffer; by intros -> ->. Qed.

Lemma other_peers_spec N i j : j ∈ other_peers N i <-> j < N /\ j <> i.
Proof.
  unfold other_peers; rewrite list_elem_of_In, filter_In, in_seq, negb_true_iff, Nat.eqb_neq.
  lia.
Qed.

(** A local write, unless the clock is exhausted, is the application of a write
    later than everything at the node, with its dependencies in the store. *)
Record local_write (opts : Options) (peers : list peer) (n : Node AnyHandler)
    (w : write) (n' : Node AnyHandler) (rpcs : list outgoing) : Prop := {
  lw_rpcs : rpcs = sends opts peers
              (buildReplicateRequest (write_key w) (write_val w) (write_deps w));
  lw_deps : write_deps w = pending_deps n;
  lw_store : Node_Store n' = apply_write (Node_Store n) w;
  lw_satisfied : depsSatisfied (Node_Store n) (write_deps w) = true;
  lw_buffer : active_buffer n' = active_buffer n;
  lw_later : ts_lt (Clock_Now (Node_Clock n)) (write_ts w);
  lw_clock : write_ts w = Clock_Now (Node_Clock n');
  lw_typed : in_int64 (WallTime (write_ts w)) /\ (0 <= Logical (write_ts w) <= maxLogical)%Z;
  lw_nonneg : write_nonneg w;
  lw_pending : pending_deps n' = [];
  lw_tracker : is_Some (active_tracker n') <-> is_Some (active_tracker n)
}.

Lemma node_write_local mode peers opts n now key data del n' rpcs r :
  node_safe mode peers opts n -> reading_ok now = true ->
  node_write now key data del [] n = (n', rpcs, r) ->
  (r = Err errOverflow /\ n' = n /\ rpcs = []) \/
  exists ts, r = Ok ts /\ let w := MkWrite key (MkValue data ts (pending_deps n) del) in
    local_write opts peers n w n' rpcs /\ Node_Mode n' = Node_Mode n /\
    Node_Handler n' = Node_Handler n /\ clock_wf (Node_Clock n').
Proof.
  intros Hs [Hnow Hpos]%reading_ok_spec Hw; pose proof (ns_clock _ _ _ _ Hs) as Hwf.
  pose proof (node_write_tracker now key data del [] n) as Htr; rewrite Hw in Htr; simpl in Htr.
  apply node_write_spec in Hw
    as [?|(ts & Hlt & Hwall & Hts & Hlog & Hm & Hh & Hb & Hp & Hrpcs & Hr)]; [by left| |done].
  assert (Hev : mode = "eventual" -> pending_deps n = [])
    by (intros He; eapply eventual_pending; [done|by apply (ns_mode _ _ _ _ Hs)]).
  rewrite (async_OnWrite mode peers opts) in Hr, Hrpcs by (try apply Hs; done).
  destruct Hr as [-> Hst]; right; exists ts; split; [done|].
  assert (Hty : in_int64 (WallTime ts)).
  { rewrite Hwall; destruct Hwf; unfold in_int64 in *; lia. }
  split_and!; [|done|done|].
  - split; try done; try apply Hs.
    + rewrite Hst, apply_write_spec; simpl; f_equal; unfold lww.
      destruct (Node_Store n !! key) as [v|] eqn:Hv; [|done].
      rewrite decide_False; [done|]; rewrite write_stored_ts; apply ts_nle_lt.
      eapply ts_le_lt_trans; [by eapply ns_store_le|done].
    + by apply active_buffer_frame.
    + unfold write_nonneg, write_ts; rewrite ts_le_alt; simpl; lia.
  - rewrite Hts in Hlog, Hty; by split.
Qed.

Lemma local_write_safe mode peers opts n w n' rpcs :
  node_safe mode peers opts n -> local_write opts peers n w n' rpcs ->
  Node_Mode n' = Node_Mode n -> Node_Handler n' = Node_Handler n ->
  clock_wf (Node_Clock n') -> node_safe mode peers opts n'.
Proof.
  intros Hs Hl Hm Hh Hwf; destruct Hl as [_ _ Hst Hsat Hb Hlt Hck _ Hnn Hp Htr].
  assert (Hle : ts_le (Clock_Now (Node_Clock n)) (Clock_Now (Node_Clock n')))
    by (rewrite <- Hck; by right).
  split; unfold held in *; rewrite ?Hm, ?Hh, ?Hb, ?Hst, ?Hp, ?Htr; try apply Hs; try done.
  - intros key v; rewrite apply_write_lookup; case_decide; subst.
    + destruct (lww_ge (Node_Store n !! write_key w) (write_stored w)) as (v' & Hv' & _).
      rewrite Hv'; intros [= <-]; revert Hv'; unfold lww.
      destruct (Node_Store n !! write_key w) as [v0|] eqn:Hv0; [case_decide|];
        intros [= <-]; rewrite ?write_stored_ts, ?Hck; [|by left..].
      etrans; [by eapply ns_store_le|done].
    + intros Hv; etrans; [by eapply ns_store_le|done].
  - eapply Forall_impl; [exact (ns_held_le _ _ _ _ Hs)|].
    intros w' Hw'; etrans; [exact Hw'|done].
  - apply apply_write_nonneg; [apply Hs|done].
  - apply apply_write_closed; try apply Hs; done.
Qed.

(** A delivery, unless the clock refuses it, applies some writes in causal
    order and keeps the others, the new one among them. *)
Record delivery (n : Node AnyHandler) (w : write) (n' : Node AnyHandler) (ws : list write)
    : Prop := {
  dl_run : causal_run (Node_Store n) ws (Node_Store n');
  dl_held : ws ++ held n' ≡ₚ held n ++ [w];
  dl_blocked : blocked (Node_Store n') (held n') \/
    (ws = [] /\ Node_Store n' = Node_Store n /\ held n' = held n ++ [w] /\
     depsSatisfied (Node_Store n) (write_deps w) = false);
  dl_clock : ts_le (Clock_Now (Node_Clock n)) (Clock_Now (Node_Clock n'));
  dl_later : ts_lt (write_ts w) (Clock_Now (Node_Clock n'));
  dl_pending : pending_deps n' = pending_deps n;
  dl_tracker : active_tracker n' = active_tracker n
}.

Lemma node_replicate_delivery mode peers opts n now req pts n' r :
  node_safe mode peers opts n -> reading_ok now = true -> msg_ok mode req pts ->
  tie_behind (Node_Clock n) now (fromProtoTS pts) = false ->
  Node_Replicate now req n = (n', r) ->
  (n' = n /\ is_ok r = false) \/
  (is_ok r = true /\ Node_Mode n' = Node_Mode n /\ Node_Handler n' = Node_Handler n /\
   clock_wf (Node_Clock n') /\ (is_Some (active_buffer n') <-> is_Some (active_buffer n)) /\
   exists ws, delivery n (request_write req pts) n' ws).
Proof.
  intros Hs [Hnow _]%reading_ok_spec Hm Htie Hr; pose proof (ns_clock _ _ _ _ Hs) as Hwf.
  pose proof (Node_Replicate_spec now req pts n Hwf (mo_ts _ _ _ Hm)
    (proj2 (mo_logical _ _ _ Hm))) as Hspec; rewrite Hr in Hspec.
  destruct Hspec as (Hmo & Hh & Ht & Hspec).
  pose proof (clock_step_view (Node_Clock n) (EvReceive now (fromProtoTS pts)) Hwf) as Hv.
  pose proof (clock_step_wf (Node_Clock n) (EvReceive now (fromProtoTS pts))) as Hwf'.
  assert (Hty : event_typed (EvReceive now (fromProtoTS pts))).
  { destruct Hm; repeat split; unfold in_int64, in_int32, maxLogical in *; simpl; lia. }
  simpl in Hv, Hwf'; destruct (Clock_Receive _ _ _) as [clk [t|e]]; [right|left].
  2: { destruct Hspec as [-> ->]; done. }
  specialize (Hv Hty) as [[Hnowt Hlater _ _ [_ Hmsg]] _]; specialize (Hmsg Htie).
  specialize (Hwf' _ _ Hwf Hty eq_refl).
  destruct Hspec as [Hck Hspec]; rewrite <- Hck in *; subst t.
  assert (Htr : active_tracker n' = active_tracker n)
    by (unfold active_tracker; by rewrite Hmo, Ht).
  assert (Hpend : pending_deps n' = pending_deps n).
  { rewrite !pending_deps_alt; unfold active_tracker; by rewrite Hmo, Ht. }
  set (w := request_write req pts); unfold request_write in w.
  destruct (active_buffer n) as [b|] eqn:Hb.
  - destruct (Buffer_Receive _ _ _ b) as [[s b'] now'] eqn:Hrecv.
    destruct Hspec as (Hst & Hb' & ->).
    assert (Hab' : active_buffer n' = Some b').
    { unfold active_buffer in *; rewrite Hmo, Hb'; by destruct (String.eqb _ _). }
    apply Buffer_Receive_spec in Hrecv as (ws & Hrun & Hperm & Hd & Hif).
    do 4 (split; [done|]); split; [by rewrite Hab'|]. exists ws.
    split; unfold held; rewrite ?Hab', ?Hb, ?Hst; try done; [|by right].
    destruct now'; [left; apply Hif|right].
    destruct Hif as [-> Hh']; inversion Hrun; subst; done.
  - destruct Hspec as (Hst & Hb' & ->).
    assert (Hab' : active_buffer n' = None).
    { unfold active_buffer in *; by rewrite Hmo, Hb'. }
    do 4 (split; [done|]); split; [by rewrite Hab'|]. exists [w].
    assert (Hdeps : depsSatisfied (Node_Store n) (write_deps w) = true).
    { destruct (ns_async _ _ _ _ Hs) as [He|Hc].
      - unfold w, write_deps, request_value; simpl; by rewrite (mo_deps _ _ _ Hm He).
      - apply (ns_buffer _ _ _ _ Hs) in Hc; rewrite Hb in Hc; by destruct Hc. }
    split; unfold held; rewrite ?Hab', ?Hb, ?Hst; try done; [|left; constructor|by right].
    econstructor; [done|constructor].
Qed.

Lemma causal_run_le st ws st' : causal_run st ws st' -> store_le st st'.
Proof. intros H; rewrite (causal_run_apply _ _ _ H); apply apply_writes_le. Qed.

(** Where a stored value comes from. *)
Lemma causal_run_from st ws st' key v :
  causal_run st ws st' -> st' !! key = Some v ->
  st !! key = Some v \/ exists w, w ∈ ws /\ Value_Timestamp v = write_ts w.
Proof.
  induction 1 as [|st w ws st' _ _ IH]; intros Hv; [by left|].
  destruct (IH Hv) as [Hv'|(w' & Hw' & Ht)]; [|right; exists w'; split; [by right|done]].
  rewrite apply_write_lookup in Hv'; case_decide; [|by left].
  revert Hv'; unfold lww; destruct (st !! key); [case_decide|]; intros [= <-];
    [by left|right..]; exists w; rewrite write_stored_ts; (split; [left|done]).
Qed.

Lemma delivery_safe mode peers opts n w n' ws :
  node_safe mode peers opts n -> delivery n w n' ws -> write_nonneg w ->
  Node_Mode n' = Node_Mode n -> Node_Handler n' = Node_Handler n ->
  clock_wf (Node_Clock n') -> (is_Some (active_buffer n') <-> is_Some (active_buffer n)) ->
  node_safe mode peers opts n'.
Proof.
  intros Hs [Hrun Hperm _ Hck Hlt Hpend Htr] Hnn Hm Hh Hwf Hbuf.
  assert (Hle : Forall (fun w => ts_le (write_ts w) (Clock_Now (Node_Clock n')))
                  (ws ++ held n')).
  { rewrite Hperm; apply Forall_app; split; [|constructor; [by right|constructor]].
    eapply Forall_impl; [exact (ns_held_le _ _ _ _ Hs)|].
    intros w' Hw'; etrans; [exact Hw'|done]. }
  assert (Hpos : Forall write_nonneg (ws ++ held n')).
  { rewrite Hperm; apply Forall_app; split; [apply Hs|]. constructor; [done|constructor]. }
  apply Forall_app in Hle as [Hle1 Hle2], Hpos as [Hpos1 Hpos2].
  destruct (causal_run_closed _ _ _ Hrun (ns_closed _ _ _ _ Hs)
    (ns_store_nonneg _ _ _ _ Hs) Hpos1) as [Hcl Hst].
  split; rewrite ?Hm, ?Hh, ?Hpend, ?Hbuf, ?Htr; try apply Hs; try done.
  - intros key v Hv; apply (causal_run_from _ _ _ _ _ Hrun) in Hv as [Hv|(w' & Hw' & ->)].
    + etrans; [by eapply ns_store_le|done].
    + rewrite Forall_forall in Hle1; by apply Hle1.
  - eapply depsSatisfied_mono; [by eapply causal_run_le|done|apply Hs].
Qed.

Lemma Node_Get_safe mode peers opts key n :
  node_safe mode peers opts n ->
  let n' := fst (Node_Get (MkGetRequest key) n) in
  node_safe mode peers opts n' /\ Node_Store n' = Node_Store n /\ held n' = held n /\
  Node_Clock n' = Node_Clock n.
Proof.
  intros Hs; pose proof (Node_Get_deps key n) as (Hd & Hm & Hh & Htr & _).
  pose proof (Node_Get_frame (MkGetRequest key) n) as (Hst & Hc & Hb); cbn zeta.
  pose proof (active_buffer_frame _ _ Hb Hm) as Hab.
  split; [|unfold held; by rewrite Hab].
  split; unfold held; rewrite ?Hm, ?Hh, ?Hst, ?Hc, ?Hab; try apply Hs.
  { intros Hc'; by apply Htr, Hs. }
  rewrite Hd, depsSatisfied_spec, Forall_app, <- depsSatisfied_spec; split; [apply Hs|].
  destruct (active_tracker n); [|constructor].
  unfold read_dep; destruct (Node_Store n !! key) as [v|] eqn:Hv; [|constructor].
  destruct (Value_Deleted v); [constructor|]; constructor; [|constructor].
  unfold version, Store_GetVersion; simpl; rewrite Hv; by left.
Qed.

(** ** The cluster invariant *)

Record cluster_safe (mode : string) (opts : Options) (N : nat) (c : cluster) : Prop := {
  cs_length : length (nodes c) = N;
  cs_nodes : forall i n, nodes c !! i = Some n -> node_safe mode (other_peers N i) opts n;
  cs_net : Forall (fun m => exists pts, msg_ok mode (snd m) pts) (net c)
}.

Lemma local_write_msgs mode peers opts n w n' rpcs :
  node_safe mode peers opts n -> local_write opts peers n w n' rpcs ->
  messages rpcs = map (fun p => (p, buildReplicateRequest (write_key w) (write_val w)
                                      (write_deps w))) peers /\
  Forall (fun m => exists pts, msg_ok mode (snd m) pts) (messages rpcs).
Proof.
  intros Hs Hl; destruct Hl as [-> Hd _ _ _ _ _ [Hw Hlog] Hnn _].
  unfold messages, sends; rewrite map_map; simpl; split; [done|].
  apply Forall_forall; intros m; rewrite list_elem_of_In, in_map_iff.
  intros (p & <- & _); exists (toReplicateTS (write_ts w)); split; simpl; try done.
  - by rewrite fromProto_toReplicateTS.
  - intros He; rewrite Hd, (eventual_pending mode); [done|done|apply Hs].
Qed.

Lemma cluster_safe_insert mode opts N c i n n' msgs :
  cluster_safe mode opts N c -> nodes c !! i = Some n ->
  node_safe mode (other_peers N i) opts n' ->
  Forall (fun m => exists pts, msg_ok mode (snd m) pts) msgs ->
  cluster_safe mode opts N (MkCluster (<[i := n']> (nodes c)) msgs).
Proof.
  intros [Hl Hn _] Hi Hs Hm; split; simpl; [by rewrite length_insert| |done].
  intros j m [[<- <-]|[_ ?]]%insert_lookup_cases; auto.
Qed.

(** The write a label asks for: node, key, data and deletion flag. *)
Definition label_write (lb : label) : option (nat * string * list byte * bool) :=
  match lb with
  | LPut i _ req => Some (i, PutReq_Key req, PutReq_Value req, false)
  | LDelete i _ req => Some (i, DelReq_Key req, [], true)
  | _ => None
  end.

(** The write a step originates, with its node: none when the clock refuses. *)
Definition originated (lb : label) (c : cluster) : list (nat * write) :=
  match label_write lb, label_now lb with
  | Some (i, key, data, del), Some now =>
      match nodes c !! i with
      | Some n =>
          match node_write now key data del [] n with
          | (_, _, Ok ts) => [(i, MkWrite key (MkValue data ts (pending_deps n) del))]
          | _ => []
          end
      | None => []
      end
  | _, _ => []
  end.

(** What one step of an asynchronous cluster does, [new] being the writes it
    originates. *)
Inductive effect (mode : string) (opts : Options) (N : nat) (lb : label) (c c' : cluster)
    (new : list (nat * write)) : Prop :=
| ef_write i n w n' rpcs :
    label_write lb = Some (i, write_key w, Value_Data (write_val w),
                           Value_Deleted (write_val w)) ->
    nodes c !! i = Some n -> local_write opts (other_peers N i) n w n' rpcs ->
    c' = MkCluster (<[i := n']> (nodes c)) (net c ++ messages rpcs) ->
    new = [(i, w)] -> effect mode opts N lb c c' new
| ef_read i n key :
    nodes c !! i = Some n ->
    c' = MkCluster (<[i := fst (Node_Get (MkGetRequest key) n)]> (nodes c)) (net c) ->
    new = [] -> effect mode opts N lb c c' new
| ef_refused : c' = c -> new = [] -> effect mode opts N lb c c' new
| ef_deliver m now i req pts n n' ws :
    lb = LDeliver m now -> net c !! m = Some (i, req) -> msg_ok mode req pts ->
    nodes c !! i = Some n -> delivery n (request_write req pts) n' ws ->
    c' = MkCluster (<[i := n']> (nodes c)) (delete m (net c)) ->
    new = [] -> effect mode opts N lb c c' new
| ef_lost m :
    c' = MkCluster (nodes c) (delete m (net c)) ->
    (lb = LDrop m \/ exists now i req n, lb = LDeliver m now /\ net c !! m = Some (i, req) /\
       nodes c !! i = Some n /\ is_ok (snd (Node_Replicate now req n)) = false) ->
    new = [] -> effect mode opts N lb c c' new.

Lemma write_step_effect mode opts N c i n now key data del lb n' rpcs r :
  cluster_safe mode opts N c -> nodes c !! i = Some n -> reading_ok now = true ->
  label_write lb = Some (i, key, data, del) -> label_now lb = Some now ->
  node_write now key data del [] n = (n', rpcs, r) ->
  let c' := MkCluster (<[i := n']> (nodes c)) (net c ++ messages rpcs) in
  cluster_safe mode opts N c' /\ effect mode opts N lb c c' (originated lb c).
Proof.
  intros Hs Hi Hnow Hlb Hlbn Hw c'; subst c'; pose proof (cs_nodes _ _ _ _ Hs _ _ Hi) as Hn.
  unfold originated; rewrite Hlb, Hlbn, Hi, Hw.
  eapply node_write_local in Hw as [(-> & -> & ->)|(ts & -> & Hl & Hm & Hh & Hwf)]; [..|done|done].
  - unfold messages; simpl; rewrite app_nil_r, list_insert_id by done.
    destruct c as [ns nt]; simpl in *; split; [done|]; by apply ef_refused.
  - split; [|by eapply (ef_write _ _ _ _ _ _ _ i n (MkWrite key (MkValue data ts _ del)))].
    destruct (local_write_msgs _ _ _ _ _ _ _ Hn Hl) as [_ Hmsgs].
    eapply cluster_safe_insert; try done; [by eapply local_write_safe|].
    apply Forall_app; split; [apply Hs|done].
Qed.

Lemma deliver_step_effect mode opts N c m now i req n n' r :
  cluster_safe mode opts N c -> net c !! m = Some (i, req) -> nodes c !! i = Some n ->
  label_ok (LDeliver m now) c = true -> Node_Replicate now req n = (n', r) ->
  let c' := MkCluster (<[i := n']> (nodes c)) (delete m (net c)) in
  cluster_safe mode opts N c' /\ effect mode opts N (LDeliver m now) c c' [].
Proof.
  intros Hs Hm Hi Hok Hr c'; subst c'; pose proof (cs_nodes _ _ _ _ Hs _ _ Hi) as Hn.
  assert (Hnet : Forall (fun m => exists pts, msg_ok mode (snd m) pts) (delete m (net c))).
  { apply Forall_delete, Hs. }
  destruct (proj1 (Forall_lookup _ _) (cs_net _ _ _ _ Hs) _ _ Hm) as [pts Hmok]; simpl in Hmok.
  unfold label_ok, no_tie in Hok; simpl in Hok.
  rewrite Hm, Hi, (mo_ts _ _ _ Hmok) in Hok; apply andb_true_iff in Hok as [Hnow Htie].
  apply negb_true_iff in Htie.
  destruct (node_replicate_delivery _ _ _ _ _ _ _ _ _ Hn Hnow Hmok Htie Hr)
    as [[-> Herr]|(_ & Hmo & Hh & Hwf & Hb & ws & Hd)].
  - rewrite list_insert_id by done; split.
    + destruct Hs; by split.
    + eapply ef_lost; [done|right|done]; exists now, i, req, n; by rewrite Hr.
  - split; [|by eapply ef_deliver].
    eapply cluster_safe_insert; try done. eapply delivery_safe; try done; apply Hmok.
Qed.

(** Every step keeps the invariant and has one of the effects. *)
Lemma step_effect mode opts N c lb c' :
  cluster_safe mode opts N c -> label_ok lb c = true -> step lb c = Some c' ->
  cluster_safe mode opts N c' /\ effect mode opts N lb c c' (originated lb c).
Proof.
  intros Hs Hok; destruct lb as [i now req|i req|i now req|m now|m]; simpl;
    intros Hstep; apply bind_Some in Hstep as (x & Hx & Hstep).
  - apply andb_true_iff in Hok as [Hnow _]; rewrite Node_Put_write in Hstep.
    destruct (node_write _ _ _ _ _ _) as [[n' rpcs] r] eqn:Hw; simplify_eq.
    exact (write_step_effect _ _ _ _ _ _ _ _ _ _ (LPut i now req) _ _ _ Hs Hx Hnow eq_refl eq_refl Hw).
  - destruct (Node_Get_safe _ _ _ (GetReq_Key req) _ (cs_nodes _ _ _ _ Hs _ _ Hx)) as [Hn _].
    destruct req as [key]; simpl in Hn; destruct (Node_Get _ x) as [n' r] eqn:Hg; simplify_eq.
    split; [eapply cluster_safe_insert; [done..|apply Hs]|].
    eapply ef_read; [done| |done]; by rewrite Hg.
  - apply andb_true_iff in Hok as [Hnow _]; rewrite Node_Delete_write in Hstep.
    destruct (node_write _ _ _ _ _ _) as [[n' rpcs] r] eqn:Hw; simplify_eq.
    exact (write_step_effect _ _ _ _ _ _ _ _ _ _ (LDelete i now req) _ _ _ Hs Hx Hnow eq_refl eq_refl Hw).
  - apply bind_Some in Hstep as (n & Hn & Hstep); destruct x as [i req]; simpl in *.
    destruct (Node_Replicate now req n) as [n' r] eqn:Hr; simplify_eq.
    by eapply deliver_step_effect.
  - simplify_eq; split; [|eapply ef_lost; eauto].
    destruct Hs as [? ? Hnet]; split; simpl; try done.
    by apply Forall_delete.
Qed.

(** ** Runs *)

Lemma NewHandler_async mode peers opts :
  async mode -> exists h, NewHandler mode peers opts = Some h.
Proof. intros [->| ->]; by eexists. Qed.

Lemma start_node_safe mode peers opts now n :
  async mode -> reading_ok now = true -> start_node mode peers opts now = Some n ->
  node_safe mode peers opts n /\ Node_Store n = ∅ /\ held n = [] /\ pending_deps n = [].
Proof.
  intros Ha [Hnow Hpos]%reading_ok_spec Hst; unfold start_node in Hst.
  destruct (NewHandler_async mode peers opts Ha) as [h Hh]; rewrite Hh in Hst.
  destruct (negb _); simplify_eq.
  assert (Hp : pending_deps (NewNode mode store_New (hlc_New now)
    (if String.eqb mode "causal" then Some buffer_New else None) h) = []).
  { rewrite pending_deps_alt; unfold active_tracker; simpl; by destruct (String.eqb _ _). }
  assert (Hheld : held (NewNode mode store_New (hlc_New now)
    (if String.eqb mode "causal" then Some buffer_New else None) h) = []).
  { unfold held, active_buffer; simpl; by destruct (String.eqb _ _). }
  assert (Hab : is_Some (active_buffer (NewNode mode store_New (hlc_New now)
    (if String.eqb mode "causal" then Some buffer_New else None) h)) <-> mode = "causal").
  { unfold active_buffer; simpl; destruct Ha as [->| ->]; simpl; split; try done;
      by intros []. }
  split; [|done].
  split; rewrite ?Hheld, ?Hp; try done; auto with go; try apply causally_closed_empty.
  intros ->; by eexists.
Qed.

Lemma init_cluster_nodes mode opts nows c :
  init_cluster mode opts nows = Some c ->
  net c = [] /\ length (nodes c) = length nows /\
  forall i n, nodes c !! i = Some n -> exists now, nows !! i = Some now /\
    start_node mode (other_peers (length nows) i) opts now = Some n.
Proof.
  unfold init_cluster; intros Hc; apply bind_Some in Hc as (ns & Hns & [= <-]); simpl.
  apply mapM_Some in Hns; split; [done|].
  pose proof (Forall2_length _ _ _ Hns) as Hlen; rewrite length_imap in Hlen; split; [done|].
  intros i n Hi; destruct (Forall2_lookup_r _ _ _ _ _ Hns Hi) as ([j now] & Hj & Hst).
  rewrite list_lookup_imap in Hj; apply fmap_Some in Hj as (now' & Hnow & [= -> ->]).
  by exists now'.
Qed.

Lemma init_cluster_safe mode opts nows c :
  async mode -> Forall (fun now => reading_ok now = true) nows ->
  init_cluster mode opts nows = Some c -> cluster_safe mode opts (length nows) c.
Proof.
  intros Ha Hnows Hc; apply init_cluster_nodes in Hc as (Hnet & Hlen & Hn); split; [done| |].
  - intros i n Hi; destruct (Hn i n Hi) as (now & Hnow & Hst).
    eapply start_node_safe; [done| |done]. by eapply Forall_lookup_1 in Hnows.
  - rewrite Hnet; constructor.
Qed.

Lemma run_cons lb ls c c' :
  run (lb :: ls) c = Some c' <-> exists c1, step lb c = Some c1 /\ run ls c1 = Some c'.
Proof. simpl; by rewrite bind_Some. Qed.

(** Induction over a run that keeps to its assumptions. *)
Lemma run_ind_safe (P : cluster -> cluster -> Prop) mode opts N :
  (forall c, cluster_safe mode opts N c -> P c c) ->
  (forall lb c c1 c', cluster_safe mode opts N c -> label_ok lb c = true ->
     step lb c = Some c1 -> effect mode opts N lb c c1 (originated lb c) -> cluster_safe mode opts N c1 ->
     P c1 c' -> P c c') ->
  forall ls c c', cluster_safe mode opts N c -> run_ok ls c = true -> run ls c = Some c' ->
    P c c'.
Proof.
  intros H0 Hstep ls; induction ls as [|lb ls IH]; intros c c' Hs Hok Hrun.
  - simpl in Hrun; simplify_eq; auto.
  - apply run_cons in Hrun as (c1 & Hlb & Hrun); simpl in Hok; rewrite Hlb in Hok.
    apply andb_true_iff in Hok as [Hok1 Hok2].
    destruct (step_effect _ _ _ _ _ _ Hs Hok1 Hlb) as [Hs1 He]; eauto.
Qed.

Lemma run_safe mode opts N ls c c' :
  cluster_safe mode opts N c -> run_ok ls c = true -> run ls c = Some c' ->
  cluster_safe mode opts N c'.
Proof. revert ls c c'; by apply run_ind_safe with (mode := mode) (opts := opts). Qed.

Definition cluster_le (c c' : cluster) : Prop :=
  Forall2 (fun n n' => store_le (Node_Store n) (Node_Store n')) (nodes c) (nodes c').

Lemma cluster_le_refl c c' : nodes c' = nodes c -> cluster_le c c'.
Proof. unfold cluster_le; intros ->; apply Forall_Forall2_diag, Forall_forall; done. Qed.

Lemma cluster_le_trans c1 c2 c3 : cluster_le c1 c2 -> cluster_le c2 c3 -> cluster_le c1 c3.
Proof.
  unfold cluster_le; generalize (nodes c1) (nodes c2) (nodes c3); intros l1 l2 l3 H.
  revert l3; induction H as [|x y l1 l2 Hxy _ IH]; intros l3 H'; inversion H'; subst;
    constructor; [by etrans|auto].
Qed.

Lemma cluster_le_insert c i n n' msgs :
  nodes c !! i = Some n -> store_le (Node_Store n) (Node_Store n') ->
  cluster_le c (MkCluster (<[i := n']> (nodes c)) msgs).
Proof.
  intros Hi Hle; apply Forall2_same_length_lookup; split; [simpl; by rewrite length_insert|].
  intros j x y Hx [[<- <-]|[_ Hy]]%insert_lookup_cases; simplify_eq; done.
Qed.

Lemma effect_le mode opts N lb c c' new :
  cluster_safe mode opts N c -> effect mode opts N lb c c' new -> cluster_le c c'.
Proof.
  intros Hs [i n w n' rpcs _ Hi Hl -> _|i n key Hi -> _| -> _
    |m now i req pts n n' ws _ _ _ Hi Hd -> _|m -> _ _].
  - eapply cluster_le_insert; [done|]; rewrite (lw_store _ _ _ _ _ _ Hl); apply apply_write_le.
  - eapply cluster_le_insert; [done|]; by rewrite (proj1 (Node_Get_frame _ n)).
  - by apply cluster_le_refl.
  - eapply cluster_le_insert; [done|]; eapply causal_run_le, Hd.
  - by apply cluster_le_refl.
Qed.

Lemma run_le mode opts N ls c c' :
  cluster_safe mode opts N c -> run_ok ls c = true -> run ls c = Some c' -> cluster_le c c'.
Proof.
  revert ls c c'; apply (run_ind_safe cluster_le mode opts N).
  - intros c _; by apply cluster_le_refl.
  - intros lb c c1 c' Hs _ _ He _ Hle; pose proof (effect_le _ _ _ _ _ _ _ Hs He) as H1.
    eapply cluster_le_trans; done.
Qed.

(** ** Properties *)

(** Every dependency of a stored value (later than the zero timestamp, which a
    missing key satisfies) is there: its key is present in at least the version
    depended upon. *)
Definition deps_present (st : Store) : Prop :=
  forall key v d, st !! key = Some v -> d ∈ Value_Deps v ->
    ts_lt zeroTimestamp (Dependency_MinTS d) ->
    exists v', st !! Dependency_Key d = Some v' /\
      ts_le (Dependency_MinTS d) (Value_Timestamp v').

Lemma causally_closed_present st : causally_closed st -> deps_present st.
Proof.
  intros Hcl key v d Hv Hd Hpos; specialize (Hcl _ _ Hv).
  rewrite depsSatisfied_spec, Forall_forall in Hcl; specialize (Hcl d Hd).
  unfold version, Store_GetVersion in Hcl.
  destruct (st !! Dependency_Key d) as [v'|]; simpl in Hcl; [by exists v'|].
  exfalso; ts_order.
Qed.

(** Causal consistency of the stores: in a cluster started in causal (or
    eventual) mode, after any run of client calls, deliveries in any order and
    losses, in which no delivery ties with the receiver's clock while ahead of
    it, every value stored at a node has all its dependencies in that node's
    store, and no stored or held write is later than the node's clock. *)
Theorem cluster_causal_safety mode opts nows c0 ls c :
  async mode -> Forall (fun now => reading_ok now = true) nows ->
  init_cluster mode opts nows = Some c0 -> run_ok ls c0 = true -> run ls c0 = Some c ->
  Forall (fun n => deps_present (Node_Store n) /\
    (forall key v, Node_Store n !! key = Some v ->
       ts_le (Value_Timestamp v) (Clock_Now (Node_Clock n))) /\
    Forall (fun w => ts_le (write_ts w) (Clock_Now (Node_Clock n))) (held n)) (nodes c).
Proof.
  intros Ha Hnows Hinit Hok Hrun; apply Forall_lookup; intros i n Hi.
  pose proof (init_cluster_safe _ _ _ _ Ha Hnows Hinit) as Hs.
  pose proof (cs_nodes _ _ _ _ (run_safe _ _ _ _ _ _ Hs Hok Hrun) _ _ Hi) as Hn.
  split_and!; [apply causally_closed_present|..]; apply Hn.
Qed.

(** Three causal nodes: [y] is written at node 1 after reading [x], written at
    node 0; node 2 receives [y] first. *)
Definition c_cluster : cluster := default (MkCluster [] []) (init_cluster "causal" c_opts [100; 100; 100]%Z).
Definition c_labels : list label :=
  [ LPut 0 200 (MkPutRequest "x" [x78]); LDeliver 0 210; LGet 1 (MkGetRequest "x");
    LPut 1 300 (MkPutRequest "y" [x79]); LDeliver 2 310; LDeliver 0 320 ].
Definition c_after : cluster := default c_cluster (run c_labels c_cluster).

Lemma c_nows_ok : Forall (fun now => reading_ok now = true) [100; 100; 100]%Z.
Proof. by repeat constructor. Qed.

Lemma cluster_causal_safety_witness :
  map (fun n => (map fst (map_to_list (Node_Store n)), length (held n))) (nodes c_after) =
    [(["x"], 0); (["y"; "x"], 0); (["y"; "x"], 0)] /\
  Forall (fun n => deps_present (Node_Store n) /\
    (forall key v, Node_Store n !! key = Some v ->
       ts_le (Value_Timestamp v) (Clock_Now (Node_Clock n))) /\
    Forall (fun w => ts_le (write_ts w) (Clock_Now (Node_Clock n))) (held n)) (nodes c_after).
Proof.
  split; [vm_compute; reflexivity|].
  apply (cluster_causal_safety "causal" c_opts [100; 100; 100]%Z c_cluster c_labels);
    [by right|exact c_nows_ok|by apply isSome_default|vm_compute; reflexivity|].
  by apply isSome_default; vm_compute.
Defined.

(** Reads never go back: under the same assumptions, between any two points
    of a run a key present at a node stays present there, in the same or a
    later version. *)
Theorem cluster_monotonic_versions mode opts nows c0 ls1 c1 ls2 c2 i n1 n2 key v1 :
  async mode -> Forall (fun now => reading_ok now = true) nows ->
  init_cluster mode opts nows = Some c0 ->
  run_ok ls1 c0 = true -> run ls1 c0 = Some c1 ->
  run_ok ls2 c1 = true -> run ls2 c1 = Some c2 ->
  nodes c1 !! i = Some n1 -> nodes c2 !! i = Some n2 -> Node_Store n1 !! key = Some v1 ->
  exists v2, Node_Store n2 !! key = Some v2 /\
    ts_le (Value_Timestamp v1) (Value_Timestamp v2).
Proof.
  intros Ha Hnows Hinit Hok1 Hrun1 Hok2 Hrun2 Hi1 Hi2 Hv.
  pose proof (init_cluster_safe _ _ _ _ Ha Hnows Hinit) as Hs.
  pose proof (run_safe _ _ _ _ _ _ Hs Hok1 Hrun1) as Hs1.
  pose proof (run_le _ _ _ _ _ _ Hs1 Hok2 Hrun2) as Hle.
  exact (Forall2_lookup_lr _ _ _ _ _ _ Hle Hi1 Hi2 key v1 Hv).
Qed.

Definition c_mid : cluster := default c_cluster (run (take 2 c_labels) c_cluster).
Definition c_end : cluster := default c_mid (run [LPut 1 400 (MkPutRequest "x" [x7a])] c_mid).
Definition c_node1 (c : cluster) : Node AnyHandler :=
  default (c_node "causal" c_strong) (nodes c !! 1).

Lemma cluster_monotonic_versions_witness :
  (Value_Timestamp <$> Node_Store (c_node1 c_end) !! "x") = Some (MkTimestamp 400 0) /\
  exists v2, Node_Store (c_node1 c_end) !! "x" = Some v2 /\
    ts_le (MkTimestamp 200 0) (Value_Timestamp v2).
Proof.
  split; [vm_compute; reflexivity|].
  apply (cluster_monotonic_versions "causal" c_opts [100; 100; 100]%Z c_cluster
    (take 2 c_labels) c_mid [LPut 1 400 (MkPutRequest "x" [x7a])] c_end 1
    (c_node1 c_mid) (c_node1 c_end) "x" (c_val 200 x78));
    first [by right | exact c_nows_ok | by apply isSome_default; vm_compute
          | vm_compute; reflexivity].
Defined.
