(* ===== verification/Interleave.v ===== *)
(** * Handlers of one node running concurrently ([src/internal/server/node.go])

    The gRPC server runs every call in a goroutine of its own, and a handler
    holds no lock from its start to its end: it takes the clock's mutex, the
    tracker's, the store's or the buffer's for one call at a time.  Here a
    handler is a program counter [pc], [micro] runs it to its next shared access,
    and a schedule picks the handler that moves next.  [handlers_alone] ties
    this to the whole handlers of [Server.v].

    [Buffer.Receive] is one step: the buffer's mutex excludes other calls of it.
    [Fine.v] takes it apart into its accesses to the store. *)

From S2P Require Import Prelude Hlc Store Buffer Wire Replication Server.

(** ** Handlers as state machines *)

Inductive pc :=
(* Put and Delete *)
| WStart (key : string) (data : list byte) (del : bool)
| WSent (key : string) (val : Value)      (* has a timestamp *)
| WDeps (key : string) (val : Value)      (* has its dependencies *)
| WStored (key : string) (val : Value)    (* not strong: stored, before OnWrite *)
| WSending (key : string) (val : Value)   (* strong: inside OnWrite *)
| WAcked (key : string) (val : Value)     (* strong: after OnWrite, before the store *)
| WDone (key : string) (r : res Value)
(* Get *)
| GStart (key : string)
| GRead (key : string) (val : Value)
| GDone (r : res GetResponse)
(* Replicate *)
| RStart (req : ReplicateRequest)
| RClocked (req : ReplicateRequest) (inTS : Timestamp)
| RDone (r : res ReplicateResponse).

Definition pc_done (p : pc) : bool :=
  match p with WDone _ _ | GDone _ | RDone _ => true | _ => false end.

(** [Store.Put] for a put, [Store.Delete] for a deletion. *)
Definition local_store (key : string) (val : Value) (s : Store) : Store :=
  if Value_Deleted val then Store_Delete key (Value_Timestamp val) s
  else Store_Put key val s.

Definition with_deps (deps : list Dependency) (val : Value) : Value :=
  MkValue (Value_Data val) (Value_Timestamp val) deps (Value_Deleted val).

Section micro.
Context {H : Type} `{Handler H}.

Definition micro (now : Z) (replies : list rpc_reply) (n : Node H) (p : pc)
    : Node H * list outgoing * pc :=
  match p with
  | WStart key data del =>
      match Clock_Send now (Node_Clock n) with
      | (clk, Err e) => (with_clock clk n, [], WDone key (Err e))
      | (clk, Ok ts) => (with_clock clk n, [], WSent key (MkValue data ts [] del))
      end
  | WSent key val =>
      let '(n, deps) := take_deps n in (n, [], WDeps key (with_deps deps val))
  | WDeps key val =>
      if String.eqb (Node_Mode n) "strong"
      then (n, fst (OnWrite (Node_Handler n) key val replies), WSending key val)
      else (with_store (local_store key val (Node_Store n)) n, [], WStored key val)
  | WStored key val =>
      let '(rpcs, err) := OnWrite (Node_Handler n) key val replies in
      match err with
      | Some e => (n, rpcs, WDone key (Err e))
      | None => (n, rpcs, WDone key (Ok val))
      end
  | WSending key val =>
      match snd (OnWrite (Node_Handler n) key val replies) with
      | Some e => (n, [], WDone key (Err e))
      | None => (n, [], WAcked key val)
      end
  | WAcked key val =>
      (with_store (local_store key val (Node_Store n)) n, [], WDone key (Ok val))
  | GStart key =>
      let '(val, ok) := Store_Get key (Node_Store n) in
      if negb ok then (n, [], GDone (Ok (MkGetResponse [] None false)))
      else (n, [], GRead key val)
  | GRead key val =>
      let n := match active_tracker n with
               | Some rt =>
                   with_tracker (ReadTracker_Record key (Value_Timestamp val) rt) n
               | None => n
               end in
      (n, [], GDone (Ok (MkGetResponse (Value_Data val)
                           (Some (toProtoTS (Value_Timestamp val))) true)))
  | RStart req =>
      match RR_Timestamp req with
      | None => (n, [], RDone (Ok (MkReplicateResponse false)))
      | Some pts =>
          match Clock_Receive now (fromProtoTS pts) (Node_Clock n) with
          | (clk, Err e) => (with_clock clk n, [], RDone (Err e))
          | (clk, Ok _) => (with_clock clk n, [], RClocked req (fromProtoTS pts))
          end
      end
  | RClocked req inTS =>
      let val := request_value req inTS in
      match active_buffer n with
      | Some b =>
          let '(s, b', _) := Buffer_Receive (RR_Key req) val (Node_Store n) b in
          (with_buffer b' (with_store s n), [], RDone (Ok (MkReplicateResponse true)))
      | None =>
          let '(s, ok) := if Value_Deleted val
                          then Store_ApplyDelete (RR_Key req) inTS (Node_Store n)
                          else Store_Apply (RR_Key req) val (Node_Store n) in
          (with_store s n, [], RDone (Ok (MkReplicateResponse ok)))
      end
  | WDone _ _ | GDone _ | RDone _ => (n, [], p)
  end.

(** A handler alone on the node, for [k] steps. *)
Fixpoint alone (k : nat) (now : Z) (replies : list rpc_reply) (n : Node H) (p : pc)
    : Node H * list outgoing * pc :=
  match k with
  | O => (n, [], p)
  | S k =>
      let '(n1, rpcs1, p1) := micro now replies n p in
      let '(n2, rpcs2, p2) := alone k now replies n1 p1 in
      (n2, rpcs1 ++ rpcs2, p2)
  end.

(** ** Concurrent handlers *)

Record conc := MkConc {
  cn_node : Node H;
  cn_threads : list pc;
  cn_sent : list outgoing
}.

(** One turn: the handler that moves, the clock reading and the replies it finds. *)
Record turn := MkTurn { turn_thread : nat; turn_now : Z; turn_replies : list rpc_reply }.

Definition cstep (t : turn) (c : conc) : option conc :=
  p ← cn_threads c !! turn_thread t;
  let '(n', rpcs, p') := micro (turn_now t) (turn_replies t) (cn_node c) p in
  Some (MkConc n' (<[turn_thread t := p']> (cn_threads c)) (cn_sent c ++ rpcs)).

Fixpoint crun (ts : list turn) (c : conc) : option conc :=
  match ts with
  | [] => Some c
  | t :: ts => c' ← cstep t c; crun ts c'
  end.

End micro.

Arguments conc : clear implicits.
Arguments MkConc {H}.

(** The most turns a handler still needs. *)
Definition turns_left (p : pc) : nat :=
  match p with
  | WStart _ _ _ => 5 | WSent _ _ => 4 | WDeps _ _ => 3 | WSending _ _ => 2
  | WStored _ _ | WAcked _ _ => 1
  | GStart _ => 2 | GRead _ _ => 1
  | RStart _ => 2 | RClocked _ _ => 1
  | WDone _ _ | GDone _ | RDone _ => 0
  end.

(** The timestamp issued to a write. *)
Definition issued_val (p : pc) : option Value :=
  match p with
  | WSent _ v | WDeps _ v | WStored _ v | WSending _ v | WAcked _ v | WDone _ (Ok v) => Some v
  | _ => None
  end.

Definition issued_ts (p : pc) : option Timestamp := Value_Timestamp <$> issued_val p.

(** The key a handler may still change. *)
Definition touched (p : pc) : option string :=
  match p with
  | WStart k _ _ | WSent k _ | WDeps k _ | WStored k _ | WSending k _ | WAcked k _
  | WDone k _ => Some k
  | RStart req | RClocked req _ => Some (RR_Key req)
  | _ => None
  end.

Definition request_typed (req : ReplicateRequest) : Prop :=
  match RR_Timestamp req with Some pts => ts_typed (fromProtoTS pts) | None => True end.

Definition pc_typed (p : pc) : Prop :=
  match p with RStart req => request_typed req | _ => True end.

(** A handler at its start. *)
Definition starting (p : pc) : bool :=
  match p with WStart _ _ _ | GStart _ | RStart _ => true | _ => false end.

(** ** Handlers alone *)

Lemma local_store_write key val s :
  local_store key val s = <[key := write_stored (MkWrite key val)]> s.
Proof.
  unfold local_store, write_stored; simpl; by destruct (Value_Deleted val).
Qed.

Lemma take_deps_none {H} (n : Node H) : active_tracker n = None -> take_deps n = (n, []).
Proof. unfold take_deps; by intros ->. Qed.

Section alone.
Context {H : Type} `{HandlerLaws H}.
Implicit Type n : Node H.

(** A write alone is the whole write of [Server.v]. *)
Lemma alone_write now rs n key data del n' rpcs r :
  node_write now key data del rs n = (n', rpcs, r) ->
  exists r', alone 5 now rs n (WStart key data del) = (n', rpcs, WDone key r') /\
    r = res_map Value_Timestamp r'.
Proof.
  unfold node_write; simpl; destruct (Clock_Send now (Node_Clock n)) as [clk [ts|e]]; simpl;
    [|intros [= <- <- <-]; by exists (Err e)].
  pose proof (take_deps_fst (with_clock clk n)) as (_ & _ & _ & Hm & Hh).
  destruct (take_deps (with_clock clk n)) as [n1 deps]; simpl in *; rewrite Hh, Hm.
  destruct (OnWrite (Node_Handler n) key _ rs) as [rpcs1 err] eqn:Ho.
  destruct (String.eqb (Node_Mode n) "strong") eqn:Hs.
  - unfold with_deps; simpl; rewrite ?Hh, ?Ho; simpl; rewrite ?Hh, ?Ho; simpl.
    destruct err as [e|]; simpl; rewrite app_nil_r; intros [= <- <- <-].
    + by exists (Err e).
    + rewrite local_store_write; by eexists (Ok _).
  - unfold with_deps; simpl; rewrite ?Hh, ?Ho, local_store_write.
    destruct err as [e|]; simpl; rewrite app_nil_r; intros [= <- <- <-].
    + by exists (Err e).
    + by eexists (Ok _).
Qed.

Lemma alone_get now rs n key :
  let '(n', r) := Node_Get (MkGetRequest key) n in
  alone 2 now rs n (GStart key) = (n', [], GDone r).
Proof.
  unfold Node_Get; simpl; destruct (Store_Get key (Node_Store n)) as [val ok].
  by destruct ok.
Qed.

Lemma alone_replicate now rs n req :
  let '(n', r) := Node_Replicate now req n in
  alone 2 now rs n (RStart req) = (n', [], RDone r).
Proof.
  unfold Node_Replicate; simpl; destruct (RR_Timestamp req) as [pts|]; simpl; [|done].
  destruct (Clock_Receive _ _ _) as [clk [t|e]]; simpl; [|done].
  unfold active_buffer; simpl; destruct (if String.eqb _ _ then _ else _) as [b|].
  - by destruct (Buffer_Receive _ _ _ _) as [[s b'] ?].
  - by destruct (if Nat.eqb _ 0 then _ else _) as [s ok].
Qed.

End alone.

(** ** One turn *)

Section turn.
Context {H : Type} `{Handler H}.
Implicit Type n : Node H.

Lemma take_deps_clock n n' deps : take_deps n = (n', deps) ->
  Node_Clock n' = Node_Clock n /\ Node_Store n' = Node_Store n /\ Node_Mode n' = Node_Mode n.
Proof. pose proof (take_deps_fst n) as Hf; intros Ht; rewrite Ht in Hf; simpl in Hf; tauto. Qed.

(** What a turn does to the clock and to the timestamp of the handler. *)
Record clock_turn n p n' p' : Prop := {
  ct_wf : clock_wf (Node_Clock n');
  ct_le : ts_le (Clock_Now (Node_Clock n)) (Clock_Now (Node_Clock n'));
  ct_typed : pc_typed p';
  ct_mode : Node_Mode n' = Node_Mode n;
  ct_issued : issued_ts p' = None \/ issued_ts p' = issued_ts p \/
    (ts_lt (Clock_Now (Node_Clock n)) (Clock_Now (Node_Clock n')) /\
     issued_ts p' = Some (Clock_Now (Node_Clock n')))
}.

Lemma clock_turn_same n n' p p' :
  clock_wf (Node_Clock n) -> Node_Clock n' = Node_Clock n -> Node_Mode n' = Node_Mode n ->
  pc_typed p' -> issued_ts p' = None \/ issued_ts p' = issued_ts p -> clock_turn n p n' p'.
Proof. intros Hwf Hc Hm Ht Hi; split; rewrite ?Hc; first [done | by left | tauto]. Qed.

Lemma micro_clock now rs n p n' rpcs p' :
  clock_wf (Node_Clock n) -> in_int64 now -> pc_typed p ->
  micro now rs n p = (n', rpcs, p') -> clock_turn n p n' p'.
Proof.
  intros Hwf Hnow Hty Hmi.
  destruct p as [key data del|key val|key val|key val|key val|key val|key r|key|key val|r
    |req|req inTS|r]; simpl in Hmi.
  - pose proof (clock_step_view (Node_Clock n) (EvSend now) Hwf Hnow) as Hv.
    pose proof (clock_step_wf (Node_Clock n) (EvSend now)) as Hwf'.
    simpl in *; destruct (Clock_Send _ _) as [clk [ts|e]]; simplify_eq.
    + specialize (Hwf' _ _ Hwf Hnow eq_refl).
      destruct Hv as [[-> Hlt _ _ _] _]; split; simpl; first [done | by right | by right; right].
    + destruct Hv as [-> _]; apply clock_turn_same; simpl; auto.
  - destruct (take_deps n) as [n1 deps] eqn:Hd; simplify_eq.
    apply take_deps_clock in Hd as (Hc & _ & Hm); apply clock_turn_same; auto.
  - destruct (String.eqb _ _); simplify_eq; apply clock_turn_same; auto.
  - destruct (OnWrite _ _ _ _) as [? [e|]]; simplify_eq; apply clock_turn_same; auto.
  - destruct (snd _); simplify_eq; apply clock_turn_same; auto.
  - simplify_eq; apply clock_turn_same; auto.
  - simplify_eq; apply clock_turn_same; auto.
  - destruct (Store_Get _ _) as [val ok]; destruct ok; simplify_eq/=; apply clock_turn_same; auto.
  - destruct (active_tracker n); simplify_eq; apply clock_turn_same; auto.
  - simplify_eq; apply clock_turn_same; auto.
  - unfold pc_typed, request_typed in Hty.
    destruct (RR_Timestamp req) as [pts|]; [|simplify_eq; apply clock_turn_same; simpl; auto].
    set (e := EvReceive now (fromProtoTS pts)) in *.
    pose proof (clock_step_wf (Node_Clock n) e) as Hwf'.
    pose proof (clock_step_mono (Node_Clock n) e) as Hmono.
    simpl in *; destruct (Clock_Receive _ _ _) as [clk r].
    specialize (Hwf' _ _ Hwf (conj Hnow Hty) eq_refl).
    specialize (Hmono _ _ Hwf (conj Hnow Hty) eq_refl).
    destruct r; simplify_eq; split; simpl; auto.
  - destruct (active_buffer n) as [b|].
    + destruct (Buffer_Receive _ _ _ _) as [[s b'] ?]; simplify_eq; apply clock_turn_same; simpl; auto.
    + destruct (if Nat.eqb _ 0 then _ else _) as [s ok]; simplify_eq; apply clock_turn_same; simpl; auto.
  - simplify_eq; apply clock_turn_same; auto.
Qed.

Lemma cstep_inv t (c c' : conc H) :
  cstep t c = Some c' ->
  exists p n' rpcs p', cn_threads c !! turn_thread t = Some p /\
    micro (turn_now t) (turn_replies t) (cn_node c) p = (n', rpcs, p') /\
    c' = MkConc n' (<[turn_thread t := p']> (cn_threads c)) (cn_sent c ++ rpcs).
Proof.
  unfold cstep; intros Hs; apply bind_Some in Hs as (p & Hp & Hs).
  destruct (micro _ _ _ _) as [[n' rpcs] p'] eqn:Hm; simplify_eq; by exists p, n', rpcs, p'.
Qed.

Lemma crun_ind (P : conc H -> Prop) ts c c' :
  P c -> crun ts c = Some c' ->
  (forall t c1 c2, t ∈ ts -> P c1 -> cstep t c1 = Some c2 -> P c2) -> P c'.
Proof.
  revert c; induction ts as [|t ts IH]; intros c Hc Hr Hstep; simpl in Hr; [by simplify_eq|].
  apply bind_Some in Hr as (c1 & Hs & Hr). apply (IH c1); [|done|].
  - eapply Hstep; [left|done|done].
  - intros t' c2 c3 Ht'; apply Hstep; by right.
Qed.

End turn.

(** ** Issued timestamps *)

Section issued.
Context {H : Type} `{Handler H}.

(** The timestamps of the handlers are later than [t0], not after the clock, and
    pairwise different. *)
Record issued_ok (t0 : Timestamp) (c : conc H) : Prop := {
  io_wf : clock_wf (Node_Clock (cn_node c));
  io_le : ts_le t0 (Clock_Now (Node_Clock (cn_node c)));
  io_typed : Forall pc_typed (cn_threads c);
  io_range : forall i p t, cn_threads c !! i = Some p -> issued_ts p = Some t ->
    ts_lt t0 t /\ ts_le t (Clock_Now (Node_Clock (cn_node c)));
  io_distinct : forall i j p q t, cn_threads c !! i = Some p -> cn_threads c !! j = Some q ->
    issued_ts p = Some t -> issued_ts q = Some t -> i = j
}.

Lemma cstep_issued t0 t (c c' : conc H) :
  in_int64 (turn_now t) -> issued_ok t0 c -> cstep t c = Some c' -> issued_ok t0 c'.
Proof.
  intros Hnow [Hwf Hle Hty Hr Hd] (p & n' & rpcs & p' & Hp & Hm & ->)%cstep_inv.
  pose proof (proj1 (Forall_lookup _ _) Hty _ _ Hp) as Htp.
  destruct (micro_clock _ _ _ _ _ _ _ Hwf Hnow Htp Hm) as [Hwf' Hle' Htp' _ Hi].
  assert (Hnew : forall u, issued_ts p' = Some u -> issued_ts p = Some u \/
    (ts_lt (Clock_Now (Node_Clock (cn_node c))) u /\ u = Clock_Now (Node_Clock n'))).
  { intros u Hu; destruct Hi as [Hi|[Hi|[Hlt Hi]]]; [congruence|left; congruence|right].
    assert (u = Clock_Now (Node_Clock n')) as -> by congruence; done. }
  split; simpl; [done|by etrans|by apply Forall_insert| |].
  - intros i q u [[<- <-]|[_ Hq]]%insert_lookup_cases Hu.
    + destruct (Hnew _ Hu) as [Hu'|[Hlt ->]].
      * destruct (Hr _ _ _ Hp Hu'); split; [done|by etrans].
      * split; [by eapply ts_le_lt_trans|by left].
    + destruct (Hr _ _ _ Hq Hu); split; [done|by etrans].
  - assert (Hfresh : forall j q u, turn_thread t <> j -> cn_threads c !! j = Some q ->
      issued_ts p' = Some u -> issued_ts q = Some u -> False).
    { intros j q u Hne Hq Hu Huq; destruct (Hnew _ Hu) as [Hu'|[Hlt _]]; [eauto|].
      destruct (Hr _ _ _ Hq Huq) as [_ Hle2]; exact (ts_lt_irrefl _ (ts_lt_le_trans _ _ _ Hlt Hle2)). }
    intros i j q1 q2 u [[<- <-]|[Hi1 Hq1]]%insert_lookup_cases
      [[<- <-]|[Hi2 Hq2]]%insert_lookup_cases Hu1 Hu2; [done| | |by eapply Hd];
      exfalso; eauto.
Qed.

Lemma starting_issued p : starting p = true -> issued_ts p = None.
Proof. by destruct p. Qed.

Lemma start_issued_ok (n : Node H) ps :
  clock_wf (Node_Clock n) -> Forall (fun p => starting p = true /\ pc_typed p) ps ->
  issued_ok (Clock_Now (Node_Clock n)) (MkConc n ps []).
Proof.
  intros Hwf Hps; rewrite Forall_lookup in Hps; split; simpl; [done|by left| | |].
  - apply Forall_lookup; intros i p Hp; by eapply Hps.
  - intros i p t Hp Ht; destruct (Hps _ _ Hp) as [Hs _].
    rewrite starting_issued in Ht; done.
  - intros i j p q t Hp _ Ht; destruct (Hps _ _ Hp) as [Hs _].
    rewrite starting_issued in Ht; done.
Qed.

End issued.

(** ** The store, when no two handlers touch one key *)

Section store.
Context {H : Type} `{Handler H}.
Implicit Type n : Node H.

(** What the store holds for the key of a write, at each point of its handler. *)
Definition store_ok n (p : pc) : Prop :=
  match p with
  | WStart k _ _ => forall v, Node_Store n !! k = Some v ->
      ts_le (Value_Timestamp v) (Clock_Now (Node_Clock n))
  | WSent k val | WDeps k val | WSending k val | WAcked k val =>
      forall v, Node_Store n !! k = Some v -> ts_lt (Value_Timestamp v) (Value_Timestamp val)
  | WStored k val | WDone k (Ok val) =>
      Node_Store n !! k = Some (write_stored (MkWrite k val))
  | _ => True
  end.

(** A turn of the handler [p] respects what it knows and changes only its key. *)
Record store_turn n p n' p' : Prop := {
  st_ok : store_ok n' p';
  st_le : store_le (Node_Store n) (Node_Store n');
  st_other : forall k, touched p <> Some k -> Node_Store n' !! k = Node_Store n !! k;
  st_touched : touched p' = touched p \/ touched p' = None
}.

Lemma store_turn_same n n' p p' :
  Node_Store n' = Node_Store n -> store_ok n' p' ->
  touched p' = touched p \/ touched p' = None -> store_turn n p n' p'.
Proof. intros Hs Hok Ht; split; rewrite ?Hs; done. Qed.

Lemma store_turn_local n p p' k val :
  touched p = Some k -> p' = WStored k val \/ p' = WDone k (Ok val) ->
  (forall v, Node_Store n !! k = Some v -> ts_lt (Value_Timestamp v) (Value_Timestamp val)) ->
  store_turn n p (with_store (local_store k val (Node_Store n)) n) p'.
Proof.
  intros Ht Hp' Hlt; rewrite local_store_write; split; simpl.
  - destruct Hp' as [->| ->]; simpl; by rewrite lookup_insert_eq.
  - apply Store_Put_le; intros v Hv; rewrite write_stored_ts; right; by apply Hlt.
  - intros k' Hk'; rewrite lookup_insert_ne; [done|congruence].
  - left; rewrite Ht; by destruct Hp' as [->| ->].
Qed.

Lemma micro_store now rs n p n' rpcs p' :
  clock_wf (Node_Clock n) -> in_int64 now -> active_buffer n = None ->
  store_ok n p -> micro now rs n p = (n', rpcs, p') -> store_turn n p n' p'.
Proof.
  intros Hwf Hnow Hbuf Hok Hmi.
  destruct p as [key data del|key val|key val|key val|key val|key val|key r|key|key val|r
    |req|req inTS|r]; simpl in Hmi.
  - pose proof (clock_step_view (Node_Clock n) (EvSend now) Hwf Hnow) as Hv; simpl in *.
    destruct (Clock_Send _ _) as [clk [ts|e]]; simplify_eq; apply store_turn_same; simpl; auto.
    destruct Hv as [[_ Hlt _ _ _] _]; intros v Hk; eapply ts_le_lt_trans; [by apply Hok|done].
  - destruct (take_deps n) as [n1 deps] eqn:Hd; simplify_eq.
    apply take_deps_clock in Hd as (_ & Hs & _); apply store_turn_same; auto.
    simpl in *; by rewrite Hs.
  - destruct (String.eqb _ _); simplify_eq; [by apply store_turn_same; auto|].
    apply store_turn_local; auto.
  - destruct (OnWrite _ _ _ _) as [? [e|]]; simplify_eq; apply store_turn_same; simpl; auto.
  - destruct (snd _); simplify_eq; apply store_turn_same; simpl; auto.
  - simplify_eq; apply store_turn_local; auto.
  - simplify_eq; apply store_turn_same; auto.
  - destruct (Store_Get _ _) as [val ok]; destruct ok; simplify_eq/=; apply store_turn_same; simpl; auto.
  - destruct (active_tracker n); simplify_eq; apply store_turn_same; simpl; auto.
  - simplify_eq; apply store_turn_same; auto.
  - destruct (RR_Timestamp req) as [pts|]; [|simplify_eq; apply store_turn_same; simpl; auto].
    destruct (Clock_Receive _ _ _) as [clk [t|e]]; simplify_eq; apply store_turn_same; simpl; auto.
  - rewrite Hbuf in Hmi.
    set (w := MkWrite (RR_Key req) (request_value req inTS)).
    assert (Hs : (if Nat.eqb (length (RR_Value req)) 0
      then Store_ApplyDelete (RR_Key req) inTS (Node_Store n)
      else Store_Apply (RR_Key req) (request_value req inTS) (Node_Store n)).1 =
      apply_write (Node_Store n) w).
    { unfold apply_write; simpl; by destruct (Nat.eqb _ 0). }
    destruct (if Nat.eqb _ 0 then _ else _) as [s ok]; simplify_eq/=.
    split; simpl; auto; [apply apply_write_le|].
    intros k Hk; rewrite apply_write_lookup, decide_False; [done|].
    simpl; intros <-; by apply Hk.
  - simplify_eq; apply store_turn_same; auto.
Qed.

(** A turn of another handler leaves what [q] knows true. *)
Lemma store_ok_other n n' q :
  (forall k, touched q = Some k -> Node_Store n' !! k = Node_Store n !! k) ->
  ts_le (Clock_Now (Node_Clock n)) (Clock_Now (Node_Clock n')) ->
  store_ok n q -> store_ok n' q.
Proof.
  intros Hs Hle; destruct q as [k data del|k val|k val|k val|k val|k val|k [val|e]|k|k val|r
    |req|req inTS|r]; simpl; try rewrite Hs by done; auto.
  intros Hq v Hv; etrans; [by apply Hq|done].
Qed.

Record store_inv n0 (c : conc H) : Prop := {
  si_wf : clock_wf (Node_Clock (cn_node c));
  si_typed : Forall pc_typed (cn_threads c);
  si_buffer : active_buffer (cn_node c) = None;
  si_mode : String.eqb (Node_Mode (cn_node c)) "causal" = false;
  si_ok : Forall (store_ok (cn_node c)) (cn_threads c);
  si_le : store_le (Node_Store n0) (Node_Store (cn_node c));
  si_disjoint : forall i j p q k, cn_threads c !! i = Some p -> cn_threads c !! j = Some q ->
    touched p = Some k -> touched q = Some k -> i = j
}.

Lemma cstep_store n0 t (c c' : conc H) :
  in_int64 (turn_now t) -> store_inv n0 c -> cstep t c = Some c' -> store_inv n0 c'.
Proof.
  intros Hnow [Hwf Hty Hbuf Hmode Hok Hle Hd] (p & n' & rpcs & p' & Hp & Hm & ->)%cstep_inv.
  pose proof (proj1 (Forall_lookup _ _) Hty _ _ Hp) as Htp.
  pose proof (proj1 (Forall_lookup _ _) Hok _ _ Hp) as Hokp.
  destruct (micro_clock _ _ _ _ _ _ _ Hwf Hnow Htp Hm) as [Hwf' Hle' Htp' Hmo _].
  destruct (micro_store _ _ _ _ _ _ _ Hwf Hnow Hbuf Hokp Hm) as [Hok' Hles Hoth Htou].
  split; simpl; rewrite ?Hmo; try done; [by apply Forall_insert| | |by etrans|].
  - unfold active_buffer; by rewrite Hmo, Hmode.
  - apply Forall_lookup; intros j q [[<- <-]|[Hne Hq]]%insert_lookup_cases; [done|].
    apply (store_ok_other (cn_node c)); [|done|by eapply Forall_lookup_1 in Hok].
    intros k Hk; apply Hoth; intros Hpk; eauto.
  - assert (Htou' : forall k, touched p' = Some k -> touched p = Some k)
      by (intros k Hk; destruct Htou; congruence).
    intros i j q1 q2 u [[<- <-]|[Hi1 Hq1]]%insert_lookup_cases
      [[<- <-]|[Hi2 Hq2]]%insert_lookup_cases Hu1 Hu2; eauto.
Qed.

Lemma start_store_inv n ps :
  clock_wf (Node_Clock n) -> Node_Mode n <> "causal" ->
  (forall k v, Node_Store n !! k = Some v ->
     ts_le (Value_Timestamp v) (Clock_Now (Node_Clock n))) ->
  Forall (fun p => starting p = true /\ pc_typed p) ps -> NoDup (omap touched ps) ->
  store_inv n (MkConc n ps []).
Proof.
  intros Hwf Hm Hst Hps Hnd; apply String.eqb_neq in Hm.
  split; simpl; try done.
  - eapply Forall_impl; [exact Hps|]; by intros p [_ ?].
  - unfold active_buffer; by rewrite Hm.
  - eapply Forall_impl; [exact Hps|]; intros p [Hs _].
    destruct p; simpl in Hs; try discriminate; simpl; eauto.
  - clear -Hnd; induction ps as [|p ps IH]; intros i j p1 p2 k; [by destruct i|].
    assert (Hin : forall i q, ps !! i = Some q -> touched q = Some k -> k ∈ omap touched ps).
    { intros i' q Hq Hk; apply list_elem_of_omap; exists q; split; [|done].
      by eapply list_elem_of_lookup_2. }
    simpl in Hnd; destruct i as [|i], j as [|j]; simpl; intros H1 H2 Hk1 Hk2; [done|..];
      simplify_eq; rewrite ?Hk1, ?Hk2 in Hnd.
    + apply NoDup_cons in Hnd as [Hnot _]; exfalso; eauto.
    + apply NoDup_cons in Hnd as [Hnot _]; exfalso; eauto.
    + f_equal; eapply IH; eauto. by destruct (touched p); [apply NoDup_cons in Hnd as []|].
Qed.

End store.

(** ** Termination *)

Lemma micro_turns {H} `{Handler H} now rs (n n' : Node H) p rpcs p' :
  micro now rs n p = (n', rpcs, p') -> turns_left p' <= pred (turns_left p).
Proof.
  intros Hm; destruct p; simpl in Hm;
    repeat case_match; simplify_eq/=; lia.
Qed.

Lemma crun_turns {H} `{Handler H} ts (c c' : conc H) i p :
  crun ts c = Some c' -> cn_threads c !! i = Some p ->
  exists p', cn_threads c' !! i = Some p' /\
    turns_left p' <= turns_left p - length (List.filter (fun t => Nat.eqb (turn_thread t) i) ts).
Proof.
  revert c p; induction ts as [|t ts IH]; intros c p Hr Hp; simpl in Hr.
  - simplify_eq; exists p; split; [done|simpl; lia].
  - apply bind_Some in Hr as (c1 & Hs & Hr).
    apply cstep_inv in Hs as (q & n' & rpcs & q' & Hq & Hm & ->); simpl.
    apply micro_turns in Hm; destruct (Nat.eqb_spec (turn_thread t) i) as [<-|Hne].
    + destruct (IH _ q' Hr) as (p' & Hp' & Hle); [|exists p'; split; [done|]].
      * simpl; apply list_lookup_insert_eq; by eapply lookup_lt_Some.
      * assert (q = p) by congruence; subst q; simpl; lia.
    + destruct (IH _ p Hr) as (p' & Hp' & Hle); [|by exists p'].
      simpl; by rewrite list_lookup_insert_ne.
Qed.

Lemma turns_done p : turns_left p = 0 -> pc_done p = true.
Proof. by destruct p. Qed.

Lemma turns_start p : turns_left p <= 5.
Proof. destruct p; simpl; lia. Qed.

(** ** Properties *)

(** C19: the whole handlers are the concurrent ones run alone: with nothing
    between its steps, a [Put], [Delete], [Get] or [Replicate] split at its
    shared accesses leaves the node, starts the RPCs and returns the result of
    the whole handler, on every branch. *)
Theorem handlers_alone {H} `{HandlerLaws H} now rs (n : Node H) :
  (forall req, let '(n', rpcs, r) := Node_Put now req rs n in
     exists r', alone 5 now rs n (WStart (PutReq_Key req) (PutReq_Value req) false) =
       (n', rpcs, WDone (PutReq_Key req) r') /\
     r = res_map (fun v => MkPutResponse (Some (toProtoTS (Value_Timestamp v)))) r') /\
  (forall req, let '(n', rpcs, r) := Node_Delete now req rs n in
     exists r', alone 5 now rs n (WStart (DelReq_Key req) [] true) =
       (n', rpcs, WDone (DelReq_Key req) r') /\
     r = res_map (fun v => MkDeleteResponse (Some (toProtoTS (Value_Timestamp v)))) r') /\
  (forall key, let '(n', r) := Node_Get (MkGetRequest key) n in
     alone 2 now rs n (GStart key) = (n', [], GDone r)) /\
  (forall req, let '(n', r) := Node_Replicate now req n in
     alone 2 now rs n (RStart req) = (n', [], RDone r)).
Proof.
  split_and!; intros req.
  - rewrite Node_Put_write; destruct (node_write _ _ _ _ _ _) as [[n' rpcs] r] eqn:Hw.
    apply alone_write in Hw as (r' & Ha & ->); exists r'; split; [done|by destruct r'].
  - rewrite Node_Delete_write; destruct (node_write _ _ _ _ _ _) as [[n' rpcs] r] eqn:Hw.
    apply alone_write in Hw as (r' & Ha & ->); exists r'; split; [done|by destruct r'].
  - apply alone_get.
  - apply alone_replicate.
Qed.

(** Under every schedule of the handlers running at a node, no two writes are
    issued the same timestamp, and each is later than the clock was at the
    start and not later than the clock at the end. *)
Theorem interleaved_timestamps_unique {H} `{Handler H} (n : Node H) ps ts c' i j p q t u :
  clock_wf (Node_Clock n) -> Forall (fun p => starting p = true /\ pc_typed p) ps ->
  Forall (fun t => in_int64 (turn_now t)) ts -> crun ts (MkConc n ps []) = Some c' ->
  cn_threads c' !! i = Some p -> cn_threads c' !! j = Some q ->
  issued_ts p = Some t -> issued_ts q = Some u ->
  (t = u -> i = j) /\ ts_lt (Clock_Now (Node_Clock n)) t /\
  ts_le t (Clock_Now (Node_Clock (cn_node c'))).
Proof.
  intros Hwf Hps Hts Hrun Hp Hq Ht Hu.
  assert (Hio : issued_ok (Clock_Now (Node_Clock n)) c').
  { eapply crun_ind; [by apply start_issued_ok|exact Hrun|].
    intros x c1 c2 Hx Hc1 Hs; rewrite Forall_forall in Hts; eapply cstep_issued; eauto. }
  split; [intros ->; exact (io_distinct _ _ Hio _ _ _ _ _ Hp Hq Ht Hu)|].
  exact (io_range _ _ Hio _ _ _ Hp Ht).
Qed.

Definition turns_of (i : nat) (nows : list Z) : list turn := map (fun z => MkTurn i z []) nows.

Definition c_eventual : Node AnyHandler :=
  NewNode "eventual" store_New (hlc_New 100) None (HEventual (MkEventual [1; 2] c_opts)).

(** Two puts of one key; both take their timestamps before either stores. *)
Definition lost_pcs (key : string) (d1 d2 : list byte) : list pc :=
  [WStart key d1 false; WStart key d2 false].
Definition lost_turns (now1 now2 : Z) : list turn :=
  [MkTurn 0 now1 []; MkTurn 1 now2 []] ++ turns_of 1 [0; 0; 0]%Z ++ turns_of 0 [0; 0; 0]%Z.

Lemma c_eventual_wf : clock_wf (Node_Clock c_eventual).
Proof. split; simpl; unfold in_int64, maxLogical; lia. Qed.

Lemma lost_pcs_start key d1 d2 :
  Forall (fun p => starting p = true /\ pc_typed p) (lost_pcs key d1 d2).
Proof. by repeat constructor. Qed.

Definition c_lost : conc AnyHandler :=
  default (MkConc c_eventual [] [])
    (crun (lost_turns 200 200) (MkConc c_eventual (lost_pcs "k" [x61] [x62]) [])).

Lemma interleaved_timestamps_unique_witness :
  map issued_ts (cn_threads c_lost) = [Some (MkTimestamp 200 0); Some (MkTimestamp 200 1)] /\
  (MkTimestamp 200 0 = MkTimestamp 200 1 -> 0 = 1).
Proof.
  split; [vm_compute; reflexivity|].
  refine (proj1 (interleaved_timestamps_unique c_eventual (lost_pcs "k" [x61] [x62])
    (lost_turns 200 200) c_lost 0 1 (WDone "k" (Ok (MkValue [x61] (MkTimestamp 200 0) [] false)))
    (WDone "k" (Ok (MkValue [x62] (MkTimestamp 200 1) [] false)))
    (MkTimestamp 200 0) (MkTimestamp 200 1)
    c_eventual_wf (lost_pcs_start _ _ _) _ _ eq_refl eq_refl eq_refl eq_refl)).
  - repeat constructor; simpl; lia.
  - by apply isSome_default; vm_compute.
Defined.

(** Lost update: two concurrent puts of one key at a node, the later
    timestamp storing first: both are acknowledged, the node ends with the
    earlier version, and a replica that applies both replicated writes, in either
    order, ends with the later one.  [Store.Put] does not compare timestamps. *)
Theorem interleaved_writes_lose_update (n : Node AnyHandler) peers opts key d1 d2 now1 now2
    clk1 clk2 t1 t2 st :
  clock_wf (Node_Clock n) -> Node_Mode n = "eventual" ->
  Node_Handler n = HEventual (MkEventual peers opts) -> in_int64 now1 ->
  Clock_Send now1 (Node_Clock n) = (clk1, Ok t1) -> Clock_Send now2 clk1 = (clk2, Ok t2) ->
  (forall v, st !! key = Some v -> ts_lt (Value_Timestamp v) t2) ->
  let w1 := MkWrite key (MkValue d1 t1 [] false) in
  let w2 := MkWrite key (MkValue d2 t2 [] false) in
  exists c', crun (lost_turns now1 now2) (MkConc n (lost_pcs key d1 d2) []) = Some c' /\
    cn_threads c' = [WDone key (Ok (write_val w1)); WDone key (Ok (write_val w2))] /\
    ts_lt t1 t2 /\ Node_Store (cn_node c') !! key = Some (write_val w1) /\
    map out_req (cn_sent c') = map (fun _ => buildReplicateRequest key (write_val w2) []) peers
      ++ map (fun _ => buildReplicateRequest key (write_val w1) []) peers /\
    apply_writes st [w1; w2] !! key = Some (write_val w2) /\
    apply_writes st [w2; w1] !! key = Some (write_val w2).
Proof.
  intros Hwf Hm Hh Hnow1 Hs1 Hs2 Hst w1 w2.
  assert (Hlt : ts_lt t1 t2).
  { pose proof (clock_step_view _ (EvSend now1) Hwf Hnow1) as Hv1; simpl in Hv1.
    pose proof (clock_step_wf _ (EvSend now1) clk1 (Ok t1) Hwf Hnow1 Hs1) as Hwf1.
    pose proof (Clock_Send_view now2 clk1 Hwf1) as Hv2; rewrite Hs1 in Hv1; rewrite Hs2 in Hv2.
    destruct Hv1 as [[-> _ _ _ _] _], Hv2 as [[_ ? _ _ _] _]; done. }
  destruct n as [m s clk b h tr]; simpl in *; subst m h.
  eexists; split; [|split; [|split; [done|]]].
  - unfold cstep; simpl; rewrite Hs1; simpl; rewrite Hs2; simpl.
    reflexivity.
  - done.
  - simpl; split; [apply lookup_insert_eq|]; split.
    + unfold sends; rewrite !app_nil_r, map_app, !map_map; done.
    + rewrite !apply_write_lookup, !decide_True by done.
      change (write_stored w1) with (write_val w1); change (write_stored w2) with (write_val w2).
      rewrite (lww_later (st !! key) (write_val w2)) by done; split.
      * apply lww_later; intros v [Hv| ->]%lww_from; [by apply Hst|done].
      * apply lww_kept; by right.
Qed.

Lemma interleaved_writes_lose_update_witness :
  (Value_Timestamp <$> Node_Store (cn_node c_lost) !! "k") = Some (MkTimestamp 200 0) /\
  exists c', crun (lost_turns 200 200) (MkConc c_eventual (lost_pcs "k" [x61] [x62]) []) = Some c' /\
    map (fun p => isSome (issued_val p)) (cn_threads c') = [true; true].
Proof.
  split; [vm_compute; reflexivity|].
  destruct (interleaved_writes_lose_update c_eventual [1; 2] c_opts "k" [x61] [x62] 200 200
    (MkClock 200 0) (MkClock 200 1) (MkTimestamp 200 0) (MkTimestamp 200 1) store_New
    c_eventual_wf eq_refl eq_refl ltac:(unfold in_int64; lia) eq_refl eq_refl)
    as (c' & Hrun & Hth & _).
  - intros v Hv; simpl in Hv; discriminate Hv.
  - exists c'; rewrite Hrun, Hth; split; reflexivity.
Defined.

(** No lost update without a conflict: outside causal mode, when the handlers
    running at a node touch pairwise different keys, then under every schedule
    no version goes back, and a write that has been acknowledged is what the
    store holds for its key. *)
Theorem disjoint_handlers_no_lost_update {H} `{Handler H} (n : Node H) ps ts c' :
  clock_wf (Node_Clock n) -> Node_Mode n <> "causal" ->
  (forall k v, Node_Store n !! k = Some v ->
     ts_le (Value_Timestamp v) (Clock_Now (Node_Clock n))) ->
  Forall (fun p => starting p = true /\ pc_typed p) ps -> NoDup (omap touched ps) ->
  Forall (fun t => in_int64 (turn_now t)) ts -> crun ts (MkConc n ps []) = Some c' ->
  store_le (Node_Store n) (Node_Store (cn_node c')) /\
  forall i k val, cn_threads c' !! i = Some (WDone k (Ok val)) ->
    Node_Store (cn_node c') !! k = Some (write_stored (MkWrite k val)).
Proof.
  intros Hwf Hm Hst Hps Hnd Hts Hrun.
  assert (Hinv : store_inv n c').
  { eapply crun_ind; [|exact Hrun|].
    - by apply start_store_inv.
    - intros x c1 c2 Hx Hc1 Hs; rewrite Forall_forall in Hts; eapply cstep_store; eauto. }
  split; [apply Hinv|]; intros i k val Hi.
  exact (proj1 (Forall_lookup _ _) (si_ok _ _ Hinv) _ _ Hi).
Qed.

Definition c_pcs : list pc :=
  [WStart "k" [x61] false; WStart "j" [] true; GStart "k";
   RStart (buildReplicateRequest "i" (c_val 300 x62) [])].
Definition c_turns : list turn :=
  turns_of 0 [200; 200; 200]%Z ++ turns_of 1 [150; 150]%Z ++ turns_of 3 [120; 120]%Z ++
  turns_of 2 [0; 0]%Z ++ turns_of 1 [0; 0]%Z ++ turns_of 0 [0]%Z ++
  flat_map (fun i => turns_of i [0; 0; 0; 0; 0]%Z) [0; 1; 2; 3].
Definition c_done : conc AnyHandler :=
  default (MkConc c_eventual [] []) (crun c_turns (MkConc c_eventual c_pcs [])).

Lemma c_pcs_start : Forall (fun p => starting p = true /\ pc_typed p) c_pcs.
Proof.
  repeat constructor; unfold in_int64, in_int32; simpl; lia.
Qed.

Lemma disjoint_handlers_no_lost_update_witness :
  map (fun k => Value_Timestamp <$> Node_Store (cn_node c_done) !! k) ["k"; "j"; "i"] =
    [Some (MkTimestamp 200 0); Some (MkTimestamp 200 1); Some (MkTimestamp 300 0)] /\
  Node_Store (cn_node c_done) !! "k" =
    Some (write_stored (MkWrite "k" (MkValue [x61] (MkTimestamp 200 0) [] false))).
Proof.
  split; [vm_compute; reflexivity|].
  refine (proj2 (disjoint_handlers_no_lost_update c_eventual c_pcs c_turns c_done
    c_eventual_wf _ _ c_pcs_start _ _ _) 0 "k" (MkValue [x61] (MkTimestamp 200 0) [] false) _).
  - discriminate.
  - intros k v Hv; simpl in Hv; discriminate Hv.
  - apply (bool_decide_unpack _); vm_compute; exact I.
  - repeat constructor; simpl; unfold in_int64; lia.
  - by apply isSome_default; vm_compute.
  - vm_compute; reflexivity.
Defined.

(** Handlers terminate: whatever the interleaving, a handler that gets five turns
    is done. *)
Theorem handlers_terminate {H} `{Handler H} ts (c c' : conc H) :
  crun ts c = Some c' ->
  (forall i, i < length (cn_threads c) ->
     5 <= length (List.filter (fun t => Nat.eqb (turn_thread t) i) ts)) ->
  length (cn_threads c') = length (cn_threads c) /\
  Forall (fun p => pc_done p = true) (cn_threads c').
Proof.
  intros Hrun Hts.
  assert (Hlen : length (cn_threads c') = length (cn_threads c)).
  { apply (crun_ind (fun c1 => length (cn_threads c1) = length (cn_threads c)) ts c); try done.
    intros t c1 c2 _ Hc1 (p & n' & rpcs & p' & _ & _ & ->)%cstep_inv; simpl.
    by rewrite length_insert. }
  split; [done|]; apply Forall_lookup; intros i p' Hp'.
  assert (Hi : i < length (cn_threads c)) by (rewrite <- Hlen; by eapply lookup_lt_Some).
  destruct (lookup_lt_is_Some_2 _ _ Hi) as [p Hp].
  destruct (crun_turns _ _ _ _ _ Hrun Hp) as (q & Hq & Hle); apply turns_done.
  specialize (Hts i Hi); pose proof (turns_start p); assert (q = p') by congruence; subst; lia.
Qed.

Lemma handlers_terminate_witness :
  length (cn_threads c_done) = 4 /\ Forall (fun p => pc_done p = true) (cn_threads c_done).
Proof.
  apply (handlers_terminate c_turns (MkConc c_eventual c_pcs []) c_done).
  - by apply isSome_default; vm_compute.
  - intros [|[|[|[|i]]]] Hi; simpl in *; lia.
Defined.
