(* ===== verification/Grid.v ===== *)
(** * The whole cluster with concurrent handlers ([src/internal/server],
      [src/internal/replication], [src/cmd/node])

    All nodes of a cluster at the grain of [Interleave.v]: at every node any
    number of handlers run at once, each RPC is served by a handler of its own
    at the peer, and an RPC may return an error to its caller whether or not, and
    before or after, the peer serves it.  A strong write waits for all its RPCs
    to return.  It covers the three modes; [Strong.v] is about the strong one. *)

From S2P Require Import Prelude Hlc Store Buffer Wire Replication Server Cluster Interleave.

(** ** Definitions *)

(** An RPC a handler started: the peer, the handler that serves it there, and
    what came back to the caller. *)
Record call := MkCall {
  call_peer : peer;
  call_srv : pc;
  call_reply : option rpc_reply
}.

(** A client's call running at a node, with the RPCs it started. *)
Record op := MkOp {
  op_node : nat;
  op_pc : pc;
  op_calls : list call
}.

Record grid := MkGrid {
  grid_nodes : list (Node AnyHandler);
  grid_ops : list op
}.

Definition start_call (o : outgoing) : call :=
  MkCall (out_peer o) (RStart (out_req o)) None.

(** [wg.Wait()] *)
Definition all_replied (o : op) : bool :=
  forallb (fun c => isSome (call_reply c)) (op_calls o).

(** The content of the channel of results. *)
Definition op_replies (o : op) : list rpc_reply := omap call_reply (op_calls o).

Definition op_ready (o : op) : bool :=
  match op_pc o with WSending _ _ => all_replied o | _ => true end.

(** What [p.Replicate] returns once the peer's handler has. *)
Definition reply_of (r : res ReplicateResponse) : rpc_reply :=
  match r with
  | Ok resp => MkReply (Some resp) None
  | Err e => MkReply None (Some e)
  end.

(** The calls of a client. *)
Definition client_start (p : pc) : bool :=
  match p with
  | WStart _ data del => negb del || Nat.eqb (length data) 0
  | GStart _ => true
  | _ => false
  end.

Inductive glabel :=
| GBegin (i : nat) (p : pc)               (* a client calls node [i] *)
| GTurn (k : nat) (now : Z)               (* call [k] moves to its next access *)
| GServe (k j : nat) (now : Z)            (* so does the handler of its RPC [j] *)
| GReturn (k j : nat)                     (* that RPC returns its answer *)
| GFail (k j : nat) (e : string).         (* or an error *)

Definition with_call (k : nat) (o : op) (j : nat) (c : call) (ops : list op) : list op :=
  <[k := MkOp (op_node o) (op_pc o) (<[j := c]> (op_calls o))]> ops.

Definition gstep (lb : glabel) (g : grid) : option grid :=
  match lb with
  | GBegin i p =>
      _ ← grid_nodes g !! i;
      if client_start p then Some (MkGrid (grid_nodes g) (grid_ops g ++ [MkOp i p []])) else None
  | GTurn k now =>
      o ← grid_ops g !! k;
      n ← grid_nodes g !! op_node o;
      if op_ready o then
        let '(n', rpcs, p') := micro now (op_replies o) n (op_pc o) in
        Some (MkGrid (<[op_node o := n']> (grid_nodes g))
          (<[k := MkOp (op_node o) p' (op_calls o ++ map start_call rpcs)]> (grid_ops g)))
      else None
  | GServe k j now =>
      o ← grid_ops g !! k;
      c ← op_calls o !! j;
      n ← grid_nodes g !! call_peer c;
      let '(n', _, p') := micro now [] n (call_srv c) in
      Some (MkGrid (<[call_peer c := n']> (grid_nodes g))
        (with_call k o j (MkCall (call_peer c) p' (call_reply c)) (grid_ops g)))
  | GReturn k j =>
      o ← grid_ops g !! k;
      c ← op_calls o !! j;
      match call_srv c, call_reply c with
      | RDone r, None =>
          Some (MkGrid (grid_nodes g)
            (with_call k o j (MkCall (call_peer c) (RDone r) (Some (reply_of r))) (grid_ops g)))
      | _, _ => None
      end
  | GFail k j e =>
      o ← grid_ops g !! k;
      c ← op_calls o !! j;
      match call_reply c with
      | None =>
          Some (MkGrid (grid_nodes g)
            (with_call k o j (MkCall (call_peer c) (call_srv c) (Some (MkReply None (Some e))))
               (grid_ops g)))
      | Some _ => None
      end
  end.

Fixpoint grun (ls : list glabel) (g : grid) : option grid :=
  match ls with
  | [] => Some g
  | lb :: ls => g' ← gstep lb g; grun ls g'
  end.

(** A test that holds at every step of a run. *)
Fixpoint grun_all (P : glabel -> grid -> bool) (ls : list glabel) (g : grid) : bool :=
  match ls with
  | [] => true
  | lb :: ls => P lb g && match gstep lb g with Some g' => grun_all P ls g' | None => true end
  end.

(** The nodes of [init_cluster], with no call running. *)
Definition init_grid (mode : string) (opts : Options) (nows : list Z) : option grid :=
  (fun c => MkGrid (nodes c) []) <$> init_cluster mode opts nows.

(** The wall-clock reading of a step, an int64. *)
Definition glabel_now (lb : glabel) : option Z :=
  match lb with GTurn _ now | GServe _ _ now => Some now | _ => None end.

Definition glabel_typed (lb : glabel) : Prop :=
  match glabel_now lb with Some now => in_int64 now | None => True end.

(** ** Well-formed states

    The timestamps a clock issues and everything made of them. *)

Definition ts_issued (t : Timestamp) : Prop :=
  in_int64 (WallTime t) /\ (0 <= Logical t <= maxLogical)%Z.

Definition dep_wt (d : Dependency) : Prop := ts_issued (Dependency_MinTS d).

Definition val_wt (v : Value) : Prop :=
  ts_issued (Value_Timestamp v) /\ Forall dep_wt (Value_Deps v).

(** A request with no nil pointer in it. *)
Definition req_wt (req : ReplicateRequest) : Prop :=
  (exists pts, RR_Timestamp req = Some pts /\ ts_issued (fromProtoTS pts)) /\
  Forall (fun d => exists k t, d = Some (MkRepbDep k (Some t)) /\ ts_issued (fromProtoTS t))
    (RR_Deps req).

(** An answer to a [Get]: a version exactly when the key was found. *)
Definition get_wt (r : res GetResponse) : Prop :=
  match r with
  | Ok resp => match GetResp_Timestamp resp with
               | Some t => GetResp_Found resp = true /\
                           ts_issued (MkTimestamp (kv_WallTime t) (kv_Logical t))
               | None => GetResp_Found resp = false
               end
  | Err _ => False
  end.

(** A handler's local variables; a strong write is never stored before its RPCs,
    the others never wait for them. *)
Definition pc_wt (mode : string) (p : pc) : Prop :=
  match p with
  | WStart _ _ _ | GStart _ | RDone _ | WDone _ (Err _) => True
  | GDone r => get_wt r
  | WSent _ v | WDeps _ v | WDone _ (Ok v) | GRead _ v => val_wt v
  | WStored _ v => val_wt v /\ mode <> "strong"
  | WSending _ v | WAcked _ v => val_wt v /\ mode = "strong"
  | RStart req => req_wt req
  | RClocked req ts => req_wt req /\ fromProtoTS <$> RR_Timestamp req = Some ts
  end.

Record node_wt (mode : string) (peers : list peer) (opts : Options) (n : Node AnyHandler)
    : Prop := {
  nw_mode : Node_Mode n = mode;
  nw_handler : NewHandler mode peers opts = Some (Node_Handler n);
  nw_clock : clock_wf (Node_Clock n);
  nw_store : map_Forall (fun _ v => val_wt v) (Node_Store n);
  nw_buffer : match Node_Buffer n with
              | Some b => mode = "causal" /\ Forall (fun w => val_wt (write_val w)) (Buffer_held b)
              | None => mode <> "causal"
              end;
  nw_tracker : match Node_Tracker n with
               | Some rt => mode = "causal" /\ Forall dep_wt (ReadTracker_reads rt)
               | None => mode <> "causal"
               end
}.

Record grid_wt (mode : string) (opts : Options) (N : nat) (g : grid) : Prop := {
  gw_length : length (grid_nodes g) = N;
  gw_nodes : forall i n, grid_nodes g !! i = Some n -> node_wt mode (other_peers N i) opts n;
  gw_ops : Forall (fun o => pc_wt mode (op_pc o) /\
             Forall (fun c => pc_wt mode (call_srv c)) (op_calls o)) (grid_ops g)
}.

(** ** Lemmas *)

Lemma ts_issued_typed t : ts_issued t -> ts_typed t.
Proof. unfold ts_issued, ts_typed, in_int32, maxLogical; intuition lia. Qed.

Lemma val_wt_write k v : val_wt v -> val_wt (write_stored (MkWrite k v)).
Proof.
  intros [Ht Hd]; unfold write_stored; simpl; destruct (Value_Deleted v); [|by split].
  split; [exact Ht|constructor].
Qed.

Lemma clock_step_issued clk e clk' t :
  clock_wf clk -> event_typed e -> clock_step clk e = (clk', Ok t) ->
  clock_wf clk' /\ ts_issued t /\ t = Clock_Now clk' /\ ts_lt (Clock_Now clk) t.
Proof.
  intros Hwf He Hs; pose proof (clock_step_view _ _ Hwf He) as Hv; rewrite Hs in Hv.
  pose proof (clock_step_wf _ _ _ _ Hwf He Hs) as Hwf'.
  destruct Hv as [[Hnow Hlater _ Hc _] _]; split_and!; try done.
  split; [|done]; rewrite Hnow; apply Hwf'.
Qed.

Lemma build_wt key val deps :
  ts_issued (Value_Timestamp val) -> Forall dep_wt deps ->
  req_wt (buildReplicateRequest key val deps).
Proof.
  intros Ht Hd; split; simpl.
  - eexists; split; [done|]; by rewrite fromProto_toReplicateTS.
  - rewrite Forall_map; eapply Forall_impl; [exact Hd|]; intros d Hdt; simpl.
    by eexists _, (toReplicateTS _); rewrite fromProto_toReplicateTS.
Qed.

Lemma OnWrite_wt (h : AnyHandler) key val rs :
  val_wt val -> Forall (fun o => req_wt (out_req o)) (fst (OnWrite h key val rs)).
Proof.
  intros [Ht Hd]; apply Forall_forall; intros o Ho.
  apply on_write_request in Ho as (deps & Hdeps & ->).
  apply build_wt; [done|]; by destruct Hdeps as [->| ->].
Qed.

Lemma request_value_wt req pts :
  req_wt req -> RR_Timestamp req = Some pts -> val_wt (request_value req (fromProtoTS pts)).
Proof.
  intros [(pts' & Hp & Ht) Hd] Hpts; simplify_eq; split; [done|]; simpl.
  induction Hd as [|d ds (k & t & -> & Hdt) _ IH]; simpl; constructor; done.
Qed.

(** A delivery through the buffer or to the store keeps values well-typed. *)
Lemma apply_writes_wt st ws :
  map_Forall (fun _ v => val_wt v) st -> Forall (fun w => val_wt (write_val w)) ws ->
  map_Forall (fun _ v => val_wt v) (apply_writes st ws).
Proof.
  intros Hst Hws key v [Hv|(w & Hw & <- & ->)]%apply_writes_from; [by eapply Hst|].
  rewrite Forall_forall in Hws; specialize (Hws w Hw); destruct w; by apply val_wt_write.
Qed.

Lemma Buffer_Receive_wt key val st b st' b' now :
  map_Forall (fun _ v => val_wt v) st -> Forall (fun w => val_wt (write_val w)) (Buffer_held b) ->
  val_wt val -> Buffer_Receive key val st b = (st', b', now) ->
  map_Forall (fun _ v => val_wt v) st' /\ Forall (fun w => val_wt (write_val w)) (Buffer_held b').
Proof.
  intros Hst Hb Hv (ws & Hrun & Hperm & _)%Buffer_Receive_spec.
  assert (Hall : Forall (fun w => val_wt (write_val w)) (ws ++ Buffer_held b')).
  { rewrite Hperm, Forall_app; split; [done|]; by constructor. }
  apply Forall_app in Hall as [Hws Hb']; split; [|done].
  rewrite (causal_run_apply _ _ _ Hrun); by apply apply_writes_wt.
Qed.

(** One step of a handler, at a well-formed node. *)
Section micro_wt.
Context (mode : string) (peers : list peer) (opts : Options).
Implicit Types (n : Node AnyHandler) (p : pc).
Let ok n p (rpcs : list outgoing) : Prop :=
  node_wt mode peers opts n /\ pc_wt mode p /\ Forall (fun o => req_wt (out_req o)) rpcs.

Lemma node_wt_clock n clk :
  node_wt mode peers opts n -> clock_wf clk -> node_wt mode peers opts (with_clock clk n).
Proof. by intros [] ?; split. Qed.

Lemma node_wt_store n s :
  node_wt mode peers opts n -> map_Forall (fun _ v => val_wt v) s ->
  node_wt mode peers opts (with_store s n).
Proof. by intros [] ?; split. Qed.

Lemma local_store_wt n key val :
  node_wt mode peers opts n -> val_wt val ->
  node_wt mode peers opts (with_store (local_store key val (Node_Store n)) n).
Proof.
  intros Hn Hv; apply node_wt_store; [done|]; rewrite local_store_write.
  apply map_Forall_insert_2; [by apply val_wt_write|apply Hn].
Qed.

Lemma take_deps_wt n n' deps :
  node_wt mode peers opts n -> take_deps n = (n', deps) ->
  node_wt mode peers opts n' /\ Forall dep_wt deps.
Proof.
  intros Hn; unfold take_deps, active_tracker; pose proof (nw_tracker _ _ _ _ Hn) as Ht.
  destruct (String.eqb _ _); [|intros [= <- <-]; by split].
  destruct (Node_Tracker n) as [rt|] eqn:Hrt; simpl; intros [= <- <-]; [|by split].
  split; [|apply Ht]; destruct Hn, Ht; by split.
Qed.

Lemma micro_wt_write n p now rs n' rpcs p' :
  node_wt mode peers opts n -> pc_wt mode p -> in_int64 now ->
  match p with
  | WStart _ _ _ | WSent _ _ | WDeps _ _ | WStored _ _ | WSending _ _ | WAcked _ _ | WDone _ _ => True
  | _ => False
  end ->
  micro now rs n p = (n', rpcs, p') -> ok n' p' rpcs.
Proof.
  intros Hn Hp Hnow Hw; destruct p as [key data del|key v|key v|key v|key v|key v|key r| | | | | |];
    try done; simpl in *.
  - pose proof (clock_step_issued (Node_Clock n) (EvSend now)) as Hs; simpl in Hs.
    pose proof (clock_step_wf (Node_Clock n) (EvSend now)) as Hc; simpl in Hc.
    destruct (Clock_Send _ _) as [clk [t|e]]; intros [= <- <- <-].
    + destruct (Hs clk t) as (? & ? & _); [apply Hn|done..|].
      split_and!; [by apply node_wt_clock| |constructor]; split; [done|constructor].
    + split_and!; [|done|constructor]; apply node_wt_clock; [done|].
      eapply Hc; [apply Hn|done..].
  - destruct (take_deps n) as [n1 deps] eqn:Ht; intros [= <- <- <-].
    destruct (take_deps_wt _ _ _ Hn Ht) as [? ?]; destruct Hp.
    by split_and!; [| |constructor].
  - pose proof (nw_mode _ _ _ _ Hn) as Hm.
    destruct (String.eqb_spec (Node_Mode n) "strong"); intros [= <- <- <-].
    + split_and!; [done|split; [done|congruence]|by apply OnWrite_wt].
    + split_and!; [by apply local_store_wt|split; [done|congruence]|constructor].
  - destruct Hp as [Hp _]; pose proof (OnWrite_wt (Node_Handler n) key v rs Hp) as Ho.
    simpl in Ho; destruct (_ : list outgoing * option string) as [rpcs1 [e|]];
      intros [= <- <- <-]; by split_and!.
  - destruct (snd _); intros [= <- <- <-]; by split_and!.
  - intros [= <- <- <-]; split_and!; [by apply local_store_wt; [|apply Hp]|apply Hp|constructor].
  - intros [= <- <- <-]; by split_and!.
Qed.

Lemma micro_wt_other n p now rs n' rpcs p' :
  node_wt mode peers opts n -> pc_wt mode p -> in_int64 now ->
  match p with GStart _ | GRead _ _ | GDone _ | RStart _ | RClocked _ _ | RDone _ => True | _ => False end ->
  micro now rs n p = (n', rpcs, p') -> ok n' p' rpcs.
Proof.
  intros Hn Hp Hnow Hw; destruct p as [| | | | | | |key|key v|r|req|req ts|r]; try done; simpl in *.
  - unfold Store_Get; destruct (_ !! key) as [v|] eqn:Hv; [destruct (Value_Deleted v)|]; simpl;
      intros [= <- <- <-]; split_and!; try done; by eapply nw_store.
  - intros [= <- <- <-]; split_and!; [|simpl; split; [done|apply Hp]|done].
    pose proof (nw_tracker _ _ _ _ Hn) as Ht; unfold active_tracker.
    destruct (String.eqb _ _), (Node_Tracker n) as [rt|]; try done.
    destruct Hn; split; simpl; try done; split; [apply Ht|].
    apply Forall_app; split; [apply Ht|]; constructor; [apply Hp|constructor].
  - intros [= <- <- <-]; by split_and!.
  - destruct (proj1 Hp) as (pts & Hpts & Hti); rewrite Hpts in *.
    pose proof (clock_step_issued (Node_Clock n) (EvReceive now (fromProtoTS pts))) as Hs.
    pose proof (clock_step_wf (Node_Clock n) (EvReceive now (fromProtoTS pts))) as Hc; simpl in *.
    assert (He : in_int64 now /\ ts_typed (fromProtoTS pts))
      by (split; [done|by apply ts_issued_typed]).
    destruct (Clock_Receive _ _ _) as [clk [t|e]]; intros [= <- <- <-];
      (split_and!; [apply node_wt_clock; [done|]| |constructor]); try done.
    + eapply Hs; [apply Hn|done..].
    + by simpl; rewrite Hpts.
    + eapply Hc; [apply Hn|done..].
  - destruct Hp as [Hr Hts]; destruct (RR_Timestamp req) as [pts|] eqn:Hpts; simplify_eq/=.
    pose proof (request_value_wt req pts Hr Hpts) as Hv.
    pose proof (nw_buffer _ _ _ _ Hn) as Hb; unfold active_buffer.
    rewrite (nw_mode _ _ _ _ Hn); destruct (String.eqb_spec mode "causal") as [Hm|Hm];
      [destruct (Node_Buffer n) as [b|] eqn:Hnb; [|done]|].
    + destruct (Buffer_Receive _ _ _ b) as [[s b'] ?] eqn:Hrecv; intros [= <- <- <-].
      apply Buffer_Receive_wt in Hrecv as [? ?]; [|apply Hn|apply Hb|done].
      split_and!; [|done|constructor]; destruct Hn; by split.
    + pose proof (apply_writes_wt (Node_Store n)
        [MkWrite (RR_Key req) (request_value req (fromProtoTS pts))] (nw_store _ _ _ _ Hn)
        ltac:(by constructor)) as Hst; unfold apply_writes, apply_write, write_ts in Hst; simpl in Hst.
      destruct (if Nat.eqb _ 0 then _ else _) as [s ok0]; simpl in Hst; intros [= <- <- <-].
      split_and!; [by apply node_wt_store|done|constructor].
  - intros [= <- <- <-]; by split_and!.
Qed.

Lemma micro_wt n p now rs n' rpcs p' :
  node_wt mode peers opts n -> pc_wt mode p -> in_int64 now ->
  micro now rs n p = (n', rpcs, p') -> ok n' p' rpcs.
Proof.
  intros Hn Hp Hnow Hm; destruct p;
    first [by eapply micro_wt_write; [..|exact Hm]|by eapply micro_wt_other; [..|exact Hm]].
Qed.

End micro_wt.

(** ** Steps and runs *)

(** The step function as a relation, one rule per branch that moves. *)
Inductive gstep_view (g : grid) : glabel -> grid -> Prop :=
| GV_begin i p n :
    grid_nodes g !! i = Some n -> client_start p = true ->
    gstep_view g (GBegin i p) (MkGrid (grid_nodes g) (grid_ops g ++ [MkOp i p []]))
| GV_turn k now o n n' rpcs p' :
    grid_ops g !! k = Some o -> grid_nodes g !! op_node o = Some n -> op_ready o = true ->
    micro now (op_replies o) n (op_pc o) = (n', rpcs, p') ->
    gstep_view g (GTurn k now)
      (MkGrid (<[op_node o := n']> (grid_nodes g))
         (<[k := MkOp (op_node o) p' (op_calls o ++ map start_call rpcs)]> (grid_ops g)))
| GV_serve k j now o c n n' rpcs p' :
    grid_ops g !! k = Some o -> op_calls o !! j = Some c ->
    grid_nodes g !! call_peer c = Some n -> micro now [] n (call_srv c) = (n', rpcs, p') ->
    gstep_view g (GServe k j now)
      (MkGrid (<[call_peer c := n']> (grid_nodes g))
         (with_call k o j (MkCall (call_peer c) p' (call_reply c)) (grid_ops g)))
| GV_return k j o c r :
    grid_ops g !! k = Some o -> op_calls o !! j = Some c -> call_srv c = RDone r ->
    call_reply c = None ->
    gstep_view g (GReturn k j)
      (MkGrid (grid_nodes g)
         (with_call k o j (MkCall (call_peer c) (RDone r) (Some (reply_of r))) (grid_ops g)))
| GV_fail k j e o c :
    grid_ops g !! k = Some o -> op_calls o !! j = Some c -> call_reply c = None ->
    gstep_view g (GFail k j e)
      (MkGrid (grid_nodes g)
         (with_call k o j (MkCall (call_peer c) (call_srv c) (Some (MkReply None (Some e))))
            (grid_ops g))).

Lemma gstepP lb g g' : gstep lb g = Some g' -> gstep_view g lb g'.
Proof.
  destruct lb as [i p|k now|k j now|k j|k j e]; simpl; intros Hs;
    apply bind_Some in Hs as (x & Hx & Hs); try (apply bind_Some in Hs as (y & Hy & Hs)).
  - destruct (client_start p) eqn:Hp; simplify_eq; by econstructor.
  - destruct (op_ready x) eqn:Hr; [|done].
    destruct (micro _ _ _ _) as [[n' rpcs] p'] eqn:Hm; simplify_eq; by econstructor.
  - apply bind_Some in Hs as (n & Hn & Hs).
    destruct (micro _ _ _ _) as [[n' rpcs] p'] eqn:Hm; simplify_eq; by econstructor.
  - destruct (call_srv y) eqn:Hsrv, (call_reply y) eqn:Hr; simplify_eq; by eapply GV_return.
  - destruct (call_reply y) eqn:Hr; simplify_eq; by econstructor.
Qed.

Lemma grun_app ls1 ls2 g : grun (ls1 ++ ls2) g = g' ← grun ls1 g; grun ls2 g'.
Proof.
  revert g; induction ls1 as [|lb ls1 IH]; intros g; simpl; [done|].
  destruct (gstep lb g) as [g1|]; simpl; [apply IH|done].
Qed.

(** Induction over a run whose steps all satisfy a property. *)
Lemma grun_ind (Q : glabel -> grid -> Prop) (P : grid -> Prop) ls g g' :
  P g -> grun ls g = Some g' ->
  (forall pre lb post g1, ls = pre ++ lb :: post -> grun pre g = Some g1 -> Q lb g1) ->
  (forall lb g1 g2, P g1 -> Q lb g1 -> gstep_view g1 lb g2 -> P g2) -> P g'.
Proof.
  intros Hg Hrun HQ Hstep; revert g' Hrun HQ; induction ls as [|lb ls IH] using rev_ind;
    intros g' Hrun HQ; [simpl in Hrun; by simplify_eq|].
  rewrite grun_app in Hrun; apply bind_Some in Hrun as (g1 & Hg1 & Hrun); simpl in Hrun.
  apply bind_Some in Hrun as (g2 & Hlb & Hg2); simplify_eq.
  assert (Hp : P g1).
  { apply IH; [done|]; intros pre lb' post g2 -> Hpre; apply (HQ pre lb' (post ++ [lb]));
      [by rewrite <- app_assoc|done]. }
  eapply Hstep; [exact Hp| |by apply gstepP]; by apply (HQ ls lb []).
Qed.

(** The same for tests along the run. *)
Lemma grun_all_ind (t : glabel -> grid -> bool) (P : grid -> Prop) ls g g' :
  P g -> grun_all t ls g = true -> grun ls g = Some g' ->
  (forall lb g1 g2, P g1 -> t lb g1 = true -> gstep_view g1 lb g2 -> P g2) -> P g'.
Proof.
  intros Hg Hok Hrun Hstep; revert g Hg Hok Hrun; induction ls as [|lb ls IH];
    intros g Hg Hok Hrun; simpl in *; [by simplify_eq|].
  apply andb_true_iff in Hok as [Hlb Hok]; apply bind_Some in Hrun as (g1 & Hg1 & Hrun).
  rewrite Hg1 in Hok; apply (IH g1); try done; eapply Hstep; [done|done|by apply gstepP].
Qed.

Lemma Forall_with_call (P : op -> Prop) k o j c ops :
  Forall P ops -> P (MkOp (op_node o) (op_pc o) (<[j := c]> (op_calls o))) ->
  Forall P (with_call k o j c ops).
Proof. intros; by apply Forall_insert. Qed.

Lemma gstep_wt mode opts N lb g g' :
  grid_wt mode opts N g -> glabel_typed lb -> gstep_view g lb g' -> grid_wt mode opts N g'.
Proof.
  intros [Hlen Hns Hops] Hlb Hv.
  assert (Hop : forall k o, grid_ops g !! k = Some o -> pc_wt mode (op_pc o) /\
            Forall (fun c => pc_wt mode (call_srv c)) (op_calls o))
    by (intros k o Ho; exact (proj1 (Forall_lookup _ _) Hops _ _ Ho)).
  destruct Hv as [i p n Hi Hp|k now o n n' rpcs p' Ho Hn Hr Hm|k j now o c n n' rpcs p' Ho Hc Hn Hm
    |k j o c r Ho Hc Hs Hr|k j e o c Ho Hc Hr]; split; simpl; rewrite ?length_insert; try done.
  - apply Forall_app; split; [done|]; constructor; [|done]; split; [by destruct p|done].
  - destruct (Hop _ _ Ho) as [Hpc Hcs].
    destruct (micro_wt _ _ _ _ _ _ _ _ _ _ (Hns _ _ Hn) Hpc Hlb Hm) as [Hn' _].
    intros i x [[<- <-]|[_ Hx]]%insert_lookup_cases; auto.
  - destruct (Hop _ _ Ho) as [Hpc Hcs].
    destruct (micro_wt _ _ _ _ _ _ _ _ _ _ (Hns _ _ Hn) Hpc Hlb Hm) as (_ & Hp' & Hrpcs).
    apply Forall_insert; [done|]; split; [done|]; apply Forall_app; split; [done|].
    by apply Forall_map.
  - destruct (Hop _ _ Ho) as [Hpc Hcs]; pose proof (proj1 (Forall_lookup _ _) Hcs _ _ Hc) as Hsrv.
    destruct (micro_wt _ _ _ _ _ _ _ _ _ _ (Hns _ _ Hn) Hsrv Hlb Hm) as [Hn' _].
    intros i x [[<- <-]|[_ Hx]]%insert_lookup_cases; auto.
  - destruct (Hop _ _ Ho) as [Hpc Hcs]; pose proof (proj1 (Forall_lookup _ _) Hcs _ _ Hc) as Hsrv.
    destruct (micro_wt _ _ _ _ _ _ _ _ _ _ (Hns _ _ Hn) Hsrv Hlb Hm) as (_ & Hp' & _).
    apply Forall_with_call; [done|]; split; [done|]; by apply Forall_insert.
  - destruct (Hop _ _ Ho) as [Hpc Hcs].
    apply Forall_with_call; [done|]; split; [done|]; by apply Forall_insert.
  - destruct (Hop _ _ Ho) as [Hpc Hcs].
    apply Forall_with_call; [done|]; split; [done|]; apply Forall_insert; [done|].
    exact (proj1 (Forall_lookup _ _) Hcs _ _ Hc).
Qed.

Lemma start_node_wt mode peers opts now n :
  in_int64 now -> start_node mode peers opts now = Some n -> node_wt mode peers opts n.
Proof.
  unfold start_node; destruct (negb _); [done|].
  intros Hnow; destruct (NewHandler mode peers opts) as [h|] eqn:Hh; [|done]; intros [= <-].
  split; simpl; [done|done| | | |].
  - split; simpl; [done|unfold maxLogical; lia].
  - apply map_Forall_empty.
  - by destruct (String.eqb_spec mode "causal").
  - by destruct (String.eqb_spec mode "causal").
Qed.

Lemma init_grid_wt mode opts nows g :
  Forall in_int64 nows -> init_grid mode opts nows = Some g -> grid_wt mode opts (length nows) g.
Proof.
  intros Hnows; unfold init_grid; rewrite fmap_Some; intros (c & Hc & ->).
  apply init_cluster_nodes in Hc as (_ & Hlen & Hns); split; simpl; [done| |constructor].
  intros i n Hi; destruct (Hns _ _ Hi) as (now & Hnow & Hst).
  eapply start_node_wt; [|exact Hst]. by eapply Forall_lookup_1 in Hnows.
Qed.

Lemma grun_wt mode opts N ls g g' :
  grid_wt mode opts N g -> Forall glabel_typed ls -> grun ls g = Some g' -> grid_wt mode opts N g'.
Proof.
  intros Hg Hls Hrun; apply (grun_ind (fun lb _ => glabel_typed lb) (grid_wt mode opts N) ls g);
    try done.
  - intros pre lb post g1 -> _; apply Forall_app in Hls as [_ Hls]; by inversion Hls.
  - intros; by eapply gstep_wt.
Qed.

(** ** Properties *)

(** C15: well-formed: in every mode, after any run of concurrent handlers, with RPCs
    failing at any moment, every node keeps the mode, the handler and the
    peers it was started with and has a buffer and a read tracker exactly in
    causal mode; every timestamp in a store, a buffer, a tracker, a handler's
    variables or a request in flight is a machine-width one with a counter
    between 0 and [maxLogical]; and no request carries a nil pointer, so the
    branches that test for one are not taken. *)
Theorem grid_well_formed mode opts nows g0 ls g :
  Forall in_int64 nows -> init_grid mode opts nows = Some g0 -> Forall glabel_typed ls ->
  grun ls g0 = Some g -> grid_wt mode opts (length nows) g.
Proof. intros Hnows Hinit Hls Hrun; eapply grun_wt; [by apply init_grid_wt|done|done]. Qed.

(** Three strong nodes; a put at node 0 of which the RPC to node 2 fails, then a
    read at node 1. *)
Definition c_grid (mode : string) : grid :=
  default (MkGrid [] []) (init_grid mode c_opts [100; 100; 100]%Z).
Definition turns (k m : nat) (now : Z) : list glabel := repeat (GTurn k now) m.
Definition c_strong_put : list glabel :=
  [GBegin 0 (WStart "x" [x61] false)] ++ turns 0 3 200 ++
  [GServe 0 0 210; GFail 0 1 "timeout"; GServe 0 0 211; GReturn 0 0] ++ turns 0 2 0 ++
  [GBegin 1 (GStart "x")] ++ turns 1 2 0.
Definition c_strong_after : grid :=
  default (c_grid "strong") (grun c_strong_put (c_grid "strong")).

Lemma c_int64 : Forall in_int64 [100; 100; 100]%Z.
Proof. repeat constructor; lia. Qed.

Lemma grid_well_formed_witness :
  map op_pc (grid_ops c_strong_after) =
    [WDone "x" (Ok (c_val 200 x61));
     GDone (Ok (MkGetResponse [x61] (Some (MkKvTS 200 0)) true))] /\
  grid_wt "strong" c_opts 3 c_strong_after.
Proof.
  split; [vm_compute; reflexivity|].
  apply (grid_well_formed "strong" c_opts [100; 100; 100]%Z (c_grid "strong") c_strong_put).
  - exact c_int64.
  - by apply isSome_default.
  - repeat constructor; lia.
  - by apply isSome_default; vm_compute.
Defined.
