(* ===== verification/Simulate.v ===== *)
(** * Runs with whole handlers are runs with concurrent handlers

    The cluster of [Cluster.v], whose handlers run whole and whose RPCs in flight
    are a list of messages, against the grid of [Grid.v], whose handlers take
    one access at a time: every step of the former, in an asynchronous mode, is
    a sequence of steps of the latter that leaves the same nodes.  A message in
    flight is an RPC that the peer has not begun to serve; a lost one is never
    served. *)

From S2P Require Import Prelude Hlc Store Buffer Wire Replication Server Cluster Interleave Grid.

(** ** Definitions *)

(** The request of an RPC not yet served, with its destination. *)
Definition call_pending (c : call) : option (peer * ReplicateRequest) :=
  match call_srv c with RStart req => Some (call_peer c, req) | _ => None end.

Definition op_pending (o : op) : list (peer * ReplicateRequest) := omap call_pending (op_calls o).

Definition pending (ops : list op) : list (peer * ReplicateRequest) := flat_map op_pending ops.

(** No RPC has returned to its caller. *)
Definition unreplied (o : op) : Prop := Forall (fun c => call_reply c = None) (op_calls o).

Record simulates (mode : string) (c : cluster) (g : grid) : Prop := {
  sim_nodes : grid_nodes g = nodes c;
  sim_mode : Forall (fun n => Node_Mode n = mode) (nodes c);
  sim_net : exists lost, net c ++ lost ≡ₚ pending (grid_ops g);
  sim_replies : Forall unreplied (grid_ops g)
}.

(** ** Handlers run on a grid *)

Lemma unreplied_replies o : unreplied o -> op_replies o = [].
Proof.
  unfold unreplied, op_replies; induction 1 as [|c cs Hc _ IH]; simpl; [done|]. by rewrite Hc.
Qed.

Lemma unreplied_start i p p' calls rpcs :
  unreplied (MkOp i p calls) -> unreplied (MkOp i p' (calls ++ map start_call rpcs)).
Proof.
  unfold unreplied; simpl; intros Hu; apply Forall_app; split; [done|].
  apply Forall_map, Forall_true; done.
Qed.

Definition waits (p : pc) : bool := match p with WSending _ _ => true | _ => false end.

Lemma micro_async now rs n p n' rpcs p' :
  Node_Mode (H:=AnyHandler) n <> "strong" -> waits p = false ->
  micro now rs n p = (n', rpcs, p') -> waits p' = false /\ Node_Mode n' = Node_Mode n.
Proof.
  intros Hm%String.eqb_neq Hp Hmi; revert Hmi; destruct p; try discriminate; simpl; rewrite ?Hm;
    repeat case_match; intros Hmi; simplify_eq/=; try done.
  - split; [done|]; by eapply take_deps_clock.
Qed.

(** The turns of one call, with nothing in between, are the handler alone. *)
Lemma grun_turns m now k i ns ops n p calls n' rpcs p' :
  ops !! k = Some (MkOp i p calls) -> ns !! i = Some n -> Node_Mode n <> "strong" ->
  waits p = false -> unreplied (MkOp i p calls) -> alone m now [] n p = (n', rpcs, p') ->
  grun (repeat (GTurn k now) m) (MkGrid ns ops) =
    Some (MkGrid (<[i := n']> ns) (<[k := MkOp i p' (calls ++ map start_call rpcs)]> ops)) /\
  Node_Mode n' = Node_Mode n.
Proof.
  revert ns ops n p calls n' rpcs p'; induction m as [|m IH];
    intros ns ops n p calls n' rpcs p' Hk Hi Hm Hw Hu Ha; cbn [repeat grun alone] in *.
  - simplify_eq; simpl; by rewrite app_nil_r, !list_insert_id.
  - destruct (micro now [] n p) as [[n1 rpcs1] p1] eqn:Hmi.
    destruct (alone m now [] n1 p1) as [[n2 rpcs2] p2] eqn:Ha2; simplify_eq.
    destruct (micro_async _ _ _ _ _ _ _ Hm Hw Hmi) as [Hw1 Hm1].
    simpl; rewrite Hk; simpl; rewrite Hi; simpl.
    replace (op_ready (MkOp i p calls)) with true by (by destruct p).
    rewrite (unreplied_replies _ Hu), Hmi; simpl.
    assert (Hl1 : i < length ns) by (by eapply lookup_lt_Some).
    assert (Hl2 : k < length ops) by (by eapply lookup_lt_Some).
    destruct (IH (<[i:=n1]> ns) (<[k:=MkOp i p1 (calls ++ map start_call rpcs1)]> ops) n1 p1
      (calls ++ map start_call rpcs1) n' rpcs2 p') as [-> Hm2]; try done.
    + by apply list_lookup_insert_eq.
    + by apply list_lookup_insert_eq.
    + congruence.
    + by eapply unreplied_start.
    + by rewrite !list_insert_insert_eq, map_app, app_assoc, Hm2.
Qed.

(** ** Messages in flight *)

Lemma pending_app ops ops' : pending (ops ++ ops') = pending ops ++ pending ops'.
Proof. apply flat_map_app. Qed.

Lemma pending_insert k o o' ops :
  ops !! k = Some o ->
  pending (<[k := o']> ops) ++ op_pending o ≡ₚ pending ops ++ op_pending o'.
Proof.
  revert k; induction ops as [|x ops IH]; intros [|k]; simpl; try done.
  - intros [= ->]; by rewrite <- !app_assoc, (Permutation_app_comm (pending ops)),
      (Permutation_app_comm (pending ops)), !app_assoc, (Permutation_app_comm (op_pending o')).
  - intros Hk; by rewrite <- !app_assoc, (IH k Hk).
Qed.

Lemma op_pending_start i p calls rpcs :
  op_pending (MkOp i p (calls ++ map start_call rpcs)) =
  op_pending (MkOp i p calls) ++ messages rpcs.
Proof.
  unfold op_pending; simpl; rewrite omap_app; f_equal.
  unfold messages; induction rpcs as [|o rpcs IH]; simpl; [done|].
  f_equal; exact IH.
Qed.

Lemma op_pending_serve i p j c c' calls msg :
  calls !! j = Some c -> call_pending c = Some msg -> call_pending c' = None ->
  op_pending (MkOp i p calls) ≡ₚ msg :: op_pending (MkOp i p (<[j := c']> calls)).
Proof.
  unfold op_pending; simpl; revert j; induction calls as [|x cs IH]; intros [|j]; simpl; try done.
  - intros [= ->] -> ->; done.
  - intros Hj Hc Hc'; specialize (IH j Hj Hc Hc'); simpl in IH.
    destruct (call_pending x); [rewrite Permutation_swap; by constructor|exact IH].
Qed.

Lemma elem_of_pending msg ops :
  msg ∈ pending ops -> exists k o j c,
    ops !! k = Some o /\ op_calls o !! j = Some c /\ call_pending c = Some msg.
Proof.
  unfold pending; rewrite list_elem_of_In, in_flat_map; intros (o & Ho & Hm).
  apply list_elem_of_In in Ho, Hm; apply list_elem_of_omap in Hm as (c & Hc & Hp).
  apply list_elem_of_lookup in Ho as [k Hk], Hc as [j Hj]; by exists k, o, j, c.
Qed.

(** ** Steps *)

Section sim.
Context (mode : string) (Hmode : mode <> "strong").

(** A client call, run alone on its node. *)
Lemma sim_call m now i p c g n n' rpcs p' :
  simulates mode c g -> nodes c !! i = Some n -> client_start p = true ->
  alone m now [] n p = (n', rpcs, p') ->
  exists ls g', grun ls g = Some g' /\
    simulates mode (MkCluster (<[i := n']> (nodes c)) (net c ++ messages rpcs)) g'.
Proof.
  intros [Hn Hm [lost Hnet] Hu] Hi Hp Ha; destruct g as [ns ops]; simpl in *; subst ns.
  set (k := length ops).
  assert (Hk : (ops ++ [MkOp i p []]) !! k = Some (MkOp i p [])) by (by apply list_lookup_middle).
  pose proof (proj1 (Forall_lookup _ _) Hm _ _ Hi) as Hmn; simpl in Hmn.
  assert (Hu0 : unreplied (MkOp i p [])) by constructor.
  destruct (grun_turns m now k i (nodes c) (ops ++ [MkOp i p []]) n p [] n' rpcs p')
    as [Hrun Hm']; try done; [congruence|by destruct p|].
  exists (GBegin i p :: repeat (GTurn k now) m); eexists; split.
  { simpl; rewrite Hi, Hp; simpl; exact Hrun. }
  split; simpl; [done| | |].
  - apply Forall_insert; [done|by rewrite Hm'].
  - exists lost; pose proof (pending_insert k _ (MkOp i p' (map start_call rpcs)) _ Hk) as Hp1.
    pose proof (op_pending_start i p' [] rpcs) as Hp2; cbn [app] in Hp2.
    rewrite Hp2, pending_app in Hp1; unfold op_pending in Hp1; simpl in Hp1.
    rewrite !app_nil_r in Hp1; rewrite Hp1, <- Hnet.
    by rewrite <- !app_assoc, (Permutation_app_comm (messages rpcs)).
  - apply Forall_insert; [|exact (unreplied_start i p p' [] rpcs Hu0)].
    apply Forall_app; split; [done|]; by constructor.
Qed.

Lemma Node_Replicate_mode now req (n : Node AnyHandler) :
  Node_Mode (fst (Node_Replicate now req n)) = Node_Mode n.
Proof. unfold Node_Replicate; by repeat case_match; simplify_eq/=. Qed.

(** A delivery: the peer serves the RPC from its start to its end. *)
Lemma sim_deliver m now c g i req n n' r :
  simulates mode c g -> net c !! m = Some (i, req) -> nodes c !! i = Some n ->
  Node_Replicate now req n = (n', r) ->
  exists ls g', grun ls g = Some g' /\
    simulates mode (MkCluster (<[i := n']> (nodes c)) (delete m (net c))) g'.
Proof.
  intros [Hn Hm [lost Hnet] Hu] Hmsg Hi Hr; destruct g as [ns ops]; simpl in *; subst ns.
  assert (Hin : (i, req) ∈ pending ops).
  { rewrite <- Hnet, elem_of_app; left; by eapply list_elem_of_lookup_2. }
  apply elem_of_pending in Hin as (k & o & j & c0 & Hk & Hj & Hp).
  unfold call_pending in Hp; destruct c0 as [p0 srv rep]; destruct srv; simplify_eq/=.
  pose proof (alone_replicate (H:=AnyHandler) now [] n req) as Ha; rewrite Hr in Ha; cbn [alone] in Ha.
  assert (Hl1 : i < length (nodes c)) by (by eapply lookup_lt_Some).
  assert (Hl2 : k < length ops) by (by eapply lookup_lt_Some).
  assert (Hl3 : j < length (op_calls o)) by (by eapply lookup_lt_Some).
  set (c' := MkCall i (RDone r) rep).
  exists [GServe k j now; GServe k j now], (MkGrid (<[i := n']> (nodes c)) (with_call k o j c' ops)).
  assert (Hrun : grun [GServe k j now; GServe k j now] (MkGrid (nodes c) ops) =
                 Some (MkGrid (<[i := n']> (nodes c)) (with_call k o j c' ops))).
  { cbn [grun gstep grid_ops grid_nodes]; rewrite Hk; cbn [mbind option_bind].
    rewrite Hj; cbn [mbind option_bind call_peer call_srv]; rewrite Hi; cbn [mbind option_bind].
    destruct (micro now [] n (RStart req)) as [[n1 rp1] p1] eqn:H1.
    destruct (micro now [] n1 p1) as [[n2 rp2] p2] eqn:H2; injection Ha as -> _ ->.
    cbn [mbind option_bind grid_ops grid_nodes]; unfold with_call.
    rewrite list_lookup_insert_eq by done; cbn [mbind option_bind op_calls].
    rewrite list_lookup_insert_eq by done; cbn [mbind option_bind call_peer call_srv].
    rewrite list_lookup_insert_eq by done; cbn [mbind option_bind]; rewrite H2; simpl.
    by rewrite !list_insert_insert_eq. }
  split; [exact Hrun|]; split; simpl; [done| | |].
  - pose proof (Node_Replicate_mode now req n) as Hmr; rewrite Hr in Hmr; simpl in Hmr.
    apply Forall_insert; [done|]; rewrite Hmr; exact (proj1 (Forall_lookup _ _) Hm _ _ Hi).
  - exists lost; destruct o as [io po cs]; simpl in *; unfold with_call; simpl.
    pose proof (op_pending_serve io po j _ c' cs (i, req) Hj eq_refl eq_refl) as Hp1.
    pose proof (pending_insert k _ (MkOp io po (<[j:=c']> cs)) ops Hk) as Hp2.
    rewrite Hp1, <- Hnet, (delete_Permutation _ _ _ Hmsg) in Hp2; simpl in Hp2.
    rewrite <- Permutation_middle in Hp2; apply Permutation_cons_inv in Hp2.
    symmetry; by apply Permutation_app_inv_r in Hp2.
  - apply Forall_with_call; [done|]; unfold unreplied; simpl.
    pose proof (proj1 (Forall_lookup _ _) Hu _ _ Hk) as Huo.
    apply Forall_insert; [done|]; exact (proj1 (Forall_lookup _ _) Huo _ _ Hj).
Qed.

End sim.

(** Every step is simulated. *)
Lemma sim_step mode lb c c' g :
  mode <> "strong" -> simulates mode c g -> step lb c = Some c' ->
  exists ls g', grun ls g = Some g' /\ simulates mode c' g'.
Proof.
  intros Hmode Hs; destruct lb as [i now req|i req|i now req|m now|m]; simpl;
    intros Hstep; apply bind_Some in Hstep as (x & Hx & Hstep).
  - rewrite Node_Put_write in Hstep.
    destruct (node_write _ _ _ _ _ _) as [[n' rpcs] r] eqn:Hw; simplify_eq.
    destruct (alone_write _ _ _ _ _ _ _ _ _ Hw) as (r' & Ha & _).
    by eapply (sim_call mode Hmode 5 now i (WStart (PutReq_Key req) (PutReq_Value req) false)).
  - pose proof (alone_get (H:=AnyHandler) 0 [] x (GetReq_Key req)) as Ha; destruct req as [key].
    destruct (Node_Get _ x) as [n' r]; simplify_eq.
    edestruct (sim_call mode Hmode 2 0 i (GStart key)) as (gls & g' & Hrun & Hs'); try done.
    exists gls, g'; unfold messages in Hs'; simpl in Hs'; by rewrite app_nil_r in Hs'.
  - rewrite Node_Delete_write in Hstep.
    destruct (node_write _ _ _ _ _ _) as [[n' rpcs] r] eqn:Hw; simplify_eq.
    destruct (alone_write _ _ _ _ _ _ _ _ _ Hw) as (r' & Ha & _).
    by eapply (sim_call mode Hmode 5 now i (WStart (DelReq_Key req) [] true)).
  - apply bind_Some in Hstep as (n & Hn & Hstep); destruct x as [i req]; simpl in *.
    destruct (Node_Replicate now req n) as [n' r] eqn:Hr; simplify_eq.
    by eapply sim_deliver.
  - simplify_eq; exists [], g; split; [done|].
    destruct Hs as [? ? [lost Hnet] ?]; split; simpl; try done.
    exists (x :: lost); rewrite <- Hnet, <- Permutation_middle.
    pose proof (delete_Permutation _ _ _ Hx) as Hd; by rewrite Hd at 2.
Qed.

Lemma sim_run mode ls c c' g :
  mode <> "strong" -> simulates mode c g -> run ls c = Some c' ->
  exists gls g', grun gls g = Some g' /\ simulates mode c' g'.
Proof.
  intros Hmode; revert c g; induction ls as [|lb ls IH]; intros c g Hs Hrun.
  - simpl in Hrun; simplify_eq; by exists [], g.
  - apply run_cons in Hrun as (c1 & Hlb & Hrun).
    destruct (sim_step _ _ _ _ _ Hmode Hs Hlb) as (ls1 & g1 & Hg1 & Hs1).
    destruct (IH _ _ Hs1 Hrun) as (ls2 & g2 & Hg2 & Hs2).
    exists (ls1 ++ ls2), g2; split; [|done]. by rewrite grun_app, Hg1.
Qed.

Lemma start_node_mode mode peers opts now n :
  start_node mode peers opts now = Some n -> Node_Mode n = mode.
Proof.
  unfold start_node; destruct (negb _); [done|].
  destruct (NewHandler _ _ _); [|done]; by intros [= <-].
Qed.

Lemma init_simulates mode opts nows c :
  init_cluster mode opts nows = Some c -> simulates mode c (MkGrid (nodes c) []).
Proof.
  intros Hc; apply init_cluster_nodes in Hc as (Hnet & _ & Hns); split; simpl; [done| | |done].
  - apply Forall_lookup; intros i n Hi; destruct (Hns _ _ Hi) as (now & _ & Hst).
    by eapply start_node_mode.
  - exists []; by rewrite Hnet.
Qed.

(** ** Properties *)

(** Whole handlers refine to concurrent ones: every run of an asynchronous
    cluster whose handlers run whole, with its deliveries and losses, is a run
    of the grid, from the same start, to the same state of every node, with
    all messages still in flight among the RPCs not yet served. *)
Theorem cluster_run_concurrent mode opts nows c0 ls c :
  mode <> "strong" -> init_cluster mode opts nows = Some c0 -> run ls c0 = Some c ->
  exists gls g0 g, init_grid mode opts nows = Some g0 /\ grun gls g0 = Some g /\
    grid_nodes g = nodes c /\ net c ⊆+ pending (grid_ops g).
Proof.
  intros Hmode Hinit Hrun.
  destruct (sim_run _ _ _ _ _ Hmode (init_simulates _ _ _ _ Hinit) Hrun) as (gls & g & Hg & Hs).
  exists gls, (MkGrid (nodes c0) []), g; split_and!; [|done|apply Hs|].
  - unfold init_grid; by rewrite Hinit.
  - destruct (sim_net _ _ _ Hs) as [lost <-]; by apply submseteq_inserts_r.
Qed.

Lemma cluster_run_concurrent_witness :
  exists gls g, grun gls (MkGrid (nodes c_cluster) []) = Some g /\ grid_nodes g = nodes c_after.
Proof.
  destruct (cluster_run_concurrent "causal" c_opts [100; 100; 100]%Z c_cluster c_labels c_after)
    as (gls & g0 & g & Hinit & Hrun & Hn & _).
  - discriminate.
  - by apply isSome_default.
  - by apply isSome_default; vm_compute.
  - exists gls, g; split; [|exact Hn].
    assert (Hg0 : init_grid "causal" c_opts [100; 100; 100]%Z = Some (MkGrid (nodes c_cluster) []))
      by reflexivity.
    rewrite Hg0 in Hinit; injection Hinit as <-; exact Hrun.
Defined.
