(* ===== verification/Strong.v ===== *)
(** * Clusters in strong mode ([src/internal/replication], [src/internal/server])

    What the quorum of [StrongHandler] gives over whole runs of the grid of
    [Grid.v]: as long as the writes to a key do not overlap, an acknowledged
    write is, at every later point, on a strict majority of the nodes, and
    acknowledged writes have timestamps in the order in which they were made,
    whichever nodes they were made at.  It also states what the quorum does not
    give: when writes to one key overlap, and to readers. *)

From S2P Require Import Prelude Hlc Store Buffer Wire Replication Server Cluster Interleave Grid.

(** ** Assumptions on runs *)

(** The key of a write still running. *)
Definition writing (o : op) : option string :=
  match op_pc o with
  | WStart k _ _ | WSent k _ | WDeps k _ | WStored k _ | WSending k _ | WAcked k _ => Some k
  | _ => None
  end.

(** No write begins while another one to its key is running. *)
Definition g_exclusive (lb : glabel) (g : grid) : bool :=
  match lb with
  | GBegin _ (WStart key _ _) =>
      forallb (fun o => negb (bool_decide (writing o = Some key))) (grid_ops g)
  | _ => true
  end.

(** The peer's clock does not tie with a request ahead of it (see [tie_behind]). *)
Definition g_no_tie (lb : glabel) (g : grid) : bool :=
  match lb with
  | GServe k j now =>
      match c ← (o ← grid_ops g !! k; op_calls o !! j); n ← grid_nodes g !! call_peer c; Some (c, n) with
      | Some (c, n) =>
          match call_srv c with
          | RStart req =>
              match RR_Timestamp req with
              | Some pts => negb (tie_behind (Node_Clock n) now (fromProtoTS pts))
              | None => true
              end
          | _ => true
          end
      | None => true
      end
  | _ => true
  end.

Definition glabel_timed (lb : glabel) (g : grid) : bool :=
  match glabel_now lb with Some now => reading_ok now | None => true end && g_no_tie lb g.

Definition glabel_ok (lb : glabel) (g : grid) : bool := glabel_timed lb g && g_exclusive lb g.

Definition grun_ok : list glabel -> grid -> bool := grun_all glabel_ok.

(** ** Definitions *)

(** The write of a call, once it has its timestamp and unless it failed. *)
Definition op_write (o : op) : option write :=
  match op_pc o with
  | WSent k v | WDeps k v | WStored k v | WSending k v | WAcked k v | WDone k (Ok v) =>
      Some (MkWrite k v)
  | _ => None
  end.

(** The write of a call that was acknowledged to its client. *)
Definition acked (o : op) : option write :=
  match op_pc o with WDone k (Ok v) => Some (MkWrite k v) | _ => None end.

(** The peer accepted the write; the caller got the acknowledgement. *)
Definition accepted (c : call) : bool :=
  match call_srv c with RDone (Ok resp) => RR_Success resp | _ => false end.

Definition call_acked (c : call) : bool :=
  match call_reply c with Some r => reply_ok r | None => false end.

(** Node [p] is one of those that make up the quorum of a write. *)
Definition supports (o : op) (p : nat) : Prop :=
  (op_node o = p /\ isSome (acked o) = true) \/
  exists c, c ∈ op_calls o /\ call_peer c = p /\
    (call_acked c = true \/ (accepted c = true /\ isSome (writing o) = true)).

(** The nodes on which a key is at least at a timestamp. *)
Definition reached (key : string) (ts : Timestamp) (n : Node AnyHandler) : bool :=
  match Node_Store n !! key with
  | Some v => bool_decide (ts_le ts (Value_Timestamp v))
  | None => false
  end.

(** ** Invariant *)

Definition srv_ok (w : write) (p : pc) : Prop :=
  match p with
  | RStart req => req = buildReplicateRequest (write_key w) (write_val w) []
  | RClocked req ts =>
      req = buildReplicateRequest (write_key w) (write_val w) [] /\ ts = write_ts w
  | _ => True
  end.

Definition serving (p : pc) : bool :=
  match p with RStart _ | RClocked _ _ | RDone _ => true | _ => false end.

(** One call: the RPCs it has, and that its quorum is one. *)
Record op_ok (N : nat) (o : op) : Prop := {
  oo_node : op_node o < N;
  oo_client : serving (op_pc o) = false;
  oo_server : Forall (fun c => serving (call_srv c) = true) (op_calls o);
  oo_early : match op_pc o with
             | WStart _ _ _ | WSent _ _ | WDeps _ _ | GStart _ | GRead _ _ | GDone _ =>
                 op_calls o = []
             | _ => True
             end;
  oo_peers : match op_pc o with
             | WSending _ _ | WAcked _ _ | WDone _ (Ok _) =>
                 map call_peer (op_calls o) = other_peers N (op_node o)
             | _ => True
             end;
  oo_quorum : match op_pc o with
              | WAcked _ _ | WDone _ (Ok _) =>
                  all_replied o = true /\
                  N < 2 * size (holders (op_node o) (other_peers N (op_node o)) (op_replies o))
              | _ => True
              end;
  oo_deps : forall w, op_write o = Some w -> Value_Deps (write_val w) = [];
  oo_srv : forall w c, op_write o = Some w -> c ∈ op_calls o -> srv_ok w (call_srv c);
  oo_acked : forall c, c ∈ op_calls o -> call_acked c = true -> accepted c = true
}.

(** Between nodes: a clock is past all its node has stored, issued or is about
    to apply. *)
Record clocks_ahead (g : grid) : Prop := {
  ca_store : forall i n key v, grid_nodes g !! i = Some n -> Node_Store n !! key = Some v ->
    ts_le (Value_Timestamp v) (Clock_Now (Node_Clock n));
  ca_issued : forall k o w n, grid_ops g !! k = Some o -> op_write o = Some w ->
    grid_nodes g !! op_node o = Some n -> ts_le (write_ts w) (Clock_Now (Node_Clock n));
  ca_calls : forall k o c n req ts, grid_ops g !! k = Some o -> c ∈ op_calls o ->
    call_srv c = RClocked req ts -> grid_nodes g !! call_peer c = Some n ->
    ts_le ts (Clock_Now (Node_Clock n))
}.

(** Between writes to one key: they do not overlap; what supports a write has
    reached it, and issues and accepts only later ones after it. *)
Record quorum_inv (g : grid) : Prop := {
  qi_single : forall j k oj ok key, grid_ops g !! j = Some oj -> grid_ops g !! k = Some ok ->
    j < k -> touched (op_pc oj) = Some key -> touched (op_pc ok) = Some key -> writing oj = None;
  qi_reached : forall k o w p n, grid_ops g !! k = Some o -> op_write o = Some w -> supports o p ->
    grid_nodes g !! p = Some n -> reached (write_key w) (write_ts w) n = true;
  qi_issued : forall j k oj ok wj wk, grid_ops g !! j = Some oj -> grid_ops g !! k = Some ok ->
    j < k -> op_write oj = Some wj -> op_write ok = Some wk -> write_key wj = write_key wk ->
    supports oj (op_node ok) -> ts_lt (write_ts wj) (write_ts wk);
  qi_accepted : forall j k oj ok wj wk c, grid_ops g !! j = Some oj -> grid_ops g !! k = Some ok ->
    j < k -> op_write oj = Some wj -> op_write ok = Some wk -> write_key wj = write_key wk ->
    c ∈ op_calls ok -> accepted c = true -> supports oj (call_peer c) ->
    ts_lt (write_ts wj) (write_ts wk)
}.

Record strong_safe (opts : Options) (N : nat) (g : grid) : Prop := {
  ss_wt : grid_wt "strong" opts N g;
  ss_ops : Forall (op_ok N) (grid_ops g);
  ss_clocks : clocks_ahead g;
  ss_quorum : quorum_inv g
}.

(** ** One step of a handler in strong mode *)

Section strong_micro.
Context (opts : Options) (N i : nat).
Implicit Types (n : Node AnyHandler).

(** The turns of a client's call, given the replies it has. *)
Inductive strong_turn n (rs : list rpc_reply) : pc -> Node AnyHandler -> list outgoing -> pc -> Prop :=
| st_refused key data del e :
    strong_turn n rs (WStart key data del) n [] (WDone key (Err e))
| st_issued key data del clk ts :
    ts_lt (Clock_Now (Node_Clock n)) ts -> ts = Clock_Now clk ->
    strong_turn n rs (WStart key data del) (with_clock clk n) [] (WSent key (MkValue data ts [] del))
| st_deps key v :
    strong_turn n rs (WSent key v) n [] (WDeps key (with_deps [] v))
| st_send key v rpcs :
    map out_peer rpcs = other_peers N i ->
    Forall (fun o => out_req o = buildReplicateRequest key v []) rpcs ->
    strong_turn n rs (WDeps key v) n rpcs (WSending key v)
| st_failed key v e : strong_turn n rs (WSending key v) n [] (WDone key (Err e))
| st_acked key v :
    (length rs = length (other_peers N i) ->
       N < 2 * size (holders i (other_peers N i) rs)) ->
    strong_turn n rs (WSending key v) n [] (WAcked key v)
| st_stored key v :
    strong_turn n rs (WAcked key v)
      (with_store (<[key := write_stored (MkWrite key v)]> (Node_Store n)) n) [] (WDone key (Ok v))
| st_read key v : strong_turn n rs (GStart key) n [] (GRead key v)
| st_got p r : match p with GStart _ | GRead _ _ => True | _ => False end ->
    strong_turn n rs p n [] (GDone r)
| st_idle p : pc_done p = true -> strong_turn n rs p n [] p.

Lemma other_peers_NoDup : NoDup (i :: other_peers N i).
Proof.
  constructor; [rewrite other_peers_spec; lia|].
  unfold other_peers; apply NoDup_ListNoDup, List.NoDup_filter, seq_NoDup.
Qed.

Lemma other_peers_length : i < N -> length (i :: other_peers N i) = N.
Proof.
  intros Hi; assert (Hp : i :: other_peers N i ≡ₚ seq 0 N).
  { apply NoDup_Permutation; [apply other_peers_NoDup|apply NoDup_ListNoDup, seq_NoDup|].
    intros j; rewrite elem_of_cons, other_peers_spec, list_elem_of_In, in_seq; lia. }
  by rewrite Hp, length_seq.
Qed.

Lemma strong_mode n :
  node_wt "strong" (other_peers N i) opts n ->
  active_tracker n = None /\ active_buffer n = None /\ String.eqb (Node_Mode n) "strong" = true.
Proof. intros Hn; unfold active_tracker, active_buffer; by rewrite (nw_mode _ _ _ _ Hn). Qed.

(** [OnWrite] starts an RPC to every other node. *)
Lemma strong_OnWrite_sends n key v rs :
  node_wt "strong" (other_peers N i) opts n ->
  let rpcs := fst (OnWrite (Node_Handler n) key v rs) in
  map out_peer rpcs = other_peers N i /\
  Forall (fun o => out_req o = buildReplicateRequest key v []) rpcs.
Proof.
  intros Hn; pose proof (nw_handler _ _ _ _ Hn) as Hh; rewrite NewHandler_strong in Hh.
  injection Hh as <-; simpl; unfold StrongHandler_OnWrite; cbn [Strong_Peers Strong_Quorum Strong_Opts].
  destruct (Nat.eqb_spec (length (other_peers N i)) 0) as [Hl|Hl].
  { apply nil_length_inv in Hl; by rewrite Hl. }
  destruct (_ <=? 0)%Z eqn:Hq.
  { exfalso; bool_facts; rewrite Z.quot_div_nonneg in Hq by lia.
    Z.to_euclidean_division_equations; lia. }
  replace (fst (if (_ <? _)%Z then _ else _)) with
    (sends opts (other_peers N i) (buildReplicateRequest key v [])) by (by case_match).
  split; [apply sends_peers|]; apply Forall_forall; intros o Ho; by eapply sends_req.
Qed.

Lemma micro_turn n now rs p n' rpcs p' :
  i < N -> node_wt "strong" (other_peers N i) opts n -> pc_wt "strong" p ->
  serving p = false ->
  micro now rs n p = (n', rpcs, p') -> strong_turn n rs p n' rpcs p'.
Proof.
  intros Hi Hn Hp Hc; destruct (strong_mode n Hn) as (Ht & _ & Hs).
  destruct p as [key data del|key v|key v|key v|key v|key v|key r|key|key v|r|req|req ts|r];
    try discriminate Hc; simpl.
  - pose proof (Clock_Send_view now _ (nw_clock _ _ _ _ Hn)) as Hv.
    destruct (Clock_Send _ _) as [clk [t|e]]; intros [= <- <- <-].
    + destruct Hv as [[? ? _ _ _] _]; by constructor.
    + destruct Hv as [-> _]; destruct n; apply st_refused.
  - rewrite take_deps_none by done; intros [= <- <- <-]; constructor.
  - rewrite Hs; intros [= <- <- <-].
    destruct (strong_OnWrite_sends n key v rs Hn) as [? ?]; by constructor.
  - by destruct Hp as [_ []].
  - pose proof (strong_holders_majority i (other_peers N i) opts (Node_Handler n) key v rs
      (nw_handler _ _ _ _ Hn) other_peers_NoDup) as Hq.
    rewrite (other_peers_length Hi) in Hq; simpl in Hq.
    destruct (snd _); intros [= <- <- <-]; [apply st_failed|].
    apply st_acked; intros Hl; pose proof (proj1 (Hq Hl) eq_refl); lia.
  - rewrite local_store_write; intros [= <- <- <-]; constructor.
  - intros [= <- <- <-]; by constructor.
  - destruct (Store_Get _ _) as [v [|]]; simpl; intros [= <- <- <-]; by constructor.
  - rewrite Ht; intros [= <- <- <-]; by constructor.
  - intros [= <- <- <-]; by constructor.
Qed.

(** The turns of the handler of an RPC at a peer. *)
Inductive strong_serve n : pc -> Node AnyHandler -> pc -> Prop :=
| sv_refused req e : strong_serve n (RStart req) n (RDone (Err e))
| sv_clocked req ts clk :
    ts_le (Clock_Now (Node_Clock n)) (Clock_Now clk) -> ts_lt ts (Clock_Now clk) ->
    strong_serve n (RStart req) (with_clock clk n) (RClocked req ts)
| sv_applied req ts :
    let w := MkWrite (RR_Key req) (request_value req ts) in
    strong_serve n (RClocked req ts) (with_store (apply_write (Node_Store n) w) n)
      (RDone (Ok (MkReplicateResponse
        (snd (Store_Apply (write_key w) (write_stored w) (Node_Store n))))))
| sv_idle r : strong_serve n (RDone r) n (RDone r).

Lemma micro_serve n now p n' rpcs p' :
  node_wt "strong" (other_peers N i) opts n -> pc_wt "strong" p -> reading_ok now = true ->
  serving p = true ->
  (forall req pts, p = RStart req -> RR_Timestamp req = Some pts ->
     tie_behind (Node_Clock n) now (fromProtoTS pts) = false) ->
  micro now [] n p = (n', rpcs, p') -> strong_serve n p n' p'.
Proof.
  intros Hn Hp [Hnow _]%reading_ok_spec Hc Htie; destruct (strong_mode n Hn) as (_ & Hb & _).
  destruct p as [| | | | | | | | | |req|req ts|r]; try done; simpl.
  - destruct (proj1 Hp) as (pts & Hpts & Hi); rewrite Hpts in *.
    specialize (Htie req pts eq_refl Hpts).
    assert (He : event_typed (EvReceive now (fromProtoTS pts)))
      by (split; [done|by apply ts_issued_typed]).
    pose proof (clock_step_view _ _ (nw_clock _ _ _ _ Hn) He) as Hv; simpl in Hv.
    destruct (Clock_Receive _ _ _) as [clk [t|e]]; intros [= <- <- <-].
    + destruct Hv as [[-> Hl _ _ Hm] _]; apply sv_clocked; [by right|by apply Hm].
    + destruct Hv as [-> _]; destruct n; apply sv_refused.
  - rewrite Hb; pose proof (sv_applied n req ts) as Hsv; simpl in Hsv.
    unfold apply_write, write_stored, write_ts in Hsv; simpl in Hsv.
    destruct (Nat.eqb _ 0); rewrite ?Store_ApplyDelete_Apply in *;
      destruct (Store_Apply _ _ _) as [s b]; intros [= <- <- <-]; exact Hsv.
  - intros [= <- <- <-]; constructor.
Qed.

End strong_micro.

(** ** Each call stays well-formed *)

Lemma op_ok_begin N i p : i < N -> client_start p = true -> op_ok N (MkOp i p []).
Proof.
  intros Hi Hp; destruct p; try discriminate; split; simpl; try done;
  intros c Hc; by apply not_elem_of_nil in Hc.
Qed.

Lemma start_call_in rpcs c :
  c ∈ map start_call rpcs -> exists o, o ∈ rpcs /\ c = start_call o.
Proof. rewrite list_elem_of_In, in_map_iff; intros (o & <- & ?); exists o; by rewrite list_elem_of_In. Qed.

Lemma map_peer_start rpcs : map call_peer (map start_call rpcs) = map out_peer rpcs.
Proof. by rewrite map_map. Qed.

Lemma all_replied_length o : all_replied o = true -> length (op_replies o) = length (op_calls o).
Proof.
  unfold all_replied, op_replies; induction (op_calls o) as [|c cs IH]; simpl; [done|].
  destruct (call_reply c); simpl; [|done]. intros H; f_equal; by apply IH.
Qed.

Lemma op_ok_turn N o n n' rpcs p' :
  op_ok N o -> op_ready o = true ->
  strong_turn N (op_node o) n (op_replies o) (op_pc o) n' rpcs p' ->
  op_ok N (MkOp (op_node o) p' (op_calls o ++ map start_call rpcs)).
Proof.
  intros [Hi Hc Hv He Hp Hq Hd Hs Ha] Hr Ht; destruct o as [i p cs]; simpl in *.
  unfold op_write, op_ready in *; simpl in *.
  inversion Ht; subst; simpl in *; rewrite ?app_nil_r; try (subst cs);
    try by (split; simpl; try done).
  - split; simpl; try done; [by intros w [= <-]|].
    intros w c _ Hin; by apply not_elem_of_nil in Hin.
  - split; simpl; try done; [by intros w [= <-]|].
    intros w c _ Hin; by apply not_elem_of_nil in Hin.
  - assert (Hcs : forall c, c ∈ map start_call rpcs ->
      srv_ok (MkWrite key v) (call_srv c) /\ call_acked c = false).
    { intros c (o & Ho & ->)%start_call_in; split; [|done]; simpl.
      by eapply Forall_forall in Ho; [|eassumption]. }
    split; simpl; try done.
    + apply Forall_map, Forall_true; done.
    + by rewrite map_peer_start.
    + intros w c [= <-] Hin; by apply Hcs.
    + intros c Hin; by rewrite (proj2 (Hcs _ Hin)).
  - split; simpl; try done; split; [done|].
    match goal with H : _ -> N < _ |- _ => apply H end.
    rewrite <- Hp, length_map; by apply (all_replied_length (MkOp i (WSending key v) cs)).
  - destruct p; try done; subst cs; by split.
Qed.

(** A change of one RPC of a call. *)
Lemma elem_of_with_call (cs : list call) j c c' x :
  cs !! j = Some c -> x ∈ <[j := c']> cs -> x = c' \/ x ∈ cs.
Proof.
  intros Hj [l Hl]%list_elem_of_lookup.
  apply insert_lookup_cases in Hl as [[-> <-]|[_ Hl]]; [by left|].
  right; by eapply list_elem_of_lookup_2.
Qed.

Lemma map_insert_same {A B} (f : A -> B) (l : list A) j x y :
  l !! j = Some x -> f y = f x -> map f (<[j := y]> l) = map f l.
Proof.
  revert j; induction l as [|z l IH]; intros [|j]; simpl; try done.
  - by intros [= ->] ->.
  - intros Hj Hf; f_equal; by apply IH.
Qed.

Lemma op_ok_call N o j c c' :
  op_ok N o -> op_calls o !! j = Some c -> call_peer c' = call_peer c ->
  (call_reply c' = call_reply c \/ call_reply c = None) -> serving (call_srv c') = true ->
  (forall w, op_write o = Some w -> srv_ok w (call_srv c) -> srv_ok w (call_srv c')) ->
  (call_acked c' = true -> accepted c' = true) ->
  op_ok N (MkOp (op_node o) (op_pc o) (<[j := c']> (op_calls o))).
Proof.
  intros [Hi Hc Hv He Hp Hq Hd Hs Ha] Hj Hpeer Hrep Hsvg Hsrv Hack; destruct o as [i p cs]; simpl in *.
  assert (Hne : cs <> []) by (by intros ->).
  split; simpl; try done.
  - by apply Forall_insert.
  - by destruct p.
  - by rewrite (map_insert_same _ _ _ _ _ Hj Hpeer).
  - assert (Hsame : all_replied (MkOp i p cs) = true ->
      all_replied (MkOp i p (<[j:=c']> cs)) = all_replied (MkOp i p cs) /\
      op_replies (MkOp i p (<[j:=c']> cs)) = op_replies (MkOp i p cs)).
    { intros Hall; destruct Hrep as [Hrep|Hnone].
      - clear -Hj Hrep; unfold all_replied, op_replies; simpl; revert j Hj.
        induction cs as [|x cs IH]; intros [|j]; simpl; try done; [intros [= ->]; by rewrite Hrep|].
        intros Hj; destruct (IH j Hj) as [-> Heq]; split; [done|].
        by case_match; [f_equal|].
      - exfalso; unfold all_replied in Hall; simpl in Hall.
        rewrite forallb_forall in Hall; specialize (Hall c).
        rewrite Hnone in Hall; discriminate Hall.
        apply list_elem_of_In; by eapply list_elem_of_lookup_2. }
    destruct p as [| | | | |key v|key [v|]| | | | | |]; try done;
      destruct Hq as [Hall Hq]; destruct (Hsame Hall) as [-> ->]; done.
  - intros w x Hw Hx; destruct (elem_of_with_call _ _ _ _ _ Hj Hx) as [->|Hx'].
    + apply Hsrv; [done|]; apply Hs; [done|]; by eapply list_elem_of_lookup_2.
    + by apply Hs.
  - intros x Hx; destruct (elem_of_with_call _ _ _ _ _ Hj Hx) as [->|Hx']; [done|by apply Ha].
Qed.

Lemma srv_ok_serve w n p n' p' : strong_serve n p n' p' -> pc_wt "strong" p' -> srv_ok w p -> srv_ok w p'.
Proof.
  intros [] Hwt; simpl in *; try done; intros ->; split; [done|].
  destruct Hwt as [_ Hts]; simpl in Hts; injection Hts as <-; apply fromProto_toReplicateTS.
Qed.

(** ** Clocks stay ahead *)

(** What a step does to a node's clock, and to its store but for a local store. *)
Record node_up (n n' : Node AnyHandler) : Prop := {
  nu_clock : ts_le (Clock_Now (Node_Clock n)) (Clock_Now (Node_Clock n'));
  nu_ahead : forall key v, Node_Store n' !! key = Some v ->
    ts_le (Value_Timestamp v) (Clock_Now (Node_Clock n'))
}.

(** Every node of [ns'] is one of [ns], moved on. *)
Definition nodes_up (R : Node AnyHandler -> Node AnyHandler -> Prop) (ns ns' : list (Node AnyHandler))
    : Prop :=
  forall i n', ns' !! i = Some n' -> exists n, ns !! i = Some n /\ R n n'.

Lemma nodes_up_insert (R : Node AnyHandler -> Node AnyHandler -> Prop) ns i n n' :
  (forall j x, ns !! j = Some x -> R x x) -> ns !! i = Some n -> R n n' ->
  nodes_up R ns (<[i := n']> ns).
Proof.
  intros Hr Hi Hn j x [[<- <-]|[_ Hx]]%insert_lookup_cases; [by exists n|].
  exists x; split; [done|by eapply Hr].
Qed.

Lemma nodes_up_refl (R : Node AnyHandler -> Node AnyHandler -> Prop) ns :
  (forall j x, ns !! j = Some x -> R x x) -> nodes_up R ns ns.
Proof. intros Hr j x Hx; exists x; split; [done|by eapply Hr]. Qed.

Lemma node_up_refl g i n : clocks_ahead g -> grid_nodes g !! i = Some n -> node_up n n.
Proof. intros Hc Hi; split; [by left|]; intros key v; by apply (ca_store _ Hc i). Qed.

Lemma clocks_ahead_step g ns' k o o' :
  clocks_ahead g -> nodes_up node_up (grid_nodes g) ns' -> grid_ops g !! k = Some o ->
  op_node o' = op_node o ->
  (forall w n', op_write o' = Some w -> ns' !! op_node o = Some n' ->
     op_write o = Some w \/ ts_le (write_ts w) (Clock_Now (Node_Clock n'))) ->
  (forall c n' req ts, c ∈ op_calls o' -> call_srv c = RClocked req ts ->
     ns' !! call_peer c = Some n' ->
     c ∈ op_calls o \/ (exists c0, c0 ∈ op_calls o /\ call_peer c0 = call_peer c /\
                          call_srv c0 = RClocked req ts) \/
     ts_le ts (Clock_Now (Node_Clock n'))) ->
  clocks_ahead (MkGrid ns' (<[k := o']> (grid_ops g))).
Proof.
  intros [Hs Hi Hc] Hup Hk Hnode Hw Hcs; split; simpl.
  - intros i n' key v Hn' Hv; destruct (Hup _ _ Hn') as (n & _ & Hu); by eapply nu_ahead.
  - intros j x w n' [[<- <-]|[_ Hx]]%insert_lookup_cases Hxw Hn';
      [rewrite Hnode in Hn'; destruct (Hw _ _ Hxw Hn') as [Ho|?]; [|done]|];
      destruct (Hup _ _ Hn') as (n & Hn & Hu); etrans; try apply (nu_clock _ _ Hu); by eapply Hi.
  - intros j x c n' req ts [[<- <-]|[_ Hx]]%insert_lookup_cases Hxc Hsrv Hn'.
    + destruct (Hup _ _ Hn') as (n & Hn & Hu).
      destruct (Hcs _ _ _ _ Hxc Hsrv Hn') as [Hin|[(c0 & Hin & Hp & Hs0)|?]]; [| |done];
        etrans; try apply (nu_clock _ _ Hu); [by eapply Hc|].
      eapply Hc; [exact Hk|exact Hin|exact Hs0|by rewrite Hp].
    + destruct (Hup _ _ Hn') as (n & Hn & Hu); etrans; try apply (nu_clock _ _ Hu); by eapply Hc.
Qed.

(** ** Quorums stay quorums *)

Lemma writing_touched o key : writing o = Some key -> touched (op_pc o) = Some key.
Proof. unfold writing; by destruct (op_pc o). Qed.

Lemma op_write_touched o w : op_write o = Some w -> touched (op_pc o) = Some (write_key w).
Proof. unfold op_write; destruct (op_pc o) as [| | | | | |key [v|]| | | | | |]; by intros [= <-]. Qed.

(** The change of one call: its own obligations as a write that others follow
    ([qu_issued'], [qu_accepted']) are void while it is running. *)
Record quorum_update (g : grid) (ns' : list (Node AnyHandler)) (k : nat) (o o' : op) : Prop := {
  qu_node : op_node o' = op_node o;
  qu_touched : touched (op_pc o') = touched (op_pc o);
  qu_writing : writing o' = writing o \/ writing o' = None;
  qu_others : forall j oj w p n', grid_ops g !! j = Some oj -> j <> k -> op_write oj = Some w ->
    supports oj p -> ns' !! p = Some n' -> reached (write_key w) (write_ts w) n' = true;
  qu_reached : forall w p n', op_write o' = Some w -> supports o' p -> ns' !! p = Some n' ->
    reached (write_key w) (write_ts w) n' = true;
  qu_issued : forall j oj wj w, grid_ops g !! j = Some oj -> j < k -> op_write oj = Some wj ->
    op_write o' = Some w -> write_key wj = write_key w -> supports oj (op_node o) ->
    ts_lt (write_ts wj) (write_ts w);
  qu_accepted : forall j oj wj w c, grid_ops g !! j = Some oj -> j < k -> op_write oj = Some wj ->
    op_write o' = Some w -> write_key wj = write_key w -> c ∈ op_calls o' -> accepted c = true ->
    supports oj (call_peer c) -> ts_lt (write_ts wj) (write_ts w);
  qu_support : forall w, op_write o' = Some w ->
    writing o = Some (write_key w) \/
    (op_write o = Some w /\ forall p, supports o' p -> supports o p)
}.

Lemma quorum_inv_update g ns' k o o' :
  quorum_inv g -> grid_ops g !! k = Some o -> quorum_update g ns' k o o' ->
  quorum_inv (MkGrid ns' (<[k := o']> (grid_ops g))).
Proof.
  intros [Hs Hr Hi Ha] Hk [Hn Ht Hw Uo Ur Ui Ua Us].
  assert (Hrun : forall l ol w key, grid_ops g !! l = Some ol -> k < l ->
    touched (op_pc ol) = Some key -> op_write o' = Some w -> key = write_key w ->
    op_write o = Some w /\ forall p, supports o' p -> supports o p).
  { intros l ol w key Hl Hlt Htl Hw' ->; destruct (Us w Hw') as [Hrun|?]; [exfalso|done].
    pose proof (writing_touched _ _ Hrun) as Hto.
    by rewrite (Hs _ _ _ _ _ Hk Hl Hlt Hto Htl) in Hrun. }
  split; simpl.
  - intros a b oa ob key [[<- <-]|[? Hoa]]%insert_lookup_cases [[<- <-]|[? Hob]]%insert_lookup_cases
      Hlt Hta Htb; [lia| | |by eapply Hs].
    + rewrite Ht in Hta; pose proof (Hs _ _ _ _ _ Hk Hob Hlt Hta Htb).
      destruct Hw; congruence.
    + rewrite Ht in Htb; exact (Hs _ _ _ _ _ Hoa Hk Hlt Hta Htb).
  - intros j x w p n' [[<- <-]|[? Hx]]%insert_lookup_cases Hxw Hsup Hn'; eauto.
  - intros a b oa ob wa wb [[<- <-]|[? Hoa]]%insert_lookup_cases [[<- <-]|[? Hob]]%insert_lookup_cases
      Hlt Hwa Hwb Hkey Hsup; [lia| | |exact (Hi _ _ _ _ _ _ Hoa Hob Hlt Hwa Hwb Hkey Hsup)].
    + destruct (Hrun _ _ _ _ Hob Hlt (op_write_touched _ _ Hwb) Hwa (eq_sym Hkey)) as [Hwo Hsup'].
      exact (Hi _ _ _ _ _ _ Hk Hob Hlt Hwo Hwb Hkey (Hsup' _ Hsup)).
    + rewrite Hn in Hsup; exact (Ui _ _ _ _ Hoa Hlt Hwa Hwb Hkey Hsup).
  - intros a b oa ob wa wb c [[<- <-]|[? Hoa]]%insert_lookup_cases [[<- <-]|[? Hob]]%insert_lookup_cases
      Hlt Hwa Hwb Hkey Hc Hacc Hsup;
      [lia| | |exact (Ha _ _ _ _ _ _ _ Hoa Hob Hlt Hwa Hwb Hkey Hc Hacc Hsup)].
    + destruct (Hrun _ _ _ _ Hob Hlt (op_write_touched _ _ Hwb) Hwa (eq_sym Hkey)) as [Hwo Hsup'].
      exact (Ha _ _ _ _ _ _ _ Hk Hob Hlt Hwo Hwb Hkey Hc Hacc (Hsup' _ Hsup)).
    + exact (Ua _ _ _ _ _ Hoa Hlt Hwa Hwb Hkey Hc Hacc Hsup).
Qed.

Lemma reached_le key ts (n n' : Node AnyHandler) :
  store_le (Node_Store n) (Node_Store n') -> reached key ts n = true -> reached key ts n' = true.
Proof.
  unfold reached; destruct (Node_Store n !! key) as [v|] eqn:Hv; [|done]; intros Hle.
  destruct (Hle _ _ Hv) as (v' & -> & Ht); rewrite !bool_decide_eq_true; intros; by etrans.
Qed.

Lemma reached_alt key ts (n : Node AnyHandler) :
  reached key ts n = true <-> exists v, Node_Store n !! key = Some v /\ ts_le ts (Value_Timestamp v).
Proof.
  unfold reached; destruct (_ !! _) as [v|]; [rewrite bool_decide_eq_true|]; naive_solver.
Qed.

(** A change that brings no new support and no new acceptance, at nodes that only
    move up. *)
Lemma quorum_quiet g ns' k o o' :
  quorum_inv g -> grid_ops g !! k = Some o ->
  nodes_up (fun n n' => store_le (Node_Store n) (Node_Store n')) (grid_nodes g) ns' ->
  op_node o' = op_node o -> touched (op_pc o') = touched (op_pc o) ->
  (writing o' = writing o \/ writing o' = None) ->
  (op_write o' = op_write o \/ op_write o' = None) ->
  (forall w p, op_write o = Some w -> supports o' p -> supports o p) ->
  (forall w c, op_write o = Some w -> c ∈ op_calls o' -> accepted c = true ->
     exists c0, c0 ∈ op_calls o /\ call_peer c0 = call_peer c /\ accepted c0 = true) ->
  quorum_inv (MkGrid ns' (<[k := o']> (grid_ops g))).
Proof.
  intros Hq Hk Hup Hn Ht Hw Hwr Hsup Hacc; pose proof Hq as [Hs Hr Hi Ha].
  assert (Hsame : forall w, op_write o' = Some w -> op_write o = Some w)
    by (intros w; destruct Hwr as [->| ->]; done).
  apply (quorum_inv_update g ns' k o o'); [done..|]; split; try done.
  - intros j oj w p n' Hj _ Hwj Hsj Hn'; destruct (Hup _ _ Hn') as (n & Hnn & Hle).
    eapply reached_le; [exact Hle|by eapply Hr].
  - intros w p n' Hw' Hs' Hn'; destruct (Hup _ _ Hn') as (n & Hnn & Hle).
    eapply reached_le; [exact Hle|]; eapply Hr; [exact Hk|by apply Hsame|by eapply Hsup, Hs'; apply Hsame|done].
  - intros j oj wj w Hj Hlt Hwj Hw' Hkey Hsj.
    exact (Hi _ _ _ _ _ _ Hj Hk Hlt Hwj (Hsame _ Hw') Hkey Hsj).
  - intros j oj wj w c Hj Hlt Hwj Hw' Hkey Hc Hcacc Hsj.
    destruct (Hacc w c (Hsame _ Hw') Hc Hcacc) as (c0 & Hc0 & Hp & Ha0).
    rewrite <- Hp in Hsj; exact (Ha _ _ _ _ _ _ _ Hj Hk Hlt Hwj (Hsame _ Hw') Hkey Hc0 Ha0 Hsj).
  - intros w Hw'; right; split; [by apply Hsame|]; intros p; by apply (Hsup w), Hsame.
Qed.

(** ** Steps *)

Section steps.
Context (opts : Options) (N : nat).

Lemma supports_mono o o' p :
  op_node o' = op_node o -> (isSome (acked o') = true -> isSome (acked o) = true) ->
  (isSome (writing o') = true -> isSome (writing o) = true) ->
  (forall c, c ∈ op_calls o' -> call_acked c = true \/ accepted c = true -> c ∈ op_calls o) ->
  supports o' p -> supports o p.
Proof.
  intros Hn Ha Hw Hc [[Hp Hack]|(c & Hin & Hp & Hsup)].
  - left; split; [by rewrite <- Hn|by apply Ha].
  - right; exists c; split; [apply Hc; [done|destruct Hsup as [?|[? ?]]; auto]|].
    split; [done|]; destruct Hsup as [?|[? ?]]; auto.
Qed.

Lemma new_calls (cs : list call) rpcs c :
  c ∈ cs ++ map start_call rpcs -> call_acked c = true \/ accepted c = true -> c ∈ cs.
Proof.
  intros [Hc|Hc]%elem_of_app; [done|].
  apply start_call_in in Hc as (o & _ & ->); by intros [?|?].
Qed.

Lemma store_le_up g ns' :
  nodes_up (fun n n' => Node_Store n' = Node_Store n) (grid_nodes g) ns' ->
  nodes_up (fun n n' => store_le (Node_Store n) (Node_Store n')) (grid_nodes g) ns'.
Proof. intros Hup i n' Hn'; destruct (Hup _ _ Hn') as (n & Hn & Heq); exists n; by rewrite Heq. Qed.

(** A turn that neither issues a timestamp nor stores. *)
Lemma turn_quiet g k o n p' rpcs :
  quorum_inv g -> grid_ops g !! k = Some o -> grid_nodes g !! op_node o = Some n ->
  touched p' = touched (op_pc o) ->
  let o' := MkOp (op_node o) p' (op_calls o ++ map start_call rpcs) in
  (writing o' = writing o \/ writing o' = None) ->
  (op_write o' = op_write o \/ op_write o' = None) ->
  (isSome (acked o') = true -> isSome (acked o) = true) ->
  quorum_inv (MkGrid (<[op_node o := n]> (grid_nodes g)) (<[k := o']> (grid_ops g))).
Proof.
  intros Hq Hk Hn Ht o' Hw Hwr Ha; apply (quorum_quiet g _ k o o'); try done.
  - rewrite list_insert_id by done; apply nodes_up_refl; done.
  - intros w p _; apply supports_mono; try done; [destruct Hw as [->| ->]; done|].
    intros c Hc; by apply (new_calls _ rpcs).
  - intros w c _ Hc Hacc; exists c; split; [|done]; apply (new_calls _ rpcs); auto.
Qed.

(** The timestamp a write gets is later than all its node supports. *)
Lemma turn_issued g k o n key data del clk ts rpcs :
  clocks_ahead g -> quorum_inv g -> grid_ops g !! k = Some o -> op_calls o = [] -> rpcs = [] ->
  grid_nodes g !! op_node o = Some n -> op_pc o = WStart key data del ->
  ts_lt (Clock_Now (Node_Clock n)) ts ->
  quorum_inv (MkGrid (<[op_node o := with_clock clk n]> (grid_nodes g))
    (<[k := MkOp (op_node o) (WSent key (MkValue data ts [] del))
              (op_calls o ++ map start_call rpcs)]> (grid_ops g))).
Proof.
  intros Hc Hq Hk Hcalls -> Hn Hpc Hts; pose proof Hq as [Hs Hr Hi Ha].
  apply (quorum_inv_update g _ k o); [done..|]; rewrite Hcalls.
  assert (Hno : forall p, ~ supports (MkOp (op_node o) (WSent key (MkValue data ts [] del)) []) p).
  { intros p [[_ ?]|(c & Hin & _)]; [done|by apply not_elem_of_nil in Hin]. }
  split; simpl; try done.
  - by rewrite Hpc.
  - left; unfold writing; by rewrite Hpc.
  - intros j oj w p n' Hj _ Hw Hsup Hn'.
    apply insert_lookup_cases in Hn' as [[<- <-]|[_ Hn']]; [|by eapply Hr].
    exact (Hr _ _ _ _ _ Hj Hw Hsup Hn).
  - intros w p n' _ Hsup; by destruct (Hno p).
  - intros j oj wj w Hj _ Hwj [= <-] Hkey Hsup.
    pose proof (Hr _ _ _ _ _ Hj Hwj Hsup Hn) as Hre.
    apply reached_alt in Hre as (v & Hv & Hle); eapply ts_le_lt_trans; [|exact Hts].
    etrans; [exact Hle|by eapply ca_store].
  - intros j oj wj w c _ _ _ _ _ Hin; by apply not_elem_of_nil in Hin.
  - intros w [= <-]; left; unfold writing; by rewrite Hpc.
Qed.

(** The origin stores its write: nothing later on the key can be there. *)
Lemma turn_stored g k o n key v rpcs :
  quorum_inv g -> grid_ops g !! k = Some o -> rpcs = [] ->
  (forall c, c ∈ op_calls o -> call_peer c <> op_node o) ->
  grid_nodes g !! op_node o = Some n -> op_pc o = WAcked key v ->
  quorum_inv (MkGrid (<[op_node o := with_store (<[key := write_stored (MkWrite key v)]> (Node_Store n)) n]>
      (grid_nodes g))
    (<[k := MkOp (op_node o) (WDone key (Ok v)) (op_calls o ++ map start_call rpcs)]> (grid_ops g))).
Proof.
  intros Hq Hk -> Hpeers Hn Hpc; pose proof Hq as [Hs Hr Hi Ha]; simpl; rewrite app_nil_r.
  assert (Hwo : op_write o = Some (MkWrite key v)) by (unfold op_write; by rewrite Hpc).
  assert (Hrun : writing o = Some key) by (unfold writing; by rewrite Hpc).
  assert (Hto : touched (op_pc o) = Some key) by (by rewrite Hpc).
  assert (Hsup : forall p, supports (MkOp (op_node o) (WDone key (Ok v)) (op_calls o)) p ->
            p = op_node o \/ supports o p /\ p <> op_node o).
  { intros p [[<- _]|(c & Hin & Hp & [Hack|[_ ?]])]; [by left| |done].
    right; split; [right; exists c; auto|]; subst p; by apply Hpeers. }
  apply (quorum_inv_update g _ k o); [done..|]; split; simpl; try done.
  - by right.
  - intros j oj w p n' Hj Hjk Hwj Hsj Hn'.
    apply insert_lookup_cases in Hn' as [[<- <-]|[_ Hn']]; [|by eapply Hr].
    pose proof (Hr _ _ _ _ _ Hj Hwj Hsj Hn) as Hre; apply reached_alt in Hre as (cur & Hcur & Hle).
    apply reached_alt; simpl; destruct (decide (write_key w = key)) as [<-|Hne];
      [|rewrite lookup_insert_ne by done; eauto].
    rewrite lookup_insert_eq; eexists; split; [done|]; rewrite write_stored_ts.
    destruct (decide (j < k)) as [Hlt|Hge].
    + right; exact (Hi _ _ _ _ _ _ Hj Hk Hlt Hwj Hwo eq_refl Hsj).
    + exfalso; pose proof (Hs k j o oj (write_key w) Hk Hj ltac:(lia) Hto
        (op_write_touched _ _ Hwj)); congruence.
  - intros w p n' [= <-] Hsp Hn'; apply reached_alt; simpl.
    destruct (Hsup p Hsp) as [->|[Hso Hne]]; apply insert_lookup_cases in Hn' as [[? <-]|[? Hn']];
      try done.
    + simpl; rewrite lookup_insert_eq; eexists; split; [done|]; rewrite write_stored_ts; by left.
    + pose proof (Hr _ _ _ _ _ Hk Hwo Hso Hn') as Hre; by apply reached_alt in Hre.
  - intros j oj wj w Hj Hlt Hwj [= <-] Hkey Hsj; exact (Hi _ _ _ _ _ _ Hj Hk Hlt Hwj Hwo Hkey Hsj).
  - intros j oj wj w c Hj Hlt Hwj [= <-] Hkey Hc Hacc Hsj.
    exact (Ha _ _ _ _ _ _ _ Hj Hk Hlt Hwj Hwo Hkey Hc Hacc Hsj).
  - intros w [= <-]; by left.
Qed.

(** One RPC of a call changes. *)
Lemma supports_call o j c c' p :
  op_calls o !! j = Some c -> call_peer c' = call_peer c ->
  (call_acked c' = true -> call_acked c = true \/ (accepted c = true /\ isSome (writing o) = true)) ->
  supports (MkOp (op_node o) (op_pc o) (<[j := c']> (op_calls o))) p ->
  supports o p \/ (p = call_peer c /\ accepted c' = true /\ isSome (writing o) = true).
Proof.
  intros Hj Hp Hack [[? ?]|(x & Hx & <- & Hsup)]; [by left; left|].
  assert (Hc : c ∈ op_calls o) by (by eapply list_elem_of_lookup_2).
  destruct (elem_of_with_call _ _ _ _ _ Hj Hx) as [->|Hx'].
  - rewrite Hp; destruct Hsup as [Ha|Ha]; [left; right; exists c; auto|by right].
  - left; right; exists x; auto.
Qed.

Lemma call_quiet g ns' k o j c c' :
  quorum_inv g -> grid_ops g !! k = Some o -> op_calls o !! j = Some c ->
  call_peer c' = call_peer c ->
  nodes_up (fun n n' => store_le (Node_Store n) (Node_Store n')) (grid_nodes g) ns' ->
  (op_write o <> None -> call_acked c' = true ->
     call_acked c = true \/ (accepted c = true /\ isSome (writing o) = true)) ->
  (accepted c' = true -> accepted c = true) ->
  quorum_inv (MkGrid ns' (with_call k o j c' (grid_ops g))).
Proof.
  intros Hq Hk Hj Hp Hup Hack Hacc; apply (quorum_quiet g ns' k o); simpl; auto.
  - intros w p Hw Hs; destruct (supports_call o j c c' p) as [?|(-> & Ha & Hrun)]; auto.
    { apply Hack; congruence. }
    right; exists c; split_and!; [by eapply list_elem_of_lookup_2|done|by auto].
  - intros w x _ Hx Ha; destruct (elem_of_with_call _ _ _ _ _ Hj Hx) as [->|Hx']; [|by exists x].
    exists c; split_and!; [by eapply list_elem_of_lookup_2|done|by apply Hacc].
Qed.

(** A peer accepts a write: it is later than all the peer supports. *)
Lemma serve_accepted g k o j c n n' w r :
  quorum_inv g -> grid_ops g !! k = Some o -> op_ok N o -> op_calls o !! j = Some c ->
  grid_nodes g !! call_peer c = Some n ->
  (forall w', op_write o = Some w' -> write_key w' = write_key w /\ write_ts w' = write_ts w) ->
  call_acked c = false ->
  (forall cur, Node_Store n !! write_key w = Some cur -> ts_lt (Value_Timestamp cur) (write_ts w)) ->
  Node_Store n' = apply_write (Node_Store n) w ->
  let c' := MkCall (call_peer c) r (call_reply c) in
  quorum_inv (MkGrid (<[call_peer c := n']> (grid_nodes g)) (with_call k o j c' (grid_ops g))).
Proof.
  intros Hq Hk Hok Hj Hn Hw Hack Hlt Hst c'; pose proof Hq as [Hs Hr Hi Ha].
  assert (Hsup : forall p, supports (MkOp (op_node o) (op_pc o) (<[j := c']> (op_calls o))) p ->
            supports o p \/ (p = call_peer c /\ accepted c' = true /\ isSome (writing o) = true)).
  { intros p; apply supports_call; [done|done|]; unfold call_acked at 1; simpl.
    fold (call_acked c); by rewrite Hack. }
  assert (Hup : nodes_up (fun n n' => store_le (Node_Store n) (Node_Store n')) (grid_nodes g)
            (<[call_peer c := n']> (grid_nodes g))).
  { eapply nodes_up_insert; [done..|]; rewrite Hst; apply apply_write_le. }
  apply (quorum_inv_update g _ k o); [done..|]; split; simpl; try done; [by left|..].
  - intros i oi wi p x Hoi _ Hwi Hsi Hx; destruct (Hup _ _ Hx) as (y & Hy & Hle).
    eapply reached_le; [exact Hle|by eapply Hr].
  - intros w' p x Hw' Hsp Hx; destruct (Hup _ _ Hx) as (y & Hy & Hle).
    destruct (Hsup p Hsp) as [Hso|(-> & _ & _)].
    + eapply reached_le; [exact Hle|by eapply Hr].
    + destruct (Hw w' Hw') as [-> ->]; apply reached_alt.
      apply insert_lookup_cases in Hx as [[_ <-]|[? _]]; [|done].
      rewrite Hst, apply_write_lookup, decide_True by done.
      destruct (lww_ge (Node_Store n !! write_key w) (write_stored w)) as (v & -> & Hge & _).
      exists v; split; [done|by rewrite <- write_stored_ts].
  - intros i oi wi w' Hoi Hik Hwi Hw' Hkey Hsi; exact (Hi _ _ _ _ _ _ Hoi Hk Hik Hwi Hw' Hkey Hsi).
  - intros i oi wi w' x Hoi Hik Hwi Hw' Hkey Hx Hax Hsi.
    destruct (elem_of_with_call _ _ _ _ _ Hj Hx) as [->|Hx'];
      [|exact (Ha _ _ _ _ _ _ _ Hoi Hk Hik Hwi Hw' Hkey Hx' Hax Hsi)].
    pose proof (Hr _ _ _ _ _ Hoi Hwi Hsi Hn) as Hre; apply reached_alt in Hre as (cur & Hcur & Hle).
    destruct (Hw w' Hw') as [Hk' ->]; eapply ts_le_lt_trans; [exact Hle|].
    apply Hlt; by rewrite <- Hk', <- Hkey.
  - intros w' Hw'; destruct (writing o) as [key|] eqn:Hrun.
    + left; pose proof (writing_touched _ _ Hrun) as Ht.
      pose proof (op_write_touched o w' Hw'); congruence.
    + right; split; [done|]; intros p Hp; by destruct (Hsup p Hp) as [?|(_ & _ & ?)].
Qed.

Lemma node_up_all g : clocks_ahead g -> forall i n, grid_nodes g !! i = Some n -> node_up n n.
Proof. intros Hc i n Hn; by eapply node_up_refl. Qed.

Lemma turn_node_up g k o n rs n' rpcs p' :
  clocks_ahead g -> grid_ops g !! k = Some o -> grid_nodes g !! op_node o = Some n ->
  strong_turn N (op_node o) n rs (op_pc o) n' rpcs p' -> node_up n n'.
Proof.
  intros Hc Hk Hn Ht; pose proof (node_up_refl _ _ _ Hc Hn) as Hsame.
  inversion Ht as [|key data del clk ts Hlt Hts| | | | |key v Hpc| | |]; subst; try done.
  - split; simpl; [by right|]; intros k' v Hv; etrans; [by eapply nu_ahead|by right].
  - split; simpl; [by left|]; intros k' v'; rewrite lookup_insert; case_decide as Hkk.
    + intros [= <-]; rewrite write_stored_ts.
      apply (ca_issued _ Hc k o (MkWrite key v)); [done|unfold op_write; by rewrite <- Hpc|done].
    + intros Hv; by eapply nu_ahead.
Qed.

Lemma turn_clocks g k o n rs n' rpcs p' :
  clocks_ahead g -> grid_ops g !! k = Some o -> op_ok N o -> grid_nodes g !! op_node o = Some n ->
  strong_turn N (op_node o) n rs (op_pc o) n' rpcs p' ->
  clocks_ahead (MkGrid (<[op_node o := n']> (grid_nodes g))
    (<[k := MkOp (op_node o) p' (op_calls o ++ map start_call rpcs)]> (grid_ops g))).
Proof.
  intros Hc Hk Hok Hn Ht; pose proof (turn_node_up _ _ _ _ _ _ _ _ Hc Hk Hn Ht) as Hup.
  apply clocks_ahead_step with (o := o); simpl; [done| |done..| |].
  - eapply nodes_up_insert; [by apply node_up_all|done..].
  - intros w n1 Hw Hn1; apply insert_lookup_cases in Hn1 as [[_ <-]|[? _]]; [|done].
    destruct o as [i p cs]; unfold op_write in *; simpl in *.
    inversion Ht as [| |key v Hpc| | | | | | |]; subst; simpl in *; simplify_eq; auto.
    + right; by left.
    + left; do 2 f_equal; pose proof (oo_deps _ _ Hok (MkWrite key v) eq_refl) as Hd; simpl in Hd.
      destruct v; simpl in *; by subst.
  - intros c n1 req ts Hin Hsrv _; apply elem_of_app in Hin as [Hin|Hin]; [by left|].
    apply start_call_in in Hin as (x & _ & ->); discriminate Hsrv.
Qed.

Lemma step_turn g k now o n n' rpcs p' :
  strong_safe opts N g -> grid_ops g !! k = Some o -> grid_nodes g !! op_node o = Some n ->
  op_ready o = true -> in_int64 now -> micro now (op_replies o) n (op_pc o) = (n', rpcs, p') ->
  op_ok N (MkOp (op_node o) p' (op_calls o ++ map start_call rpcs)) /\
  let g' := MkGrid (<[op_node o := n']> (grid_nodes g))
    (<[k := MkOp (op_node o) p' (op_calls o ++ map start_call rpcs)]> (grid_ops g)) in
  clocks_ahead g' /\ quorum_inv g'.
Proof.
  intros [Hwt Hops Hc Hq] Hk Hn Hr Hnow Hm.
  pose proof (proj1 (Forall_lookup _ _) Hops _ _ Hk) as Hok; simpl in Hok.
  pose proof (oo_node _ _ Hok) as Hi.
  pose proof (proj1 (Forall_lookup _ _) (gw_ops _ _ _ _ Hwt) _ _ Hk) as [Hpc _].
  pose proof (micro_turn opts N _ _ _ _ _ _ _ _ Hi (gw_nodes _ _ _ _ Hwt _ _ Hn) Hpc
    (oo_client _ _ Hok) Hm) as Ht.
  split; [by eapply op_ok_turn|]; split; [by eapply turn_clocks|].
  pose proof (turn_quiet g k o n) as Hquiet.
  destruct (op_pc o) eqn:Hp; inversion Ht; subst; try done;
    try (apply Hquiet; try done; unfold writing, op_write, acked; simpl; rewrite ?Hp; auto; fail).
  - pose proof (oo_early _ _ Hok) as He; rewrite Hp in He; by eapply turn_issued.
  - apply Hquiet; try done; unfold writing, op_write, acked; simpl; rewrite ?Hp; auto.
    left; do 2 f_equal; pose proof (oo_deps _ _ Hok) as Hd; unfold op_write in Hd; rewrite Hp in Hd.
    specialize (Hd _ eq_refl); destruct val; simpl in *; by subst.
  - eapply turn_stored; try done; intros c Hin Heq.
    pose proof (oo_peers _ _ Hok) as Hpeers; rewrite Hp in Hpeers.
    assert (Hx : call_peer c ∈ other_peers N (op_node o)).
    { rewrite <- Hpeers; by apply list_elem_of_fmap_2. }
    apply other_peers_spec in Hx as [_ Hx]; done.
Qed.


Lemma serve_node_up g k o j c n n' p' :
  clocks_ahead g -> grid_ops g !! k = Some o -> op_calls o !! j = Some c ->
  grid_nodes g !! call_peer c = Some n -> strong_serve n (call_srv c) n' p' ->
  node_up n n' /\ store_le (Node_Store n) (Node_Store n').
Proof.
  intros Hc Hk Hj Hn Ht; pose proof (node_up_refl _ _ _ Hc Hn) as Hsame.
  inversion Ht as [|req ts clk Hle Hlt Hs|req ts w Hs|]; subst; try done.
  - split; [|done]; split; simpl; [done|]; intros k' v Hv; etrans; [by eapply nu_ahead|done].
  - split; [|apply apply_write_le]; split; simpl; [by left|]; intros k' v Hv.
    destruct (apply_writes_from _ [w] _ _ Hv) as [Hv'|(w' & ->%list_elem_of_singleton & _ & ->)];
      [by eapply nu_ahead|]; rewrite write_stored_ts.
    eapply (ca_calls _ Hc k o c); [done|by eapply list_elem_of_lookup_2|by rewrite <- Hs|done].
Qed.

(** What a serving step does to the call's flags. *)
Lemma serve_flags o j c n n' p' :
  op_ok N o -> op_calls o !! j = Some c -> strong_serve n (call_srv c) n' p' ->
  let c' := MkCall (call_peer c) p' (call_reply c) in
  (call_acked c' = true -> call_acked c = true /\ c' = c) /\
  ((accepted c' = true -> accepted c = true) \/
   call_acked c = false /\ exists req ts, call_srv c = RClocked req ts /\
     let w := MkWrite (RR_Key req) (request_value req ts) in
     n' = with_store (apply_write (Node_Store n) w) n /\
     forall cur, Node_Store n !! write_key w = Some cur -> ts_lt (Value_Timestamp cur) (write_ts w)).
Proof.
  intros Hok Hj Ht c'.
  assert (Hack : call_acked c = true -> accepted c = true).
  { apply (oo_acked _ _ Hok); by eapply list_elem_of_lookup_2. }
  destruct c as [p srv rep]; subst c'; unfold accepted, call_acked in *; simpl in *.
  inversion Ht as [|req ts clk Hle Hlt Hs|req ts w Hs|]; subst; simpl in *; try (split; auto; done).
  - split; [|by left]; by intros Ha%Hack.
  - split; [|by left]; by intros Ha%Hack.
  - split; [by intros Ha%Hack|].
    destruct (snd (Store_Apply _ _ _)) eqn:Hacc; [right|by left].
    split; [destruct rep as [r|]; [|done]; destruct (reply_ok r); [by discriminate Hack|done]|].
    exists req, ts; split; [done|]; split; [done|].
    intros cur Hcur; rewrite <- write_stored_ts; by eapply Store_Apply_accepted.
Qed.

Lemma step_serve g k j now o c n n' rpcs p' :
  strong_safe opts N g -> glabel_ok (GServe k j now) g = true ->
  grid_ops g !! k = Some o -> op_calls o !! j = Some c -> grid_nodes g !! call_peer c = Some n ->
  micro now [] n (call_srv c) = (n', rpcs, p') ->
  let c' := MkCall (call_peer c) p' (call_reply c) in
  let g' := MkGrid (<[call_peer c := n']> (grid_nodes g)) (with_call k o j c' (grid_ops g)) in
  op_ok N (MkOp (op_node o) (op_pc o) (<[j := c']> (op_calls o))) /\
  clocks_ahead g' /\ quorum_inv g'.
Proof.
  intros [Hwt Hops Hc Hq] Hlb Hk Hj Hn Hm c' g'.
  pose proof (proj1 (Forall_lookup _ _) Hops _ _ Hk) as Hok; simpl in Hok.
  pose proof (gw_nodes _ _ _ _ Hwt _ _ Hn) as Hnw.
  pose proof (proj1 (Forall_lookup _ _) (proj2 (proj1 (Forall_lookup _ _) (gw_ops _ _ _ _ Hwt) _ _ Hk))
    _ _ Hj) as Hpc; simpl in Hpc.
  pose proof (proj1 (Forall_lookup _ _) (oo_server _ _ Hok) _ _ Hj) as Hsv; simpl in Hsv.
  unfold glabel_ok, glabel_timed, g_no_tie in Hlb; simpl in Hlb; rewrite Hk in Hlb; simpl in Hlb.
  rewrite Hj in Hlb; simpl in Hlb; rewrite Hn in Hlb; simpl in Hlb.
  apply andb_true_iff in Hlb as [Hlb _]; apply andb_true_iff in Hlb as [Hnow Htie].
  assert (Ht : strong_serve n (call_srv c) n' p').
  { eapply micro_serve; [exact Hnw|exact Hpc|exact Hnow|exact Hsv| |exact Hm].
    intros req pts Hs Hpts; rewrite Hs, Hpts in Htie; by apply negb_true_iff. }
  destruct (reading_ok_spec _ Hnow) as [Hnow' _].
  destruct (micro_wt _ _ _ _ _ _ _ _ _ _ Hnw Hpc Hnow' Hm) as (_ & Hpc' & _).
  destruct (serve_node_up _ _ _ _ _ _ _ _ Hc Hk Hj Hn Ht) as [Hup Hle].
  destruct (serve_flags _ _ _ _ _ _ Hok Hj Ht) as [Hack Hacc].
  split; [|split].
  - eapply op_ok_call; [done|exact Hj|done|by left| | |].
    + by destruct Ht.
    + intros w _; by apply (srv_ok_serve w _ _ _ _ Ht).
    + intros Ha; destruct (Hack Ha) as [Ha' Heq]; unfold c'; rewrite Heq; apply (oo_acked _ _ Hok); [|done].
      by eapply list_elem_of_lookup_2.
  - apply clocks_ahead_step with (o := o); simpl; [done| |done..| |].
    + eapply nodes_up_insert; [by apply node_up_all|done..].
    + by left.
    + intros x n1 req ts Hx Hsrv Hn1; destruct (elem_of_with_call _ _ _ _ _ Hj Hx) as [->|?];
        [right; right|by left].
      apply insert_lookup_cases in Hn1 as [[_ <-]|[? _]]; [|done].
      simpl in Hsrv; subst p'; inversion Ht; subst; simpl; by right.
  - destruct Hacc as [Hacc|(Hna & req & ts & Hs & -> & Hlt)].
    + eapply (call_quiet g _ k o j c c'); [done..| | |done].
      * eapply nodes_up_insert; done.
      * intros _ Ha; left; by apply Hack.
    + eapply serve_accepted; [done..| |done|exact Hlt|done].
      intros w Hw; pose proof (oo_srv _ _ Hok w c Hw (list_elem_of_lookup_2 _ _ _ Hj)) as Hsrv.
      rewrite Hs in Hsrv; simpl in Hsrv; by destruct Hsrv as [-> ->].
Qed.

(** The reply of an RPC reaches its caller, or an error does. *)
Lemma step_reply g k j o c r :
  strong_safe opts N g -> grid_ops g !! k = Some o -> op_calls o !! j = Some c ->
  call_reply c = None -> (reply_ok r = true -> accepted c = true) ->
  let c' := MkCall (call_peer c) (call_srv c) (Some r) in
  let g' := MkGrid (grid_nodes g) (with_call k o j c' (grid_ops g)) in
  op_ok N (MkOp (op_node o) (op_pc o) (<[j := c']> (op_calls o))) /\
  clocks_ahead g' /\ quorum_inv g'.
Proof.
  intros [Hwt Hops Hc Hq] Hk Hj Hnone Hr c' g'.
  pose proof (proj1 (Forall_lookup _ _) Hops _ _ Hk) as Hok; simpl in Hok.
  assert (Hin : c ∈ op_calls o) by (by eapply list_elem_of_lookup_2).
  split; [|split].
  - eapply op_ok_call; [done|exact Hj|done|by right| |done|done].
    exact (proj1 (Forall_forall _ _) (oo_server _ _ Hok) _ Hin).
  - apply clocks_ahead_step with (o := o); simpl; [done| |done..| |].
    + apply nodes_up_refl; by apply node_up_all.
    + by left.
    + intros x n1 req ts Hx Hsrv Hn1; destruct (elem_of_with_call _ _ _ _ _ Hj Hx) as [->|?];
        [right; left; by exists c|by left].
  - eapply (call_quiet g _ k o j c c'); [done..| | |done].
    + by apply nodes_up_refl.
    + intros Hw Ha; right; split; [by apply Hr|].
      assert (Hnr : all_replied o <> true).
      { unfold all_replied; rewrite forallb_forall; intros Hall.
        specialize (Hall c (proj1 (list_elem_of_In _ _) Hin)); by rewrite Hnone in Hall. }
      pose proof (oo_early _ _ Hok) as He; pose proof (oo_quorum _ _ Hok) as Hqu.
      unfold op_write, writing in *; destruct (op_pc o) as [| | | | | |key [v|]| | | | | |]; try done;
        by destruct Hqu.
Qed.

Lemma step_begin g i p :
  strong_safe opts N g -> client_start p = true -> g_exclusive (GBegin i p) g = true ->
  i < N ->
  let g' := MkGrid (grid_nodes g) (grid_ops g ++ [MkOp i p []]) in
  clocks_ahead g' /\ quorum_inv g'.
Proof.
  intros [Hwt Hops Hc Hq] Hp Hex Hi g'.
  assert (Hlast : forall j o, grid_ops g' !! j = Some o ->
            grid_ops g !! j = Some o \/ j = length (grid_ops g) /\ o = MkOp i p []).
  { intros j o Hj; apply lookup_app_Some in Hj as [?|[Hle Hj]]; [by left|right].
    apply list_lookup_singleton_Some in Hj as [? <-]; split; [lia|done]. }
  assert (Hnw : op_write (MkOp i p []) = None) by (by destruct p).
  assert (Hlt : forall j o, grid_ops g !! j = Some o -> j < length (grid_ops g))
    by (intros; by eapply lookup_lt_Some).
  split; split.
  - apply Hc.
  - intros j o w n [Hj|[_ ->]]%Hlast Hw; [by eapply (ca_issued _ Hc)|congruence].
  - intros j o c n req ts [Hj|[_ ->]]%Hlast Hin; [by eapply (ca_calls _ Hc)|].
    by apply not_elem_of_nil in Hin.
  - intros a b oa ob key [Ha|[-> ->]]%Hlast [Hb|[-> ->]]%Hlast Hab Hta Htb; [|..|lia].
    + exact (qi_single _ Hq _ _ _ _ _ Ha Hb Hab Hta Htb).
    + simpl in Htb; destruct p; try discriminate; simplify_eq/=.
      rewrite forallb_forall in Hex; specialize (Hex oa).
      destruct (writing oa) as [k'|] eqn:Hwr; [|done].
      rewrite (writing_touched _ _ Hwr) in Hta; simplify_eq.
      rewrite bool_decide_true in Hex by done.
      discriminate Hex; apply list_elem_of_In; by eapply list_elem_of_lookup_2.
    + apply Hlt in Hb; lia.
  - intros j o w q n [Hj|[_ ->]]%Hlast Hw; [by eapply (qi_reached _ Hq)|congruence].
  - intros a b oa ob wa wb [Ha|[-> ->]]%Hlast [Hb|[-> ->]]%Hlast Hab Hwa Hwb; try congruence.
    exact (qi_issued _ Hq _ _ _ _ _ _ Ha Hb Hab Hwa Hwb).
  - intros a b oa ob wa wb c [Ha|[-> ->]]%Hlast [Hb|[-> ->]]%Hlast Hab Hwa Hwb; try congruence.
    exact (qi_accepted _ Hq _ _ _ _ _ _ _ Ha Hb Hab Hwa Hwb).
Qed.

(** Every step of a run without overlapping writes keeps the invariant. *)
Lemma step_safe lb g g' :
  strong_safe opts N g -> glabel_ok lb g = true -> gstep_view g lb g' -> strong_safe opts N g'.
Proof.
  intros Hs Hlb Hv; pose proof Hs as [Hwt Hops Hc Hq].
  assert (Hty : glabel_typed lb).
  { unfold glabel_ok, glabel_timed in Hlb; unfold glabel_typed; destruct (glabel_now lb) as [now|]; [|done].
    apply andb_true_iff in Hlb as [Hlb _]; apply andb_true_iff in Hlb as [Hnow _].
    by apply reading_ok_spec. }
  pose proof (gstep_wt _ _ _ _ _ _ Hwt Hty Hv) as Hwt'.
  destruct Hv as [i p n Hi Hp|k now o n n' rpcs p' Ho Hn Hr Hm|k j now o c n n' rpcs p' Ho Hcj Hn Hm
    |k j o c r Ho Hcj Hsrv Hr|k j e o c Ho Hcj Hr].
  - assert (Hex : g_exclusive (GBegin i p) g = true) by (by apply andb_true_iff in Hlb as [_ ?]).
    assert (HiN : i < N) by (rewrite <- (gw_length _ _ _ _ Hwt); by eapply lookup_lt_Some).
    destruct (step_begin g i p Hs Hp Hex HiN); split; try done; simpl.
    apply Forall_app; split; [done|]; constructor; [by apply op_ok_begin|constructor].
  - destruct (step_turn g k now o n n' rpcs p' Hs Ho Hn Hr Hty Hm) as (Hok & ? & ?); split; try done.
    by apply Forall_insert.
  - destruct (step_serve g k j now o c n n' rpcs p' Hs Hlb Ho Hcj Hn Hm) as (Hok & ? & ?);
      split; try done. by apply Forall_with_call.
  - pose proof (step_reply g k j o c (reply_of r) Hs Ho Hcj Hr) as Hst; rewrite Hsrv in Hst.
    destruct Hst as (Hok & ? & ?); [|split; try done; by apply Forall_with_call].
    unfold accepted; rewrite Hsrv; by destruct r.
  - destruct (step_reply g k j o c (MkReply None (Some e)) Hs Ho Hcj Hr) as (Hok & ? & ?); [done|].
    split; try done. by apply Forall_with_call.
Qed.

End steps.

(** ** Runs *)

Lemma start_node_store mode peers opts now n :
  start_node mode peers opts now = Some n -> Node_Store n = ∅.
Proof.
  unfold start_node; destruct (negb _); [done|].
  destruct (NewHandler _ _ _); [|done]; by intros [= <-].
Qed.

Lemma init_strong_safe opts nows g :
  Forall (fun now => reading_ok now = true) nows -> init_grid "strong" opts nows = Some g ->
  strong_safe opts (length nows) g /\ grid_ops g = [].
Proof.
  intros Hnows Hinit.
  assert (Hwt : grid_wt "strong" opts (length nows) g).
  { eapply init_grid_wt; [|done]; eapply Forall_impl; [exact Hnows|]; by intros x [? _]%reading_ok_spec. }
  unfold init_grid in Hinit; apply fmap_Some in Hinit as (c & Hc & ->).
  apply init_cluster_nodes in Hc as (_ & _ & Hns); split; [|done].
  split; simpl; [done|constructor| |]; split; simpl; try done.
  intros i n key v Hi Hv; destruct (Hns _ _ Hi) as (now & _ & Hst).
  by rewrite (start_node_store _ _ _ _ _ Hst) in Hv.
Qed.

Lemma grun_safe opts N ls g g' :
  strong_safe opts N g -> grun_ok ls g = true -> grun ls g = Some g' -> strong_safe opts N g'.
Proof.
  intros Hs Hok Hrun; eapply grun_all_ind; [exact Hs|exact Hok|exact Hrun|].
  intros lb g1 g2 Hs1 Hlb Hv; by eapply step_safe.
Qed.

Lemma holders_support N o w p :
  op_ok N o -> acked o = Some w -> p ∈ holders (op_node o) (other_peers N (op_node o)) (op_replies o) ->
  supports o p /\ op_write o = Some w /\ (p = op_node o \/ p ∈ other_peers N (op_node o)).
Proof.
  intros Hok Ha Hp; split; [|split].
  - pose proof (oo_peers _ _ Hok) as Hpeers; pose proof (oo_quorum _ _ Hok) as Hq.
    assert (Hall : all_replied o = true /\ map call_peer (op_calls o) = other_peers N (op_node o)).
    { unfold acked in Ha; destruct (op_pc o) as [| | | | | |key [v|]| | | | | |]; try done.
      by destruct Hq. }
    destruct Hall as [Hall Hps]; revert Hp; unfold holders; rewrite <- Hps, elem_of_union.
    intros [->%elem_of_singleton|Hp%elem_of_list_to_set]; [left; by rewrite Ha|right].
    revert Hall Hp; unfold all_replied, op_replies; clear.
    induction (op_calls o) as [|c cs IH]; simpl; [by intros _ ?%not_elem_of_nil|].
    destruct (call_reply c) as [r|] eqn:Hr; simpl; [|done]; intros Hall.
    destruct (reply_ok r) eqn:Hrok; simpl.
    + intros [->|Hp]%elem_of_cons; [|destruct (IH Hall Hp) as (x & ? & ?); exists x; split; [by right|done]].
      exists c; split; [by left|]; split; [done|left]; unfold call_acked; by rewrite Hr.
    + intros Hp; destruct (IH Hall Hp) as (x & ? & ?); exists x; split; [by right|done].
  - unfold acked, op_write in *; destruct (op_pc o) as [| | | | | |key [v|]| | | | | |]; done.
  - pose proof (holders_subset _ _ _ p Hp) as Hin; apply elem_of_list_to_set, elem_of_cons in Hin.
    by destruct Hin as [->|?]; [left|right].
Qed.

Lemma acked_quorum N o w :
  op_ok N o -> acked o = Some w ->
  N < 2 * size (holders (op_node o) (other_peers N (op_node o)) (op_replies o)).
Proof.
  intros Hok Ha; pose proof (oo_quorum _ _ Hok) as Hq; unfold acked in Ha.
  destruct (op_pc o) as [| | | | | |key [v|]| | | | | |]; try done; apply Hq.
Qed.

(** How many nodes have a key at least at a timestamp. *)
Definition nodes_reached (key : string) (ts : Timestamp) (g : grid) : nat :=
  length (List.filter (reached key ts) (grid_nodes g)).

Lemma acked_reached opts N g k o w :
  strong_safe opts N g -> grid_ops g !! k = Some o -> acked o = Some w ->
  N < 2 * nodes_reached (write_key w) (write_ts w) g.
Proof.
  intros [Hwt Hops _ Hq] Hk Ha.
  pose proof (proj1 (Forall_lookup _ _) Hops _ _ Hk) as Hok; simpl in Hok.
  pose proof (acked_quorum _ _ _ Hok Ha) as HQ.
  assert (Hle : size (holders (op_node o) (other_peers N (op_node o)) (op_replies o)) <=
            nodes_reached (write_key w) (write_ts w) g); [|lia].
  apply size_filter_le; intros p Hp.
  destruct (holders_support _ _ _ _ Hok Ha Hp) as (Hsup & Hw & Hin).
  assert (Hlt : p < length (grid_nodes g)).
  { pose proof (gw_length _ _ _ _ Hwt) as Hl; destruct Hin as [->|Hin%other_peers_spec]; [|lia].
    rewrite Hl; apply Hok. }
  destruct (lookup_lt_is_Some_2 _ _ Hlt) as [n Hn]; exists n; split; [done|].
  by eapply qi_reached.
Qed.

(** Two quorums share a node, and that node took the second write after it had
    taken the first. *)
Lemma acked_later opts N g j k oj ok wj wk :
  strong_safe opts N g -> grid_ops g !! j = Some oj -> grid_ops g !! k = Some ok -> j < k ->
  acked oj = Some wj -> acked ok = Some wk -> write_key wj = write_key wk ->
  ts_lt (write_ts wj) (write_ts wk).
Proof.
  intros [Hwt Hops _ Hq] Hj Hk Hlt Haj Hak Hkey.
  pose proof (proj1 (Forall_lookup _ _) Hops _ _ Hj) as Hokj; simpl in Hokj.
  pose proof (proj1 (Forall_lookup _ _) Hops _ _ Hk) as Hokk; simpl in Hokk.
  pose proof (acked_quorum _ _ _ Hokj Haj) as HQj; pose proof (acked_quorum _ _ _ Hokk Hak) as HQk.
  set (U := list_to_set (seq 0 N) : gset nat).
  assert (HU : size U = N).
  { unfold U; rewrite size_list_to_set by apply NoDup_ListNoDup, seq_NoDup; apply length_seq. }
  assert (Hsub : forall o w, op_ok N o -> acked o = Some w ->
            holders (op_node o) (other_peers N (op_node o)) (op_replies o) ⊆ U).
  { intros o w Ho Ha p Hp; destruct (holders_support _ _ _ _ Ho Ha Hp) as (_ & _ & Hin).
    apply elem_of_list_to_set, list_elem_of_In, in_seq; pose proof (oo_node _ _ Ho).
    destruct Hin as [->|Hin%other_peers_spec]; lia. }
  pose proof (majorities_intersect U _ _ (Hsub _ _ Hokj Haj) (Hsub _ _ Hokk Hak)
    ltac:(lia) ltac:(lia)) as Hx.
  apply set_choose_L in Hx as [p [Hpj Hpk]%elem_of_intersection].
  destruct (holders_support _ _ _ _ Hokj Haj Hpj) as (Hsj & Hwj & _).
  destruct (holders_support _ _ _ _ Hokk Hak Hpk) as (Hsk & Hwk & _).
  destruct Hsk as [[<- _]|(c & Hin & <- & Hc)].
  - exact (qi_issued _ Hq _ _ _ _ _ _ Hj Hk Hlt Hwj Hwk Hkey Hsj).
  - refine (qi_accepted _ Hq _ _ _ _ _ _ _ Hj Hk Hlt Hwj Hwk Hkey Hin _ Hsj).
    destruct Hc as [Hc|[Hc _]]; [by apply (oo_acked _ _ Hokk)|done].
Qed.

(** A call that is over stays so. *)
Lemma step_acked lb g g' k o w :
  gstep_view g lb g' -> grid_ops g !! k = Some o -> acked o = Some w ->
  exists o', grid_ops g' !! k = Some o' /\ acked o' = Some w /\ op_node o' = op_node o.
Proof.
  intros Hv Hk Ha.
  assert (Hins : forall l x y, grid_ops g !! l = Some x ->
            (l = k -> acked y = acked x /\ op_node y = op_node x) ->
            exists o', <[l := y]> (grid_ops g) !! k = Some o' /\ acked o' = Some w /\ op_node o' = op_node o).
  { intros l x y Hl Hy; destruct (decide (l = k)) as [->|Hne].
    - destruct (Hy eq_refl) as [Hy1 Hy2]; simplify_eq; exists y.
      by rewrite list_lookup_insert_eq, Hy1 by (by eapply lookup_lt_Some).
    - exists o; by rewrite list_lookup_insert_ne. }
  destruct Hv as [i p n Hi Hp|l now x n n' rpcs p' Ho Hn Hr Hm|l j now x c n n' rpcs p' Ho Hcj Hn Hm
    |l j x c r Ho Hcj Hsrv Hr|l j e x c Ho Hcj Hr]; simpl; try (eapply Hins; done).
  - exists o; split; [|done]; by rewrite lookup_app, Hk.
  - eapply Hins; [done|]; intros ->; rewrite Hk in Ho; injection Ho as <-; split; [|done].
    unfold acked in *; destruct (op_pc o) as [| | | | | |key [v|]| | | | | |]; try done.
    simpl in Hm; by simplify_eq.
Qed.

Lemma grun_acked ls g g' k o w :
  grun ls g = Some g' -> grid_ops g !! k = Some o -> acked o = Some w ->
  exists o', grid_ops g' !! k = Some o' /\ acked o' = Some w /\ op_node o' = op_node o.
Proof.
  revert g o; induction ls as [|lb ls IH]; intros g o Hrun Hk Ha; simpl in Hrun.
  - simplify_eq; by exists o.
  - apply bind_Some in Hrun as (g1 & Hg1 & Hrun).
    destruct (step_acked _ _ _ _ _ _ (gstepP _ _ _ Hg1) Hk Ha) as (o1 & Hk1 & Ha1 & Hn1).
    destruct (IH _ _ Hrun Hk1 Ha1) as (o2 & ? & ? & ?); exists o2; by rewrite <- Hn1.
Qed.

(** ** Properties *)

(** C4: strong writes last: in a cluster in strong mode, with handlers interleaved
    in any way and RPCs delayed, failing or served after they have failed, if
    no two writes to one key overlap, no request ties with its receiver's clock
    while ahead of it and the clocks read int64s from the epoch on, then a write
    that has been acknowledged to its client is, from then on at every point, on
    a strict majority of the nodes, its origin among them, in its version or a
    later one.  The first two conditions are needed: see
    [strong_overlap_loses_quorum] and [strong_tie_loses_quorum]. *)
Theorem strong_write_durable opts nows g0 ls1 g1 k o w ls2 g2 :
  Forall (fun now => reading_ok now = true) nows ->
  init_grid "strong" opts nows = Some g0 ->
  grun_ok ls1 g0 = true -> grun ls1 g0 = Some g1 ->
  grid_ops g1 !! k = Some o -> acked o = Some w ->
  grun_ok ls2 g1 = true -> grun ls2 g1 = Some g2 ->
  length nows < 2 * nodes_reached (write_key w) (write_ts w) g2 /\
  forall n, grid_nodes g2 !! op_node o = Some n -> reached (write_key w) (write_ts w) n = true.
Proof.
  intros Hnows Hinit Hok1 Hrun1 Hk Ha Hok2 Hrun2.
  destruct (init_strong_safe _ _ _ Hnows Hinit) as [Hs0 _].
  pose proof (grun_safe _ _ _ _ _ Hs0 Hok1 Hrun1) as Hs1.
  pose proof (grun_safe _ _ _ _ _ Hs1 Hok2 Hrun2) as Hs2.
  destruct (grun_acked _ _ _ _ _ _ Hrun2 Hk Ha) as (o' & Hk' & Ha' & Hn').
  split; [by eapply acked_reached|]; intros n Hn.
  apply (qi_reached _ (ss_quorum _ _ _ Hs2) k o' w (op_node o)); [done| | |done].
  - unfold acked, op_write in *; by destruct (op_pc o') as [| | | | | |key [v|]| | | | | |].
  - left; by rewrite Hn', Ha'.
Qed.

(** A put at node 0 acknowledged by node 1 alone, then one at node 2. *)
Definition strong_call (k i : nat) (key : string) (b : byte) (now : Z) (j : nat) : list glabel :=
  [GBegin i (WStart key [b] false)] ++ turns k 3 now ++
  [GServe k j (now + 1); GServe k j (now + 2); GReturn k j; GFail k (1 - j) "timeout"] ++ turns k 2 0.

Definition c_two_calls : list glabel := strong_call 0 0 "x" x61 200 0 ++ strong_call 1 2 "x" x62 300 1.
Definition c_one_done : grid := default (c_grid "strong") (grun (strong_call 0 0 "x" x61 200 0) (c_grid "strong")).
Definition c_two_done : grid := default (c_grid "strong") (grun (strong_call 1 2 "x" x62 300 1) c_one_done).

Lemma strong_write_durable_witness :
  acked <$> grid_ops c_two_done = [Some (MkWrite "x" (c_val 200 x61)); Some (MkWrite "x" (c_val 300 x62))] /\
  3 < 2 * nodes_reached "x" (MkTimestamp 200 0) c_two_done.
Proof.
  split; [vm_compute; reflexivity|].
  refine (proj1 (strong_write_durable c_opts [100; 100; 100]%Z (c_grid "strong")
    (strong_call 0 0 "x" x61 200 0) c_one_done 0 (default (MkOp 0 (GStart "") []) (grid_ops c_one_done !! 0))
    (MkWrite "x" (c_val 200 x61)) (strong_call 1 2 "x" x62 300 1) c_two_done
    c_nows_ok _ _ _ _ _ _ _)); vm_compute; reflexivity.
Defined.

(** C5: acknowledged strong writes are ordered as they were made: under the
    assumptions of [strong_write_durable] (no two writes to one key overlap, no
    request ties with its receiver's clock while ahead of it, readings in range),
    of two writes to one key, the one that began after the other had been
    acknowledged, at whichever nodes the two were made, has the later timestamp
    if it is acknowledged too. *)
Theorem strong_writes_ordered opts nows g0 ls1 g1 j oj wj ls2 g2 k ok wk :
  Forall (fun now => reading_ok now = true) nows ->
  init_grid "strong" opts nows = Some g0 ->
  grun_ok ls1 g0 = true -> grun ls1 g0 = Some g1 ->
  grid_ops g1 !! j = Some oj -> acked oj = Some wj ->
  grun_ok ls2 g1 = true -> grun ls2 g1 = Some g2 ->
  length (grid_ops g1) <= k -> grid_ops g2 !! k = Some ok -> acked ok = Some wk ->
  write_key wj = write_key wk -> ts_lt (write_ts wj) (write_ts wk).
Proof.
  intros Hnows Hinit Hok1 Hrun1 Hj Haj Hok2 Hrun2 Hlt Hk Hak Hkey.
  destruct (init_strong_safe _ _ _ Hnows Hinit) as [Hs0 _].
  pose proof (grun_safe _ _ _ _ _ (grun_safe _ _ _ _ _ Hs0 Hok1 Hrun1) Hok2 Hrun2) as Hs.
  apply lookup_lt_Some in Hj as Hjl.
  destruct (grun_acked _ _ _ _ _ _ Hrun2 Hj Haj) as (oj' & Hj' & Haj' & _).
  eapply acked_later; [exact Hs|exact Hj'|exact Hk|lia|done..].
Qed.

Lemma strong_writes_ordered_witness :
  map op_node (grid_ops c_two_done) = [0; 2] /\ ts_lt (MkTimestamp 200 0) (MkTimestamp 300 0).
Proof.
  split; [vm_compute; reflexivity|].
  refine (strong_writes_ordered c_opts [100; 100; 100]%Z (c_grid "strong")
    (strong_call 0 0 "x" x61 200 0) c_one_done 0 (default (MkOp 0 (GStart "") []) (grid_ops c_one_done !! 0))
    (MkWrite "x" (c_val 200 x61)) (strong_call 1 2 "x" x62 300 1) c_two_done 1
    (default (MkOp 0 (GStart "") []) (grid_ops c_two_done !! 1)) (MkWrite "x" (c_val 300 x62))
    c_nows_ok _ _ _ _ _ _ _ _ _ _ _); vm_compute; first [reflexivity|lia].
Defined.

(** C21: overlapping strong writes: the condition on overlapping is needed.  Two puts
    of one key at two nodes, both acknowledged: the origin of the earlier
    timestamp, having already accepted the later write, stores its own over it
    ([Store.Put] does not compare), and the later write is left on one node of
    three, its own origin. *)
Theorem strong_overlap_loses_quorum :
  exists ls g o1 o2 w1 w2,
    grun_all glabel_timed ls (c_grid "strong") = true /\ grun ls (c_grid "strong") = Some g /\
    grid_ops g = [o1; o2] /\ acked o1 = Some w1 /\ acked o2 = Some w2 /\
    write_key w1 = write_key w2 /\ ts_lt (write_ts w1) (write_ts w2) /\
    length (grid_nodes g) = 3 /\ nodes_reached (write_key w2) (write_ts w2) g = 1.
Proof.
  set (ls := [GBegin 0 (WStart "x" [x61] false)] ++ turns 0 3 200 ++
    [GBegin 1 (WStart "x" [x62] false)] ++ turns 1 3 300 ++
    [GServe 1 0 310; GServe 1 0 310; GReturn 1 0; GFail 1 1 "timeout"] ++ turns 1 2 0 ++
    [GServe 0 1 320; GServe 0 1 320; GReturn 0 1; GFail 0 0 "timeout"] ++ turns 0 2 0).
  set (g := default (c_grid "strong") (grun ls (c_grid "strong"))).
  exists ls, g, (default (MkOp 0 (GStart "") []) (grid_ops g !! 0)),
    (default (MkOp 0 (GStart "") []) (grid_ops g !! 1)),
    (MkWrite "x" (c_val 200 x61)), (MkWrite "x" (c_val 300 x62)).
  repeat split; try (vm_compute; reflexivity); left; simpl; lia.
Qed.

(** Ties: the condition on ties is needed as well.  With no two writes of a key
    overlapping and all readings in range, the peer that accepts a put at (200,3)
    while its clock is at (200,0) moves only to (200,1); its own put of that key,
    begun after the first was acknowledged, is acknowledged at (200,2), the earlier
    timestamp, and leaves the first on one node of three. *)
Theorem strong_tie_loses_quorum :
  exists ls g o1 o2 w1 w2,
    grun_all (fun lb g => match glabel_now lb with Some now => reading_ok now | None => true end &&
                          g_exclusive lb g)%bool ls (c_grid "strong") = true /\
    grun ls (c_grid "strong") = Some g /\
    grid_ops g !! 4 = Some o1 /\ grid_ops g !! 5 = Some o2 /\ acked o1 = Some w1 /\ acked o2 = Some w2 /\
    write_key w1 = write_key w2 /\ ts_lt (write_ts w2) (write_ts w1) /\
    length (grid_nodes g) = 3 /\ nodes_reached (write_key w1) (write_ts w1) g = 1.
Proof.
  set (failed := fun k i key => [GBegin i (WStart key [x61] false)] ++ turns k 3 200 ++
    [GFail k 0 "timeout"; GFail k 1 "timeout"] ++ turns k 2 0).
  set (ls := failed 0 0 "a" ++ failed 1 0 "b" ++ failed 2 0 "c" ++ failed 3 1 "d" ++
    [GBegin 0 (WStart "x" [x61] false)] ++ turns 4 3 200 ++
    [GServe 4 0 200; GServe 4 0 200; GReturn 4 0; GFail 4 1 "timeout"] ++ turns 4 2 0 ++
    [GBegin 1 (WStart "x" [x62] false)] ++ turns 5 3 200 ++
    [GServe 5 1 200; GServe 5 1 200; GReturn 5 1; GFail 5 0 "timeout"] ++ turns 5 2 0).
  set (g := default (c_grid "strong") (grun ls (c_grid "strong"))).
  exists ls, g, (default (MkOp 0 (GStart "") []) (grid_ops g !! 4)),
    (default (MkOp 0 (GStart "") []) (grid_ops g !! 5)),
    (MkWrite "x" (MkValue [x61] (MkTimestamp 200 3) [] false)), (MkWrite "x" (MkValue [x62] (MkTimestamp 200 2) [] false)).
  repeat split; try (vm_compute; reflexivity); right; simpl; lia.
Qed.

(** A failed strong write is not undone: a put answered with "quorum not
    reached" is read at the peer that had accepted it, and not at its origin,
    in a run that satisfies all the assumptions of [strong_write_durable]. *)
Theorem strong_failed_write_visible :
  exists ls g, grun_ok ls (c_grid "strong") = true /\ grun ls (c_grid "strong") = Some g /\
    map op_pc (grid_ops g) =
      [WDone "x" (Err errQuorum);
       GDone (Ok (MkGetResponse [x61] (Some (MkKvTS 200 0)) true));
       GDone (Ok (MkGetResponse [] None false))].
Proof.
  set (ls := [GBegin 0 (WStart "x" [x61] false)] ++ turns 0 3 200 ++
    [GServe 0 0 210; GServe 0 0 210; GFail 0 0 "timeout"; GFail 0 1 "timeout"] ++ turns 0 2 0 ++
    [GBegin 1 (GStart "x")] ++ turns 1 2 0 ++ [GBegin 0 (GStart "x")] ++ turns 2 2 0).
  exists ls, (default (c_grid "strong") (grun ls (c_grid "strong"))).
  repeat split; vm_compute; reflexivity.
Qed.

(** Strong reads are local: after a put has been acknowledged, a read at a node
    outside its quorum does not find the key, in a run that satisfies all the
    assumptions of [strong_write_durable]. *)
Theorem strong_read_stale :
  exists ls g, grun_ok ls (c_grid "strong") = true /\ grun ls (c_grid "strong") = Some g /\
    map op_pc (grid_ops g) =
      [WDone "x" (Ok (c_val 200 x61)); GDone (Ok (MkGetResponse [] None false))].
Proof.
  set (ls := strong_call 0 0 "x" x61 200 0 ++ [GBegin 2 (GStart "x")] ++ turns 1 2 0).
  exists ls, (default (c_grid "strong") (grun ls (c_grid "strong"))).
  repeat split; vm_compute; reflexivity.
Qed.
