(* ===== verification/Causal.v ===== *)
(** * Causal clusters with concurrent handlers ([src/internal/server], [src/internal/buffer])

    The causal safety of [Cluster.v], in the finer world of [Grid.v]: handlers of
    every node interleaved in any way, RPCs delayed, failing and served in any
    order.  It holds in every run in which no local put is stored over a later
    version of its key, a test on the run's steps; and a run in which one is
    shows that the test is needed. *)

From S2P Require Import Prelude Hlc Store Buffer Wire Replication Server Cluster Interleave Grid Strong.

(** ** Assumptions on runs *)

Definition reading_step (lb : glabel) : bool :=
  match glabel_now lb with Some now => reading_ok now | None => true end.

(** A local write about to be stored is not behind the version it replaces. *)
Definition g_forward (lb : glabel) (g : grid) : bool :=
  match lb with
  | GTurn k _ =>
      match o ← grid_ops g !! k; n ← grid_nodes g !! op_node o; Some (op_pc o, Node_Store n) with
      | Some (WDeps key v, s) => bool_decide (ts_le (version s key) (Value_Timestamp v))
      | _ => true
      end
  | _ => true
  end.

Definition causal_step (lb : glabel) (g : grid) : bool := reading_step lb && g_forward lb g.

(** ** Invariant *)

Definition from_epoch (t : Timestamp) : Prop := ts_le zeroTimestamp t.

Record node_causal (n : Node AnyHandler) : Prop := {
  nc_closed : causally_closed (Node_Store n);
  nc_nonneg : store_nonneg (Node_Store n);
  nc_held : Forall write_nonneg (held n);
  nc_reads : depsSatisfied (Node_Store n) (pending_deps n) = true;
  nc_clock : (0 <= Clock_l (Node_Clock n))%Z
}.

(** The timestamps a handler carries. *)
Definition pc_epoch (p : pc) : Prop :=
  match p with
  | WSent _ v | WDeps _ v | WStored _ v | WDone _ (Ok v) | GRead _ v => from_epoch (Value_Timestamp v)
  | RStart req => match RR_Timestamp req with Some pts => from_epoch (fromProtoTS pts) | None => True end
  | RClocked _ ts => from_epoch ts
  | _ => True
  end.

Definition call_epoch (c : call) : Prop := pc_epoch (call_srv c) /\ serving (call_srv c) = true.

(** What a handler has seen in the store of its node is still there. *)
Definition pc_causal (s : Store) (p : pc) : Prop :=
  match p with
  | WDeps _ v => depsSatisfied s (Value_Deps v) = true
  | GRead key v => ts_le (Value_Timestamp v) (version s key)
  | _ => True
  end.

Record grid_causal (opts : Options) (N : nat) (g : grid) : Prop := {
  gc_wt : grid_wt "causal" opts N g;
  gc_nodes : forall i n, grid_nodes g !! i = Some n -> node_causal n;
  gc_epoch : Forall (fun o => pc_epoch (op_pc o) /\ Forall call_epoch (op_calls o)) (grid_ops g);
  gc_seen : forall k o n, grid_ops g !! k = Some o -> grid_nodes g !! op_node o = Some n ->
    pc_causal (Node_Store n) (op_pc o)
}.

(** ** One step of a handler *)

Lemma pc_causal_mono s s' p :
  store_le s s' -> store_nonneg s' -> pc_causal s p -> pc_causal s' p.
Proof.
  intros Hle Hnn; destruct p; unfold pc_causal; try done; [by apply depsSatisfied_mono|].
  intros Hv; etrans; [exact Hv|by apply version_mono].
Qed.

Lemma clock_epoch clk : clock_wf clk -> (0 <= Clock_l clk)%Z -> from_epoch (Clock_Now clk).
Proof. intros [_ Hc] Hl; unfold from_epoch; rewrite ts_le_alt; simpl; lia. Qed.

(** Putting a value whose dependencies hold over an earlier version. *)
Lemma forward_store key v s :
  causally_closed s -> store_nonneg s -> from_epoch (Value_Timestamp v) ->
  depsSatisfied s (Value_Deps v) = true -> ts_le (version s key) (Value_Timestamp v) ->
  let s' := local_store key v s in
  causally_closed s' /\ store_nonneg s' /\ store_le s s'.
Proof.
  intros Hcl Hnn Hv Hd Hver s'; unfold s'; rewrite local_store_write.
  set (w := MkWrite key v).
  assert (Hle : store_le s (<[key := write_stored w]> s)).
  { intros k u Hu; destruct (decide (k = key)) as [->|Hne].
    - exists (write_stored w); rewrite lookup_insert_eq; split; [done|]; rewrite write_stored_ts.
      unfold version, Store_GetVersion in Hver; by rewrite Hu in Hver.
    - exists u; rewrite lookup_insert_ne by done; split; [done|by left]. }
  assert (Hnn' : store_nonneg (<[key := write_stored w]> s)).
  { intros k u [[<- <-]|[_ Hu]]%lookup_insert_Some; [rewrite write_stored_ts; exact Hv|by eapply Hnn]. }
  split_and!; [|done|done]; intros k u [[<- <-]|[_ Hu]]%lookup_insert_Some.
  - assert (Hdeps : Value_Deps (write_stored w) = [] \/ Value_Deps (write_stored w) = Value_Deps v)
      by (unfold write_stored; destruct (Value_Deleted _); auto).
    destruct Hdeps as [->| ->]; [done|]; eapply depsSatisfied_mono; [exact Hle|done|exact Hd].
  - eapply depsSatisfied_mono; [exact Hle|done|by eapply Hcl].
Qed.

Section micro.
Context (peers : list peer) (opts : Options).
Implicit Types (n : Node AnyHandler) (p : pc).

(** A step: the node stays causal, its store grows, and the handler has seen no
    more than is there. *)
Record causal_micro n n' (rpcs : list outgoing) p' : Prop := {
  cm_node : node_causal n';
  cm_le : store_le (Node_Store n) (Node_Store n');
  cm_epoch : pc_epoch p';
  cm_rpcs : Forall (fun o => pc_epoch (RStart (out_req o))) rpcs;
  cm_seen : pc_causal (Node_Store n') p'
}.

Lemma store_le_same (s : Store) : store_le s s.
Proof. intros k v Hv; exists v; split; [done|by left]. Qed.

(** Steps that change neither the store, nor the buffer, nor what was read. *)
Lemma causal_frame n n' rpcs p' :
  node_causal n -> Node_Store n' = Node_Store n -> held n' = held n ->
  depsSatisfied (Node_Store n) (pending_deps n') = true -> (0 <= Clock_l (Node_Clock n'))%Z ->
  pc_epoch p' -> Forall (fun o => pc_epoch (RStart (out_req o))) rpcs ->
  pc_causal (Node_Store n) p' -> causal_micro n n' rpcs p'.
Proof.
  intros [Hcl Hnn Hh Hr Hc] Hs Hh' Hr' Hc' Hp Ho Hseen; split;
    [by split; rewrite ?Hs, ?Hh'|rewrite Hs; apply store_le_same|done|done|by rewrite Hs].
Qed.

Lemma pending_frame n n' : active_tracker n' = active_tracker n -> pending_deps n' = pending_deps n.
Proof. intros Ht; by rewrite !pending_deps_alt, Ht. Qed.

Lemma causal_same n n' rpcs p' :
  node_causal n -> Node_Store n' = Node_Store n -> held n' = held n ->
  active_tracker n' = active_tracker n -> (0 <= Clock_l (Node_Clock n'))%Z ->
  pc_epoch p' -> Forall (fun o => pc_epoch (RStart (out_req o))) rpcs ->
  pc_causal (Node_Store n) p' -> causal_micro n n' rpcs p'.
Proof. intros Hn ?? Ht ????; apply causal_frame; try done; rewrite (pending_frame _ _ Ht); apply Hn. Qed.

Lemma OnWrite_epoch (h : AnyHandler) key v rs :
  from_epoch (Value_Timestamp v) ->
  Forall (fun o => pc_epoch (RStart (out_req o))) (fst (OnWrite h key v rs)).
Proof.
  intros Hv; apply Forall_forall; intros o Ho.
  apply on_write_request in Ho as (deps & _ & ->); simpl; by rewrite fromProto_toReplicateTS.
Qed.

Lemma clock_step_epoch clk e clk' r :
  clock_wf clk -> (0 <= Clock_l clk)%Z -> event_typed e -> clock_step clk e = (clk', r) ->
  (0 <= Clock_l clk')%Z.
Proof.
  intros Hwf Hl He Hs; pose proof (clock_step_mono _ _ _ _ Hwf He Hs) as Hm.
  rewrite ts_le_alt in Hm; simpl in Hm; lia.
Qed.

Lemma micro_causal_write n p now rs n' rpcs p' :
  node_wt "causal" peers opts n -> pc_wt "causal" p -> reading_ok now = true ->
  node_causal n -> pc_epoch p -> pc_causal (Node_Store n) p ->
  (forall key v, p = WDeps key v -> ts_le (version (Node_Store n) key) (Value_Timestamp v)) ->
  match p with
  | WStart _ _ _ | WSent _ _ | WDeps _ _ | WStored _ _ | WSending _ _ | WAcked _ _ | WDone _ _ => True
  | _ => False
  end ->
  micro now rs n p = (n', rpcs, p') -> causal_micro n n' rpcs p'.
Proof.
  intros Hwt Hp [Hnow Hpos]%reading_ok_spec Hn He Hseen Hfw Hw.
  pose proof (nw_mode _ _ _ _ Hwt) as Hm; pose proof (nw_clock _ _ _ _ Hwt) as Hclk.
  destruct p as [key data del|key v|key v|key v|key v|key v|key r| | | | | |];
    try done; simpl in *; try (by destruct Hp).
  - pose proof (clock_step_issued (Node_Clock n) (EvSend now)) as Hi; simpl in Hi.
    pose proof (clock_step_epoch (Node_Clock n) (EvSend now)) as Hep; simpl in Hep.
    destruct (Clock_Send _ _) as [clk [t|e]]; intros [= <- <- <-].
    + destruct (Hi clk t Hclk Hnow eq_refl) as (Hwf' & _ & -> & _).
      specialize (Hep _ _ Hclk (nc_clock _ Hn) Hnow eq_refl).
      apply causal_same; try done; by apply clock_epoch.
    + apply causal_same; try done; by eapply Hep; [|apply Hn| |].
  - pose proof (nc_reads _ Hn) as Hr; unfold pending_deps in Hr.
    unfold take_deps in *; destruct (active_tracker n) as [rt|] eqn:Ht; simpl in *; intros [= <- <- <-].
    + apply causal_frame; try done; [|apply Hn]; by rewrite pending_deps_alt; unfold active_tracker; simpl; rewrite Hm.
    + apply causal_same; try done; [apply Hn..].
  - rewrite Hm; simpl; intros [= <- <- <-].
    destruct (forward_store key v (Node_Store n)) as (Hcl & Hnn & Hle); try done;
      [apply Hn|apply Hn|by apply Hfw|].
    split; simpl; [split; simpl|..]; try done; [apply Hn| |apply Hn].
    eapply depsSatisfied_mono; [exact Hle|done|rewrite (pending_frame n) by done; apply Hn].
  - pose proof (OnWrite_epoch (Node_Handler n) key v rs He) as Ho; simpl in Ho.
    destruct (_ : list outgoing * option string) as [rpcs1 [e|]]; intros [= <- <- <-];
      apply causal_same; try done; apply Hn.
  - intros [= <- <- <-]; apply causal_same; try done; apply Hn.
Qed.

Lemma micro_causal_other n p now rs n' rpcs p' :
  node_wt "causal" peers opts n -> pc_wt "causal" p -> reading_ok now = true ->
  node_causal n -> pc_epoch p -> pc_causal (Node_Store n) p ->
  match p with GStart _ | GRead _ _ | GDone _ | RStart _ | RClocked _ _ | RDone _ => True | _ => False end ->
  micro now rs n p = (n', rpcs, p') -> causal_micro n n' rpcs p'.
Proof.
  intros Hwt Hp [Hnow Hpos]%reading_ok_spec Hn He Hseen Hw.
  pose proof (nw_mode _ _ _ _ Hwt) as Hm; pose proof (nw_clock _ _ _ _ Hwt) as Hclk.
  destruct p as [| | | | | | |key|key v|r|req|req ts|r]; try done; simpl in *.
  - unfold Store_Get; destruct (Node_Store n !! key) as [v|] eqn:Hv.
    + destruct (Value_Deleted v); simpl; intros [= <- <- <-]; apply causal_same; try done; try apply Hn.
      * by eapply (nc_nonneg _ Hn).
      * simpl; unfold version, Store_GetVersion; rewrite Hv; by left.
    + intros [= <- <- <-]; apply causal_same; try done; apply Hn.
  - intros [= <- <- <-].
    pose proof (nc_reads _ Hn) as Hr; rewrite pending_deps_alt in Hr.
    destruct (active_tracker n) as [rt|] eqn:Ht; [apply causal_frame|apply causal_same]; try done; try apply Hn.
    rewrite pending_deps_alt; unfold active_tracker; simpl; rewrite Hm; simpl.
    rewrite depsSatisfied_spec in Hr |- *; apply Forall_app; split; [done|]; by constructor.
  - intros [= <- <- <-]; apply causal_same; try done; apply Hn.
  - destruct Hp as [(pts & Hpts & Hts) _]; rewrite Hpts in He |- *.
    set (e := EvReceive now (fromProtoTS pts)).
    pose proof (clock_step_epoch (Node_Clock n) e) as Hep; simpl in Hep.
    destruct (Clock_Receive _ _ _) as [clk [t|er]] eqn:Hr; intros [= <- <- <-];
      apply causal_same; try done; try apply Hn;
      (eapply Hep; [done|apply Hn|split; [done|by apply ts_issued_typed]|done]).
  - pose proof (nw_buffer _ _ _ _ Hwt) as Hb; unfold active_buffer; rewrite Hm; simpl.
    destruct (Node_Buffer n) as [b|] eqn:Hnb; [|done].
    destruct (Buffer_Receive _ _ _ _) as [[s b'] nw] eqn:Hr; intros [= <- <- <-].
    apply Buffer_Receive_spec in Hr as (ws & Hrun & Hperm & _).
    assert (Hheld : held n = Buffer_held b) by (unfold held, active_buffer; by rewrite Hm, Hnb).
    assert (Hall : Forall write_nonneg (ws ++ Buffer_held b')).
    { rewrite Hperm, <- Hheld; apply Forall_app; split; [apply (nc_held _ Hn)|].
      constructor; [exact He|constructor]. }
    apply Forall_app in Hall as [Hws Hb'].
    destruct (causal_run_closed _ _ _ Hrun (nc_closed _ Hn) (nc_nonneg _ Hn) Hws) as [Hcl Hnn].
    pose proof (causal_run_le _ _ _ Hrun) as Hle.
    split; simpl; try done; split; simpl; try done; try apply Hn.
    + unfold held, active_buffer; simpl; by rewrite Hm.
    + eapply depsSatisfied_mono; [exact Hle|done|rewrite (pending_frame n) by done; apply Hn].
  - intros [= <- <- <-]; apply causal_same; try done; apply Hn.
Qed.

End micro.

(** ** Steps and runs *)

Lemma micro_causal peers opts n p now rs n' rpcs p' :
  node_wt "causal" peers opts n -> pc_wt "causal" p -> reading_ok now = true ->
  node_causal n -> pc_epoch p -> pc_causal (Node_Store n) p ->
  (forall key v, p = WDeps key v -> ts_le (version (Node_Store n) key) (Value_Timestamp v)) ->
  micro now rs n p = (n', rpcs, p') -> causal_micro n n' rpcs p'.
Proof.
  intros; destruct p; first [by eapply micro_causal_write|by eapply micro_causal_other].
Qed.

Lemma micro_serving now rs (n n' : Node AnyHandler) p rpcs p' :
  micro now rs n p = (n', rpcs, p') -> serving p = true -> serving p' = true.
Proof.
  intros Hm Hp; destruct p as [| | | | | | | | | |req|req ts|]; try done; simpl in Hm; [| |by simplify_eq].
  - destruct (RR_Timestamp req); [|by simplify_eq]; destruct (Clock_Receive _ _ _) as [? [?|?]]; by simplify_eq.
  - destruct (active_buffer n); [destruct (Buffer_Receive _ _ _ _) as [[? ?] ?]; by simplify_eq|].
    destruct (if Nat.eqb _ 0 then _ else _); by simplify_eq.
Qed.

(** The stores only grow. *)
Definition stores_le (g g' : grid) : Prop :=
  forall i n', grid_nodes g' !! i = Some n' ->
    exists n, grid_nodes g !! i = Some n /\ store_le (Node_Store n) (Node_Store n').

Lemma stores_le_insert g i n n' ops :
  grid_nodes g !! i = Some n -> store_le (Node_Store n) (Node_Store n') ->
  stores_le g (MkGrid (<[i := n']> (grid_nodes g)) ops).
Proof.
  intros Hi Hle j x [[<- <-]|[_ Hx]]%insert_lookup_cases; [by exists n|].
  exists x; split; [done|apply store_le_same].
Qed.

Lemma stores_le_nodes g ops : stores_le g (MkGrid (grid_nodes g) ops).
Proof. intros j x Hx; exists x; split; [done|apply store_le_same]. Qed.

(** A step of a handler on node [i] for call [k], put back. *)
Lemma grid_causal_update opts N g g' k o o' :
  grid_causal opts N g -> grid_wt "causal" opts N g' -> stores_le g g' ->
  grid_ops g !! k = Some o -> grid_ops g' = <[k := o']> (grid_ops g) ->
  (forall i n, grid_nodes g' !! i = Some n -> node_causal n) ->
  pc_epoch (op_pc o') -> Forall call_epoch (op_calls o') ->
  (forall n', grid_nodes g' !! op_node o' = Some n' -> pc_causal (Node_Store n') (op_pc o')) ->
  grid_causal opts N g'.
Proof.
  intros [Hwt Hns Hep Hseen] Hwt' Hle Hk Hops Hns' Hp Hcs Hs; split; try done; rewrite Hops.
  - by apply Forall_insert.
  - intros l x n' [[<- <-]|[_ Hx]]%insert_lookup_cases Hn'; [by apply Hs|].
    destruct (Hle _ _ Hn') as (n & Hn & Hst).
    eapply pc_causal_mono; [exact Hst|by eapply nc_nonneg, Hns'|by eapply Hseen].
Qed.

Lemma step_causal opts N lb g g' :
  grid_causal opts N g -> causal_step lb g = true -> gstep_view g lb g' ->
  grid_causal opts N g' /\ stores_le g g'.
Proof.
  intros Hg [Hread Hfw]%andb_true_iff Hv; pose proof Hg as [Hwt Hns Hep Hseen].
  assert (Hty : glabel_typed lb).
  { unfold glabel_typed, reading_step in *; destruct (glabel_now lb); [|done].
    by apply reading_ok_spec in Hread as [? _]. }
  pose proof (gstep_wt _ _ _ _ _ _ Hwt Hty Hv) as Hwt'.
  pose proof (fun k o Ho => proj1 (Forall_lookup _ _) Hep k o Ho) as Hepo; simpl in Hepo.
  pose proof (fun k o Ho => proj1 (Forall_lookup _ _) (gw_ops _ _ _ _ Hwt) k o Ho) as Hwto; simpl in Hwto.
  destruct Hv as [i p n Hi Hp|k now o n n' rpcs p' Ho Hn Hr Hm|k j now o c n n' rpcs p' Ho Hc Hn Hm
    |k j o c r Ho Hc Hs Hr|k j e o c Ho Hc Hr].
  - split; [|apply stores_le_nodes]; split; try done; simpl.
    + apply Forall_app; split; [done|]; constructor; [|done]; split; [by destruct p|done].
    + intros k o n0 [Hk|[_ Hk]]%lookup_app_Some Hn0; [by eapply Hseen|].
      apply list_lookup_singleton_Some in Hk as [_ <-]; by destruct p.
  - destruct (Hepo _ _ Ho) as [He Hcs], (Hwto _ _ Ho) as [Hpw _].
    assert (Hcm : causal_micro n n' rpcs p').
    { eapply micro_causal; [exact (gw_nodes _ _ _ _ Hwt _ _ Hn)|done|exact Hread|by eapply Hns|done|by eapply Hseen| |done].
      intros key v Hpc; unfold g_forward in Hfw; rewrite Ho in Hfw; simpl in Hfw; rewrite Hn, Hpc in Hfw.
      by apply bool_decide_eq_true in Hfw. }
    assert (Hle : stores_le g (MkGrid (<[op_node o := n']> (grid_nodes g))
      (<[k := MkOp (op_node o) p' (op_calls o ++ map start_call rpcs)]> (grid_ops g))))
      by (eapply stores_le_insert; [done|apply Hcm]).
    split; [|done]; eapply (grid_causal_update opts N g _ k o); [done..| | | |]; simpl.
    + intros i x [[<- <-]|[_ Hx]]%insert_lookup_cases; [apply Hcm|by eapply Hns].
    + apply Hcm.
    + apply Forall_app; split; [done|]; apply Forall_map; eapply Forall_impl; [exact (cm_rpcs _ _ _ _ Hcm)|].
      by intros out Hout.
    + intros x [[_ <-]|[? _]]%insert_lookup_cases; [apply Hcm|done].
  - destruct (Hepo _ _ Ho) as [He Hcs], (Hwto _ _ Ho) as [_ Hcw].
    destruct (proj1 (Forall_lookup _ _) Hcs _ _ Hc) as [Hec Hsv].
    pose proof (proj1 (Forall_lookup _ _) Hcw _ _ Hc) as Hwc; simpl in Hwc.
    assert (Hcm : causal_micro n n' rpcs p').
    { eapply micro_causal; [exact (gw_nodes _ _ _ _ Hwt _ _ Hn)|done|exact Hread|by eapply Hns|done| | |done];
        by destruct (call_srv c). }
    assert (Hle : stores_le g (MkGrid (<[call_peer c := n']> (grid_nodes g))
      (with_call k o j (MkCall (call_peer c) p' (call_reply c)) (grid_ops g))))
      by (eapply stores_le_insert; [done|apply Hcm]).
    split; [|done]; eapply (grid_causal_update opts N g _ k o); [done..| | | |]; simpl.
    + intros i x [[<- <-]|[_ Hx]]%insert_lookup_cases; [apply Hcm|by eapply Hns].
    + done.
    + apply Forall_insert; [done|]; split; [apply Hcm|by eapply micro_serving].
    + intros x Hx; destruct (Hle _ _ Hx) as (n0 & Hn0 & Hst).
      eapply pc_causal_mono; [exact Hst| |by eapply Hseen].
      apply insert_lookup_cases in Hx as [[_ <-]|[_ Hx]]; [apply Hcm|by eapply nc_nonneg, Hns].
  - split; [|apply stores_le_nodes]; destruct (Hepo _ _ Ho) as [He Hcs].
    eapply (grid_causal_update opts N g _ k o); [done|exact Hwt'|apply stores_le_nodes|exact Ho|done|exact Hns|done| |].
    + apply Forall_insert; [done|]; by split.
    + intros x Hx; exact (Hseen _ _ _ Ho Hx).
  - split; [|apply stores_le_nodes]; destruct (Hepo _ _ Ho) as [He Hcs].
    eapply (grid_causal_update opts N g _ k o); [done|exact Hwt'|apply stores_le_nodes|exact Ho|done|exact Hns|done| |].
    + apply Forall_insert; [done|]; exact (proj1 (Forall_lookup _ _) Hcs _ _ Hc).
    + intros x Hx; exact (Hseen _ _ _ Ho Hx).
Qed.

Lemma init_grid_causal opts nows g :
  Forall (fun now => reading_ok now = true) nows -> init_grid "causal" opts nows = Some g ->
  grid_causal opts (length nows) g.
Proof.
  intros Hnows Hinit; split; [|..].
  - eapply init_grid_wt; [|exact Hinit]; eapply Forall_impl; [exact Hnows|].
    by intros now [? _]%reading_ok_spec.
  - unfold init_grid in Hinit; apply fmap_Some in Hinit as (c & Hc & ->).
    apply init_cluster_nodes in Hc as (_ & _ & Hns); intros i n Hi.
    destruct (Hns i n Hi) as (now & Hnow & Hst).
    pose proof (Forall_lookup_1 _ _ _ _ Hnows Hnow) as Hok; simpl in Hok.
    destruct (start_node_safe _ _ _ _ _ (or_intror eq_refl) Hok Hst) as (Hs & Hemp & Hheld & Hpend).
    split; rewrite ?Hemp, ?Hheld, ?Hpend; try done.
    unfold start_node in Hst; simpl in Hst; injection Hst as <-; simpl.
    by apply reading_ok_spec in Hok as [_ ?].
  - unfold init_grid in Hinit; by apply fmap_Some in Hinit as (c & _ & ->).
  - unfold init_grid in Hinit; apply fmap_Some in Hinit as (c & _ & ->); by intros k o n Hk.
Qed.

Lemma stores_le_refl g : stores_le g g.
Proof. intros j x Hx; exists x; split; [done|apply store_le_same]. Qed.

Lemma stores_le_trans g1 g2 g3 : stores_le g1 g2 -> stores_le g2 g3 -> stores_le g1 g3.
Proof.
  intros H12 H23 i n Hn; destruct (H23 _ _ Hn) as (n2 & Hn2 & Hle2).
  destruct (H12 _ _ Hn2) as (n1 & Hn1 & Hle1); exists n1; split; [done|by etrans].
Qed.

Lemma grun_causal opts N ls g g' :
  grid_causal opts N g -> grun_all causal_step ls g = true -> grun ls g = Some g' ->
  grid_causal opts N g' /\ stores_le g g'.
Proof.
  intros Hg Hok Hrun.
  apply (grun_all_ind causal_step (fun g' => grid_causal opts N g' /\ stores_le g g') ls g g'); try done.
  - split; [done|apply stores_le_refl].
  - intros lb g1 g2 [Hg1 Hle1] Hlb Hv; destruct (step_causal _ _ _ _ _ Hg1 Hlb Hv) as [? ?].
    split; [done|by eapply stores_le_trans].
Qed.

(** ** Properties *)

(** Causal safety with concurrent handlers: in a causal cluster, with the
    handlers of all nodes interleaved in any way and RPCs delayed, failing and
    served in any order, as long as no local write is stored over a later
    version of its key, every value in every store has its dependencies in the
    same store, at every point; and no version of a key ever goes back. *)
Theorem concurrent_causal_safety opts nows g0 ls1 g1 ls2 g2 i n2 :
  Forall (fun now => reading_ok now = true) nows -> init_grid "causal" opts nows = Some g0 ->
  grun_all causal_step ls1 g0 = true -> grun ls1 g0 = Some g1 ->
  grun_all causal_step ls2 g1 = true -> grun ls2 g1 = Some g2 ->
  grid_nodes g2 !! i = Some n2 ->
  causally_closed (Node_Store n2) /\
  exists n1, grid_nodes g1 !! i = Some n1 /\ store_le (Node_Store n1) (Node_Store n2).
Proof.
  intros Hnows Hinit Hok1 Hrun1 Hok2 Hrun2 Hn2.
  destruct (grun_causal _ _ _ _ _ (init_grid_causal _ _ _ Hnows Hinit) Hok1 Hrun1) as [Hg1 _].
  destruct (grun_causal _ _ _ _ _ Hg1 Hok2 Hrun2) as [Hg2 Hle].
  split; [by eapply nc_closed, gc_nodes|by apply Hle].
Qed.

(** Node 0 puts x, reads it and puts y; node 1 is in the middle of a put of x of
    its own while both reach it. *)
Definition c_put_read_put : list glabel :=
  [GBegin 0 (WStart "x" [x61] false)] ++ turns 0 4 300 ++
  [GBegin 0 (GStart "x")] ++ turns 1 2 0 ++
  [GBegin 0 (WStart "y" [x62] false)] ++ turns 2 4 310.
Definition c_deliver_both : list glabel :=
  [GServe 0 0 320; GServe 0 0 320; GServe 2 0 330; GServe 2 0 330].
Definition c_read_both : list glabel :=
  [GBegin 1 (GStart "y")] ++ turns 4 2 0 ++ [GBegin 1 (GStart "x")] ++ turns 5 2 0.

Definition c_chain_grid : grid := default (c_grid "causal") (grun c_put_read_put (c_grid "causal")).
Definition c_chain_put : list glabel := [GBegin 1 (WStart "z" [x63] false)] ++ turns 3 2 200 ++ c_deliver_both ++ turns 3 1 0.
Definition c_chain_done : grid := default (c_grid "causal") (grun c_chain_put c_chain_grid).

Lemma concurrent_causal_safety_witness :
  option_map (fun n => map (fun k => option_map WallTime (Value_Timestamp <$> Node_Store n !! k)) ["x"; "y"; "z"])
    (grid_nodes c_chain_done !! 1) = Some [Some 300%Z; Some 310%Z; Some 200%Z] /\
  forall n, grid_nodes c_chain_done !! 1 = Some n -> causally_closed (Node_Store n).
Proof.
  split; [vm_compute; reflexivity|]; intros n Hn.
  refine (proj1 (concurrent_causal_safety c_opts [100; 100; 100]%Z (c_grid "causal") c_put_read_put
    c_chain_grid c_chain_put c_chain_done 1 n c_nows_ok _ _ _ _ _ Hn)); vm_compute; reflexivity.
Defined.

(** C22: the condition is needed: two puts of one key at two nodes are enough to break
    causal consistency.  The put at node 1 has its timestamp when a later put of
    the same key, and a write that depends on that one, arrive and are applied;
    it is then stored over the later one.  The node shows the dependent write
    and, afterwards, a value older than the one it depends on. *)
Theorem overlapping_put_breaks_causality :
  exists ls g, grun_all glabel_timed ls (c_grid "causal") = true /\ grun ls (c_grid "causal") = Some g /\
    (exists n, grid_nodes g !! 1 = Some n /\ ~ causally_closed (Node_Store n)) /\
    drop 4 (map op_pc (grid_ops g)) =
      [GDone (Ok (MkGetResponse [x62] (Some (MkKvTS 310 0)) true));
       GDone (Ok (MkGetResponse [x63] (Some (MkKvTS 200 0)) true))] /\
    (val ← (n ← grid_nodes g !! 1; Node_Store n !! "y"); Some (Value_Deps val)) =
      Some [MkDependency "x" (MkTimestamp 300 0)].
Proof.
  set (ls := c_put_read_put ++ [GBegin 1 (WStart "x" [x63] false)] ++ turns 3 2 200 ++ c_deliver_both ++
             turns 3 1 0 ++ c_read_both).
  set (g := default (c_grid "causal") (grun ls (c_grid "causal"))).
  exists ls, g; split_and!; try (vm_compute; reflexivity).
  assert (Hn : exists n, grid_nodes g !! 1 = Some n /\
    (v ← Node_Store n !! "y"; Some (depsSatisfied (Node_Store n) (Value_Deps v))) = Some false)
    by (eexists; split; vm_compute; reflexivity).
  destruct Hn as (n & Hn & Hd); exists n; split; [done|]; intros Hcl.
  apply bind_Some in Hd as (v & Hv & Hd); specialize (Hcl _ _ Hv); congruence.
Qed.
