(* ===== verification/Converge.v ===== *)
(** * Convergence of a cluster

    The writes a run originates, and the proof that once every replication RPC
    has been delivered, in whatever order, all nodes hold the same store and no
    write is left in a buffer.  The invariant keeps, for each node, the list of
    writes it has applied. *)

From S2P Require Import Prelude Hlc Store Buffer Wire Replication Server Cluster.

(** ** Histories *)

Fixpoint history (ls : list label) (c : cluster) : list (nat * write) :=
  match ls with
  | [] => []
  | lb :: ls =>
      originated lb c ++ match step lb c with Some c' => history ls c' | None => [] end
  end.

(** A step that loses nothing and puts no empty value (which the wire format
    turns into a deletion). *)
Definition lossless (lb : label) (c : cluster) : bool :=
  match lb with
  | LDrop _ => false
  | LPut _ _ req => negb (Nat.eqb (length (PutReq_Value req)) 0)
  | LDeliver m now =>
      match net c !! m with
      | Some (i, req) =>
          match nodes c !! i with
          | Some n => is_ok (snd (Node_Replicate now req n))
          | None => false
          end
      | None => false
      end
  | _ => true
  end.

Fixpoint run_lossless (ls : list label) (c : cluster) : bool :=
  match ls with
  | [] => true
  | lb :: ls => lossless lb c &&
      match step lb c with Some c' => run_lossless ls c' | None => true end
  end.

(** The (key, timestamp) stamps of the writes of a history. *)
Definition stamp (w : write) : string * Timestamp := (write_key w, write_ts w).
Definition stamps (h : list (nat * write)) : list (string * Timestamp) :=
  map (fun p => stamp (snd p)) h.

Definition hist_writes (h : list (nat * write)) : list write := map snd h.

(** No two nodes gave one timestamp to writes of one key. *)
Definition ties_apart (h : list (nat * write)) : Prop :=
  Forall (fun p => Forall (fun q => p.1 = q.1 \/ stamp p.2 <> stamp q.2) h) h.

Definition request_of (w : write) : ReplicateRequest :=
  buildReplicateRequest (write_key w) (write_val w) (write_deps w).

(** ** The invariant *)

Definition dep_stamp (d : Dependency) : string * Timestamp :=
  (Dependency_Key d, Dependency_MinTS d).

(** None of the writes is the one a dependency names. *)
Definition absent (ws : list write) (d : Dependency) : Prop :=
  forall w, w ∈ ws -> stamp w <> dep_stamp d.

(** A write waits for one that is not among those applied. *)
Definition stuck (ws : list write) (y : write) : Prop := exists d, d ∈ write_deps y /\ absent ws d.

(** A dependency is that of a write of the history. *)
Definition named (h : list (nat * write)) (d : Dependency) : Prop :=
  exists w, w ∈ hist_writes h /\ stamp w = dep_stamp d.

(** The dependencies of every write are writes earlier in the history. *)
Definition hist_causal (h : list (nat * write)) : Prop :=
  forall pre p post, h = pre ++ p :: post -> forall d, d ∈ write_deps (snd p) -> named pre d.

(** A node after the history [h], having applied the writes [ws]. *)
Record conv_node (i : nat) (n : Node AnyHandler) (h : list (nat * write))
    (msgs : list (peer * ReplicateRequest)) (ws : list write) : Prop := {
  cv_store : Node_Store n = apply_writes ∅ ws;
  cv_from : forall w, w ∈ ws ++ held n -> w ∈ hist_writes h;
  cv_own : forall w, (i, w) ∈ h -> w ∈ ws;
  cv_other : forall o w, (o, w) ∈ h -> o <> i ->
    w ∈ ws ++ held n \/ (i, request_of w) ∈ msgs;
  cv_blocked : forall y, y ∈ held n -> stuck ws y;
  cv_pending : forall d, d ∈ pending_deps n -> named h d
}.

Record conv (c : cluster) (h : list (nat * write)) : Prop := {
  cv_nodes : forall i n, nodes c !! i = Some n -> exists ws, conv_node i n h (net c) ws;
  cv_net : forall i req, (i, req) ∈ net c -> exists w, w ∈ hist_writes h /\ req = request_of w;
  cv_faithful : Forall (fun w => wire_faithful (write_val w)) (hist_writes h);
  cv_causal : hist_causal h
}.

(** ** Lemmas *)

Lemma hist_writes_app h h' : hist_writes (h ++ h') = hist_writes h ++ hist_writes h'.
Proof. apply map_app. Qed.

Lemma elem_of_hist o w h : (o, w) ∈ h -> w ∈ hist_writes h.
Proof. unfold hist_writes; rewrite !list_elem_of_In, in_map_iff; by exists (o, w). Qed.

Lemma elem_of_hist_inv w h : w ∈ hist_writes h -> exists o, (o, w) ∈ h.
Proof.
  unfold hist_writes; rewrite list_elem_of_In, in_map_iff.
  intros ([o w'] & <- & H); exists o; by rewrite list_elem_of_In.
Qed.

Lemma stamp_elem w h : w ∈ hist_writes h -> stamp w ∈ stamps h.
Proof.
  intros [o Ho]%elem_of_hist_inv; unfold stamps; rewrite list_elem_of_In, in_map_iff.
  exists (o, w); split; [done|by rewrite <- list_elem_of_In].
Qed.

(** A stamp names one write of a history with distinct stamps. *)
Lemma stamps_fresh h o w w' :
  NoDup (stamps (h ++ [(o, w)])) -> w' ∈ hist_writes h -> stamp w' <> stamp w.
Proof.
  unfold stamps; rewrite map_app, NoDup_app; intros (_ & Hd & _) Hw' Heq.
  apply (Hd (stamp w')); [by apply stamp_elem|]; simpl; rewrite Heq; left.
Qed.

Lemma stamps_distinct h : NoDup (stamps h) -> ts_distinct (hist_writes h).
Proof.
  intros Hnd; unfold ts_distinct, hist_writes, stamps in *; apply Forall_forall; intros w Hw.
  apply Forall_forall; intros w' Hw' Heq; f_equal.
  apply list_elem_of_lookup in Hw as [i Hi], Hw' as [j Hj].
  assert (Hmap : map (fun p => stamp (snd p)) h = stamp <$> map snd h).
  { by rewrite <- list_fmap_compose. }
  rewrite Hmap in Hnd; enough (i = j) by congruence.
  eapply NoDup_lookup; [exact Hnd|rewrite list_lookup_fmap, Hi; done|].
  rewrite list_lookup_fmap, Hj; simpl; unfold stamp; by rewrite Heq.
Qed.

Lemma absent_nil d : absent [] d.
Proof. intros w Hw; by apply not_elem_of_nil in Hw. Qed.

Lemma absent_app ws ws' d : absent ws d -> absent ws' d -> absent (ws ++ ws') d.
Proof. intros H1 H2 w [Hw|Hw]%elem_of_app; auto. Qed.

(** A dependency unsatisfied by the applied writes is none of them. *)
Lemma unsatisfied_dep ws deps :
  depsSatisfied (apply_writes ∅ ws) deps = false -> exists d, d ∈ deps /\ absent ws d.
Proof.
  intros Hd; assert (Hn : ~ Forall (fun d => ts_le (Dependency_MinTS d)
    (version (apply_writes ∅ ws) (Dependency_Key d))) deps).
  { rewrite <- depsSatisfied_spec; congruence. }
  apply not_Forall_Exists, Exists_exists in Hn as (d & Hin & Hnot); [|apply _].
  exists d; split; [done|]; intros w Hw [= Hk Ht]; apply Hnot.
  unfold version, Store_GetVersion.
  destruct (apply_writes_version ws w Hw) as (v & Hv & Hle).
  rewrite <- Hk, Hv; simpl; by rewrite <- Ht.
Qed.

Lemma request_of_write w pts :
  wire_faithful (write_val w) -> RR_Timestamp (request_of w) = Some pts ->
  request_write (request_of w) pts = w.
Proof.
  intros Hf [= <-]; unfold request_write; rewrite fromProto_toReplicateTS.
  unfold request_of, write_deps; rewrite request_value_faithful by done; by destruct w.
Qed.

Lemma request_of_inj w w' :
  wire_faithful (write_val w) -> wire_faithful (write_val w') ->
  request_of w = request_of w' -> w = w'.
Proof.
  intros Hf Hf' Heq.
  pose proof (request_of_write w (toReplicateTS (write_ts w)) Hf eq_refl) as H1.
  assert (Ht : RR_Timestamp (request_of w') = Some (toReplicateTS (write_ts w)))
    by (by rewrite <- Heq).
  rewrite <- H1, Heq; by apply request_of_write.
Qed.

Lemma hist_faithful h w :
  Forall (fun w => wire_faithful (write_val w)) (hist_writes h) -> w ∈ hist_writes h ->
  wire_faithful (write_val w).
Proof. rewrite Forall_forall; auto. Qed.

(** The history after one more write whose dependencies are in it. *)
Lemma hist_causal_snoc h p :
  hist_causal h ->
  (forall d, d ∈ write_deps (snd p) -> named h d) ->
  hist_causal (h ++ [p]).
Proof.
  intros Hc Hp pre q post Heq d Hd.
  destruct post as [|x post _] using rev_ind.
  - apply app_inj_tail in Heq as [<- <-]; auto.
  - rewrite app_comm_cons, app_assoc in Heq; apply app_inj_tail in Heq as [-> _].
    by eapply Hc.
Qed.

(** ** One step *)

Lemma elem_of_delete {A} (l : list A) m x y :
  x ∈ l -> l !! m = Some y -> x <> y -> x ∈ delete m l.
Proof.
  intros [k Hk]%list_elem_of_lookup Hm Hne; apply list_elem_of_lookup.
  destruct (decide (k < m)).
  - exists k; by rewrite list_lookup_delete_lt.
  - exists (pred k); assert (k <> m) by congruence.
    rewrite list_lookup_delete_ge by lia; by replace (S (pred k)) with k by lia.
Qed.

Lemma conv_node_grow i n h h' msgs msgs' ws :
  conv_node i n h msgs ws ->
  (forall w, w ∈ hist_writes h -> w ∈ hist_writes h') ->
  (forall o w, (o, w) ∈ h' -> (o, w) ∈ h \/ (o <> i /\ (i, request_of w) ∈ msgs')) ->
  (forall req, (i, req) ∈ msgs -> (i, req) ∈ msgs') ->
  conv_node i n h' msgs' ws.
Proof.
  intros [Hst Hfrom Hown Hother Hblk Hpend] Hh Hnew Hm; split; auto.
  - intros w Hw; destruct (Hnew _ _ Hw) as [?|[? _]]; [auto|done].
  - intros o w Hw Ho; destruct (Hnew _ _ Hw) as [Hw'|[_ ?]]; [|by right].
    destruct (Hother _ _ Hw' Ho) as [?|?]; [by left|right; auto].
  - intros d Hd; destruct (Hpend d Hd) as (w & ? & ?); exists w; auto.
Qed.

(** The node that writes. *)
Lemma conv_node_write i n h msgs msgs' ws w n' rpcs opts peers :
  conv_node i n h msgs ws -> hist_causal h -> NoDup (stamps (h ++ [(i, w)])) ->
  local_write opts peers n w n' rpcs -> (forall req, (i, req) ∈ msgs -> (i, req) ∈ msgs') ->
  conv_node i n' (h ++ [(i, w)]) msgs' (ws ++ [w]).
Proof.
  intros [Hst Hfrom Hown Hother Hblk Hpend] Hcausal Hnd Hl Hm.
  assert (Hheld : held n' = held n) by (unfold held; by rewrite (lw_buffer _ _ _ _ _ _ Hl)).
  split; rewrite ?Hheld, ?hist_writes_app.
  - by rewrite (lw_store _ _ _ _ _ _ Hl), Hst, apply_writes_snoc.
  - intros w' Hw'; specialize (Hfrom w'); simpl; set_solver.
  - intros w' [Hw'|[= ->]]%elem_of_snoc; rewrite elem_of_snoc; auto.
  - intros o w' [Hw'|[= -> ->]]%elem_of_snoc Ho; [|done].
    destruct (Hother _ _ Hw' Ho) as [?|?]; [left; set_solver|right; auto].
  - intros y Hy; destruct (Hblk y Hy) as (d & Hd & Hno); exists d; split; [done|].
    intros w' [Hw'| ->]%elem_of_snoc; [auto|]. intros Heq.
    assert (Hyh : y ∈ hist_writes h) by (apply Hfrom; set_solver).
    apply elem_of_hist_inv in Hyh as [o Ho].
    apply list_elem_of_split in Ho as (pre & post & ->).
    destruct (Hcausal pre (o, y) post eq_refl d Hd) as (w0 & Hw0 & Hs0).
    eapply (stamps_fresh _ i w w0); [exact Hnd| |congruence].
    rewrite hist_writes_app; set_solver.
  - rewrite (lw_pending _ _ _ _ _ _ Hl); intros d Hd; by apply not_elem_of_nil in Hd.
Qed.

(** The node that receives. *)
Lemma conv_node_deliver i n h msgs m req pts w ws n' wsd :
  conv_node i n h msgs ws -> msgs !! m = Some (i, req) -> req = request_of w ->
  w ∈ hist_writes h -> Forall (fun w => wire_faithful (write_val w)) (hist_writes h) ->
  RR_Timestamp req = Some pts -> delivery n (request_write req pts) n' wsd ->
  conv_node i n' h (delete m msgs) (ws ++ wsd).
Proof.
  intros [Hst Hfrom Hown Hother Hblk Hpend] Hm -> Hw Hf Hpts Hd.
  rewrite request_of_write in Hd by (try done; by eapply hist_faithful).
  pose proof (dl_held _ _ _ _ Hd) as Hperm.
  assert (Hstore : Node_Store n' = apply_writes ∅ (ws ++ wsd)).
  { by rewrite (causal_run_apply _ _ _ (dl_run _ _ _ _ Hd)), Hst, apply_writes_app. }
  assert (Hin : forall w', w' ∈ (ws ++ wsd) ++ held n' <-> w' ∈ ws ++ held n \/ w' = w).
  { intros w'; rewrite <- app_assoc, elem_of_app, Hperm; set_solver. }
  split; [done| | | | |by rewrite (dl_pending _ _ _ _ Hd)].
  - intros w' [?| ->]%Hin; auto.
  - intros w' Hw'; specialize (Hown _ Hw'); set_solver.
  - intros o w' Hw' Ho; rewrite Hin; destruct (Hother _ _ Hw' Ho) as [?|Hmsg]; [auto|].
    destruct (decide ((i, request_of w') = (i, request_of w))) as [Hk|Hne].
    + left; right; assert (Heq : request_of w' = request_of w) by congruence.
      apply request_of_inj in Heq; [done|eapply hist_faithful; [done|]..]; [|done].
      by eapply elem_of_hist.
    + right; by eapply elem_of_delete.
  - destruct (dl_blocked _ _ _ _ Hd) as [Hb|(Hnil & Hs & Hh & Hun)].
    + intros y Hy; unfold blocked in Hb; rewrite Forall_forall in Hb.
      apply unsatisfied_dep; rewrite <- Hstore; auto.
    + subst wsd; rewrite Hh, app_nil_r; intros y [Hy| ->]%elem_of_snoc; [auto|].
      apply unsatisfied_dep; by rewrite <- Hst.
Qed.

(** The node that reads. *)
Lemma conv_node_read mode peers opts i n key h msgs ws :
  node_safe mode peers opts n -> conv_node i n h msgs ws ->
  conv_node i (fst (Node_Get (MkGetRequest key) n)) h msgs ws.
Proof.
  intros Hs [Hst Hfrom Hown Hother Hblk Hpend].
  destruct (Node_Get_safe _ _ _ key _ Hs) as (_ & Hst' & Hheld & _).
  destruct (Node_Get_deps key n) as (Hd & _).
  split; rewrite ?Hheld, ?Hst'; try done; rewrite Hd.
  intros d [Hin|Hin]%elem_of_app; [by apply Hpend|].
  destruct (active_tracker n); [|by apply not_elem_of_nil in Hin].
  unfold read_dep in Hin; destruct (Node_Store n !! key) as [v|] eqn:Hv;
    [destruct (Value_Deleted v)|]; try by apply not_elem_of_nil in Hin.
  apply list_elem_of_singleton in Hin as ->.
  pose proof (apply_writes_lookup ws key) as Hl; rewrite <- Hst, Hv in Hl.
  destruct Hl as (w & Hw & Hk & -> & _); exists w.
  split; [apply Hfrom; rewrite elem_of_app; by left|].
  unfold stamp, dep_stamp; simpl; by rewrite write_stored_ts, Hk.
Qed.

Lemma lossless_faithful lb c i w :
  label_write lb = Some (i, write_key w, Value_Data (write_val w), Value_Deleted (write_val w)) ->
  lossless lb c = true -> wire_faithful (write_val w).
Proof.
  unfold wire_faithful; destruct lb; simpl; intros [= -> _ <- <-]; [|done].
  by intros ->%negb_true_iff.
Qed.

Lemma conv_write mode opts N c h i n w n' rpcs :
  cluster_safe mode opts N c -> conv c h -> nodes c !! i = Some n ->
  local_write opts (other_peers N i) n w n' rpcs -> wire_faithful (write_val w) ->
  NoDup (stamps (h ++ [(i, w)])) ->
  conv (MkCluster (<[i := n']> (nodes c)) (net c ++ messages rpcs)) (h ++ [(i, w)]).
Proof.
  intros Hs [Hn Hnet Hf Hc] Hi Hl Hfw Hnd.
  destruct (local_write_msgs _ _ _ _ _ _ _ (cs_nodes _ _ _ _ Hs _ _ Hi) Hl) as [Hmsg _].
  assert (Hdeps : forall d, d ∈ write_deps w -> named h d).
  { rewrite (lw_deps _ _ _ _ _ _ Hl); destruct (Hn _ _ Hi) as [ws Hws]; apply Hws. }
  split; simpl.
  - intros j m [[<- <-]|[Hne Hj]]%insert_lookup_cases.
    + destruct (Hn _ _ Hi) as [ws Hws]; exists (ws ++ [w]).
      eapply conv_node_write; try done. intros req Hr; rewrite elem_of_app; by left.
    + destruct (Hn _ _ Hj) as [ws Hws]; exists ws; eapply conv_node_grow; try done.
      * intros w' Hw'; rewrite hist_writes_app, elem_of_app; by left.
      * intros o w' [Hw'|[= -> ->]]%elem_of_snoc; [by left|right]. split; [done|].
        rewrite elem_of_app, Hmsg; right. rewrite list_elem_of_In, in_map_iff.
        exists j; split; [done|]. rewrite <- list_elem_of_In, other_peers_spec.
        rewrite <- (cs_length _ _ _ _ Hs); split; [by eapply lookup_lt_Some|done].
      * intros req Hr; rewrite elem_of_app; by left.
  - intros j req [Hr|Hr]%elem_of_app; rewrite hist_writes_app.
    + destruct (Hnet _ _ Hr) as (w' & Hw' & ->); exists w'; rewrite elem_of_app; auto.
    + rewrite Hmsg, list_elem_of_In, in_map_iff in Hr; destruct Hr as (p & [= _ <-] & _).
      exists w; rewrite elem_of_app; split; [right; left|done].
  - rewrite hist_writes_app; apply Forall_app; split; [done|by repeat constructor].
  - by apply hist_causal_snoc.
Qed.

Lemma conv_deliver mode c h m i req pts n n' wsd :
  conv c h -> net c !! m = Some (i, req) -> msg_ok mode req pts -> nodes c !! i = Some n ->
  delivery n (request_write req pts) n' wsd ->
  conv (MkCluster (<[i := n']> (nodes c)) (delete m (net c))) h.
Proof.
  intros [Hn Hnet Hf Hc] Hm Hmok Hi Hd.
  destruct (Hnet i req) as (w & Hw & ->); [by eapply list_elem_of_lookup_2|].
  split; simpl; try done.
  - intros j k [[<- <-]|[Hne Hj]]%insert_lookup_cases.
    + destruct (Hn _ _ Hi) as [ws Hws]; exists (ws ++ wsd).
      by eapply conv_node_deliver; [| | | | |apply Hmok|].
    + destruct (Hn _ _ Hj) as [ws Hws]; exists ws; eapply conv_node_grow; try done; [by left|].
      intros req Hr; eapply elem_of_delete; [done..|congruence].
  - intros j req Hr; apply (Hnet j); by eapply list_elem_of_delete_inv.
Qed.

Lemma conv_step mode opts N c lb c' h :
  cluster_safe mode opts N c -> conv c h -> lossless lb c = true ->
  effect mode opts N lb c c' (originated lb c) -> NoDup (stamps (h ++ originated lb c)) ->
  conv c' (h ++ originated lb c).
Proof.
  intros Hs Hconv Hless He.
  destruct He as [i n w n' rpcs Hlb Hi Hl -> ->|i n key Hi -> ->| -> ->
    |m now i req pts n n' ws -> Hm Hmok Hi Hd -> ->|m -> Hlost ->]; rewrite ?app_nil_r; intros Hnd.
  - eapply conv_write; try done; by eapply lossless_faithful.
  - destruct Hconv as [Hn Hnet Hf Hc]; split; simpl; try done.
    intros j k [[<- <-]|[_ Hj]]%insert_lookup_cases; [|by apply Hn].
    destruct (Hn _ _ Hi) as [ws Hws]; exists ws.
    eapply conv_node_read; [by eapply (cs_nodes _ _ _ _ Hs)|done].
  - done.
  - by eapply conv_deliver.
  - destruct Hlost as [->|(now & i & req & n & -> & Hm & Hi & Herr)]; [done|].
    simpl in Hless; rewrite Hm, Hi in Hless; congruence.
Qed.

Lemma conv_init mode opts nows c :
  async mode -> Forall (fun now => reading_ok now = true) nows ->
  init_cluster mode opts nows = Some c -> conv c [].
Proof.
  intros Ha Hnows Hc; apply init_cluster_nodes in Hc as (Hnet & _ & Hn).
  split; [|rewrite Hnet|constructor|intros [|? ?] ? ? [=]].
  - intros i n Hi; exists []; destruct (Hn _ _ Hi) as (now & Hnow & Hst).
    apply start_node_safe in Hst as (_ & Hs & Hh & Hp); [|done|by eapply Forall_lookup_1 in Hnows].
    split; rewrite ?Hs, ?Hh, ?Hp; try done; simpl; intros *;
      repeat (intros Hx; try by apply not_elem_of_nil in Hx).
  - intros i req Hr; by apply not_elem_of_nil in Hr.
Qed.

Lemma conv_run mode opts N ls c c' h :
  cluster_safe mode opts N c -> run_ok ls c = true -> run_lossless ls c = true ->
  run ls c = Some c' -> conv c h -> NoDup (stamps (h ++ history ls c)) ->
  conv c' (h ++ history ls c).
Proof.
  revert c h; induction ls as [|lb ls IH]; intros c h Hs Hok Hless Hrun Hconv; simpl in *.
  - simplify_eq; by rewrite app_nil_r.
  - apply bind_Some in Hrun as (c1 & Hlb & Hrun); rewrite Hlb in *.
    apply andb_true_iff in Hok as [Hok1 Hok], Hless as [Hless1 Hless].
    destruct (step_effect _ _ _ _ _ _ Hs Hok1 Hlb) as [Hs1 He].
    rewrite app_assoc; intros Hnd; apply IH; try done.
    eapply conv_step; try done.
    unfold stamps in Hnd; rewrite map_app in Hnd; by apply NoDup_app in Hnd as [? _].
Qed.

(** ** Timestamps of a run *)

Definition stamped_by (p : nat * write) : nat * Timestamp := (p.1, write_ts p.2).

(** Timestamps given by nodes: they differ, and their node's clock is not behind them. *)
Record stamped (l : list (nat * Timestamp)) (ns : list (Node AnyHandler)) : Prop := {
  sp_once : NoDup l;
  sp_ahead : forall i ts, (i, ts) ∈ l ->
    exists n, ns !! i = Some n /\ ts_le ts (Clock_Now (Node_Clock n))
}.

(** Clocks do not go back. *)
Definition clocks_grow (ns ns' : list (Node AnyHandler)) : Prop :=
  forall i n, ns !! i = Some n -> exists n', ns' !! i = Some n' /\
    ts_le (Clock_Now (Node_Clock n)) (Clock_Now (Node_Clock n')).

Lemma clocks_grow_refl ns : clocks_grow ns ns.
Proof. intros i n Hn; exists n; split; [done|by left]. Qed.

Lemma clocks_grow_insert ns i n n' :
  ns !! i = Some n -> ts_le (Clock_Now (Node_Clock n)) (Clock_Now (Node_Clock n')) ->
  clocks_grow ns (<[i := n']> ns).
Proof.
  intros Hn Hle j x Hx; destruct (decide (i = j)) as [->|Hne].
  - exists n'; rewrite list_lookup_insert_eq by (by eapply lookup_lt_Some); simplify_eq; by split.
  - exists x; rewrite list_lookup_insert_ne by done; split; [done|by left].
Qed.

Lemma stamped_same l l' ns ns' : stamped l ns -> clocks_grow ns ns' -> l' ≡ₚ l -> stamped l' ns'.
Proof.
  intros [Hnd Hah] Hg Hp; split; [by rewrite Hp|].
  intros i ts Hin; rewrite Hp in Hin; destruct (Hah i ts Hin) as (n & Hn & Hle).
  destruct (Hg i n Hn) as (n' & Hn' & Hle'); exists n'; split; [done|by etrans].
Qed.

Lemma stamped_new l l' ns ns' i n n' ts :
  stamped l ns -> clocks_grow ns ns' -> ns !! i = Some n -> ts_lt (Clock_Now (Node_Clock n)) ts ->
  ns' !! i = Some n' -> ts_le ts (Clock_Now (Node_Clock n')) -> l' ≡ₚ (i, ts) :: l -> stamped l' ns'.
Proof.
  intros [Hnd Hah] Hg Hn Hlt Hn' Hle Hp; split.
  - rewrite Hp; constructor; [|done]; intros Hin; destruct (Hah i ts Hin) as (x & Hx & Hxle); simplify_eq.
    apply (ts_lt_irrefl ts); by eapply ts_le_lt_trans.
  - intros j tj Hin; rewrite Hp in Hin; apply elem_of_cons in Hin as [Heq|Hin].
    + injection Heq as <- <-; by exists n'.
    + destruct (Hah j tj Hin) as (x & Hx & Hxle).
      destruct (Hg j x Hx) as (x' & Hx' & Hle'); exists x'; split; [done|by etrans].
Qed.

(** One node's timestamps differ, so ties are between nodes. *)
Lemma stamps_NoDup h : NoDup (map stamped_by h) -> ties_apart h -> NoDup (stamps h).
Proof.
  unfold ties_apart; intros Hnd Hap.
  assert (Hsub : forall l, l ⊆ h -> NoDup (map stamped_by l) -> NoDup (stamps l)); [|by apply Hsub].
  induction l as [|[i w] l IH]; intros Hl Hndl; simpl; [constructor|].
  simpl in Hndl; apply NoDup_cons in Hndl as [Hnot Hndl]; constructor.
  - intros Hin; unfold stamps in Hin; apply list_elem_of_In, in_map_iff in Hin as ([j x] & Heq & Hx); simpl in Heq.
    apply list_elem_of_In in Hx; rewrite Forall_forall in Hap.
    pose proof (Hap (i, w) (Hl _ (list_elem_of_here _ _))) as Hw; rewrite Forall_forall in Hw.
    destruct (Hw (j, x) (Hl _ (list_elem_of_further _ _ _ Hx))) as [Hij|Hne]; simpl in *; [subst j|done].
    apply Hnot; unfold stamped_by at 1; simpl; unfold stamp in Heq; injection Heq as _ Hts.
    apply list_elem_of_In, in_map_iff; exists (i, x); split; [by unfold stamped_by; simpl; rewrite Hts|by apply list_elem_of_In].
  - apply IH; [|done]; intros y Hy; apply Hl; by right.
Qed.

Lemma effect_stamped mode opts N lb c c' h new :
  cluster_safe mode opts N c -> effect mode opts N lb c c' new -> stamped (map stamped_by h) (nodes c) ->
  stamped (map stamped_by (h ++ new)) (nodes c').
Proof.
  intros Hs [i n w n' rpcs _ Hi Hl -> ->|i n key Hi -> ->| -> ->
    |m now i req pts n n' ws -> _ _ Hi Hd -> ->|m -> _ ->] Hst; rewrite ?app_nil_r; simpl; try done.
  - eapply (stamped_new _ _ _ _ i n n' (write_ts w)); [done| |done|apply Hl| |left; apply Hl|].
    + apply clocks_grow_insert with n; [done|]; rewrite <- (lw_clock _ _ _ _ _ _ Hl); right; apply Hl.
    + apply list_lookup_insert_eq; by eapply lookup_lt_Some.
    + rewrite map_app; simpl; by rewrite Permutation_app_comm.
  - eapply stamped_same; [done| |done]; apply clocks_grow_insert with n; [done|].
    left; symmetry; f_equal; apply Node_Get_frame.
  - eapply stamped_same; [done| |done]; apply clocks_grow_insert with n; [done|apply Hd].
Qed.

Lemma run_stamped mode opts N ls c c' h :
  cluster_safe mode opts N c -> run_ok ls c = true -> run ls c = Some c' ->
  stamped (map stamped_by h) (nodes c) -> stamped (map stamped_by (h ++ history ls c)) (nodes c').
Proof.
  revert c h; induction ls as [|lb ls IH]; intros c h Hs Hok Hrun Hst; simpl in *.
  - simplify_eq; by rewrite app_nil_r.
  - apply bind_Some in Hrun as (c1 & Hlb & Hrun); rewrite Hlb in *; apply andb_true_iff in Hok as [Hok1 Hok].
    destruct (step_effect _ _ _ _ _ _ Hs Hok1 Hlb) as [Hs1 He].
    rewrite app_assoc; apply IH; [done..|]; exact (effect_stamped _ _ _ _ _ _ _ _ Hs He Hst).
Qed.

Lemma history_distinct mode opts nows c0 ls c :
  async mode -> Forall (fun now => reading_ok now = true) nows ->
  init_cluster mode opts nows = Some c0 -> run_ok ls c0 = true -> run ls c0 = Some c ->
  ties_apart (history ls c0) -> NoDup (stamps (history ls c0)).
Proof.
  intros Ha Hnows Hinit Hok Hrun; apply stamps_NoDup.
  apply (run_stamped _ _ _ _ _ _ [] (init_cluster_safe _ _ _ _ Ha Hnows Hinit) Hok Hrun).
  split; [constructor|by intros i ts Hin%elem_of_nil].
Qed.

(** ** Quiescence *)

(** With nothing in flight a node has applied every write of the history: the
    earliest one it still held would have its dependencies among the applied. *)
Lemma quiet_applied i n h ws pre post :
  conv_node i n h [] ws -> hist_causal h -> h = pre ++ post ->
  forall w, w ∈ hist_writes pre -> w ∈ ws.
Proof.
  intros [_ _ Hown Hother Hblk _] Hc; revert post.
  induction pre as [|[o w] pre IH] using rev_ind; intros post Hh w' Hw'.
  { by apply not_elem_of_nil in Hw'. }
  rewrite <- app_assoc in Hh; simpl in Hh.
  rewrite hist_writes_app in Hw'; apply elem_of_snoc in Hw' as [Hw'| ->]; [by eapply IH|].
  assert (Hin : (o, w) ∈ h) by (rewrite Hh, elem_of_app, elem_of_cons; auto).
  destruct (decide (o = i)) as [->|Hne]; [by apply Hown|].
  destruct (Hother _ _ Hin Hne) as [Hw'|Hm]; [|by apply not_elem_of_nil in Hm].
  apply elem_of_app in Hw' as [?|Hheld]; [done|exfalso].
  destruct (Hblk _ Hheld) as (d & Hd & Hno).
  destruct (Hc _ _ _ Hh d Hd) as (w0 & Hw0 & Hs0); by eapply Hno; [eapply IH|].
Qed.

Lemma quiet_node i n h ws :
  conv_node i n h [] ws -> hist_causal h -> NoDup (stamps h) ->
  held n = [] /\ Node_Store n = apply_writes ∅ (hist_writes h).
Proof.
  intros Hn Hc Hnd.
  assert (Hall : forall w, w ∈ hist_writes h -> w ∈ ws)
    by (apply (quiet_applied i n h ws h [] Hn Hc); by rewrite app_nil_r).
  destruct Hn as [Hst Hfrom _ _ Hblk _]; split.
  - destruct (held n) as [|y l] eqn:Hheld; [done|exfalso].
    destruct (Hblk y ltac:(left)) as (d & Hd & Hno).
    assert (Hy : y ∈ hist_writes h) by (apply Hfrom; rewrite elem_of_app; right; left).
    apply elem_of_hist_inv in Hy as [o (pre & post & Heq)%list_elem_of_split].
    destruct (Hc _ _ _ Heq d Hd) as (w0 & Hw0 & Hs0); apply (Hno w0); [|done].
    apply Hall; rewrite Heq, hist_writes_app, elem_of_app; by left.
  - rewrite Hst; symmetry; apply apply_writes_set_eq; [|by apply stamps_distinct].
    intros w; split; [apply Hall|]; intros Hw; apply Hfrom; rewrite elem_of_app; by left.
Qed.

Lemma run_quiet mode opts nows c0 ls c :
  async mode -> Forall (fun now => reading_ok now = true) nows ->
  init_cluster mode opts nows = Some c0 -> run_ok ls c0 = true -> run ls c0 = Some c ->
  run_lossless ls c0 = true -> ties_apart (history ls c0) -> net c = [] ->
  Forall (fun n => held n = [] /\
    Node_Store n = apply_writes ∅ (hist_writes (history ls c0))) (nodes c).
Proof.
  intros Ha Hnows Hinit Hok Hrun Hless Hap Hnet.
  pose proof (history_distinct _ _ _ _ _ _ Ha Hnows Hinit Hok Hrun Hap) as Hnd.
  pose proof (init_cluster_safe _ _ _ _ Ha Hnows Hinit) as Hs.
  pose proof (conv_run _ _ _ _ _ _ [] Hs Hok Hless Hrun (conv_init _ _ _ _ Ha Hnows Hinit) Hnd)
    as [Hn _ _ Hc]; simpl in *; rewrite Hnet in Hn.
  apply Forall_lookup; intros i n Hi; destruct (Hn _ _ Hi) as [ws Hws].
  by eapply quiet_node.
Qed.

(** ** Properties *)

(** Eventual convergence: in a cluster started in causal or eventual mode,
    whatever the interleaving of client calls and the order of deliveries, once
    every replication RPC of a lossless run has been delivered no node holds a
    write back, and every node's store is the last-writer-wins fold of all the
    writes the clients made (so all stores are equal), provided no two nodes
    gave one timestamp to writes of one key, no delivery hit the tie defect of the
    clock, and no empty value was put. *)
Theorem cluster_converges mode opts nows c0 ls c :
  async mode -> Forall (fun now => reading_ok now = true) nows ->
  init_cluster mode opts nows = Some c0 -> run_ok ls c0 = true -> run ls c0 = Some c ->
  run_lossless ls c0 = true -> ties_apart (history ls c0) -> net c = [] ->
  Forall (fun n => held n = [] /\
    Node_Store n = apply_writes store_New (hist_writes (history ls c0))) (nodes c).
Proof. apply run_quiet. Qed.

Definition c_all_labels : list label := c_labels ++ [LDeliver 0 330].
Definition c_quiet : cluster := default c_cluster (run c_all_labels c_cluster).

Lemma cluster_converges_witness :
  map write_key (hist_writes (history c_all_labels c_cluster)) = ["x"; "y"] /\
  Forall (fun n => held n = [] /\
    Node_Store n = apply_writes store_New (hist_writes (history c_all_labels c_cluster)))
    (nodes c_quiet).
Proof.
  split; [vm_compute; reflexivity|].
  apply (cluster_converges "causal" c_opts [100; 100; 100]%Z c_cluster c_all_labels c_quiet);
    [by right|exact c_nows_ok|by apply isSome_default|vm_compute; reflexivity
    |by apply isSome_default; vm_compute|vm_compute; reflexivity|
    |vm_compute; reflexivity].
  apply (bool_decide_unpack _); vm_compute; exact I.
Defined.
