(* ===== verification/Delivery.v ===== *)
(** * Receiving while others write to the store ([src/internal/buffer/buffer.go])

    [Buffer.Receive] holds the buffer's mutex from start to end but the store's
    only for one access at a time, so local puts come between its accesses.
    Here its methods are programs over the accesses to the store; run alone they
    are the functions of [Buffer.v], and run with interference that lets stores
    grow they still deliver causally and lose nothing. *)

From S2P Require Import Prelude Hlc Store Buffer Wire Replication Server Cluster Interleave Grid Strong Causal Converge.

(** ** Programs over the store *)

Inductive prog (A : Type) :=
| PRet (a : A)
| PVersion (key : string) (k : Timestamp * bool -> prog A)   (* [store.GetVersion] *)
| PApply (key : string) (val : Value) (k : prog A).          (* [store.Apply] or [ApplyDelete] *)
Arguments PRet {A}.
Arguments PVersion {A}.
Arguments PApply {A}.

#[export] Instance prog_ret : MRet prog := @PRet.

#[export] Instance prog_bind : MBind prog := fun A B f =>
  fix bind p :=
  match p with
  | PRet a => f a
  | PVersion key k => PVersion key (fun r => bind (k r))
  | PApply key val k => PApply key val (bind k)
  end.

(** A program that nothing interferes with. *)
Fixpoint uninterrupted {A} (p : prog A) (st : Store) : Store * A :=
  match p with
  | PRet a => (st, a)
  | PVersion key k => uninterrupted (k (Store_GetVersion key st)) st
  | PApply key val k => uninterrupted k (applyLocked key val st)
  end.

(** Before each of its accesses, and at its end, the store may change as [R] says. *)
Inductive interrupted (R : Store -> Store -> Prop) {A : Type} : prog A -> Store -> Store -> A -> Prop :=
| int_ret a st st' : R st st' -> interrupted R (PRet a) st st' a
| int_version key k st st1 st' a :
    R st st1 -> interrupted R (k (Store_GetVersion key st1)) st1 st' a ->
    interrupted R (PVersion key k) st st' a
| int_apply key val k st st1 st' a :
    R st st1 -> interrupted R k (applyLocked key val st1) st' a ->
    interrupted R (PApply key val k) st st' a.

(** ** The methods of the buffer *)

Fixpoint deps_prog (deps : list Dependency) : prog bool :=
  match deps with
  | [] => mret true
  | dep :: deps =>
      '(ts, ok) ← PVersion (Dependency_Key dep) PRet;
      let ts := if negb ok then zeroTimestamp else ts in
      if negb (AfterOrEqual ts (Dependency_MinTS dep)) then mret false
      else deps_prog deps
  end.

Definition apply_prog (key : string) (val : Value) : prog unit := PApply key val (PRet tt).

(** The local variables of one sweep (see [pass]). *)
Record sweep_vars := MkSweep { sv_arr : list write; sv_len : nat; sv_progressed : bool }.

Definition body_prog (sv : sweep_vars) (i : nat) : prog sweep_vars :=
  match sv_arr sv !! i with
  | None => mret sv
  | Some p =>
      ok ← deps_prog (write_deps p);
      if (ok : bool) then
        apply_prog (write_key p) (write_val p);;
        mret (MkSweep (sv_arr sv) (sv_len sv) true)
      else mret (MkSweep (<[sv_len sv := p]> (sv_arr sv)) (S (sv_len sv)) (sv_progressed sv))
  end.

Fixpoint sweep_prog (sv : sweep_vars) (js : list nat) : prog sweep_vars :=
  match js with
  | [] => mret sv
  | i :: js => sv ← body_prog sv i; sweep_prog sv js
  end.

Fixpoint drain_prog (fuel : nat) (held : list write) : prog (option (list write)) :=
  match fuel with
  | O => mret None
  | S fuel =>
      sv ← sweep_prog (MkSweep held 0 false) (seq 0 (length held));
      let remaining := take (sv_len sv) (sv_arr sv) in
      if sv_progressed sv then drain_prog fuel remaining else mret (Some remaining)
  end.

(** [None] when one sweep more than there are held writes was not enough. *)
Definition receive_prog (key : string) (val : Value) (b : Buffer) : prog (option (Buffer * bool)) :=
  ok ← deps_prog (Value_Deps val);
  if (ok : bool) then
    apply_prog key val;;
    held ← drain_prog (S (length (Buffer_held b))) (Buffer_held b);
    mret ((fun h => (MkBuffer h, true)) <$> (held : option (list write)))
  else mret (Some (MkBuffer (Buffer_held b ++ [MkWrite key val]), false)).

(** ** All accesses of a program

    What every write of a program satisfies, and its result, whatever the versions
    it reads. *)

Fixpoint applies {A} (P : string -> Value -> Prop) (Q : A -> Prop) (p : prog A) : Prop :=
  match p with
  | PRet a => Q a
  | PVersion _ k => forall r, applies P Q (k r)
  | PApply key v k => P key v /\ applies P Q k
  end.

Lemma applies_bind {A B} P (Q : A -> Prop) (R : B -> Prop) (p : prog A) (k : A -> prog B) :
  applies P Q p -> (forall a, Q a -> applies P R (k a)) -> applies P R (a ← p; k a).
Proof.
  intros Hp Hk; induction p as [a|key k' IH|key v p IH]; simpl in *; [by apply Hk| |].
  - intros r; by apply IH.
  - destruct Hp; split; [done|by apply IH].
Qed.

Lemma applies_mono {A} (P P' : string -> Value -> Prop) (Q Q' : A -> Prop) p :
  (forall key v, P key v -> P' key v) -> (forall a, Q a -> Q' a) -> applies P Q p -> applies P' Q' p.
Proof. intros HP HQ; induction p as [a|key k IH|key v p IH]; simpl; [auto|auto|intros []; auto]. Qed.

Lemma applies_uninterrupted {A} P (Q : A -> Prop) p st : applies P Q p -> Q (snd (uninterrupted p st)).
Proof. revert st; induction p as [a|key k IH|key v p IH]; simpl; intros st; [done|auto|intros []; auto]. Qed.

Lemma applies_deps P deps : applies P (fun _ => True) (deps_prog deps).
Proof.
  induction deps as [|d deps IH]; simpl; [done|]; intros [ts ok]; simpl; by destruct (negb (AfterOrEqual _ _)).
Qed.

Definition held_all (P : string -> Value -> Prop) (l : list write) : Prop :=
  Forall (fun w => P (write_key w) (write_val w)) l.

(** After [m] of the held writes; a sweep that applied one has removed it. *)
Definition swept (P : string -> Value -> Prop) (m : nat) (sv : sweep_vars) : Prop :=
  held_all P (sv_arr sv) /\ sv_len sv <= m /\ (sv_progressed sv = true -> sv_len sv < m).

Lemma applies_sweep P sv js m :
  swept P m sv -> applies P (swept P (m + length js)) (sweep_prog sv js).
Proof.
  revert sv m; induction js as [|i js IH]; intros sv m Hsv; simpl; [by rewrite Nat.add_0_r|].
  rewrite <- Nat.add_succ_comm; eapply (applies_bind P (swept P (S m))); [|intros; by apply IH].
  destruct Hsv as (Hall & Hle & Hlt); unfold body_prog.
  destruct (sv_arr sv !! i) as [w|] eqn:Hw; [|simpl; split_and!; [done|lia|intros; lia]].
  pose proof (proj1 (Forall_lookup _ _) Hall _ _ Hw) as Hpw.
  eapply applies_bind; [apply applies_deps|]; intros [] _; simpl; unfold swept; simpl.
  - split_and!; [done..|lia|intros; lia].
  - split_and!; [by apply Forall_insert|lia|]; intros Hp; specialize (Hlt Hp); lia.
Qed.

(** The fuel is enough. *)
Lemma applies_drain P fuel l :
  held_all P l -> length l < fuel -> applies P (fun r => exists l', r = Some l' /\ held_all P l') (drain_prog fuel l).
Proof.
  revert l; induction fuel as [|fuel IH]; intros l Hl Hf; simpl; [lia|].
  eapply applies_bind; [apply (applies_sweep P _ _ 0); by split_and!|].
  intros sv (Hall & _ & Hlt); rewrite length_seq in Hlt; simpl in Hlt.
  pose proof (Forall_take _ (sv_len sv) _ Hall) as Ht; simpl.
  destruct (sv_progressed sv); [|by eexists]; specialize (Hlt eq_refl).
  apply IH; [done|]; rewrite length_take; lia.
Qed.

Definition returned (P : string -> Value -> Prop) (r : option (Buffer * bool)) : Prop :=
  exists b now, r = Some (b, now) /\ held_all P (Buffer_held b).

Lemma applies_receive (P : string -> Value -> Prop) key v b :
  P key v -> held_all P (Buffer_held b) -> applies P (returned P) (receive_prog key v b).
Proof.
  intros Hv Hb; unfold receive_prog; eapply applies_bind; [apply applies_deps|]; intros [] _.
  - eapply (applies_bind P (fun _ => True)); [by split|]; intros _ _.
    eapply applies_bind; [apply applies_drain; [done|lia]|]; intros r (l & -> & Hl).
    by exists (MkBuffer l), true.
  - do 2 eexists; split; [done|]; apply Forall_app; split; [done|by repeat constructor].
Qed.

(** ** Alone *)

Lemma uninterrupted_bind {A B} (p : prog A) (k : A -> prog B) st :
  uninterrupted (a ← p; k a) st = let '(st', a) := uninterrupted p st in uninterrupted (k a) st'.
Proof. revert st; induction p as [a|key k' IH|key val p IH]; intros st; simpl; [done|apply IH|apply IH]. Qed.

Lemma deps_alone deps st : uninterrupted (deps_prog deps) st = (st, depsSatisfied st deps).
Proof.
  induction deps as [|d deps IH]; cbn [deps_prog]; [done|]; rewrite uninterrupted_bind; simpl.
  destruct (Store_GetVersion _ st) as [ts ok]; by destruct (negb (AfterOrEqual _ _)).
Qed.

Definition vars_of (ps : pass) : sweep_vars := MkSweep (pass_arr ps) (pass_len ps) (pass_progressed ps).

Lemma sweep_alone js ps :
  uninterrupted (sweep_prog (vars_of ps) js) (pass_store ps) =
    (pass_store (foldl drain_body ps js), vars_of (foldl drain_body ps js)).
Proof.
  revert ps; induction js as [|i js IH]; intros ps; [done|]; cbn [sweep_prog foldl].
  rewrite uninterrupted_bind, <- IH; unfold body_prog, drain_body; simpl.
  destruct (pass_arr ps !! i) as [p|]; [|done].
  rewrite uninterrupted_bind, deps_alone; by destruct (depsSatisfied _ _).
Qed.

Lemma drain_alone fuel st held :
  uninterrupted (drain_prog fuel held) st =
    match drain_loop fuel st held with
    | Some (st', h) => (st', Some h)
    | None => (fst (uninterrupted (drain_prog fuel held) st), None)
    end.
Proof.
  revert st held; induction fuel as [|fuel IH]; intros st held; [done|].
  rewrite drain_loop_S; cbn [drain_prog]; rewrite uninterrupted_bind.
  pose proof (sweep_alone (seq 0 (length held)) (MkPass st held 0 false)) as Hs; simpl in Hs.
  unfold vars_of in Hs at 1; simpl in Hs; rewrite Hs; unfold drain_pass.
  set (ps := foldl _ _ _); simpl; destruct (pass_progressed ps); [|done].
  rewrite IH; by destruct (drain_loop fuel _ _) as [[? ?]|].
Qed.

(** ** With interference *)

(** Stores a node is in between two steps, in a causal run. *)
Definition store_ok (st : Store) : Prop := causally_closed st /\ store_nonneg st.

(** Steps of others that keep the store causal and never take a version back. *)
Record lets_grow (R : Store -> Store -> Prop) : Prop := {
  lg_refl : forall st, R st st;
  lg_ok : forall st st', R st st' -> store_ok st -> store_ok st' /\ store_le st st'
}.

(** Every write of a list is in the store, in its version or a later one. *)
Definition all_reached (ws : list write) (st : Store) : Prop :=
  Forall (fun w => ts_le (write_ts w) (version st (write_key w))) ws.

Lemma all_reached_mono ws st st' :
  store_le st st' -> store_ok st' -> all_reached ws st -> all_reached ws st'.
Proof.
  intros Hle [_ Hnn] Hall; eapply Forall_impl; [exact Hall|]; intros w Hw.
  etrans; [exact Hw|by apply version_mono].
Qed.

Lemma apply_write_reached st w : ts_le (write_ts w) (version (apply_write st w) (write_key w)).
Proof.
  unfold version, Store_GetVersion; rewrite apply_write_lookup, decide_True by done; unfold lww.
  destruct (st !! write_key w) as [v|]; [case_decide as Hlt|]; simpl; rewrite ?write_stored_ts in *;
    [exact Hlt|by left..].
Qed.

(** What the proofs follow of the node: its store, and writes that have reached it. *)
Record ghost := MkGhost { gh_store : Store; gh_applied : list write }.

Definition gh_ok (g : ghost) : Prop :=
  store_ok (gh_store g) /\ all_reached (gh_applied g) (gh_store g).

(** From one access to a later one of the same program. *)
Record gh_le (g g' : ghost) : Prop := {
  gl_ok : gh_ok g';
  gl_store : store_le (gh_store g) (gh_store g');
  gl_applied : forall w, w ∈ gh_applied g -> w ∈ gh_applied g'
}.

Lemma gh_le_trans g1 g2 g3 : gh_le g1 g2 -> gh_le g2 g3 -> gh_le g1 g3.
Proof. intros [_ Hs1 Ha1] [Hok Hs2 Ha2]; split; [done|by etrans|auto]. Qed.

Lemma Forall_applied g g' ws :
  gh_le g g' -> Forall (fun w => w ∈ gh_applied g) ws -> Forall (fun w => w ∈ gh_applied g') ws.
Proof. intros Hle Hall; eapply Forall_impl; [exact Hall|apply Hle]. Qed.

Definition gh_put (w : write) (g : ghost) : ghost :=
  MkGhost (apply_write (gh_store g) w) (gh_applied g ++ [w]).

(** A program that handles the writes [Y]. *)
Section interference.
Context (Y : list write) (Y_nonneg : Forall write_nonneg Y).

Definition awaited (d : Dependency) : Prop := exists y, y ∈ Y /\ d ∈ write_deps y.

(** What may happen between two accesses: the store grows and stays causal, and
    the writes that others bring are none that [Y] waits for. *)
Definition rely (g g' : ghost) : Prop :=
  gh_ok g ->
  gh_ok g' /\ store_le (gh_store g) (gh_store g') /\
  exists l, gh_applied g' = gh_applied g ++ l /\ forall d, awaited d -> absent l d.

#[export] Instance rely_preorder : PreOrder rely.
Proof.
  split.
  - intros g Hok; split; [done|]; split; [apply store_le_same|]; exists []; split; [by rewrite app_nil_r|].
    intros d _; apply absent_nil.
  - intros g1 g2 g3 H12 H23 Hok; destruct (H12 Hok) as (Hok2 & Hle2 & l2 & Hl2 & Hd2).
    destruct (H23 Hok2) as (Hok3 & Hle3 & l3 & Hl3 & Hd3); split; [done|]; split; [by etrans|].
    exists (l2 ++ l3); rewrite Hl3, Hl2, app_assoc; split; [done|].
    intros d Hd; apply absent_app; auto.
Qed.

Lemma rely_le g g' : rely g g' -> gh_ok g -> gh_le g g'.
Proof.
  intros Hr Hok; destruct (Hr Hok) as (Hok' & Hle & l & Hl & _); split; [done..|].
  intros w Hw; rewrite Hl; set_solver.
Qed.

Lemma rely_absent g g' d :
  rely g g' -> gh_ok g -> awaited d -> absent (gh_applied g) d -> absent (gh_applied g') d.
Proof.
  intros Hr Hok Hd Ha; destruct (Hr Hok) as (_ & _ & l & -> & Hl); apply absent_app; auto.
Qed.

Lemma rely_stuck g g' ys :
  rely g g' -> gh_ok g -> ys ⊆ Y -> Forall (stuck (gh_applied g)) ys -> Forall (stuck (gh_applied g')) ys.
Proof.
  intros Hr Hok Hys Hall; apply Forall_forall; intros y Hy; rewrite Forall_forall in Hall.
  destruct (Hall y Hy) as (d & Hd & Ha); exists d; split; [done|].
  eapply rely_absent; [done..| |done]; exists y; split; [by apply Hys|done].
Qed.

Lemma put_le w g : w ∈ Y -> depsSatisfied (gh_store g) (write_deps w) = true -> gh_ok g -> gh_le g (gh_put w g).
Proof.
  intros Hw Hd [[Hcl Hnn] Hall].
  assert (Hn : write_nonneg w) by (rewrite Forall_forall in Y_nonneg; auto).
  assert (Hok : store_ok (apply_write (gh_store g) w))
    by (split; [by apply apply_write_closed|by apply apply_write_nonneg]).
  split; [|apply apply_write_le|simpl; set_solver].
  split; [done|]; apply Forall_app; split; [by eapply all_reached_mono; [apply apply_write_le| |]|].
  constructor; [|done]; apply apply_write_reached.
Qed.

(** The program, started at [g], applies only writes of [Y] whose dependencies
    are there, and ends with [Q], whatever happens in between. *)
Fixpoint good {A} (p : prog A) (g : ghost) (Q : A -> ghost -> Prop) : Prop :=
  match p with
  | PRet a => forall g', rely g g' -> Q a g'
  | PVersion key k => forall g', rely g g' -> good (k (Store_GetVersion key (gh_store g'))) g' Q
  | PApply key val k => forall g', rely g g' ->
      (MkWrite key val ∈ Y /\ depsSatisfied (gh_store g') (Value_Deps val) = true) /\
      good k (gh_put (MkWrite key val) g') Q
  end.

(** The rules of this logic. *)
Lemma good_rely {A} (p : prog A) g g' Q : good p g Q -> rely g g' -> good p g' Q.
Proof. destruct p; simpl; intros Hp Hr g2 Hr2; apply Hp; by etrans. Qed.

Lemma good_conseq {A} (p : prog A) g (Q Q' : A -> ghost -> Prop) :
  good p g Q -> (forall a g', Q a g' -> Q' a g') -> good p g Q'.
Proof.
  intros Hp HQ; revert g Hp; induction p as [a|key k IH|key val p IH]; simpl; intros g Hp g' Hr.
  - by apply HQ, Hp.
  - by apply IH, Hp.
  - destruct (Hp g' Hr) as [? ?]; split; [done|by apply IH].
Qed.

Lemma good_bind {A B} (p : prog A) (k : A -> prog B) g Q :
  good p g (fun a g' => good (k a) g' Q) -> good (a ← p; k a) g Q.
Proof.
  revert g; induction p as [a|key k' IH|key val p IH]; simpl; intros g Hp.
  - by apply Hp.
  - intros g' Hr; by apply IH, Hp.
  - intros g' Hr; destruct (Hp g' Hr) as [? ?]; split; [done|by apply IH].
Qed.

(** A step of the rule for sequences, with what is known of the first part. *)
Lemma good_seq {A B} (p : prog A) (k : A -> prog B) g Q Q' :
  good p g Q' -> (forall a g', Q' a g' -> good (k a) g' Q) -> good (a ← p; k a) g Q.
Proof. intros Hp Hk; apply good_bind; by eapply good_conseq. Qed.

(** Such a program, run with interference that lets stores grow. *)
Lemma good_interrupted {A} R (p : prog A) g Q st' a :
  lets_grow R -> good p g Q -> gh_ok g -> interrupted R p (gh_store g) st' a ->
  exists g', gh_store g' = st' /\ Q a g'.
Proof.
  intros HR; assert (Hlift : forall ws st1 st2, R st1 st2 -> rely (MkGhost st1 ws) (MkGhost st2 ws)).
  { intros ws st1 st2 Hr [Hok Hall]; destruct (lg_ok _ HR _ _ Hr Hok) as [Hok2 Hle].
    split; [split; [done|by eapply all_reached_mono]|]; split; [done|].
    exists []; split; [by rewrite app_nil_r|]; intros d _; apply absent_nil. }
  intros Hp Hok Hrun; destruct g as [st ws]; simpl in Hrun; revert ws Hp Hok.
  induction Hrun as [a st st' Hr|key k st st1 st' a Hr _ IH|key val k st st1 st' a Hr _ IH];
    intros ws Hp Hok; specialize (Hlift ws _ _ Hr); simpl in Hp.
  - exists (MkGhost st' ws); split; [done|by apply Hp].
  - exact (IH ws (Hp _ Hlift) (proj1 (Hlift Hok))).
  - destruct (Hp _ Hlift) as [[Hin Hd] Hk]; specialize (IH (ws ++ [MkWrite key val])).
    rewrite applyLocked_apply_write in IH.
    apply IH; [exact Hk|].
    exact (gl_ok _ _ (put_le (MkWrite key val) (MkGhost st1 ws) Hin Hd (proj1 (Hlift Hok)))).
Qed.

Lemma uninterrupted_run {A} (p : prog A) st :
  let '(st', a) := uninterrupted p st in interrupted eq p st st' a.
Proof.
  revert st; induction p as [a|key k IH|key val p IH]; intros st; simpl; [by constructor| |].
  - specialize (IH (Store_GetVersion key st) st); destruct (uninterrupted _ _); by econstructor.
  - specialize (IH (applyLocked key val st)); destruct (uninterrupted _ _); by econstructor.
Qed.

Lemma good_uninterrupted {A} (p : prog A) g Q :
  good p g Q -> gh_ok g ->
  let '(st', a) := uninterrupted p (gh_store g) in exists g', gh_store g' = st' /\ Q a g'.
Proof.
  intros Hp Hok; pose proof (uninterrupted_run p (gh_store g)) as Hrun.
  destruct (uninterrupted p (gh_store g)) as [st' a]; eapply good_interrupted; [|done..].
  split; [done|]; intros st1 st2 <-; split; [done|apply store_le_same].
Qed.

Lemma deps_good deps g :
  (forall d, d ∈ deps -> awaited d) -> gh_ok g ->
  good (deps_prog deps) g (fun ok g' => rely g g' /\
    if ok then depsSatisfied (gh_store g') deps = true
    else exists d, d ∈ deps /\ absent (gh_applied g') d).
Proof.
  revert g; induction deps as [|d deps IH]; intros g Haw Hok; cbn [deps_prog]; [done|].
  intros g1 Hr1; pose proof (rely_le _ _ Hr1 Hok) as [Hok1 Hle1 _].
  destruct (Store_GetVersion (Dependency_Key d) (gh_store g1)) as [ts found] eqn:Hv; cbn zeta.
  assert (Hver : (if negb found then zeroTimestamp else ts) = version (gh_store g1) (Dependency_Key d)).
  { unfold version; rewrite Hv; destruct found; [done|].
    unfold Store_GetVersion in Hv; destruct (gh_store g1 !! Dependency_Key d); by simplify_eq. }
  cbn beta iota delta [prog_bind]; rewrite Hver; destruct (AfterOrEqual _ _) eqn:Ha; cbn [negb].
  - apply AfterOrEqual_le in Ha; eapply good_conseq; [apply (IH g1); [set_solver|done]|].
    intros ok g2 [Hr2 Hd]; split; [by etrans|]; destruct ok; [|set_solver].
    rewrite depsSatisfied_spec, Forall_cons, <- depsSatisfied_spec; split; [|done].
    pose proof (rely_le _ _ Hr2 Hok1) as [[[_ Hnn2] _] Hle2 _].
    etrans; [exact Ha|by apply version_mono].
  - intros g2 Hr2; split; [by etrans|]; exists d; split; [left|].
    eapply rely_absent; [exact Hr2|done|apply Haw; left|]; intros w Hw [= Hk Ht].
    destruct Hok1 as [_ Hall]; unfold all_reached in Hall; rewrite Forall_forall in Hall.
    specialize (Hall w Hw); rewrite Hk in Hall.
    assert (Hle : ts_le (Dependency_MinTS d) (version (gh_store g1) (Dependency_Key d)))
      by (rewrite <- Ht; exact Hall).
    apply AfterOrEqual_le in Hle; congruence.
Qed.

(** Invariant of a sweep after the writes [done] of [done ++ todo]. *)
Definition sweep_inv (done todo : list write) (g : ghost) (sv : sweep_vars) : Prop :=
  exists remaining stale ws,
    sv_arr sv = remaining ++ stale ++ todo /\ sv_len sv = length remaining /\
    length remaining + length stale = length done /\
    ws ++ remaining ≡ₚ done /\ Forall (fun w => w ∈ gh_applied g) ws /\
    if sv_progressed sv then ws <> [] else Forall (stuck (gh_applied g)) remaining.

Lemma compact_step (remaining stale todo : list write) p :
  exists stale', <[length remaining := p]> (remaining ++ stale ++ p :: todo) =
      (remaining ++ [p]) ++ stale' ++ todo /\ length stale' = length stale.
Proof.
  destruct stale as [|q stale]; simpl.
  - exists []; rewrite insert_app_r_alt, Nat.sub_diag by lia; simpl; by rewrite <- app_assoc.
  - exists (stale ++ [p]); rewrite insert_app_r_alt, Nat.sub_diag, length_app by lia; simpl.
    rewrite <- !app_assoc; split; [done|lia].
Qed.

Lemma awaited_by y d : y ∈ Y -> d ∈ write_deps y -> awaited d.
Proof. by exists y. Qed.

Lemma apply_good w g :
  w ∈ Y -> depsSatisfied (gh_store g) (write_deps w) = true -> gh_ok g ->
  good (apply_prog (write_key w) (write_val w)) g (fun _ g' => gh_le g g' /\ w ∈ gh_applied g').
Proof.
  intros Hw Hd Hok g1 Hr1; pose proof (rely_le _ _ Hr1 Hok) as Hle1; destruct w as [key val].
  assert (Hd1 : depsSatisfied (gh_store g1) (write_deps (MkWrite key val)) = true)
    by (eapply depsSatisfied_mono; [apply Hle1|apply (gl_ok _ _ Hle1)|done]).
  split; [done|]; intros g2 Hr2; pose proof (put_le _ _ Hw Hd1 (gl_ok _ _ Hle1)) as Hle2.
  pose proof (rely_le _ _ Hr2 (gl_ok _ _ Hle2)) as Hle3; split; [by do 2 (eapply gh_le_trans; [done|])|].
  apply Hle3; simpl; set_solver.
Qed.

Lemma body_good done p todo g sv :
  done ++ p :: todo ⊆ Y -> gh_ok g -> sweep_inv done (p :: todo) g sv ->
  good (body_prog sv (length done)) g (fun sv' g' => gh_le g g' /\ sweep_inv (done ++ [p]) todo g' sv').
Proof.
  intros HY Hok (rem & stale & ws & Harr & Hlen & Hsum & Hperm & Hall & Hprog).
  unfold body_prog; rewrite Harr, app_assoc, list_lookup_middle by (rewrite length_app; lia).
  assert (Hp : p ∈ Y) by (apply HY; set_solver).
  eapply good_seq; [apply deps_good; [intros d; by apply awaited_by|done]|]; intros ok g1 [Hr1 Hd].
  pose proof (rely_le _ _ Hr1 Hok) as Hle1; destruct ok.
  - eapply good_seq; [by apply (apply_good p); [| |apply Hle1]|]; intros u g2 [Hle2 Hin] g3 Hr3.
    assert (Hle3 : gh_le g2 g3) by (eapply rely_le; [done|apply Hle2]).
    assert (Hle : gh_le g g3) by (by do 2 (eapply gh_le_trans; [done|])); split; [done|].
    exists rem, (stale ++ [p]), (ws ++ [p]); simpl; rewrite !length_app; simpl; split_and!; try lia.
    + by rewrite <- !app_assoc.
    + by rewrite Permutation_snoc_swap, Hperm.
    + apply Forall_app; split; [by eapply Forall_applied|]; constructor; [by apply Hle3|done].
    + intros Hnil; by apply app_eq_nil in Hnil as [_ ?].
  - intros g2 Hr2; assert (Hr : rely g g2) by (by etrans); pose proof (rely_le _ _ Hr Hok) as Hle.
    split; [done|]; rewrite Hlen, <- app_assoc; simpl.
    destruct (compact_step rem stale todo p) as (stale' & -> & Hl').
    exists (rem ++ [p]), stale', ws; simpl; rewrite !length_app; simpl; split_and!; try done; try lia.
    + by rewrite app_assoc, Hperm.
    + by eapply Forall_applied.
    + destruct (sv_progressed sv); [done|]; eapply rely_stuck; [exact Hr2|apply Hle1| |].
      { intros y Hy; apply HY; rewrite elem_of_app in Hy; rewrite elem_of_app.
        rewrite <- Hperm; set_solver. }
      apply Forall_app; split; [|by repeat constructor].
      eapply rely_stuck; [exact Hr1|done| |done]; intros y Hy; apply HY; rewrite elem_of_app, <- Hperm; set_solver.
Qed.

Lemma sweep_good todo done g sv :
  done ++ todo ⊆ Y -> gh_ok g -> sweep_inv done todo g sv ->
  good (sweep_prog sv (seq (length done) (length todo))) g
    (fun sv' g' => gh_le g g' /\ sweep_inv (done ++ todo) [] g' sv').
Proof.
  revert done g sv; induction todo as [|p todo IH]; intros done g sv HY Hok Hinv; simpl.
  - intros g' Hr; pose proof (rely_le _ _ Hr Hok) as Hle; split; [done|].
    destruct Hinv as (rem & stale & ws & ? & ? & ? & Hperm & ? & Hprog); rewrite app_nil_r in *.
    exists rem, stale, ws; split_and!; try done; [by rewrite app_nil_r|by eapply Forall_applied|].
    destruct (sv_progressed sv); [done|]; eapply rely_stuck; [done..| |done].
    intros y Hy; apply HY; rewrite <- Hperm; set_solver.
  - eapply good_seq; [by apply (body_good done p todo)|]; intros sv1 g1 [Hle1 Hinv1].
    replace (S (length done)) with (length (done ++ [p])) by (rewrite length_app; simpl; lia).
    eapply good_conseq; [apply IH; [by rewrite <- app_assoc|apply Hle1|done]|].
    intros sv2 g2 [Hle2 Hinv2]; rewrite <- app_assoc in Hinv2; split; [by eapply gh_le_trans|done].
Qed.

Lemma drain_good fuel held g :
  held ⊆ Y -> gh_ok g -> length held < fuel ->
  good (drain_prog fuel held) g (fun r g' => gh_le g g' /\
    exists ws remaining, r = Some remaining /\ ws ++ remaining ≡ₚ held /\
      Forall (fun w => w ∈ gh_applied g') ws /\ Forall (stuck (gh_applied g')) remaining).
Proof.
  revert held g; induction fuel as [|fuel IH]; intros held g HY Hok Hlen; [lia|]; cbn [drain_prog].
  eapply good_seq; [apply (sweep_good held []); [done..|]|].
  { exists [], [], []; simpl; split_and!; done || constructor. }
  intros sv g1 [Hle1 (rem & stale & ws & -> & -> & _ & Hperm & Hall & Hprog)]; simpl in Hperm.
  rewrite take_app_length; pose proof (Permutation_length Hperm) as Hpl; rewrite length_app in Hpl.
  assert (HY1 : rem ⊆ Y) by (intros y Hy; apply HY; rewrite <- Hperm; set_solver).
  destruct (sv_progressed sv).
  - assert (Hws : 0 < length ws) by (destruct ws; [done|simpl; lia]).
    eapply good_conseq; [apply (IH rem g1 HY1 (gl_ok _ _ Hle1)); lia|].
    intros r g2 (Hle2 & ws2 & rem2 & -> & Hp2 & Hall2 & Hst2); split; [by eapply gh_le_trans|].
    exists (ws ++ ws2), rem2; split_and!; [done| | |done]; [by rewrite <- app_assoc, Hp2|].
    apply Forall_app; split; [by eapply Forall_applied|done].
  - intros g2 Hr2; pose proof (rely_le _ _ Hr2 (gl_ok _ _ Hle1)) as Hle2.
    split; [by eapply gh_le_trans|]; exists ws, rem; split_and!; [done..|by eapply Forall_applied|].
    by eapply rely_stuck; [|apply Hle1| |].
Qed.

(** What [Receive] returns: nothing is lost, and what is still held waits. *)
Definition receive_post (b : Buffer) (w : write) (g : ghost) (r : option (Buffer * bool)) (g' : ghost)
    : Prop :=
  gh_le g g' /\ exists b' now ws, r = Some (b', now) /\
    ws ++ Buffer_held b' ≡ₚ Buffer_held b ++ [w] /\ Forall (fun w => w ∈ gh_applied g') ws /\
    (now = false -> ws = []) /\
    (Forall (stuck (gh_applied g)) (Buffer_held b) -> Forall (stuck (gh_applied g')) (Buffer_held b')).

Lemma receive_good key val b g :
  Buffer_held b ++ [MkWrite key val] ⊆ Y -> gh_ok g ->
  good (receive_prog key val b) g (receive_post b (MkWrite key val) g).
Proof.
  intros HY Hok; set (w := MkWrite key val) in *; unfold receive_prog.
  assert (Hw : w ∈ Y) by (apply HY; set_solver); assert (Hb : Buffer_held b ⊆ Y) by set_solver.
  eapply good_seq; [apply deps_good; [intros d; by apply (awaited_by w)|done]|].
  intros ok g1 [Hr1 Hd]; pose proof (rely_le _ _ Hr1 Hok) as Hle1; destruct ok.
  - eapply good_seq; [by apply (apply_good w); [| |apply Hle1]|]; intros u g2 [Hle2 Hin].
    eapply good_seq; [apply drain_good; [done|apply Hle2|lia]|].
    intros h g3 (Hle3 & ws & rem & -> & Hp & Hall & Hst) g4 Hr4.
    pose proof (rely_le _ _ Hr4 (gl_ok _ _ Hle3)) as Hle4.
    split; [by do 3 (eapply gh_le_trans; [done|])|].
    exists (MkBuffer rem), true, (w :: ws); simpl; split_and!; [done| | |done|].
    + by rewrite Hp, Permutation_cons_append.
    + constructor; [by apply Hle4, Hle3|by eapply Forall_applied].
    + intros _; eapply rely_stuck; [exact Hr4|apply Hle3| |done].
      intros y Hy; apply Hb; rewrite <- Hp; set_solver.
  - intros g2 Hr2; split; [eapply gh_le_trans; [done|]; by eapply rely_le; [|apply Hle1]|].
    eexists _, false, []; split; [done|]; split_and!; [done|done|done|]; simpl; intros Hst.
    eapply rely_stuck; [exact Hr2|apply Hle1|done|]; apply Forall_app; split; [|by repeat constructor].
    by eapply rely_stuck.
Qed.

End interference.

(** Local puts of other handlers, each over an earlier version of its key and with
    its dependencies in the store. *)
Inductive local_puts : Store -> Store -> Prop :=
| puts_nil st : local_puts st st
| puts_cons key v st st' :
    from_epoch (Value_Timestamp v) -> depsSatisfied st (Value_Deps v) = true ->
    ts_le (version st key) (Value_Timestamp v) ->
    local_puts (local_store key v st) st' -> local_puts st st'.

Lemma local_puts_grow : lets_grow local_puts.
Proof.
  split; [constructor|]; induction 1 as [st|key v st st' Hv Hd Hver _ IH]; intros Hok.
  - split; [done|apply store_le_same].
  - destruct Hok as [Hcl Hnn]; destruct (forward_store key v st) as (Hcl1 & Hnn1 & Hle1); try done.
    destruct (IH (conj Hcl1 Hnn1)) as [Hok' Hle']; split; [done|by etrans].
Qed.

(** ** Properties *)

(** Run without interference, [Receive] at the grain of its accesses to the store
    is the function of [Buffer.v], on every branch; its fuel is enough. *)
Theorem receive_uninterrupted key val b st :
  uninterrupted (receive_prog key val b) st =
    let '(st', b', now) := Buffer_Receive key val st b in (st', Some (b', now)).
Proof.
  unfold receive_prog, Buffer_Receive; rewrite uninterrupted_bind, deps_alone.
  destruct (depsSatisfied st (Value_Deps val)); [|done].
  rewrite uninterrupted_bind; cbn [apply_prog uninterrupted]; rewrite uninterrupted_bind, drain_alone.
  unfold drainLocked; set (st1 := applyLocked key val st).
  destruct (drain_loop_total (S (length (Buffer_held b))) st1 (Buffer_held b) ltac:(lia))
    as (st2 & ws & rem & Hd & _); by rewrite Hd.
Qed.

(** Delivery under interference: whatever other handlers write to the store
    between any two accesses of [Receive], as long as they keep it causally
    closed and take no version back, it ends within its fuel, keeps the store
    causally closed, takes no version back itself, and loses nothing: every
    write received is still held, or in the store in its version or a later one. *)
Theorem receive_interrupted (R : Store -> Store -> Prop) key val b st st' r :
  lets_grow R -> interrupted R (receive_prog key val b) st st' r ->
  causally_closed st -> store_nonneg st -> Forall write_nonneg (MkWrite key val :: Buffer_held b) ->
  causally_closed st' /\ store_nonneg st' /\ store_le st st' /\
  exists b' now ws, r = Some (b', now) /\ ws ++ Buffer_held b' ≡ₚ Buffer_held b ++ [MkWrite key val] /\
    all_reached ws st' /\ (now = false -> ws = []).
Proof.
  intros HR Hrun Hcl Hnn Hw; pose (Y := Buffer_held b ++ [MkWrite key val]).
  assert (HY : Forall write_nonneg Y) by (unfold Y; rewrite <- Permutation_cons_append; exact Hw).
  assert (Hok : gh_ok (MkGhost st [])) by (by split; [|constructor]).
  pose proof (receive_good Y HY key val b (MkGhost st []) ltac:(done) Hok) as Hgood.
  destruct (good_interrupted Y HY R _ (MkGhost st []) _ st' r HR Hgood Hok Hrun)
    as (g' & <- & [[[Hcl' Hnn'] Hreach] Hle _] & b' & now & ws & -> & Hperm & Hin & Hnow & _).
  split_and!; try done; exists b', now, ws; split_and!; try done.
  unfold all_reached in *; rewrite Forall_forall in Hreach; by eapply Forall_impl.
Qed.

(** A write [w] arrives while [y], waiting for [x], is held; a local put of [x]
    comes after the sweep has looked for it. *)
Definition c_waiting : Buffer :=
  MkBuffer [MkWrite "y" (MkValue [x79] (MkTimestamp 9 0) [MkDependency "x" (MkTimestamp 5 0)] false)].

Definition c_late_x : Store := local_store "x" (c_val 5 x78) (applyLocked "w" (c_val 4 x77) store_New).

Lemma c_late_run :
  interrupted local_puts (receive_prog "w" (c_val 4 x77) c_waiting) store_New c_late_x
    (Some (c_waiting, true)).
Proof.
  apply (int_apply _ _ _ _ _ store_New); [constructor|].
  eapply (int_version _ _ _ _ (applyLocked "w" (c_val 4 x77) store_New)); [constructor|].
  apply int_ret; eapply puts_cons; [| | |constructor]; vm_compute; auto.
Qed.

Lemma receive_interrupted_witness :
  map (fun w => depsSatisfied c_late_x (write_deps w)) (Buffer_held c_waiting) = [true] /\
  causally_closed c_late_x /\ store_le store_New c_late_x.
Proof.
  split; [vm_compute; reflexivity|].
  destruct (receive_interrupted local_puts "w" (c_val 4 x77) c_waiting store_New c_late_x _
    local_puts_grow c_late_run) as (Hcl & _ & Hle & _).
  - exact causally_closed_empty.
  - exact store_nonneg_empty.
  - constructor; [|constructor; [|constructor]]; apply ts_le_alt; left; simpl; lia.
  - split; [exact Hcl|exact Hle].
Defined.
