(* ===== verification/Fine.v ===== *)
(** * Clusters at the grain of single accesses to the store
      ([src/internal/buffer/buffer.go], [src/internal/server/node.go])

    [Grid.v] with [Buffer.Receive] taken apart: a handler that delivers takes
    the buffer's mutex, reads and writes the store one access at a time while
    the other handlers of the node go on, and gives the mutex back.  The runs of
    [Grid.v] are among those of this file; the causal safety of [Causal.v] holds
    in all of them, also in the middle of a delivery. *)

From S2P Require Import Prelude Hlc Store Buffer Wire Replication Server Cluster Interleave Grid Strong Causal.
From S2P Require Import Converge Delivery.

(** ** Definitions *)

(** A delivery that holds the buffer's mutex of a node: the call whose RPC it
    serves, the RPC, and what is left of [Receive]. *)
Record receiving := MkReceiving {
  rx_op : nat;
  rx_rpc : nat;
  rx_prog : prog (option (Buffer * bool))
}.

(** The nodes whose buffer is locked are those of [fn_busy]. *)
Record fine := MkFine { fn_grid : grid; fn_busy : gmap nat receiving }.

Inductive flabel :=
| FStep (lb : glabel)           (* a step of [Grid.v] that leaves the buffers alone *)
| FLock (k j : nat)             (* the handler of RPC [j] of call [k]: [b.mu.Lock()] *)
| FAccess (i : nat)             (* the handler in [Receive] at node [i] *)
| FUnlock (i : nat).            (* [b.mu.Unlock()], and the handler returns *)

(** The step is the call of [n.Buffer.Receive]. *)
Definition enters_buffer (lb : glabel) (g : grid) : bool :=
  match lb with
  | GServe k j _ =>
      match o ← grid_ops g !! k; c ← op_calls o !! j; n ← grid_nodes g !! call_peer c;
            Some (call_srv c, active_buffer n) with
      | Some (RClocked _ _, Some _) => true
      | _ => false
      end
  | _ => false
  end.

(** The next access of a program. *)
Definition access {A} (p : prog A) (s : Store) : option (prog A * Store) :=
  match p with
  | PRet _ => None
  | PVersion key k => Some (k (Store_GetVersion key s), s)
  | PApply key val k => Some (k, applyLocked key val s)
  end.

Definition fstep (lb : flabel) (f : fine) : option fine :=
  let g := fn_grid f in
  match lb with
  | FStep lb =>
      if enters_buffer lb g then None
      else g' ← gstep lb g; Some (MkFine g' (fn_busy f))
  | FLock k j =>
      o ← grid_ops g !! k;
      c ← op_calls o !! j;
      n ← grid_nodes g !! call_peer c;
      b ← active_buffer n;
      match call_srv c, fn_busy f !! call_peer c with
      | RClocked req inTS, None =>
          let p := receive_prog (RR_Key req) (request_value req inTS) b in
          Some (MkFine g (<[call_peer c := MkReceiving k j p]> (fn_busy f)))
      | _, _ => None
      end
  | FAccess i =>
      rx ← fn_busy f !! i;
      n ← grid_nodes g !! i;
      '(p, s) ← access (rx_prog rx) (Node_Store n);
      Some (MkFine (MkGrid (<[i := with_store s n]> (grid_nodes g)) (grid_ops g))
              (<[i := MkReceiving (rx_op rx) (rx_rpc rx) p]> (fn_busy f)))
  | FUnlock i =>
      rx ← fn_busy f !! i;
      n ← grid_nodes g !! i;
      o ← grid_ops g !! rx_op rx;
      c ← op_calls o !! rx_rpc rx;
      match rx_prog rx with
      | PRet (Some (b, _)) =>
          let c' := MkCall (call_peer c) (RDone (Ok (MkReplicateResponse true))) (call_reply c) in
          Some (MkFine (MkGrid (<[i := with_buffer b n]> (grid_nodes g))
                          (with_call (rx_op rx) o (rx_rpc rx) c' (grid_ops g)))
                  (delete i (fn_busy f)))
      | _ => None
      end
  end.

Fixpoint frun (ls : list flabel) (f : fine) : option fine :=
  match ls with
  | [] => Some f
  | lb :: ls => f' ← fstep lb f; frun ls f'
  end.

(** A test on the steps of [Grid.v] that a run makes. *)
Definition on_grid (P : glabel -> grid -> bool) (lb : flabel) (f : fine) : bool :=
  match lb with FStep lb => P lb (fn_grid f) | _ => true end.

Fixpoint frun_all (P : glabel -> grid -> bool) (ls : list flabel) (f : fine) : bool :=
  match ls with
  | [] => true
  | lb :: ls => on_grid P lb f && match fstep lb f with Some f' => frun_all P ls f' | None => true end
  end.

(** No delivery is under way. *)
Definition whole (g : grid) : fine := MkFine g ∅.

(** ** Steps and runs *)

Inductive fstep_view (f : fine) : flabel -> fine -> Prop :=
| FV_step lb g' :
    enters_buffer lb (fn_grid f) = false -> gstep_view (fn_grid f) lb g' ->
    fstep_view f (FStep lb) (MkFine g' (fn_busy f))
| FV_lock k j o c n b req ts :
    grid_ops (fn_grid f) !! k = Some o -> op_calls o !! j = Some c ->
    grid_nodes (fn_grid f) !! call_peer c = Some n -> active_buffer n = Some b ->
    call_srv c = RClocked req ts -> fn_busy f !! call_peer c = None ->
    fstep_view f (FLock k j) (MkFine (fn_grid f)
      (<[call_peer c := MkReceiving k j (receive_prog (RR_Key req) (request_value req ts) b)]> (fn_busy f)))
| FV_access i rx n p s :
    fn_busy f !! i = Some rx -> grid_nodes (fn_grid f) !! i = Some n ->
    access (rx_prog rx) (Node_Store n) = Some (p, s) ->
    fstep_view f (FAccess i)
      (MkFine (MkGrid (<[i := with_store s n]> (grid_nodes (fn_grid f))) (grid_ops (fn_grid f)))
         (<[i := MkReceiving (rx_op rx) (rx_rpc rx) p]> (fn_busy f)))
| FV_unlock i rx n o c b now :
    fn_busy f !! i = Some rx -> grid_nodes (fn_grid f) !! i = Some n ->
    grid_ops (fn_grid f) !! rx_op rx = Some o -> op_calls o !! rx_rpc rx = Some c ->
    rx_prog rx = PRet (Some (b, now)) ->
    fstep_view f (FUnlock i)
      (MkFine (MkGrid (<[i := with_buffer b n]> (grid_nodes (fn_grid f)))
                 (with_call (rx_op rx) o (rx_rpc rx)
                    (MkCall (call_peer c) (RDone (Ok (MkReplicateResponse true))) (call_reply c))
                    (grid_ops (fn_grid f))))
         (delete i (fn_busy f))).

Lemma fstepP lb f f' : fstep lb f = Some f' -> fstep_view f lb f'.
Proof.
  destruct lb as [lb|k j|i|i]; simpl; intros Hs.
  - destruct (enters_buffer lb (fn_grid f)) eqn:He; [done|].
    apply bind_Some in Hs as (g' & Hg & [= <-]); constructor; [done|by apply gstepP].
  - apply bind_Some in Hs as (o & Ho & Hs); apply bind_Some in Hs as (c & Hc & Hs).
    apply bind_Some in Hs as (n & Hn & Hs); apply bind_Some in Hs as (b & Hb & Hs).
    destruct (call_srv c) eqn:Hsrv; try done.
    destruct (fn_busy f !! call_peer c) eqn:Hbusy; simplify_eq; by eapply FV_lock.
  - apply bind_Some in Hs as (rx & Hrx & Hs); apply bind_Some in Hs as (n & Hn & Hs).
    apply bind_Some in Hs as ([p s] & Ha & [= <-]); by econstructor.
  - apply bind_Some in Hs as (rx & Hrx & Hs); apply bind_Some in Hs as (n & Hn & Hs).
    apply bind_Some in Hs as (o & Ho & Hs); apply bind_Some in Hs as (c & Hc & Hs).
    destruct (rx_prog rx) as [[[b now]|]| |] eqn:Hp; simplify_eq; by eapply FV_unlock.
Qed.

Lemma frun_app ls1 ls2 f : frun (ls1 ++ ls2) f = f' ← frun ls1 f; frun ls2 f'.
Proof.
  revert f; induction ls1 as [|lb ls1 IH]; intros f; simpl; [done|].
  destruct (fstep lb f) as [f1|]; simpl; [apply IH|done].
Qed.

Lemma frun_all_app P ls1 ls2 f f1 :
  frun ls1 f = Some f1 -> frun_all P ls1 f = true -> frun_all P ls2 f1 = true ->
  frun_all P (ls1 ++ ls2) f = true.
Proof.
  revert f; induction ls1 as [|lb ls1 IH]; intros f Hrun H1 H2; simpl in *; [by simplify_eq|].
  apply bind_Some in Hrun as (f' & Hf' & Hrun); rewrite Hf' in *.
  apply andb_true_iff in H1 as [-> H1]; by apply IH.
Qed.

(** Induction over a run that passes a test. *)
Lemma frun_all_ind (t : glabel -> grid -> bool) (P : fine -> Prop) ls f f' :
  P f -> frun_all t ls f = true -> frun ls f = Some f' ->
  (forall lb f1 f2, P f1 -> on_grid t lb f1 = true -> fstep_view f1 lb f2 -> P f2) -> P f'.
Proof.
  intros Hf Hok Hrun Hstep; revert f Hf Hok Hrun; induction ls as [|lb ls IH];
    intros f Hf Hok Hrun; simpl in *; [by simplify_eq|].
  apply andb_true_iff in Hok as [Hlb Hok]; apply bind_Some in Hrun as (f1 & Hf1 & Hrun).
  rewrite Hf1 in Hok; apply (IH f1); try done; eapply Hstep; [done|done|by apply fstepP].
Qed.

(** ** The runs of the grid *)

(** One access and then others. *)
Lemma frun_access_then (p q : prog (option (Buffer * bool))) i k j g busy n s f :
  grid_nodes g !! i = Some n -> busy !! i = Some (MkReceiving k j p) ->
  access p (Node_Store n) = Some (q, s) ->
  (exists m, frun (repeat (FAccess i) m)
    (MkFine (MkGrid (<[i := with_store s n]> (grid_nodes g)) (grid_ops g)) (<[i := MkReceiving k j q]> busy)) = Some f) ->
  exists m, frun (repeat (FAccess i) m) (MkFine g busy) = Some f.
Proof.
  intros Hn Hb Ha [m Hm]; exists (S m); cbn [repeat frun fstep fn_grid fn_busy].
  rewrite Hb; simpl; rewrite Hn; simpl; by rewrite Ha.
Qed.

(** A program run alone, access by access. *)
Lemma frun_accesses (p : prog (option (Buffer * bool))) i k j g busy n :
  grid_nodes g !! i = Some n -> busy !! i = Some (MkReceiving k j p) ->
  let '(st', a) := uninterrupted p (Node_Store n) in
  exists m, frun (repeat (FAccess i) m) (MkFine g busy) =
    Some (MkFine (MkGrid (<[i := with_store st' n]> (grid_nodes g)) (grid_ops g))
            (<[i := MkReceiving k j (PRet a)]> busy)).
Proof.
  assert (Hnext : forall g busy n q s, grid_nodes g !! i = Some n ->
    let g1 := MkGrid (<[i := with_store s n]> (grid_nodes g)) (grid_ops g) in
    let busy1 := <[i := MkReceiving k j q]> (busy : gmap nat receiving) in
    grid_nodes g1 !! i = Some (with_store s n) /\ busy1 !! i = Some (MkReceiving k j q)).
  { intros ? ? ? ? ? Hi; split; [|by rewrite lookup_insert_eq].
    apply list_lookup_insert_eq; by eapply lookup_lt_Some. }
  revert g busy n; induction p as [a|key kk IH|key val p IH]; intros g busy n Hn Hb; cbn [uninterrupted].
  - exists 0; simpl; rewrite (insert_id busy) by done; destruct g as [ns ops]; simpl in *.
    by rewrite list_insert_id by (by destruct n).
  - set (q := kk (Store_GetVersion key (Node_Store n))).
    destruct (Hnext g busy n q (Node_Store n) Hn) as [Hn1 Hb1].
    specialize (IH _ _ _ _ Hn1 Hb1); simpl in IH; destruct (uninterrupted _ _) as [st' a].
    rewrite list_insert_insert_eq, insert_insert_eq in IH; by eapply frun_access_then.
  - destruct (Hnext g busy n p (applyLocked key val (Node_Store n)) Hn) as [Hn1 Hb1].
    specialize (IH _ _ _ Hn1 Hb1); simpl in IH; destruct (uninterrupted _ _) as [st' a].
    rewrite list_insert_insert_eq, insert_insert_eq in IH; by eapply frun_access_then.
Qed.

Lemma frun_all_accesses t i m f : frun_all t (repeat (FAccess i) m) f = true.
Proof.
  revert f; induction m as [|m IH]; intros f; cbn [repeat frun_all]; [done|].
  destruct (fstep _ f); [apply IH|done].
Qed.

(** A delivery that nothing interrupts is the step of [Grid.v]. *)
Lemma grid_serve_fine k j now g g' :
  enters_buffer (GServe k j now) g = true -> gstep (GServe k j now) g = Some g' ->
  exists ls, frun ls (whole g) = Some (whole g') /\ forall t, frun_all t ls (whole g) = true.
Proof.
  simpl; intros He Hs; apply bind_Some in Hs as (o & Ho & Hs); apply bind_Some in Hs as (c & Hc & Hs).
  apply bind_Some in Hs as (n & Hn & Hs); rewrite Ho in He; simpl in He; rewrite Hc in He; simpl in He.
  rewrite Hn in He; simpl in He; destruct (call_srv c) as [| | | | | | | | | | |req ts|] eqn:Hsrv; try done.
  destruct (active_buffer n) as [b|] eqn:Hb; [|done]; simpl in Hs; rewrite Hb in Hs.
  destruct (Buffer_Receive _ _ _ _) as [[s b'] nw] eqn:Hr; injection Hs as <-.
  set (p := receive_prog (RR_Key req) (request_value req ts) b); set (i := call_peer c) in *.
  assert (Hlock : fstep (FLock k j) (whole g) = Some (MkFine g {[i := MkReceiving k j p]})).
  { simpl; rewrite Ho; simpl; rewrite Hc; simpl; fold i; rewrite Hn; simpl; rewrite Hb; simpl.
    by rewrite Hsrv, lookup_empty, insert_empty. }
  pose proof (frun_accesses p i k j g {[i := MkReceiving k j p]} n Hn (lookup_singleton_eq _ _)) as Hacc.
  unfold p in Hacc at 1; rewrite receive_uninterrupted, Hr in Hacc; destruct Hacc as [m Hm].
  rewrite insert_singleton_eq in Hm.
  set (g1 := MkGrid (<[i := with_store s n]> (grid_nodes g)) (grid_ops g)) in Hm.
  set (f1 := MkFine g1 {[i := MkReceiving k j (PRet (Some (b', nw)))]}) in Hm.
  assert (Hun : fstep (FUnlock i) f1 = Some (whole (MkGrid (<[i := with_buffer b' (with_store s n)]> (grid_nodes g))
    (with_call k o j (MkCall i (RDone (Ok (MkReplicateResponse true))) (call_reply c)) (grid_ops g))))).
  { simpl; rewrite lookup_singleton_eq; simpl; rewrite list_lookup_insert_eq by (by eapply lookup_lt_Some).
    simpl; rewrite Ho; simpl; rewrite Hc; simpl; by rewrite list_insert_insert_eq, delete_singleton_eq. }
  exists (FLock k j :: repeat (FAccess i) m ++ [FUnlock i]); split.
  - cbn [frun]; rewrite Hlock; cbn [mbind option_bind]; rewrite frun_app, Hm; cbn [mbind option_bind frun].
    by rewrite Hun.
  - intros t; cbn [frun_all]; rewrite Hlock; simpl.
    eapply frun_all_app; [exact Hm|apply frun_all_accesses|]; cbn [frun_all]; by rewrite Hun.
Qed.

Lemma grid_step_fine t lb g g' :
  gstep lb g = Some g' -> t lb g = true ->
  exists ls, frun ls (whole g) = Some (whole g') /\ frun_all t ls (whole g) = true.
Proof.
  intros Hs Ht; destruct (enters_buffer lb g) eqn:He.
  - destruct lb; try done; destruct (grid_serve_fine _ _ _ _ _ He Hs) as (ls & ? & ?); by exists ls.
  - exists [FStep lb]; simpl; by rewrite He, Hs, Ht.
Qed.

Lemma grun_fine t ls g g' :
  grun ls g = Some g' -> grun_all t ls g = true ->
  exists fls, frun fls (whole g) = Some (whole g') /\ frun_all t fls (whole g) = true.
Proof.
  revert g; induction ls as [|lb ls IH]; intros g Hrun Ht; simpl in *; [simplify_eq; by exists []|].
  apply bind_Some in Hrun as (g1 & Hg1 & Hrun); rewrite Hg1 in Ht; apply andb_true_iff in Ht as [Ht1 Ht].
  destruct (grid_step_fine t _ _ _ Hg1 Ht1) as (fls1 & Hf1 & Ha1), (IH _ Hrun Ht) as (fls & Hf & Ha).
  exists (fls1 ++ fls); split; [by rewrite frun_app, Hf1|by eapply frun_all_app].
Qed.

(** ** Steps of the grid while a delivery is under way *)

Lemma micro_client now rs (n n' : Node AnyHandler) p rpcs p' :
  micro now rs n p = (n', rpcs, p') -> serving p = false -> serving p' = false.
Proof.
  intros Hm Hp; revert Hm; destruct p; try discriminate; simpl; repeat case_match; intros Hm;
    by simplify_eq/=.
Qed.

(** Only the handler of an RPC in [Receive] changes the buffer of a node. *)
Lemma micro_buffer now rs (n n' : Node AnyHandler) p rpcs p' :
  micro now rs n p = (n', rpcs, p') -> (forall req ts, p <> RClocked req ts) ->
  active_buffer n' = active_buffer n.
Proof.
  intros Hm Hp; revert Hm; destruct p as [| |key v| | | | | | | | |req ts|];
    try (by destruct (Hp req ts)); simpl; unfold take_deps; repeat case_match; intros Hm; by simplify_eq/=.
Qed.

(** Calls of clients run client code, RPCs are served by [Replicate]. *)
Definition op_sides (o : op) : Prop :=
  serving (op_pc o) = false /\ Forall (fun c => serving (call_srv c) = true) (op_calls o).

Definition clients (g : grid) : Prop := Forall op_sides (grid_ops g).

Lemma clients_with_call g k o j c ns :
  clients g -> grid_ops g !! k = Some o -> serving (call_srv c) = true ->
  clients (MkGrid ns (with_call k o j c (grid_ops g))).
Proof.
  intros Hg Ho Hc; destruct (proj1 (Forall_lookup _ _) Hg _ _ Ho) as [Hp Hcs].
  apply Forall_with_call; [done|]; split; [done|by apply Forall_insert].
Qed.

Lemma gstep_clients lb g g' : gstep_view g lb g' -> clients g -> clients g'.
Proof.
  intros Hv Hc; assert (Hop : forall k o, grid_ops g !! k = Some o -> op_sides o)
    by (intros k o Ho; exact (proj1 (Forall_lookup _ _) Hc _ _ Ho)).
  destruct Hv as [i p n Hi Hp|k now o n n' rpcs p' Ho Hn Hr Hm|k j now o c n n' rpcs p' Ho Hk Hn Hm
    |k j o c r Ho Hk Hs Hr|k j e o c Ho Hk Hr];
    try (destruct (Hop _ _ Ho) as [Hcl Hcs]; pose proof (proj1 (Forall_lookup _ _) Hcs) as Hsv; simpl in Hsv).
  - apply Forall_app; split; [done|]; constructor; [|done]; split; [by destruct p|done].
  - apply Forall_insert; [done|]; split; [by eapply micro_client|]; apply Forall_app; split; [done|].
    by apply Forall_map, Forall_true.
  - apply clients_with_call; [done..|]; eapply micro_serving; [exact Hm|by eapply Hsv].
  - by apply clients_with_call.
  - apply clients_with_call; [done..|]; exact (Hsv _ _ Hk).
Qed.

(** An RPC of a call, and what the steps do to it. *)
Definition rpc_at (ops : list op) (k j : nat) : option call := o ← ops !! k; op_calls o !! j.

Lemma rpc_at_Some ops k j o c : ops !! k = Some o -> op_calls o !! j = Some c -> rpc_at ops k j = Some c.
Proof. unfold rpc_at; intros ->; done. Qed.

Lemma rpc_at_begin ops o k j c : rpc_at ops k j = Some c -> rpc_at (ops ++ [o]) k j = Some c.
Proof.
  unfold rpc_at; intros (x & Hx & Hc)%bind_Some; by rewrite (lookup_app_l_Some _ _ _ _ Hx).
Qed.

Lemma rpc_at_turn ops k0 o0 i p l k j c :
  ops !! k0 = Some o0 -> rpc_at ops k j = Some c ->
  rpc_at (<[k0 := MkOp i p (op_calls o0 ++ l)]> ops) k j = Some c.
Proof.
  unfold rpc_at; intros H0 (x & Hx & Hc)%bind_Some; destruct (decide (k0 = k)) as [->|Hne].
  - rewrite list_lookup_insert_eq by (by eapply lookup_lt_Some); simplify_eq/=.
    by rewrite (lookup_app_l_Some _ _ _ _ Hc).
  - rewrite list_lookup_insert_ne by done; by rewrite Hx.
Qed.

Lemma rpc_at_with_call ops k0 o0 j0 c0 c' k j :
  ops !! k0 = Some o0 -> op_calls o0 !! j0 = Some c0 ->
  rpc_at (with_call k0 o0 j0 c' ops) k j = if decide ((k0, j0) = (k, j)) then Some c' else rpc_at ops k j.
Proof.
  unfold rpc_at, with_call; intros H0 Hc0; case_decide as Hd.
  - injection Hd as -> ->; rewrite list_lookup_insert_eq by (by eapply lookup_lt_Some).
    apply list_lookup_insert_eq; by eapply lookup_lt_Some.
  - destruct (decide (k0 = k)) as [->|Hne]; [|by rewrite list_lookup_insert_ne].
    rewrite list_lookup_insert_eq by (by eapply lookup_lt_Some); simpl.
    rewrite list_lookup_insert_ne by congruence; by rewrite H0.
Qed.

(** The RPC [j] of call [k] is being served at node [i], which holds back the
    writes of [b], and is about to deliver [req]. *)
Record delivering (g : grid) (i k j : nat) (n : Node AnyHandler) (b : Buffer) (req : ReplicateRequest)
    (ts : Timestamp) : Prop := {
  dv_node : grid_nodes g !! i = Some n;
  dv_buffer : active_buffer n = Some b;
  dv_call : exists c, rpc_at (grid_ops g) k j = Some c /\ call_peer c = i /\ call_srv c = RClocked req ts
}.

Lemma nodes_insert_buffer (ns : list (Node AnyHandler)) i n i0 n0 n' b :
  ns !! i = Some n -> active_buffer n = Some b -> ns !! i0 = Some n0 ->
  (i0 = i -> active_buffer n' = active_buffer n0) ->
  exists n1, <[i0 := n']> ns !! i = Some n1 /\ active_buffer n1 = Some b.
Proof.
  intros Hn Hb Hn0 Hab; destruct (decide (i0 = i)) as [->|Hne].
  - exists n'; rewrite list_lookup_insert_eq by (by eapply lookup_lt_Some); simplify_eq; by rewrite Hab.
  - exists n; by rewrite list_lookup_insert_ne.
Qed.

Lemma gstep_delivering lb g g' i k j n b req ts :
  gstep_view g lb g' -> enters_buffer lb g = false -> clients g -> delivering g i k j n b req ts ->
  exists n', delivering g' i k j n' b req ts.
Proof.
  intros Hv He Hcl [Hn Hb (c & Hc & Hp & Hs)].
  destruct Hv as [i0 p n0 Hi Hst|k0 now o0 n0 n' rpcs p' Ho0 Hn0 Hr Hm|k0 j0 now o0 c0 n0 n' rpcs p' Ho0 Hc0 Hn0 Hm
    |k0 j0 o0 c0 r Ho0 Hc0 Hs0 Hr|k0 j0 e o0 c0 Ho0 Hc0 Hr].
  - exists n; split; [done..|]; exists c; split; [by apply rpc_at_begin|done].
  - destruct (nodes_insert_buffer _ _ _ _ _ n' _ Hn Hb Hn0) as (n1 & Hn1 & Hb1).
    { intros _; eapply micro_buffer; [exact Hm|]; intros req0 ts0 Heq.
      unfold clients in Hcl; rewrite Forall_lookup in Hcl; destruct (Hcl _ _ Ho0) as [Hcl0 _]; by rewrite Heq in Hcl0. }
    exists n1; split; [done..|]; exists c; split; [by apply rpc_at_turn|done].
  - assert (Hnot : active_buffer n0 <> None -> forall req0 ts0, call_srv c0 <> RClocked req0 ts0).
    { intros Hb0 req0 ts0 Heq; simpl in He; rewrite Ho0 in He; simpl in He; rewrite Hc0 in He; simpl in He.
      rewrite Hn0 in He; simpl in He; rewrite Heq in He; by destruct (active_buffer n0). }
    destruct (nodes_insert_buffer _ _ _ _ _ n' _ Hn Hb Hn0) as (n1 & Hn1 & Hb1).
    { intros Hi; eapply micro_buffer; [exact Hm|]; apply Hnot; congruence. }
    exists n1; split; [done..|]; exists c; split; [|done]; simpl.
    rewrite (rpc_at_with_call _ _ _ _ c0) by done; case_decide as Hd; [|done]; injection Hd as -> ->.
    rewrite (rpc_at_Some _ _ _ _ _ Ho0 Hc0) in Hc; simplify_eq; by destruct (Hnot ltac:(congruence) _ _ Hs).
  - exists n; split; [done..|]; exists c; split; [|done]; simpl.
    rewrite (rpc_at_with_call _ _ _ _ c0) by done; case_decide as Hd; [|done]; injection Hd as -> ->.
    rewrite (rpc_at_Some _ _ _ _ _ Ho0 Hc0) in Hc; congruence.
  - exists n; split; [done..|]; simpl; rewrite (rpc_at_with_call _ _ _ _ c0) by done.
    case_decide as Hd; [|by exists c]; injection Hd as -> ->.
    rewrite (rpc_at_Some _ _ _ _ _ Ho0 Hc0) in Hc; simplify_eq; by eexists.
Qed.

(** ** The invariant of causal clusters *)

(** The writes a delivery may apply. *)
Definition rx_writes (b : Buffer) (req : ReplicateRequest) (ts : Timestamp) : list write :=
  Buffer_held b ++ [MkWrite (RR_Key req) (request_value req ts)].

Record fine_causal (opts : Options) (N : nat) (f : fine) : Prop := {
  fc_grid : grid_causal opts N (fn_grid f);
  fc_clients : clients (fn_grid f);
  fc_busy : forall i rx, fn_busy f !! i = Some rx -> exists n b req ts ws g0,
    delivering (fn_grid f) i (rx_op rx) (rx_rpc rx) n b req ts /\ all_reached ws (Node_Store n) /\
    good (rx_writes b req ts) (rx_prog rx) (MkGhost (Node_Store n) ws)
      (receive_post b (MkWrite (RR_Key req) (request_value req ts)) g0)
}.

(** One access of a program that is doing well. *)
Lemma good_access Y {A} (p q : prog A) g Q s :
  Forall write_nonneg Y -> good Y p g Q -> gh_ok g -> access p (gh_store g) = Some (q, s) ->
  exists g', gh_store g' = s /\ good Y q g' Q /\ gh_le g g' /\
    (g' = g \/ exists w, w ∈ Y /\ g' = gh_put w g).
Proof.
  intros HY Hp Hok Ha; destruct p as [a|key k|key val k]; simpl in *; simplify_eq.
  - exists g; split; [done|]; split; [by apply Hp|]; split; [by eapply rely_le|by left].
  - destruct (Hp g ltac:(done)) as [[Hin Hd] Hk]; exists (gh_put (MkWrite key val) g).
    split; [simpl; by rewrite applyLocked_apply_write|]; split; [done|]; split; [by eapply put_le|].
    right; by eexists.
Qed.

Lemma node_causal_ok n ws : node_causal n -> all_reached ws (Node_Store n) -> gh_ok (MkGhost (Node_Store n) ws).
Proof. intros [Hcl Hnn _ _ _] Hall; by split. Qed.

(** The writes of a delivery under way are well-formed. *)
Lemma delivering_wt mode opts N g i k j n b req ts :
  grid_wt mode opts N g -> delivering g i k j n b req ts ->
  val_wt (request_value req ts) /\ Forall (fun w => val_wt (write_val w)) (Buffer_held b).
Proof.
  intros Hg [Hn Hb (c & (o & Ho & Hc)%bind_Some & _ & Hs)]; pose proof (gw_nodes _ _ _ _ Hg _ _ Hn) as Hnw; split.
  - destruct (proj1 (Forall_lookup _ _) (gw_ops _ _ _ _ Hg) _ _ Ho) as [_ Hw].
    pose proof (proj1 (Forall_lookup _ _) Hw _ _ Hc) as Hwp; simpl in Hwp; rewrite Hs in Hwp.
    destruct Hwp as [Hrw Hts]; destruct (RR_Timestamp req) as [pts|] eqn:Hpts; simplify_eq/=.
    by apply request_value_wt.
  - pose proof (nw_buffer _ _ _ _ Hnw) as Hh; unfold active_buffer in Hb.
    destruct (String.eqb _ _); [|done]; rewrite Hb in Hh; apply Hh.
Qed.

Lemma delivering_writes opts N g i k j n b req ts :
  grid_causal opts N g -> delivering g i k j n b req ts ->
  Forall (fun w => write_nonneg w /\ val_wt (write_val w)) (rx_writes b req ts).
Proof.
  intros Hg Hd; destruct (delivering_wt _ _ _ _ _ _ _ _ _ _ _ (gc_wt _ _ _ Hg) Hd) as [Hreq Hheld].
  destruct Hd as [Hn Hb (c & (o & Ho & Hc)%bind_Some & _ & Hs)].
  pose proof (gc_nodes _ _ _ Hg _ _ Hn) as Hnc; apply Forall_app; split.
  - apply Forall_and; split; [|done]; pose proof (nc_held _ Hnc) as Hh; unfold held in Hh; by rewrite Hb in Hh.
  - constructor; [|done]; destruct (proj1 (Forall_lookup _ _) (gc_epoch _ _ _ Hg) _ _ Ho) as [_ He].
    destruct (proj1 (Forall_lookup _ _) He _ _ Hc) as [Hep _]; simpl in Hep; rewrite Hs in Hep; by split.
Qed.

(** A node and a call put back into a causal grid. *)
Lemma grid_wt_update mode opts N g i n' k o' :
  grid_wt mode opts N g -> node_wt mode (other_peers N i) opts n' -> pc_wt mode (op_pc o') ->
  Forall (fun c => pc_wt mode (call_srv c)) (op_calls o') ->
  grid_wt mode opts N (MkGrid (<[i := n']> (grid_nodes g)) (<[k := o']> (grid_ops g))).
Proof.
  intros [Hlen Hns Hops] Hn Hp Hc; split; simpl; rewrite ?length_insert; [done| |by apply Forall_insert].
  intros j x [[<- <-]|[_ Hx]]%insert_lookup_cases; auto.
Qed.

Lemma grid_causal_put opts N g i n n' k o o' :
  grid_causal opts N g -> grid_nodes g !! i = Some n -> grid_ops g !! k = Some o ->
  node_wt "causal" (other_peers N i) opts n' -> node_causal n' -> store_le (Node_Store n) (Node_Store n') ->
  op_node o' = op_node o -> op_pc o' = op_pc o ->
  Forall (fun c => pc_wt "causal" (call_srv c) /\ call_epoch c) (op_calls o') ->
  let g' := MkGrid (<[i := n']> (grid_nodes g)) (<[k := o']> (grid_ops g)) in
  grid_causal opts N g' /\ stores_le g g'.
Proof.
  intros Hg Hi Hk Hw Hn Hle Hon Hop [Hcw Hce]%Forall_and g'.
  destruct (proj1 (Forall_lookup _ _) (gc_epoch _ _ _ Hg) _ _ Hk) as [Hep _].
  destruct (proj1 (Forall_lookup _ _) (gw_ops _ _ _ _ (gc_wt _ _ _ Hg)) _ _ Hk) as [Hwp _].
  assert (Hsle : stores_le g g') by (by eapply stores_le_insert).
  assert (Hns : forall j x, grid_nodes g' !! j = Some x -> node_causal x).
  { intros j x [[<- <-]|[_ Hx]]%insert_lookup_cases; [done|by eapply gc_nodes]. }
  split; [|done]; eapply (grid_causal_update opts N g g' k o o'); try done.
  - apply grid_wt_update; [apply Hg|done|by rewrite Hop|done].
  - by rewrite Hop.
  - rewrite Hon, Hop; intros x Hx; destruct (Hsle _ _ Hx) as (y & Hy & Hst).
    eapply pc_causal_mono; [exact Hst|by eapply nc_nonneg, Hns|by eapply gc_seen].
Qed.

(** What a delivery at another node sees. *)
Lemma delivering_other g i i' k j n b req ts n' ops' :
  delivering g i k j n b req ts -> i' <> i ->
  (forall c, rpc_at (grid_ops g) k j = Some c -> call_peer c = i -> rpc_at ops' k j = Some c) ->
  delivering (MkGrid (<[i' := n']> (grid_nodes g)) ops') i k j n b req ts.
Proof.
  intros [Hn Hb (c & Hc & Hp & Hs)] Hne Hops; split; simpl; [by rewrite list_lookup_insert_ne|done|].
  exists c; auto.
Qed.

(** ** Its steps *)

Section steps.
Context (opts : Options) (N : nat).
Implicit Types (f : fine) (g : grid).

Lemma fine_grid_step f lb g' :
  fine_causal opts N f -> causal_step lb (fn_grid f) = true -> enters_buffer lb (fn_grid f) = false ->
  gstep_view (fn_grid f) lb g' ->
  fine_causal opts N (MkFine g' (fn_busy f)) /\ stores_le (fn_grid f) g'.
Proof.
  intros [Hg Hcl Hbusy] Hok He Hv; destruct (step_causal _ _ _ _ _ Hg Hok Hv) as [Hg' Hle].
  split; [|done]; split; simpl; [done|by eapply gstep_clients|].
  intros i rx Hrx; destruct (Hbusy i rx Hrx) as (n & b & req & ts & ws & g0 & Hd & Hall & Hgood).
  destruct (gstep_delivering _ _ _ _ _ _ _ _ _ _ Hv He Hcl Hd) as (n' & Hd').
  pose proof (gc_nodes _ _ _ Hg' _ _ (dv_node _ _ _ _ _ _ _ _ Hd')) as Hnc.
  destruct (Hle _ _ (dv_node _ _ _ _ _ _ _ _ Hd')) as (x & Hx & Hst).
  rewrite (dv_node _ _ _ _ _ _ _ _ Hd) in Hx; simplify_eq.
  assert (Hall' : all_reached ws (Node_Store n')).
  { eapply all_reached_mono; [done| |done]; split; apply Hnc. }
  exists n', b, req, ts, ws, g0; split; [done|]; split; [done|].
  eapply good_rely; [exact Hgood|]; intros _; split; [by apply node_causal_ok|]; split; [done|].
  exists []; rewrite app_nil_r; split; [done|]; intros d _; apply absent_nil.
Qed.

Lemma fine_lock f k j o c n b req ts :
  fine_causal opts N f -> grid_ops (fn_grid f) !! k = Some o -> op_calls o !! j = Some c ->
  grid_nodes (fn_grid f) !! call_peer c = Some n -> active_buffer n = Some b ->
  call_srv c = RClocked req ts ->
  fine_causal opts N (MkFine (fn_grid f)
    (<[call_peer c := MkReceiving k j (receive_prog (RR_Key req) (request_value req ts) b)]> (fn_busy f))).
Proof.
  intros [Hg Hcl Hbusy] Ho Hc Hn Hb Hs; split; simpl; [done..|].
  intros i rx [[<- <-]|[_ Hrx]]%lookup_insert_Some; [|by apply Hbusy]; simpl.
  assert (Hd : delivering (fn_grid f) (call_peer c) k j n b req ts).
  { split; [done..|]; exists c; split; [by eapply rpc_at_Some|done]. }
  pose proof (delivering_writes _ _ _ _ _ _ _ _ _ _ Hg Hd) as [Hnn _]%Forall_and.
  exists n, b, req, ts, [], (MkGhost (Node_Store n) []); split; [done|]; split; [constructor|].
  apply receive_good; [done..|]; apply node_causal_ok; [by eapply gc_nodes|constructor].
Qed.

Lemma node_causal_store s n :
  node_causal n -> store_ok s -> store_le (Node_Store n) s -> node_causal (with_store s n).
Proof.
  intros [_ _ Hh Hr Hc] [Hcl Hnn] Hle; split; simpl; try done.
  rewrite pending_deps_store; by eapply depsSatisfied_mono.
Qed.

Lemma fine_access f i rx n p s :
  fine_causal opts N f -> fn_busy f !! i = Some rx -> grid_nodes (fn_grid f) !! i = Some n ->
  access (rx_prog rx) (Node_Store n) = Some (p, s) ->
  let f' := MkFine (MkGrid (<[i := with_store s n]> (grid_nodes (fn_grid f))) (grid_ops (fn_grid f)))
              (<[i := MkReceiving (rx_op rx) (rx_rpc rx) p]> (fn_busy f)) in
  fine_causal opts N f' /\ stores_le (fn_grid f) (fn_grid f').
Proof.
  intros [Hg Hcl Hbusy] Hrx Hn Ha f'.
  destruct (Hbusy i rx Hrx) as (n1 & b & req & ts & ws & g0 & Hd & Hall & Hgood).
  pose proof (delivering_writes _ _ _ _ _ _ _ _ _ _ Hg Hd) as [Hnn Hwt]%Forall_and.
  pose proof Hd as [Hn1 Hb (c & Hc & Hp & Hs)]; simplify_eq; set (i := call_peer c) in *.
  pose proof (gc_nodes _ _ _ Hg _ _ Hn) as Hnc; pose proof (gw_nodes _ _ _ _ (gc_wt _ _ _ Hg) _ _ Hn) as Hnw.
  destruct (good_access _ _ _ _ _ _ Hnn Hgood (node_causal_ok _ _ Hnc Hall) Ha)
    as (g' & <- & Hgood' & [[Hok' Hall'] Hle _] & Hcase); simpl in Hle.
  assert (Hstw : map_Forall (fun _ v => val_wt v) (gh_store g')).
  { destruct Hcase as [->|(w & Hw & ->)]; [apply Hnw|]; simpl.
    apply (apply_writes_wt (Node_Store n) [w]); [apply Hnw|]; constructor; [|done].
    by rewrite Forall_forall in Hwt; apply Hwt. }
  apply bind_Some in Hc as (o & Ho & Hc).
  destruct (grid_causal_put opts N (fn_grid f) i n (with_store (gh_store g') n) (rx_op rx) o o) as [Hg2 Hsle];
    try done; [by apply node_wt_store|by apply node_causal_store| |].
  { destruct (proj1 (Forall_lookup _ _) (gc_epoch _ _ _ Hg) _ _ Ho) as [_ He].
    destruct (proj1 (Forall_lookup _ _) (gw_ops _ _ _ _ (gc_wt _ _ _ Hg)) _ _ Ho) as [_ Hw].
    apply Forall_and; by split. }
  rewrite (list_insert_id (grid_ops (fn_grid f)) (rx_op rx) o Ho) in Hg2, Hsle.
  split; [|done]; subst f'; split; simpl; [done|done|].
  intros i' rx' [[<- <-]|[Hne Hrx']]%lookup_insert_Some.
  - exists (with_store (gh_store g') n), b, req, ts, (gh_applied g'), g0; split; [|by destruct g'].
    split; simpl; [rewrite list_lookup_insert_eq; [done|by eapply lookup_lt_Some]|done|].
    exists c; split; [by eapply rpc_at_Some|done].
  - destruct (Hbusy i' rx' Hrx') as (n' & b' & req' & ts' & ws' & g0' & Hd' & Hall2 & Hgood2).
    exists n', b', req', ts', ws', g0'; split; [by apply delivering_other|done].
Qed.

Lemma fine_unlock f i rx n o c b now :
  fine_causal opts N f -> fn_busy f !! i = Some rx -> grid_nodes (fn_grid f) !! i = Some n ->
  grid_ops (fn_grid f) !! rx_op rx = Some o -> op_calls o !! rx_rpc rx = Some c ->
  rx_prog rx = PRet (Some (b, now)) ->
  let f' := MkFine (MkGrid (<[i := with_buffer b n]> (grid_nodes (fn_grid f)))
                 (with_call (rx_op rx) o (rx_rpc rx)
                    (MkCall (call_peer c) (RDone (Ok (MkReplicateResponse true))) (call_reply c))
                    (grid_ops (fn_grid f))))
         (delete i (fn_busy f)) in
  fine_causal opts N f' /\ stores_le (fn_grid f) (fn_grid f').
Proof.
  intros [Hg Hcl Hbusy] Hrx Hn Ho Hc Hprog f'.
  destruct (Hbusy i rx Hrx) as (n1 & b1 & req & ts & ws & g0 & Hd & Hall & Hgood).
  pose proof (delivering_writes _ _ _ _ _ _ _ _ _ _ Hg Hd) as Hwr.
  pose proof Hd as [Hn1 Hb (c1 & Hc1 & Hp & Hs)]; rewrite (rpc_at_Some _ _ _ _ _ Ho Hc) in Hc1; simplify_eq.
  set (i := call_peer c1) in *.
  pose proof (gc_nodes _ _ _ Hg _ _ Hn) as Hnc; pose proof (gw_nodes _ _ _ _ (gc_wt _ _ _ Hg) _ _ Hn) as Hnw.
  rewrite Hprog in Hgood; destruct (Hgood (MkGhost (Node_Store n) ws) ltac:(done))
    as (_ & b' & now' & ws' & [= <- <-] & Hperm & _).
  assert (Hheld : Forall (fun w => write_nonneg w /\ val_wt (write_val w)) (Buffer_held b)).
  { unfold rx_writes in Hwr; rewrite <- Hperm in Hwr; by apply Forall_app in Hwr as [_ ?]. }
  apply Forall_and in Hheld as [Hnn Hwt].
  assert (Hm : String.eqb (Node_Mode n) "causal" = true) by (by rewrite (nw_mode _ _ _ _ Hnw)).
  destruct (grid_causal_put opts N (fn_grid f) i n (with_buffer b n) (rx_op rx) o
    (MkOp (op_node o) (op_pc o) (<[rx_rpc rx := MkCall i (RDone (Ok (MkReplicateResponse true))) (call_reply c1)]>
       (op_calls o)))) as [Hg2 Hsle]; try done.
  - destruct Hnw; by split.
  - destruct Hnc; split; simpl; try done; [|by rewrite (pending_frame n)].
    unfold held, active_buffer; simpl; by rewrite Hm.
  - destruct (proj1 (Forall_lookup _ _) (gc_epoch _ _ _ Hg) _ _ Ho) as [_ He].
    destruct (proj1 (Forall_lookup _ _) (gw_ops _ _ _ _ (gc_wt _ _ _ Hg)) _ _ Ho) as [_ Hw].
    apply Forall_insert; [by apply Forall_and|done].
  - split; [|done]; subst f'; split; simpl; [done|by apply clients_with_call|].
    intros i' rx' [Hne Hrx']%lookup_delete_Some.
    destruct (Hbusy i' rx' Hrx') as (n' & b'' & req' & ts' & ws'' & g0' & Hd' & Hall2 & Hgood2).
    exists n', b'', req', ts', ws'', g0'; split; [|done]; apply delivering_other; [done..|].
    intros c' Hc' Hp'; rewrite (rpc_at_with_call _ _ _ _ c1) by done; case_decide as Hdec; [|done].
    injection Hdec as H1 H2; rewrite <- H1, <- H2, (rpc_at_Some _ _ _ _ _ Ho Hc) in Hc'; by simplify_eq.
Qed.

End steps.

Lemma fstep_causal opts N lb f f' :
  fine_causal opts N f -> on_grid causal_step lb f = true -> fstep_view f lb f' ->
  fine_causal opts N f' /\ stores_le (fn_grid f) (fn_grid f').
Proof.
  intros Hf Hok Hv; destruct Hv.
  - by apply fine_grid_step with lb.
  - split; [by eapply fine_lock|apply stores_le_refl].
  - by apply fine_access.
  - by eapply fine_unlock.
Qed.

Lemma frun_causal opts N ls f f' :
  fine_causal opts N f -> frun_all causal_step ls f = true -> frun ls f = Some f' ->
  fine_causal opts N f' /\ stores_le (fn_grid f) (fn_grid f').
Proof.
  intros Hf Hok Hrun.
  apply (frun_all_ind causal_step
    (fun f' => fine_causal opts N f' /\ stores_le (fn_grid f) (fn_grid f')) ls f f'); try done.
  - split; [done|apply stores_le_refl].
  - intros lb f1 f2 [Hf1 Hle1] Hlb Hv; destruct (fstep_causal _ _ _ _ _ Hf1 Hlb Hv) as [? ?].
    split; [done|by eapply stores_le_trans].
Qed.

Lemma init_fine_causal opts nows g :
  Forall (fun now => reading_ok now = true) nows -> init_grid "causal" opts nows = Some g ->
  fine_causal opts (length nows) (whole g).
Proof.
  intros Hnows Hinit; split; [by apply init_grid_causal| |by intros i rx Hrx].
  unfold init_grid in Hinit; apply fmap_Some in Hinit as (c & _ & ->); constructor.
Qed.

(** ** Properties *)

(** C18: refinement: every run of the grid, where a delivery is one step, is a run at
    the grain of the accesses to the store, between the same states, and the
    steps outside the buffers pass the same tests. *)
Theorem grid_run_fine t ls g g' :
  grun ls g = Some g' -> grun_all t ls g = true ->
  exists fls, frun fls (whole g) = Some (whole g') /\ frun_all t fls (whole g) = true.
Proof. apply grun_fine. Qed.

(** Node 0 has put x, read it and put y; both are delivered to node 1. *)
Definition c_both : grid :=
  default (c_grid "causal") (grun (c_put_read_put ++ c_deliver_both) (c_grid "causal")).

Lemma grid_run_fine_witness :
  option_map (fun n => size (Node_Store n)) (grid_nodes c_both !! 1) = Some 2 /\
  exists fls, frun fls (whole (c_grid "causal")) = Some (whole c_both) /\
    frun_all causal_step fls (whole (c_grid "causal")) = true.
Proof.
  split; [vm_compute; reflexivity|].
  apply (grid_run_fine causal_step (c_put_read_put ++ c_deliver_both)); vm_compute; reflexivity.
Defined.

(** C2: causal safety at the grain of single accesses: in a causal cluster whose
    handlers interleave in any way, also in the middle of the deliveries of one
    another, as long as no local write is stored over a later version of its
    key and the clocks read int64s from the epoch on, every value in every store
    has its dependencies in the same store at every point, and no version of a key
    ever goes back. *)
Theorem fine_causal_safety opts nows g0 ls1 f1 ls2 f2 i n2 :
  Forall (fun now => reading_ok now = true) nows -> init_grid "causal" opts nows = Some g0 ->
  frun_all causal_step ls1 (whole g0) = true -> frun ls1 (whole g0) = Some f1 ->
  frun_all causal_step ls2 f1 = true -> frun ls2 f1 = Some f2 ->
  grid_nodes (fn_grid f2) !! i = Some n2 ->
  causally_closed (Node_Store n2) /\
  exists n1, grid_nodes (fn_grid f1) !! i = Some n1 /\ store_le (Node_Store n1) (Node_Store n2).
Proof.
  intros Hnows Hinit Hok1 Hrun1 Hok2 Hrun2 Hn2.
  destruct (frun_causal _ _ _ _ _ (init_fine_causal _ _ _ Hnows Hinit) Hok1 Hrun1) as [Hf1 _].
  destruct (frun_causal _ _ _ _ _ Hf1 Hok2 Hrun2) as [Hf2 Hle].
  split; [|by apply Hle]; by eapply nc_closed, (gc_nodes _ _ _ (fc_grid _ _ _ Hf2)).
Qed.

(** Node 0 has put x, read it and put y.  At node 1 y arrives first and is held;
    x arrives and is applied, and in the middle of that delivery a client puts z
    there. *)
Definition c_y_held : list flabel :=
  map FStep c_put_read_put ++ [FStep (GServe 2 0 320); FLock 2 0; FAccess 1; FUnlock 1].
Definition c_x_applied : list flabel := c_y_held ++ [FStep (GServe 0 0 330); FLock 0 0; FAccess 1].
Definition c_z_between : list flabel :=
  map FStep ([GBegin 1 (WStart "z" [x63] false)] ++ turns 3 3 340) ++ [FAccess 1; FAccess 1; FUnlock 1].

Definition c_in_receive : fine := default (whole (c_grid "causal")) (frun c_x_applied (whole (c_grid "causal"))).
Definition c_received : fine := default c_in_receive (frun c_z_between c_in_receive).

Definition c_walls (f : fine) : option (list (option Z)) :=
  n ← grid_nodes (fn_grid f) !! 1;
  Some (map (fun k => option_map WallTime (Value_Timestamp <$> Node_Store n !! k)) ["x"; "y"; "z"]).

Lemma fine_causal_safety_witness :
  c_walls c_in_receive = Some [Some 300%Z; None; None] /\ isSome (fn_busy c_in_receive !! 1) = true /\
  c_walls c_received = Some [Some 300%Z; Some 310%Z; Some 340%Z] /\
  forall n, grid_nodes (fn_grid c_received) !! 1 = Some n -> causally_closed (Node_Store n).
Proof.
  do 3 (split; [vm_compute; reflexivity|]); intros n Hn.
  refine (proj1 (fine_causal_safety c_opts [100; 100; 100]%Z (c_grid "causal") c_x_applied c_in_receive
    c_z_between c_received 1 n c_nows_ok _ _ _ _ _ Hn)); vm_compute; reflexivity.
Defined.
