(* ===== verification/Stamps.v ===== *)
(** * Timestamps of concurrent writes ([src/internal/server], [src/internal/hlc])

    The writes made in a run of [Fine.v], and their timestamps: those of one node
    are pairwise different, however its handlers interleave, so two writes of a
    run can only have one timestamp if different nodes made them. *)

From S2P Require Import Prelude Hlc Store Buffer Wire Replication Server Cluster Interleave Grid Strong Causal.
From S2P Require Import Converge Delivery Fine.

(** ** Histories *)

(** The write a step stores first. *)
Definition origin (lb : glabel) (g : grid) : list (nat * write) :=
  match lb with
  | GTurn k _ =>
      match grid_ops g !! k with
      | Some (MkOp i (WDeps key v) _) => [(i, MkWrite key v)]
      | _ => []
      end
  | _ => []
  end.

Definition forigin (lb : flabel) (f : fine) : list (nat * write) :=
  match lb with FStep lb => origin lb (fn_grid f) | _ => [] end.

Fixpoint fhistory (ls : list flabel) (f : fine) : list (nat * write) :=
  match ls with
  | [] => []
  | lb :: ls => forigin lb f ++ match fstep lb f with Some f' => fhistory ls f' | None => [] end
  end.

(** The write of a turn that stores. *)
Definition new_write (p : pc) : list write :=
  match p with WDeps key v => [MkWrite key v] | _ => [] end.

Lemma origin_turn k now g o :
  grid_ops g !! k = Some o -> origin (GTurn k now) g = map (pair (op_node o)) (new_write (op_pc o)).
Proof. simpl; intros ->; destruct o as [i p l]; by destruct p. Qed.

(** ** Timestamps given by a node *)

(** What a handler has been given and not used yet. *)
Definition unused (p : pc) : list Timestamp :=
  match p with WSent _ v | WDeps _ v => [Value_Timestamp v] | _ => [] end.

Definition op_unused (o : op) : list (nat * Timestamp) := map (pair (op_node o)) (unused (op_pc o)).

Definition given_ts (h : list (nat * write)) (f : fine) : list (nat * Timestamp) :=
  map stamped_by h ++ flat_map op_unused (grid_ops (fn_grid f)).

Definition fine_stamped (h : list (nat * write)) (f : fine) : Prop :=
  stamped (given_ts h f) (grid_nodes (fn_grid f)).

(** ** Steps *)

Lemma flat_map_insert {A B} (g : A -> list B) (l : list A) k x y :
  l !! k = Some x -> exists rest, flat_map g l ≡ₚ g x ++ rest /\ flat_map g (<[k := y]> l) ≡ₚ g y ++ rest.
Proof.
  intros Hk; exists (flat_map g (take k l) ++ flat_map g (drop (S k) l)).
  rewrite insert_take_drop by (by eapply lookup_lt_Some).
  rewrite <- (take_drop_middle l k x Hk) at 1; rewrite !flat_map_app; simpl.
  split; by rewrite Permutation_app_swap_app.
Qed.

(** A turn gives a new timestamp, or uses what was given. *)
Lemma micro_unused now rs (n n' : Node AnyHandler) p rpcs p' :
  clock_wf (Node_Clock n) -> in_int64 now -> micro now rs n p = (n', rpcs, p') -> serving p = false ->
  (exists ts, unused p = [] /\ unused p' = [ts] /\ new_write p = [] /\
     ts_lt (Clock_Now (Node_Clock n)) ts /\ ts = Clock_Now (Node_Clock n')) \/
  map write_ts (new_write p) ++ unused p' = unused p.
Proof.
  intros Hwf Hnow Hm Hp; destruct p; try discriminate; simpl in Hm; try (by right; repeat case_match; simplify_eq/=).
  - pose proof (clock_step_view (Node_Clock n) (EvSend now) Hwf Hnow) as Hv; simpl in Hv.
    destruct (Clock_Send _ _) as [clk [ts|e]]; simplify_eq/=; [left|by right].
    destruct Hv as [[-> Hlt _ _ _] _]; by eexists.
Qed.

(** A clock after a turn. *)
Lemma micro_clock_le mode peers opts now rs (n n' : Node AnyHandler) p rpcs p' :
  node_wt mode peers opts n -> in_int64 now -> pc_wt mode p -> micro now rs n p = (n', rpcs, p') ->
  ts_le (Clock_Now (Node_Clock n)) (Clock_Now (Node_Clock n')).
Proof.
  intros Hn Hnow Hp Hm; eapply ct_le, micro_clock; [apply Hn|done| |exact Hm].
  destruct p as [| | | | | | | | | |req| |]; simpl; try done; unfold request_typed.
  destruct Hp as [(pts & -> & Hi) _]; by apply ts_issued_typed.
Qed.

Section steps.
Context (mode : string) (opts : Options) (N : nat).

Lemma gstep_clocks_grow g lb g' :
  grid_wt mode opts N g -> glabel_typed lb -> gstep_view g lb g' -> clocks_grow (grid_nodes g) (grid_nodes g').
Proof.
  intros [_ Hns Hops] Hty Hv.
  destruct Hv as [i p n Hi Hst|k now o n n' rpcs p' Ho Hn Hr Hm|k j now o c n n' rpcs p' Ho Hc Hn Hm
    |k j o c r Ho Hc Hs Hr|k j e o c Ho Hc Hr]; try apply clocks_grow_refl.
  - apply clocks_grow_insert with n; [done|]; eapply micro_clock_le; [by apply Hns|exact Hty| |exact Hm].
    by apply (proj1 (Forall_lookup _ _) Hops _ _ Ho).
  - apply clocks_grow_insert with n; [done|]; eapply micro_clock_le; [by apply Hns|exact Hty| |exact Hm].
    destruct (proj1 (Forall_lookup _ _) Hops _ _ Ho) as [_ Hcs]; exact (proj1 (Forall_lookup _ _) Hcs _ _ Hc).
Qed.

Lemma fstep_clocks_grow f lb f' :
  grid_wt mode opts N (fn_grid f) -> on_grid (fun lb _ => reading_step lb) lb f = true -> fstep_view f lb f' ->
  clocks_grow (grid_nodes (fn_grid f)) (grid_nodes (fn_grid f')).
Proof.
  intros Hwt Hok Hv; destruct Hv as [lb g' He Hv|k j o c n b req ts|i rx n p s Hrx Hn Ha|i rx n o c b now Hrx Hn]; simpl.
  - eapply gstep_clocks_grow; [done| |done]; unfold glabel_typed, reading_step in *; simpl in Hok.
    unfold reading_step in Hok; destruct (glabel_now lb); [|done]; by apply reading_ok_spec in Hok as [? _].
  - apply clocks_grow_refl.
  - apply clocks_grow_insert with n; [done|by left].
  - apply clocks_grow_insert with n; [done|by left].
Qed.

(** A step that changes no client's call. *)
Lemma given_call k o j c ops :
  ops !! k = Some o -> flat_map op_unused (with_call k o j c ops) ≡ₚ flat_map op_unused ops.
Proof.
  intros Hk; unfold with_call; destruct (flat_map_insert op_unused ops k o
    (MkOp (op_node o) (op_pc o) (<[j := c]> (op_calls o))) Hk) as (rest & -> & ->); done.
Qed.

Lemma fine_stamped_turn h f k now o n n' rpcs p' :
  grid_wt mode opts N (fn_grid f) -> clients (fn_grid f) -> reading_step (GTurn k now) = true ->
  grid_ops (fn_grid f) !! k = Some o -> grid_nodes (fn_grid f) !! op_node o = Some n ->
  micro now (op_replies o) n (op_pc o) = (n', rpcs, p') ->
  let f' := MkFine (MkGrid (<[op_node o := n']> (grid_nodes (fn_grid f)))
      (<[k := MkOp (op_node o) p' (op_calls o ++ map start_call rpcs)]> (grid_ops (fn_grid f)))) (fn_busy f) in
  clocks_grow (grid_nodes (fn_grid f)) (grid_nodes (fn_grid f')) ->
  fine_stamped h f -> fine_stamped (h ++ map (pair (op_node o)) (new_write (op_pc o))) f'.
Proof.
  intros Hwt Hcl Hok Ho Hn Hm f' Hg Hs.
  destruct (flat_map_insert op_unused _ _ _ (MkOp (op_node o) p' (op_calls o ++ map start_call rpcs)) Ho)
    as (rest & Hold & Hnew).
  destruct (proj1 (Forall_lookup _ _) Hcl _ _ Ho) as [Hp _]; apply reading_ok_spec in Hok as [Hok _].
  destruct (micro_unused _ _ _ _ _ _ _ (nw_clock _ _ _ _ (gw_nodes _ _ _ _ Hwt _ _ Hn)) Hok Hm Hp)
    as [(ts & Hu & Hu' & Hw & Hlt & Heq)|Hu].
  - rewrite Hw, app_nil_r; apply (stamped_new (given_ts h f) _ (grid_nodes (fn_grid f)) _ (op_node o) n n' ts); try done; [|by left|].
    + apply list_lookup_insert_eq; by eapply lookup_lt_Some.
    + unfold given_ts, f'; simpl; rewrite Hold, Hnew; unfold op_unused; simpl; rewrite Hu, Hu'; simpl.
      by rewrite Permutation_middle.
  - apply (stamped_same (given_ts h f) _ (grid_nodes (fn_grid f))); [done|done|]; unfold given_ts, f'; simpl; rewrite Hold, Hnew, map_app, <- app_assoc.
    f_equiv; unfold op_unused; simpl; rewrite <- Hu, !map_app, !map_map, <- app_assoc; done.
Qed.

Lemma fine_stamped_step h f lb f' :
  grid_wt mode opts N (fn_grid f) -> clients (fn_grid f) -> on_grid (fun lb _ => reading_step lb) lb f = true ->
  fstep_view f lb f' -> fine_stamped h f -> fine_stamped (h ++ forigin lb f) f'.
Proof.
  intros Hwt Hcl Hok Hv Hs; pose proof (fstep_clocks_grow _ _ _ Hwt Hok Hv) as Hg.
  destruct Hv as [lb g' He Hv|k j o c n b req ts|i rx n p s Hrx Hn Ha|i rx n o c b now Hrx Hn Hk Hj Hp];
    cbn [forigin fn_grid] in *; rewrite ?app_nil_r.
  - destruct Hv as [i p n Hi Hst|k now o n n' rpcs p' Ho Hn Hr Hm|k j now o c n n' rpcs p' Ho Hc Hn Hm
      |k j o c r Ho Hc Hsv Hr|k j e o c Ho Hc Hr]; try (cbn [origin]; rewrite app_nil_r).
    + apply (stamped_same (given_ts h f) _ (grid_nodes (fn_grid f))); [done|done|]; unfold given_ts; simpl; rewrite flat_map_app; simpl.
      destruct p; try discriminate; by rewrite !app_nil_r.
    + rewrite (origin_turn _ _ _ _ Ho); by eapply fine_stamped_turn.
    + apply (stamped_same (given_ts h f) _ (grid_nodes (fn_grid f))); [done|done|]; unfold given_ts; simpl; f_equiv; by apply given_call.
    + apply (stamped_same (given_ts h f) _ (grid_nodes (fn_grid f))); [done|done|]; unfold given_ts; simpl; f_equiv; by apply given_call.
    + apply (stamped_same (given_ts h f) _ (grid_nodes (fn_grid f))); [done|done|]; unfold given_ts; simpl; f_equiv; by apply given_call.
  - by apply (stamped_same (given_ts h f) _ (grid_nodes (fn_grid f))).
  - by apply (stamped_same (given_ts h f) _ (grid_nodes (fn_grid f))).
  - apply (stamped_same (given_ts h f) _ (grid_nodes (fn_grid f))); [done|done|]; unfold given_ts; simpl; f_equiv; by apply given_call.
Qed.

End steps.

(** ** Histories without ties *)

Lemma fine_stamped_init g : grid_ops g = [] -> fine_stamped [] (whole g).
Proof. intros Hg; split; unfold given_ts; simpl; rewrite Hg; [constructor|by intros i ts Hin%elem_of_nil]. Qed.

Lemma fine_stamped_stamps h f : fine_stamped h f -> ties_apart h -> NoDup (stamps h).
Proof. intros [Hnd _]; apply stamps_NoDup; unfold given_ts in Hnd; by apply NoDup_app in Hnd as [? _]. Qed.
