(* ===== verification/Settle.v ===== *)
(** * Convergence of a cluster with concurrent handlers

    [Converge.v] in the world of [Fine.v]: handlers of every node interleaved in
    any way, deliveries taken apart into single accesses, RPCs delayed and
    answered late or never.  Once every call has ended and every RPC has been
    served, no node holds a write back and all nodes have the same store. *)

From S2P Require Import Prelude Hlc Store Buffer Wire Replication Server Cluster Interleave Grid Strong Causal.
From S2P Require Import Converge Delivery Fine Stamps.

(** ** Histories *)

(** No client puts an empty value. *)
Definition value_given (lb : glabel) : bool :=
  match lb with GBegin _ (WStart _ data del) => Bool.eqb del (Nat.eqb (length data) 0) | _ => true end.

Definition settle_step (lb : glabel) (g : grid) : bool := causal_step lb g && value_given lb.

(** Every call has ended and every RPC was served without an error. *)
Definition served_ok (c : call) : bool :=
  match call_srv c with RDone (Ok _) => true | _ => false end.

Definition quiescent (f : fine) : bool :=
  forallb (fun o => pc_done (op_pc o) && forallb served_ok (op_calls o)) (grid_ops (fn_grid f)).

(** ** The invariant *)

(** What a served RPC has done for a write, at a node that has the writes [l]. *)
Definition carried (w : write) (l : list write) (c : call) : Prop :=
  match call_srv c with
  | RStart req | RClocked req _ => req = request_of w
  | RDone (Ok _) => w ∈ l
  | RDone (Err _) => True
  | _ => False
  end.

(** A write of node [o] comes to node [i]: its handler has yet to send it, or an
    RPC carries it. *)
Definition coming (ops : list op) (o i : nat) (w : write) (l : list write) : Prop :=
  (exists x, x ∈ ops /\ op_node x = o /\ op_pc x = WStored (write_key w) (write_val w)) \/
  (exists k j c, rpc_at ops k j = Some c /\ call_peer c = i /\ carried w l c).

(** What is known of the held writes, or of the delivery that handles them. *)
Definition waiting (g : grid) (i : nat) (n : Node AnyHandler) (rx : option receiving)
    (h : list (nat * write)) (ws : list write) : Prop :=
  match rx with
  | None => Forall (stuck ws) (held n)
  | Some rx => exists b req ts g0,
      delivering g i (rx_op rx) (rx_rpc rx) n b req ts /\
      Forall (fun w => w ∈ hist_writes h) (rx_writes b req ts) /\
      Forall (stuck (gh_applied g0)) (Buffer_held b) /\
      good (rx_writes b req ts) (rx_prog rx) (MkGhost (Node_Store n) ws)
        (receive_post b (MkWrite (RR_Key req) (request_value req ts)) g0)
  end.

(** Node [i], having applied the writes [ws]. *)
Record settled_node (f : fine) (h : list (nat * write)) (i : nat) (n : Node AnyHandler) (ws : list write)
    : Prop := {
  sn_store : Node_Store n = apply_writes ∅ ws;
  sn_from : forall w, w ∈ ws ++ held n -> w ∈ hist_writes h;
  sn_own : forall w, (i, w) ∈ h -> w ∈ ws;
  sn_other : forall o w, (o, w) ∈ h -> o <> i -> coming (grid_ops (fn_grid f)) o i w (ws ++ held n);
  sn_pending : forall d, d ∈ pending_deps n -> named h d;
  sn_waiting : waiting (fn_grid f) i n (fn_busy f !! i) h ws
}.

Definition pc_known (mode : string) (h : list (nat * write)) (i : nat) (p : pc) : Prop :=
  match p with
  | WStart _ data del => del = Nat.eqb (length data) 0
  | WSent _ v => wire_faithful v
  | WDeps _ v => wire_faithful v /\ (forall d, d ∈ Value_Deps v -> named h d) /\
                 (mode = "eventual" -> Value_Deps v = [])
  | WStored key v => (i, MkWrite key v) ∈ h /\ (mode = "eventual" -> Value_Deps v = [])
  | GRead key v => named h (MkDependency key (Value_Timestamp v))
  | RStart req | RClocked req _ => exists w, w ∈ hist_writes h /\ req = request_of w
  | _ => True
  end.

Definition op_known (mode : string) (h : list (nat * write)) (o : op) : Prop :=
  pc_known mode h (op_node o) (op_pc o) /\
  Forall (fun c => pc_known mode h (call_peer c) (call_srv c)) (op_calls o).

Record settling (mode : string) (f : fine) (h : list (nat * write)) : Prop := {
  st_nodes : forall i n, grid_nodes (fn_grid f) !! i = Some n -> exists ws, settled_node f h i n ws;
  st_ops : Forall (op_known mode h) (grid_ops (fn_grid f));
  st_faithful : Forall (fun w => wire_faithful (write_val w)) (hist_writes h);
  st_causal : hist_causal h
}.

(** What the invariant relies on of the runs of [Fine.v]. *)
Record fine_base (mode : string) (opts : Options) (N : nat) (f : fine) : Prop := {
  fb_async : async mode;
  fb_wt : grid_wt mode opts N (fn_grid f);
  fb_clients : clients (fn_grid f);
  fb_causal : mode = "causal" -> fine_causal opts N f;
  fb_eventual : mode = "eventual" -> fn_busy f = ∅
}.

(** ** Steps of a handler in the asynchronous modes *)

(** Nothing but the clock changed. *)
Record same_data (n n' : Node AnyHandler) : Prop := {
  sd_store : Node_Store n' = Node_Store n;
  sd_buffer : active_buffer n' = active_buffer n;
  sd_pending : pending_deps n' = pending_deps n
}.

Lemma same_data_refl n : same_data n n.
Proof. by split. Qed.

Lemma same_data_clock clk n : same_data n (with_clock clk n).
Proof. split; [done..|by apply pending_frame]. Qed.

#[local] Hint Resolve same_data_refl same_data_clock : core.

(** A turn of a client's call at node [i] of [N]. *)
Inductive async_turn (N i : nat) n : pc -> Node AnyHandler -> list outgoing -> pc -> Prop :=
| at_issued key data del n' ts : same_data n n' ->
    async_turn N i n (WStart key data del) n' [] (WSent key (MkValue data ts [] del))
| at_deps key v n' :
    Node_Store n' = Node_Store n -> active_buffer n' = active_buffer n -> pending_deps n' = [] ->
    async_turn N i n (WSent key v) n' [] (WDeps key (with_deps (pending_deps n) v))
| at_stored key v :
    async_turn N i n (WDeps key v) (with_store (local_store key v (Node_Store n)) n) [] (WStored key v)
| at_sent key v rpcs :
    messages rpcs = map (fun p => (p, request_of (MkWrite key v))) (other_peers N i) ->
    async_turn N i n (WStored key v) n rpcs (WDone key (Ok v))
| at_read key v : Node_Store n !! key = Some v -> async_turn N i n (GStart key) n [] (GRead key v)
| at_recorded key v n' r :
    Node_Store n' = Node_Store n -> active_buffer n' = active_buffer n ->
    (forall d, d ∈ pending_deps n' -> d ∈ pending_deps n \/ d = MkDependency key (Value_Timestamp v)) ->
    async_turn N i n (GRead key v) n' [] (GDone r)
| at_idle p n' p' : same_data n n' -> pc_done p' = true ->
    match p with WDeps _ _ | WStored _ _ => False | _ => True end -> async_turn N i n p n' [] p'.

Lemma micro_async_turn mode opts N i now rs n p n' rpcs p' :
  async mode -> node_wt mode (other_peers N i) opts n -> pc_wt mode p -> serving p = false ->
  (forall key v, p = WStored key v -> mode = "eventual" -> Value_Deps v = []) ->
  micro now rs n p = (n', rpcs, p') -> async_turn N i n p n' rpcs p'.
Proof.
  intros Ha Hn Hp Hs Hd; assert (Hm : Node_Mode n <> "strong")
    by (rewrite (nw_mode _ _ _ _ Hn); by destruct Ha as [->| ->]).
  assert (Hm' : mode <> "strong") by (by destruct Ha as [->| ->]).
  destruct p as [key data del|key v|key v|key v|key v|key v|key r|key|key v|r|req|req ts|]; try discriminate;
    cbn [micro]; try (by destruct Hp).
  - destruct (Clock_Send _ _) as [clk [ts|e]]; intros [= <- <- <-]; by constructor.
  - unfold pending_deps, take_deps; destruct (active_tracker n) as [rt|] eqn:Ht; intros [= <- <- <-].
    + assert (Heq : ReadTracker_reads rt = pending_deps n) by (by rewrite pending_deps_alt, Ht).
      simpl; rewrite Heq; constructor; [done..|].
      rewrite pending_deps_alt; unfold active_tracker in *; simpl; by destruct (String.eqb _ _).
    + assert (Heq : [] = pending_deps n) by (by rewrite pending_deps_alt, Ht).
      rewrite Heq; by constructor.
  - apply String.eqb_neq in Hm; rewrite Hm; intros [= <- <- <-]; constructor.
  - rewrite (async_OnWrite mode _ opts _ _ _ _ Ha (nw_handler _ _ _ _ Hn)) by (by eapply Hd).
    intros [= <- <- <-]; constructor; unfold messages, sends; by rewrite map_map.
  - intros [= <- <- <-]; by constructor.
  - unfold Store_Get; destruct (Node_Store n !! key) as [v|] eqn:Hv; [destruct (Value_Deleted v)|];
      intros [= <- <- <-]; by constructor.
  - intros [= <- <- <-]; constructor; destruct (active_tracker n) as [rt|] eqn:Ht; try done; [|by left].
    unfold pending_deps, take_deps, active_tracker in *; simpl; destruct (String.eqb _ _); [|done].
    rewrite Ht; simpl; intros d [?|?]%elem_of_snoc; auto.
  - intros [= <- <- <-]; by constructor.
Qed.

(** A step of a handler that serves an RPC. *)
Inductive async_serve n : pc -> Node AnyHandler -> pc -> Prop :=
| as_clocked req pts n' : same_data n n' -> RR_Timestamp req = Some pts ->
    async_serve n (RStart req) n' (RClocked req (fromProtoTS pts))
| as_refused req n' e : same_data n n' -> async_serve n (RStart req) n' (RDone (Err e))
| as_applied req ts n' resp :
    Node_Store n' = apply_write (Node_Store n) (MkWrite (RR_Key req) (request_value req ts)) ->
    active_buffer n = None -> active_buffer n' = None -> pending_deps n' = pending_deps n ->
    async_serve n (RClocked req ts) n' (RDone (Ok resp))
| as_done r : async_serve n (RDone r) n (RDone r).

Lemma micro_async_serve mode peers opts now n p n' rpcs p' :
  node_wt mode peers opts n -> pc_wt mode p -> serving p = true ->
  (active_buffer n = None \/ forall req ts, p <> RClocked req ts) ->
  micro now [] n p = (n', rpcs, p') -> async_serve n p n' p'.
Proof.
  intros Hn Hp Hs Hb; destruct p as [| | | | | | | | | |req|req ts|r]; try discriminate; cbn [micro].
  - destruct (proj1 Hp) as (pts & Hpts & _); rewrite Hpts.
    destruct (Clock_Receive _ _ _) as [clk [t|e]]; intros [= <- <- <-]; by constructor.
  - destruct Hb as [Hb|Hno]; [|by destruct (Hno req ts)]; rewrite Hb.
    pose proof (applyLocked_apply_write (RR_Key req) (request_value req ts) (Node_Store n)) as Happ.
    unfold applyLocked in Happ; simpl in *.
    destruct (if Nat.eqb _ 0 then Store_ApplyDelete _ _ _ else _) as [s ok] eqn:Hs2; intros [= <- <- <-].
    apply as_applied; [|done|done|by apply pending_frame].
    rewrite <- Happ; cbn [with_store Node_Store]; destruct (Nat.eqb _ 0); by rewrite Hs2.
  - intros [= <- <- <-]; constructor.
Qed.

(** ** Writes on their way *)

Lemma carried_mono w l l' c : carried w l c -> (forall x, x ∈ l -> x ∈ l') -> carried w l' c.
Proof. unfold carried; intros Hc Hl; destruct (call_srv c) as [| | | | | | | | | | | |[?|?]]; auto. Qed.

Lemma coming_mono ops o i w l l' :
  coming ops o i w l -> (forall x, x ∈ l -> x ∈ l') -> coming ops o i w l'.
Proof.
  intros [?|(k & j & c & Hc & Hp & Hw)] Hl; [by left|right; exists k, j, c]; split; [done|].
  split; [done|by eapply carried_mono].
Qed.

Lemma coming_begin ops x o i w l : coming ops o i w l -> coming (ops ++ [x]) o i w l.
Proof.
  intros [(y & Hy & ?)|(k & j & c & Hc & ?)]; [left; exists y; rewrite elem_of_app; auto|].
  right; exists k, j, c; split; [by apply rpc_at_begin|done].
Qed.

(** A turn of call [k] leaves a write on its way, if it sends those it should. *)
Lemma coming_turn ops k x p' rpcs o i w l :
  ops !! k = Some x -> coming ops o i w l ->
  (op_pc x = WStored (write_key w) (write_val w) -> op_node x = o -> (i, request_of w) ∈ messages rpcs) ->
  coming (<[k := MkOp (op_node x) p' (op_calls x ++ map start_call rpcs)]> ops) o i w l.
Proof.
  intros Hk [(y & [m Hm]%list_elem_of_lookup & Hn & Hp)|(k0 & j & c & Hc & ?)] Hsend.
  - destruct (decide (k = m)) as [->|Hne]; simplify_eq.
    + right; specialize (Hsend Hp eq_refl); unfold messages in Hsend.
      apply list_elem_of_lookup in Hsend as [a Ha]; rewrite list_lookup_fmap in Ha.
      apply fmap_Some in Ha as (out & Hout & [= Hpeer Hreq]).
      exists m, (length (op_calls x) + a), (start_call out); split; [|by rewrite Hpeer; unfold carried; simpl].
      eapply rpc_at_Some; [by apply list_lookup_insert_eq; eapply lookup_lt_Some|]; simpl.
      rewrite lookup_app_r by lia; replace (_ + a - _) with a by lia; by rewrite list_lookup_fmap, Hout.
    + left; exists y; split; [|done]; apply list_elem_of_lookup; exists m; by rewrite list_lookup_insert_ne.
  - right; exists k0, j, c; split; [by apply rpc_at_turn|done].
Qed.

(** So does a step of the handler of an RPC that still carries it. *)
Lemma coming_serve ops k x j c c' o i w l :
  ops !! k = Some x -> op_calls x !! j = Some c -> coming ops o i w l ->
  (call_peer c = i -> carried w l c -> call_peer c' = i /\ carried w l c') ->
  coming (with_call k x j c' ops) o i w l.
Proof.
  intros Hk Hj [(y & [m Hm]%list_elem_of_lookup & Hn & Hp)|(k0 & j0 & c0 & Hc & Hp & Hw)] Hcar.
  - left; unfold with_call; destruct (decide (k = m)) as [->|Hne]; simplify_eq.
    + eexists; split; [apply list_elem_of_lookup; exists m; apply list_lookup_insert_eq; by eapply lookup_lt_Some|done].
    + exists y; split; [apply list_elem_of_lookup; exists m; by rewrite list_lookup_insert_ne|done].
  - right; destruct (decide ((k, j) = (k0, j0))) as [[= <- <-]|Hne].
    + rewrite (rpc_at_Some _ _ _ _ _ Hk Hj) in Hc; simplify_eq.
      exists k, j, c'; rewrite (rpc_at_with_call _ _ _ _ c0) by done.
      rewrite decide_True by done; split; [done|by apply Hcar].
    + exists k0, j0, c0; rewrite (rpc_at_with_call _ _ _ _ c) by done; by rewrite decide_False.
Qed.

(** ** A node between two steps *)

Lemma named_mono h h' d : (forall w, w ∈ hist_writes h -> w ∈ hist_writes h') -> named h d -> named h' d.
Proof. intros Hh (w & Hw & ?); exists w; auto. Qed.

Lemma hist_named h y d : hist_causal h -> y ∈ hist_writes h -> d ∈ write_deps y -> named h d.
Proof.
  intros Hc [o (pre & post & ->)%list_elem_of_split]%elem_of_hist_inv Hd.
  eapply named_mono; [|by eapply Hc]; intros w Hw; rewrite hist_writes_app, elem_of_app; by left.
Qed.

Lemma apply_writes_reached ws : all_reached ws (apply_writes ∅ ws).
Proof.
  apply Forall_forall; intros w Hw; destruct (apply_writes_version ws w Hw) as (v & Hv & Hle).
  unfold version, Store_GetVersion; by rewrite Hv.
Qed.

Lemma ghost_ok ws : store_ok (apply_writes ∅ ws) -> gh_ok (MkGhost (apply_writes ∅ ws) ws).
Proof. intros Hok; split; [done|apply apply_writes_reached]. Qed.

(** The writes [new] come to a node, which keeps its buffer. *)
Record node_grow (f f' : fine) (h h' : list (nat * write)) (i : nat) (n n' : Node AnyHandler)
    (ws new : list write) : Prop := {
  ng_buffer : active_buffer n' = active_buffer n;
  ng_store : Node_Store n' = apply_writes ∅ (ws ++ new);
  ng_busy : fn_busy f' !! i = fn_busy f !! i;
  ng_hist : forall w, w ∈ hist_writes h -> w ∈ hist_writes h';
  ng_new : forall w, w ∈ new -> w ∈ hist_writes h';
  ng_own : forall o w, (o, w) ∈ h' -> (o, w) ∈ h \/
    (o = i -> w ∈ new) /\ (o <> i -> coming (grid_ops (fn_grid f')) o i w ((ws ++ new) ++ held n'));
  ng_coming : forall o w, (o, w) ∈ h -> o <> i -> coming (grid_ops (fn_grid f)) o i w (ws ++ held n) ->
    coming (grid_ops (fn_grid f')) o i w ((ws ++ new) ++ held n');
  ng_pending : forall d, d ∈ pending_deps n' -> named h' d;
  ng_delivering : forall k j b req ts, delivering (fn_grid f) i k j n b req ts ->
    delivering (fn_grid f') i k j n' b req ts;
  ng_fresh : active_buffer n = None \/ forall d, named h d -> absent new d;
  ng_ok : active_buffer n <> None -> store_ok (Node_Store n')
}.

Lemma settled_grow f f' h h' i n n' ws new :
  settled_node f h i n ws -> hist_causal h -> node_grow f f' h h' i n n' ws new ->
  settled_node f' h' i n' (ws ++ new).
Proof.
  intros [Hst Hfrom Hown Hother Hpend Hwait] Hc [Hbuf Hst' Hbusy Hhist Hnew Hown' Hcoming Hpend' Hdel Hfresh Hok].
  assert (Hheld : held n' = held n) by (unfold held; by rewrite Hbuf).
  split; try done; rewrite ?Hheld.
  - intros w; rewrite <- app_assoc, !elem_of_app; intros [Hw|[Hw|Hw]]; [|by apply Hnew|];
      apply Hhist, Hfrom; rewrite elem_of_app; auto.
  - intros w Hw; rewrite elem_of_app; destruct (Hown' _ _ Hw) as [Hw'|[Hw' _]]; [left; auto|right; auto].
  - intros o w Hw Ho; rewrite <- Hheld; destruct (Hown' _ _ Hw) as [Hw'|[_ Hw']]; [|auto].
    by apply Hcoming; [| |apply Hother].
  - rewrite Hbusy; destruct (fn_busy f !! i) as [rx|]; simpl in *.
    + destruct Hwait as (b & req & ts & g0 & Hd & Hin & Hstk & Hgood).
      pose proof (dv_buffer _ _ _ _ _ _ _ _ Hd) as Hb; specialize (Hok ltac:(congruence)).
      destruct Hfresh as [Hnb|Hfresh]; [congruence|].
      exists b, req, ts, g0; split; [auto|]; split; [eapply Forall_impl; [exact Hin|exact Hhist]|]; split; [done|].
      eapply good_rely; [exact Hgood|]; intros _; rewrite Hst' in Hok |- *; split; [by apply ghost_ok|].
      split; [simpl; rewrite apply_writes_app, <- Hst; apply apply_writes_le|].
      exists new; split; [done|]; intros d (y & Hy & Hdy); apply Hfresh.
      rewrite Forall_forall in Hin; by eapply hist_named; [|apply Hin|].
    + rewrite Hheld; destruct Hfresh as [Hnb|Hfresh]; [unfold held; by rewrite Hnb|].
      apply Forall_forall; intros y Hy; rewrite Forall_forall in Hwait; destruct (Hwait y Hy) as (d & Hd & Ha).
      exists d; split; [done|]; apply absent_app; [done|]; apply Hfresh.
      eapply hist_named; [done| |done]; apply Hfrom; rewrite elem_of_app; by right.
Qed.

Lemma stamps_app h h' : stamps (h ++ h') = stamps h ++ stamps h'.
Proof. apply map_app. Qed.

(** A local write over an earlier version is applied as a replicated one would be. *)
Lemma local_store_fresh ws w :
  ts_le (version (apply_writes ∅ ws) (write_key w)) (write_ts w) ->
  (forall w', w' ∈ ws -> stamp w' <> stamp w) ->
  local_store (write_key w) (write_val w) (apply_writes ∅ ws) = apply_writes ∅ (ws ++ [w]).
Proof.
  intros Hver Hne; rewrite local_store_write, apply_writes_snoc, apply_write_spec.
  replace (MkWrite (write_key w) (write_val w)) with w by (by destruct w); f_equal; unfold lww.
  pose proof (apply_writes_lookup ws (write_key w)) as Hl; unfold version, Store_GetVersion in Hver.
  destruct (apply_writes ∅ ws !! write_key w) as [v|]; [|done].
  destruct Hl as (w' & Hw' & Hk & -> & _); simpl in Hver; rewrite !write_stored_ts in *.
  rewrite decide_False; [done|]; apply ts_nle_lt.
  destruct Hver as [Heq|?]; [|done]; destruct (Hne w' Hw'); unfold stamp; by rewrite Hk, Heq.
Qed.

Lemma hist_writes_pair i (l : list write) : hist_writes (map (pair i) l) = l.
Proof. unfold hist_writes; rewrite map_map; simpl; apply map_id. Qed.

Lemma pc_known_mono mode h h' i p : h ⊆ h' -> pc_known mode h i p -> pc_known mode h' i p.
Proof.
  intros Hh; assert (Hw : forall w, w ∈ hist_writes h -> w ∈ hist_writes h').
  { intros w [o Ho]%elem_of_hist_inv; eapply elem_of_hist, Hh, Ho. }
  destruct p; simpl; try done.
  - intros (? & Hd & ?); split_and!; try done; intros d Hin; by eapply named_mono; [|apply Hd].
  - intros [? ?]; split; [by apply Hh|done].
  - by apply named_mono.
  - intros (w & ? & ?); exists w; auto.
  - intros (w & ? & ?); exists w; auto.
Qed.

(** What a turn does, given what is known of its node and of its handler. *)
Record turn_facts (mode : string) (N : nat) (h : list (nat * write)) (i : nat) (n : Node AnyHandler) (p : pc)
    (ws : list write) (n' : Node AnyHandler) (rpcs : list outgoing) (p' : pc) : Prop := {
  tf_buffer : active_buffer n' = active_buffer n;
  tf_store : Node_Store n' = apply_writes ∅ (ws ++ new_write p);
  tf_pending : forall d, d ∈ pending_deps n' -> named h d;
  tf_sent : forall key v, p = WStored key v ->
    messages rpcs = map (fun p => (p, request_of (MkWrite key v))) (other_peers N i);
  tf_pc : pc_known mode (h ++ map (pair i) (new_write p)) i p';
  tf_calls : Forall (fun c => pc_known mode h (call_peer c) (call_srv c)) (map start_call rpcs);
  tf_stored : forall w, w ∈ new_write p -> wire_faithful (write_val w) /\
    (forall d, d ∈ write_deps w -> named h d) /\ p' = WStored (write_key w) (write_val w)
}.

Lemma async_turn_facts mode N h i n p ws n' rpcs p' f :
  async_turn N i n p n' rpcs p' -> settled_node f h i n ws -> pc_known mode h i p -> serving p = false ->
  Node_Mode n = mode ->
  (forall w, w ∈ new_write p -> ts_le (version (Node_Store n) (write_key w)) (write_ts w)) ->
  NoDup (stamps (h ++ map (pair i) (new_write p))) ->
  turn_facts mode N h i n p ws n' rpcs p'.
Proof.
  intros Hv [Hst Hfrom _ _ Hpend _] Hk Hs Hmode Hfw Hnd.
  destruct Hv as [key data del n' ts [Hs' Hb Hp]|key v n' Hs' Hb Hp|key v|key v rpcs Hmsg|key v Hv
    |key v n' r Hs' Hb Hp|p n' p' [Hs' Hb Hp] Hdone Hne].
  - split; simpl; rewrite ?Hs', ?app_nil_r, ?Hp; try done; set_solver.
  - split; simpl; rewrite ?Hs', ?app_nil_r, ?Hp; try done; try (by intros ? ?%not_elem_of_nil).
    split_and!; [done|done|]; intros He; by apply (eventual_pending mode).
  - simpl in Hk; destruct Hk as (Hf & Hd & He); simpl in *.
    split; simpl; try done; [|by rewrite pending_deps_store|split; [rewrite elem_of_app; right; left|done]|].
    + rewrite Hst; apply (local_store_fresh ws (MkWrite key v)).
      * rewrite <- Hst; apply Hfw; left.
      * intros w' Hw'; eapply stamps_fresh; [exact Hnd|]; apply Hfrom; rewrite elem_of_app; by left.
    + intros w ->%list_elem_of_singleton; by split_and!.
  - simpl in Hk; destruct Hk as [Hin He]; split; simpl; rewrite ?app_nil_r; try done;
      try (by intros ? ?%not_elem_of_nil); [by intros ? ? [= <- <-]|].
    apply Forall_map, Forall_forall; intros out Hout; exists (MkWrite key v); split; [by eapply elem_of_hist|].
    assert (Hm : (out_peer out, out_req out) ∈ messages rpcs)
      by (unfold messages; apply (list_elem_of_fmap_2 (fun o => (out_peer o, out_req o))), Hout).
    rewrite Hmsg, list_elem_of_In, in_map_iff in Hm; by destruct Hm as (q & [= _ <-] & _).
  - split; simpl; rewrite ?app_nil_r; try done; try (by intros ? ?%not_elem_of_nil).
    pose proof (apply_writes_lookup ws key) as Hl; rewrite <- Hst, Hv in Hl.
    destruct Hl as (w & Hw & Hkey & -> & _); exists w; split; [apply Hfrom; rewrite elem_of_app; by left|].
    unfold stamp, dep_stamp; simpl; by rewrite write_stored_ts, Hkey.
  - simpl in Hk; split; simpl; rewrite ?Hs', ?app_nil_r; try done; try (by intros ? ?%not_elem_of_nil).
    intros d [Hd| ->]%Hp; [by apply Hpend|done].
  - assert (Hnw : new_write p = []) by (by destruct p).
    split; rewrite ?Hs', ?Hp, ?Hnw, ?app_nil_r; try done; try (by intros ? ?%not_elem_of_nil);
      [by intros key v ->|by destruct p'].
Qed.

(** ** Steps of the cluster *)

Lemma fine_base_step mode opts N lb f f' :
  fine_base mode opts N f -> on_grid causal_step lb f = true -> fstep_view f lb f' -> fine_base mode opts N f'.
Proof.
  intros [Ha Hwt Hcl Hcau Hev] Hok Hv; destruct (decide (mode = "causal")) as [->|Hm].
  - destruct (fstep_causal _ _ _ _ _ (Hcau eq_refl) Hok Hv) as [Hf' _]; split; try done; apply Hf'.
  - destruct Ha as [->|]; [|done]; specialize (Hev eq_refl); destruct Hv as [lb g' He Hv|k j o c n b req ts _ _ Hn Hb _ _|i rx|i rx];
      try (by rewrite Hev in *; simplify_map_eq).
    + assert (Hty : glabel_typed lb).
      { apply andb_true_iff in Hok as [Hread _]; unfold glabel_typed, reading_step in *.
        destruct (glabel_now lb); [|done]; by apply reading_ok_spec in Hread as [? _]. }
      split; simpl; [by left|by eapply gstep_wt|by eapply gstep_clients|done|done].
    + pose proof (nw_mode _ _ _ _ (gw_nodes _ _ _ _ Hwt _ _ Hn)) as Hmode.
      unfold active_buffer in Hb; by rewrite Hmode in Hb.
Qed.

Lemma base_causal mode opts N f i n :
  fine_base mode opts N f -> grid_nodes (fn_grid f) !! i = Some n -> active_buffer n <> None ->
  mode = "causal" /\ fine_causal opts N f.
Proof.
  intros [Ha Hwt Hcl Hcau Hev] Hn Hb; pose proof (nw_mode _ _ _ _ (gw_nodes _ _ _ _ Hwt _ _ Hn)) as Hm.
  unfold active_buffer in Hb; rewrite Hm in Hb.
  destruct (String.eqb_spec mode "causal") as [Hc|]; [by split; [|apply Hcau]|done].
Qed.

Lemma base_store_ok mode opts N f i n :
  fine_base mode opts N f -> grid_nodes (fn_grid f) !! i = Some n -> active_buffer n <> None ->
  store_ok (Node_Store n).
Proof.
  intros Hb Hn Hab; destruct (base_causal _ _ _ _ _ _ Hb Hn Hab) as [_ Hc].
  pose proof (gc_nodes _ _ _ (fc_grid _ _ _ Hc) _ _ Hn) as [? ? _ _ _]; by split.
Qed.

Lemma settling_grow mode f f' h h' :
  settling mode f h ->
  (forall i n', grid_nodes (fn_grid f') !! i = Some n' -> exists n, grid_nodes (fn_grid f) !! i = Some n /\
     forall ws, settled_node f h i n ws -> exists new, node_grow f f' h h' i n n' ws new) ->
  Forall (op_known mode h') (grid_ops (fn_grid f')) ->
  Forall (fun w => wire_faithful (write_val w)) (hist_writes h') -> hist_causal h' -> settling mode f' h'.
Proof.
  intros [Hns Hops Hf Hc] Hgrow Hops' Hf' Hc'; split; try done; intros i n' Hn'.
  destruct (Hgrow i n' Hn') as (n & Hn & Hg), (Hns i n Hn) as [ws Hws], (Hg ws Hws) as [new Hnew].
  exists (ws ++ new); by eapply settled_grow.
Qed.

Lemma op_known_mono mode h h' o : h ⊆ h' -> op_known mode h o -> op_known mode h' o.
Proof.
  intros Hh [Hp Hcs]; split; [by eapply pc_known_mono|]; eapply Forall_impl; [exact Hcs|].
  intros c Hc; by eapply pc_known_mono.
Qed.

Lemma fresh_absent h (i : nat) new d :
  NoDup (stamps (h ++ map (pair i) new)) -> named h d -> absent new d.
Proof.
  rewrite stamps_app, NoDup_app; intros (_ & Hd & _) (w0 & Hw0 & Hs0) w Hw Hs.
  apply (Hd (stamp w0)); [by apply stamp_elem|]; rewrite Hs0, <- Hs.
  apply stamp_elem; by rewrite hist_writes_pair.
Qed.

Lemma elem_of_pairs (o i : nat) w (l : list write) : (o, w) ∈ map (pair i) l <-> o = i /\ w ∈ l.
Proof.
  rewrite list_elem_of_In, in_map_iff; split.
  - intros (x & [= <- <-] & Hx); by rewrite list_elem_of_In.
  - intros [-> Hw]; exists w; by rewrite <- list_elem_of_In.
Qed.

Section grid_steps.
Context (mode : string) (opts : Options) (N : nat) (f : fine) (h : list (nat * write)) (lb : glabel) (g' : grid).
Context (Hbase : fine_base mode opts N f) (Hbase' : fine_base mode opts N (MkFine g' (fn_busy f))).
Context (Henters : enters_buffer lb (fn_grid f) = false) (Hview : gstep_view (fn_grid f) lb g').
Context (Hset : settling mode f h).
Let f' := MkFine g' (fn_busy f).

Lemma keep_delivering i n n' :
  grid_nodes (fn_grid f) !! i = Some n -> grid_nodes g' !! i = Some n' ->
  forall k j b req ts, delivering (fn_grid f) i k j n b req ts -> delivering g' i k j n' b req ts.
Proof.
  intros Hn Hn' k j b req ts Hd.
  destruct (gstep_delivering _ _ _ _ _ _ _ _ _ _ Hview Henters (fb_clients _ _ _ _ Hbase) Hd) as [n1 Hd1].
  pose proof (dv_node _ _ _ _ _ _ _ _ Hd1) as Hn1; by simplify_eq.
Qed.

(** A node that stores nothing. *)
Lemma grow_same h' i n n' ws :
  grid_nodes (fn_grid f) !! i = Some n -> grid_nodes g' !! i = Some n' -> same_data n n' ->
  settled_node f h i n ws -> h ⊆ h' ->
  (forall o w, (o, w) ∈ h' -> (o, w) ∈ h \/ (o <> i /\ coming (grid_ops g') o i w ((ws ++ []) ++ held n'))) ->
  (forall o w, (o, w) ∈ h -> o <> i -> coming (grid_ops (fn_grid f)) o i w (ws ++ held n) ->
     coming (grid_ops g') o i w (ws ++ held n)) ->
  node_grow f f' h h' i n n' ws [].
Proof.
  intros Hn Hn' [Hst Hb Hp] Hs Hh Hown Hcoming.
  assert (Hhw : forall w, w ∈ hist_writes h -> w ∈ hist_writes h')
    by (intros w [o Ho]%elem_of_hist_inv; eapply elem_of_hist, Hh, Ho).
  split; try done.
  - rewrite Hst, app_nil_r; apply Hs.
  - by intros w ?%not_elem_of_nil.
  - intros o w Hw; destruct (Hown _ _ Hw) as [?|[? ?]]; [by left|by right].
  - intros o w Hw Ho Hc; unfold held; rewrite app_nil_r, Hb; by apply Hcoming.
  - rewrite Hp; intros d Hd; by eapply named_mono; [|apply Hs].
  - by apply keep_delivering.
  - right; intros d _; apply absent_nil.
  - intros Hbn; eapply base_store_ok; [exact Hbase'|exact Hn'|congruence].
Qed.

(** Steps that store nothing. *)
Lemma settling_same :
  (forall i n', grid_nodes g' !! i = Some n' -> exists n, grid_nodes (fn_grid f) !! i = Some n /\ same_data n n') ->
  (forall o i w l, (o, w) ∈ h -> o <> i -> coming (grid_ops (fn_grid f)) o i w l -> coming (grid_ops g') o i w l) ->
  Forall (op_known mode h) (grid_ops g') -> settling mode f' h.
Proof.
  intros Hns Hcoming Hops; eapply settling_grow; [exact Hset| |done|apply Hset|apply Hset].
  intros i n' Hn'; destruct (Hns i n' Hn') as (n & Hn & Hsame); exists n; split; [done|]; intros ws Hws.
  exists []; apply grow_same; auto.
Qed.

Lemma settle_begin i p :
  lb = GBegin i p -> g' = MkGrid (grid_nodes (fn_grid f)) (grid_ops (fn_grid f) ++ [MkOp i p []]) ->
  client_start p = true -> value_given lb = true -> settling mode f' h.
Proof.
  intros Hl Hg Hp Hv; apply settling_same; rewrite Hg; simpl.
  - intros j n Hn; exists n; split; [done|apply same_data_refl].
  - intros; by apply coming_begin.
  - apply Forall_app; split; [apply Hset|]; constructor; [|done]; split; [|done]; rewrite Hl in Hv; simpl in *.
    destruct p; try done; by apply Bool.eqb_prop in Hv.
Qed.

Lemma op_known_at k o : grid_ops (fn_grid f) !! k = Some o -> op_known mode h o.
Proof. intros Ho; exact (proj1 (Forall_lookup _ _) (st_ops _ _ _ Hset) _ _ Ho). Qed.

(** The answer to an RPC, or its failure. *)
Lemma settle_reply k j o c r :
  grid_ops (fn_grid f) !! k = Some o -> op_calls o !! j = Some c ->
  g' = MkGrid (grid_nodes (fn_grid f))
         (with_call k o j (MkCall (call_peer c) (call_srv c) r) (grid_ops (fn_grid f))) ->
  settling mode f' h.
Proof.
  intros Ho Hc Hg; destruct (op_known_at _ _ Ho) as [Hp Hcs]; apply settling_same; rewrite Hg; simpl.
  - intros i n Hn; exists n; split; [done|apply same_data_refl].
  - intros o1 i w l _ _ Hcom; eapply coming_serve; [done..|]; intros Hi Hcar; by split.
  - apply Forall_with_call; [apply Hset|]; split; [done|]; apply Forall_insert; [done|].
    exact (proj1 (Forall_lookup _ _) Hcs _ _ Hc).
Qed.

Lemma settle_serve k j o c n n' p' :
  grid_ops (fn_grid f) !! k = Some o -> op_calls o !! j = Some c ->
  grid_nodes (fn_grid f) !! call_peer c = Some n ->
  g' = MkGrid (<[call_peer c := n']> (grid_nodes (fn_grid f)))
         (with_call k o j (MkCall (call_peer c) p' (call_reply c)) (grid_ops (fn_grid f))) ->
  async_serve n (call_srv c) n' p' -> settling mode f' h.
Proof.
  intros Ho Hc Hn Hg Hv; destruct (op_known_at _ _ Ho) as [Hp Hcs].
  pose proof (proj1 (Forall_lookup _ _) Hcs _ _ Hc) as Hk; simpl in Hk.
  destruct (proj1 (Forall_lookup _ _) (gw_ops _ _ _ _ (fb_wt _ _ _ _ Hbase)) _ _ Ho) as [_ Hw].
  pose proof (proj1 (Forall_lookup _ _) Hw _ _ Hc) as Hwt; simpl in Hwt.
  assert (Hops : pc_known mode h (call_peer c) p' -> Forall (op_known mode h) (grid_ops g')).
  { intros Hp'; rewrite Hg; apply Forall_with_call; [apply Hset|]; split; [done|]; by apply Forall_insert. }
  assert (Hsame : same_data n n' -> forall i x, grid_nodes g' !! i = Some x ->
    exists y, grid_nodes (fn_grid f) !! i = Some y /\ same_data y x).
  { intros Hsd i x; rewrite Hg; intros [[<- <-]|[_ Hx]]%insert_lookup_cases; [by exists n|].
    exists x; split; [done|apply same_data_refl]. }
  assert (Hcom : forall o1 i w l, coming (grid_ops (fn_grid f)) o1 i w l ->
    (call_peer c = i -> carried w l c -> carried w l (MkCall (call_peer c) p' (call_reply c))) ->
    coming (grid_ops g') o1 i w l).
  { intros o1 i w l Hcm Hcar; rewrite Hg; eapply coming_serve; [done..|]; intros Hi Hca; auto. }
  unfold carried in Hcom; destruct Hv as [req pts n' Hsd Hpts|req n' e Hsd|req ts n' resp Hst Hb Hb' Hpd|r].
  1, 2, 4: apply settling_same; [auto|intros; by apply Hcom|by apply Hops].
  simpl in Hk, Hwt; destruct Hk as (w0 & Hw0 & ->), Hwt as [_ Hts].
  assert (Hwr : forall w, w ∈ hist_writes h -> request_of w0 = request_of w ->
    MkWrite (RR_Key (request_of w0)) (request_value (request_of w0) ts) = w).
  { intros w Hw1 Heq; rewrite Heq in Hts |- *; pose proof (hist_faithful _ _ (st_faithful _ _ _ Hset) Hw1) as Hf.
    injection Hts as <-; exact (request_of_write w _ Hf eq_refl). }
  rewrite (Hwr w0 Hw0 eq_refl) in Hst; set (i0 := call_peer c) in *.
  eapply settling_grow; [exact Hset| |by apply Hops|apply Hset|apply Hset].
  intros i x Hx; pose proof Hx as Hx'; simpl in Hx'; rewrite Hg in Hx'.
  destruct (insert_lookup_cases _ _ _ _ _ Hx') as [[<- <-]|[Hne Hx1]].
  - exists n; split; [done|]; intros ws Hws; exists [w0].
    assert (Hheld : held n' = held n) by (unfold held; by rewrite Hb, Hb').
    split; try done; [congruence|by rewrite Hst, (sn_store _ _ _ _ _ Hws), apply_writes_snoc| | | | | |by left].
    + by intros w ->%list_elem_of_singleton.
    + by left.
    + intros o1 w Hw1 Hne Hcm; rewrite Hheld; apply Hcom.
      * eapply coming_mono; [exact Hcm|]; intros y; rewrite !elem_of_app; tauto.
      * intros _ Hcar; simpl; rewrite <- (Hwr w (elem_of_hist _ _ _ Hw1) Hcar), (Hwr w0 Hw0 eq_refl).
        rewrite !elem_of_app; left; right; left.
    + rewrite Hpd; apply Hws.
    + by apply keep_delivering.
  - exists x; split; [done|]; intros ws Hws; exists []; apply grow_same; try done; [auto|].
    intros o1 w Hw1 _ Hcm; apply Hcom; [done|]; intros ->; congruence.
Qed.

(** A turn of a client's call, with the write it stores. *)
Lemma settle_turn k o n n' rpcs p' ws0 :
  let i := op_node o in
  let new := new_write (op_pc o) in
  let h' := h ++ map (pair i) new in
  grid_ops (fn_grid f) !! k = Some o -> grid_nodes (fn_grid f) !! i = Some n ->
  g' = MkGrid (<[i := n']> (grid_nodes (fn_grid f)))
         (<[k := MkOp i p' (op_calls o ++ map start_call rpcs)]> (grid_ops (fn_grid f))) ->
  settled_node f h i n ws0 -> turn_facts mode N h i n (op_pc o) ws0 n' rpcs p' ->
  NoDup (stamps h') -> settling mode f' h'.
Proof.
  intros i new h' Ho Hn Hg Hws0 [Hb Hst Hpd Hsent Hpc Hcalls Hstored] Hnd.
  destruct (op_known_at _ _ Ho) as [Hp Hcs]; pose proof Hset as [_ Hops Hf Hc].
  assert (Hh : h ⊆ h') by (intros x Hx; unfold h'; rewrite elem_of_app; by left).
  assert (Hlen : length (grid_nodes (fn_grid f)) = N) by apply (fb_wt _ _ _ _ Hbase).
  assert (Hnew : hist_writes h' = hist_writes h ++ new) by (unfold h'; by rewrite hist_writes_app, hist_writes_pair).
  assert (Hcom : forall o1 j w l, (o1, w) ∈ h -> o1 <> j -> j < N -> coming (grid_ops (fn_grid f)) o1 j w l ->
    coming (grid_ops g') o1 j w l).
  { intros o1 j w l _ Hne Hj Hcm; rewrite Hg; eapply coming_turn; [done..|]; intros Hw <-.
    rewrite (Hsent _ _ Hw); replace (MkWrite _ _) with w by (by destruct w).
    rewrite list_elem_of_In, in_map_iff; exists j; by rewrite <- list_elem_of_In, other_peers_spec. }
  eapply settling_grow; [exact Hset| | | |].
  - intros j x Hx; pose proof (lookup_lt_Some _ _ _ Hx) as Hj; pose proof Hx as Hx'; simpl in Hx', Hj.
    rewrite Hg in Hx', Hj; simpl in Hx', Hj; rewrite length_insert, Hlen in Hj.
    destruct (insert_lookup_cases _ _ _ _ _ Hx') as [[<- <-]|[Hne Hx1]].
    + exists n; split; [done|]; intros ws Hws.
      assert (Heq : apply_writes ∅ (ws ++ new) = apply_writes ∅ (ws0 ++ new))
        by (by rewrite !apply_writes_app, <- (sn_store _ _ _ _ _ Hws), <- (sn_store _ _ _ _ _ Hws0)).
      exists new; split; try done; try (by rewrite Hst, Heq); rewrite ?Hnew.
      * intros w Hw; rewrite elem_of_app; by left.
      * intros w Hw; rewrite elem_of_app; by right.
      * intros o1 w [Hw|[-> Hw]%elem_of_pairs]%elem_of_app; [by left|by right].
      * intros o1 w Hw Hne Hcm; apply Hcom; [done..|]; eapply coming_mono; [exact Hcm|].
        intros y; unfold held; rewrite Hb, !elem_of_app; tauto.
      * intros d Hd; eapply named_mono; [|by apply Hpd]; intros w Hw; rewrite Hnew, elem_of_app; by left.
      * by apply keep_delivering.
      * right; intros d Hd; by eapply fresh_absent.
      * intros Hbn; eapply base_store_ok; [exact Hbase'|exact Hx|congruence].
    + exists x; split; [done|]; intros ws Hws; exists []; apply grow_same; try done.
      * intros o1 w [Hw|[-> Hw]%elem_of_pairs]%elem_of_app; [by left|right]; split; [done|].
        left; destruct (Hstored w Hw) as (_ & _ & ->); rewrite Hg.
        exists (MkOp i (WStored (write_key w) (write_val w)) (op_calls o ++ map start_call rpcs)); split; [|done].
        apply list_elem_of_lookup; exists k; apply list_lookup_insert_eq; by eapply lookup_lt_Some.
      * intros o1 w Hw Hne1 Hcm; by apply Hcom.
  - simpl; rewrite Hg; apply Forall_insert.
    + eapply Forall_impl; [exact Hops|]; intros x; by apply op_known_mono.
    + split; [exact Hpc|]; apply Forall_app; split.
      * eapply Forall_impl; [exact Hcs|]; intros x; by apply pc_known_mono.
      * eapply Forall_impl; [exact Hcalls|]; intros x; by apply pc_known_mono.
  - rewrite Hnew; apply Forall_app; split; [done|]; apply Forall_forall; intros w Hw; by apply Hstored.
  - unfold h'; assert (Hcase : new = [] \/ exists w, new = [w])
      by (unfold new; destruct (op_pc o); eauto).
    destruct Hcase as [->|[w Hw]]; [by rewrite app_nil_r|]; rewrite Hw; apply hist_causal_snoc; [done|].
    apply Hstored; fold new; rewrite Hw; left.
Qed.

End grid_steps.

Lemma settle_grid mode opts N f h lb g' :
  fine_base mode opts N f -> fine_base mode opts N (MkFine g' (fn_busy f)) ->
  settle_step lb (fn_grid f) = true -> enters_buffer lb (fn_grid f) = false -> gstep_view (fn_grid f) lb g' ->
  settling mode f h -> NoDup (stamps (h ++ origin lb (fn_grid f))) ->
  settling mode (MkFine g' (fn_busy f)) (h ++ origin lb (fn_grid f)).
Proof.
  intros Hb Hb' [Hok Hval]%andb_true_iff He Hv Hset Hnd; pose proof Hv as Hv0.
  destruct Hv as [i p n Hi Hp|k now o n n' rpcs p' Ho Hn Hr Hm|k j now o c n n' rpcs p' Ho Hc Hn Hm
    |k j o c r Ho Hc Hs Hr|k j e o c Ho Hc Hr]; try (simpl; rewrite app_nil_r).
  - by eapply settle_begin.
  - rewrite (origin_turn _ _ _ _ Ho) in *; destruct (st_nodes _ _ _ Hset _ _ Hn) as [ws Hws].
    pose proof (gw_nodes _ _ _ _ (fb_wt _ _ _ _ Hb) _ _ Hn) as Hnw.
    destruct (proj1 (Forall_lookup _ _) (gw_ops _ _ _ _ (fb_wt _ _ _ _ Hb)) _ _ Ho) as [Hpw _].
    destruct (proj1 (Forall_lookup _ _) (fb_clients _ _ _ _ Hb) _ _ Ho) as [Hcl _].
    destruct (proj1 (Forall_lookup _ _) (st_ops _ _ _ Hset) _ _ Ho) as [Hpk _].
    eapply settle_turn; try done; eapply async_turn_facts; try done; [|apply Hnw|].
    + eapply micro_async_turn; try done; [apply Hb|].
      intros key v Heq Hev; rewrite Heq in Hpk; by apply Hpk.
    + intros w Hw; apply andb_true_iff in Hok as [_ Hfw]; unfold g_forward in Hfw.
      rewrite Ho in Hfw; simpl in Hfw; rewrite Hn in Hfw; simpl in Hfw.
      destruct (op_pc o); try (by apply not_elem_of_nil in Hw); apply list_elem_of_singleton in Hw as ->.
      by apply bool_decide_eq_true in Hfw.
  - pose proof (gw_nodes _ _ _ _ (fb_wt _ _ _ _ Hb) _ _ Hn) as Hnw.
    destruct (proj1 (Forall_lookup _ _) (gw_ops _ _ _ _ (fb_wt _ _ _ _ Hb)) _ _ Ho) as [_ Hcw].
    pose proof (proj1 (Forall_lookup _ _) Hcw _ _ Hc) as Hwc; simpl in Hwc.
    destruct (proj1 (Forall_lookup _ _) (st_ops _ _ _ Hset) _ _ Ho) as [_ Hck].
    pose proof (proj1 (Forall_lookup _ _) Hck _ _ Hc) as Hkc; simpl in Hkc.
    destruct (proj1 (Forall_lookup _ _) (fb_clients _ _ _ _ Hb) _ _ Ho) as [_ Hsv].
    pose proof (proj1 (Forall_lookup _ _) Hsv _ _ Hc) as Hsvc; simpl in Hsvc.
    eapply settle_serve; try done; eapply micro_async_serve; try done.
    destruct (active_buffer n) as [b|] eqn:Hab; [right|by left]; intros req ts Heq.
    simpl in He; rewrite Ho in He; simpl in He; rewrite Hc in He; simpl in He; rewrite Hn in He; simpl in He.
    by rewrite Heq, Hab in He.
  - eapply settle_reply; try done; by rewrite Hs.
  - by eapply settle_reply.
Qed.

(** ** Steps of a delivery *)

(** A node that a delivery elsewhere leaves alone. *)
Lemma settled_other f f' h i n ws :
  settled_node f h i n ws -> fn_busy f' !! i = fn_busy f !! i ->
  (forall o w l, coming (grid_ops (fn_grid f)) o i w l -> coming (grid_ops (fn_grid f')) o i w l) ->
  (forall k j b req ts, delivering (fn_grid f) i k j n b req ts -> delivering (fn_grid f') i k j n b req ts) ->
  settled_node f' h i n ws.
Proof.
  intros [Hst Hfrom Hown Hother Hpend Hwait] Hbusy Hcom Hdel; split; auto.
  rewrite Hbusy; destruct (fn_busy f !! i) as [rx|]; simpl in *; [|done].
  destruct Hwait as (b & req & ts & g0 & Hd & Hrest); exists b, req, ts, g0; split; [by apply Hdel|done].
Qed.

Section delivery_steps.
Context (mode : string) (opts : Options) (N : nat) (f : fine) (h : list (nat * write)).
Context (Hbase : fine_base mode opts N f) (Hset : settling mode f h).

Lemma delivering_ok i k j n b req ts ws :
  delivering (fn_grid f) i k j n b req ts -> Node_Store n = apply_writes ∅ ws ->
  Forall write_nonneg (rx_writes b req ts) /\ gh_ok (MkGhost (Node_Store n) ws).
Proof.
  intros Hd Hst; pose proof Hd as [Hn Hb _].
  destruct (base_causal _ _ _ _ _ _ Hbase Hn ltac:(congruence)) as [_ Hcau].
  pose proof (base_store_ok _ _ _ _ _ _ Hbase Hn ltac:(congruence)) as Hok; split.
  - by pose proof (delivering_writes _ _ _ _ _ _ _ _ _ _ (fc_grid _ _ _ Hcau) Hd) as [? _]%Forall_and.
  - rewrite Hst in Hok |- *; by apply ghost_ok.
Qed.

(** The write of a request. *)
Lemma request_known k j c req ts :
  rpc_at (grid_ops (fn_grid f)) k j = Some c -> call_srv c = RClocked req ts ->
  exists w, w ∈ hist_writes h /\ req = request_of w /\ MkWrite (RR_Key req) (request_value req ts) = w.
Proof.
  intros (o & Ho & Hc)%bind_Some Hs.
  destruct (proj1 (Forall_lookup _ _) (st_ops _ _ _ Hset) _ _ Ho) as [_ Hk].
  pose proof (proj1 (Forall_lookup _ _) Hk _ _ Hc) as Hw; simpl in Hw.
  destruct (proj1 (Forall_lookup _ _) (gw_ops _ _ _ _ (fb_wt _ _ _ _ Hbase)) _ _ Ho) as [_ Ht].
  pose proof (proj1 (Forall_lookup _ _) Ht _ _ Hc) as Hwt; simpl in Hwt; rewrite Hs in Hw, Hwt.
  destruct Hw as (w & Hw & ->), Hwt as [_ Hts]; exists w; split; [done|]; split; [done|].
  injection Hts as <-; exact (request_of_write w _ (hist_faithful _ _ (st_faithful _ _ _ Hset) Hw) eq_refl).
Qed.

Lemma settle_lock k j o c n b req ts :
  grid_ops (fn_grid f) !! k = Some o -> op_calls o !! j = Some c ->
  grid_nodes (fn_grid f) !! call_peer c = Some n -> active_buffer n = Some b ->
  call_srv c = RClocked req ts -> fn_busy f !! call_peer c = None ->
  settling mode (MkFine (fn_grid f)
    (<[call_peer c := MkReceiving k j (receive_prog (RR_Key req) (request_value req ts) b)]> (fn_busy f))) h.
Proof.
  intros Ho Hc Hn Hb Hs Hfree; pose proof (rpc_at_Some _ _ _ _ _ Ho Hc) as Hat.
  split; [|apply Hset..]; simpl; intros i x Hx; destruct (st_nodes _ _ _ Hset _ _ Hx) as [ws Hws]; exists ws.
  destruct (decide (i = call_peer c)) as [->|Hne].
  2: { eapply settled_other; try done; by apply lookup_insert_ne. }
  simplify_eq; destruct Hws as [Hst Hfrom Hown Hother Hpend Hwait]; split; try done; simpl.
  rewrite lookup_insert_eq; rewrite Hfree in Hwait; simpl in *; unfold held in Hwait, Hfrom; rewrite Hb in Hwait, Hfrom.
  destruct (request_known _ _ _ _ _ Hat Hs) as (w & Hw & _ & Heq).
  assert (Hwr : Forall (fun w => w ∈ hist_writes h) (rx_writes b req ts)).
  { apply Forall_app; split; [|by rewrite Heq; constructor].
    apply Forall_forall; intros y Hy; apply Hfrom; rewrite elem_of_app; by right. }
  assert (Hd : delivering (fn_grid f) (call_peer c) k j n b req ts) by (split; [done..|by exists c]).
  destruct (delivering_ok _ _ _ _ _ _ _ _ Hd Hst) as [Hnn Hok].
  exists b, req, ts, (MkGhost (Node_Store n) ws); do 3 (split; [done|]); by apply receive_good.
Qed.

Lemma settle_access i rx n p s :
  fn_busy f !! i = Some rx -> grid_nodes (fn_grid f) !! i = Some n ->
  access (rx_prog rx) (Node_Store n) = Some (p, s) ->
  settling mode (MkFine (MkGrid (<[i := with_store s n]> (grid_nodes (fn_grid f))) (grid_ops (fn_grid f)))
    (<[i := MkReceiving (rx_op rx) (rx_rpc rx) p]> (fn_busy f))) h.
Proof.
  intros Hrx Hn Ha; split; [|apply Hset..]; simpl; intros j x Hx.
  destruct (insert_lookup_cases _ _ _ _ _ Hx) as [[<- <-]|[Hne Hx1]].
  2: { destruct (st_nodes _ _ _ Hset _ _ Hx1) as [ws Hws]; exists ws.
       eapply settled_other; try done; [by apply lookup_insert_ne|].
       intros k l b req ts Hd; by apply delivering_other. }
  destruct (st_nodes _ _ _ Hset _ _ Hn) as [ws [Hst Hfrom Hown Hother Hpend Hwait]].
  rewrite Hrx in Hwait; destruct Hwait as (b & req & ts & g0 & Hd & Hin & Hstk & Hgood).
  pose proof Hd as [_ Hb Hcall]; destruct (delivering_ok _ _ _ _ _ _ _ _ Hd Hst) as [Hnn Hgok].
  destruct (good_access _ _ _ _ _ _ Hnn Hgood Hgok Ha) as (g' & <- & Hgood' & [_ _ Happ] & Hcase).
  assert (Hg' : gh_store g' = apply_writes ∅ (gh_applied g') /\
    forall w, w ∈ gh_applied g' -> w ∈ ws \/ w ∈ rx_writes b req ts).
  { destruct Hcase as [->|(w & Hw & ->)]; simpl; [by split; [|auto]|].
    rewrite apply_writes_snoc, Hst; split; [done|]; intros y [Hy| ->]%elem_of_snoc; auto. }
  destruct Hg' as [Hst' Hfrom']; exists (gh_applied g').
  assert (Hheld : held (with_store (gh_store g') n) = held n) by done.
  split; rewrite ?Hheld; try done; simpl.
  - intros w [Hw|Hw]%elem_of_app; [|apply Hfrom; rewrite elem_of_app; by right].
    destruct (Hfrom' w Hw) as [Hw'|Hw']; [apply Hfrom; rewrite elem_of_app; by left|].
    rewrite Forall_forall in Hin; by apply Hin.
  - intros w Hw; by apply Happ, Hown.
  - intros o w Hw Ho; eapply coming_mono; [by apply Hother|]; intros y; rewrite !elem_of_app.
    intros [Hy|Hy]; [left; by apply Happ|by right].
  - rewrite pending_deps_store; exact Hpend.
  - rewrite lookup_insert_eq; exists b, req, ts, g0; split; [|by destruct g'; simpl in *].
    split; [done..|exact Hcall].
Qed.

Lemma settle_unlock i rx n o c b now :
  fn_busy f !! i = Some rx -> grid_nodes (fn_grid f) !! i = Some n ->
  grid_ops (fn_grid f) !! rx_op rx = Some o -> op_calls o !! rx_rpc rx = Some c ->
  rx_prog rx = PRet (Some (b, now)) ->
  settling mode (MkFine (MkGrid (<[i := with_buffer b n]> (grid_nodes (fn_grid f)))
       (with_call (rx_op rx) o (rx_rpc rx)
          (MkCall (call_peer c) (RDone (Ok (MkReplicateResponse true))) (call_reply c)) (grid_ops (fn_grid f))))
    (delete i (fn_busy f))) h.
Proof.
  intros Hrx Hn Ho Hc Hprog; set (c' := MkCall (call_peer c) (RDone (Ok (MkReplicateResponse true))) (call_reply c)).
  destruct (st_nodes _ _ _ Hset _ _ Hn) as [ws [Hst Hfrom Hown Hother Hpend Hwait]].
  rewrite Hrx in Hwait; destruct Hwait as (b1 & req & ts & g0 & Hd & Hin & Hstk & Hgood).
  pose proof Hd as [_ Hb (c1 & Hc1 & Hp & Hs)].
  destruct (request_known _ _ _ _ _ Hc1 Hs) as (w0 & Hw0 & Hreq & Heq).
  rewrite (rpc_at_Some _ _ _ _ _ Ho Hc) in Hc1; injection Hc1 as <-; subst i; set (i := call_peer c) in *.
  rewrite Hprog in Hgood; destruct (Hgood (MkGhost (Node_Store n) ws) ltac:(done))
    as (_ & b' & now' & wsr & [= <- <-] & Hperm & Hdone & _ & Hstk'); simpl in *.
  rewrite Heq in Hperm; assert (Hsub : forall y, y ∈ Buffer_held b1 ++ [w0] -> y ∈ ws ++ Buffer_held b).
  { intros y; rewrite <- Hperm, !elem_of_app; intros [Hy|Hy]; [left|by right].
    rewrite Forall_forall in Hdone; by apply Hdone. }
  assert (Hm : String.eqb (Node_Mode n) "causal" = true)
    by (unfold active_buffer in Hb; by destruct (String.eqb _ _)).
  assert (Hheld : held n = Buffer_held b1) by (unfold held; by rewrite Hb).
  assert (Hheld' : held (with_buffer b n) = Buffer_held b) by (unfold held, active_buffer; simpl; by rewrite Hm).
  split; [|simpl|apply Hset..].
  - simpl; intros j x Hx; destruct (insert_lookup_cases _ _ _ _ _ Hx) as [[<- <-]|[Hne Hx1]].
    + exists ws; split; try done; simpl; rewrite ?Hheld'.
      * intros w [Hw|Hw]%elem_of_app; [apply Hfrom; rewrite elem_of_app; by left|].
        rewrite Forall_forall in Hin; apply Hin; unfold rx_writes; rewrite Heq, <- Hperm, elem_of_app; by right.
      * intros o1 w Hw Hne; eapply coming_serve; [done..| |].
        { eapply coming_mono; [by apply Hother|]; intros y; rewrite Hheld, !elem_of_app.
          intros [Hy|Hy]; [by left|]; apply elem_of_app, Hsub; rewrite elem_of_app; by left. }
        intros _; unfold carried; rewrite Hs; simpl; intros Hr; split; [done|].
        assert (w0 = w) as <-; [|apply Hsub; rewrite elem_of_app; right; left].
        apply request_of_inj; [eapply hist_faithful; [apply Hset|done]| |congruence].
        eapply hist_faithful; [apply Hset|by eapply elem_of_hist].
      * rewrite (pending_frame n) by done; exact Hpend.
      * rewrite lookup_delete_eq; simpl; rewrite Hheld'; by apply Hstk'.
    + destruct (st_nodes _ _ _ Hset _ _ Hx1) as [wsj Hwsj]; exists wsj.
      eapply settled_other; try done; simpl.
      * by apply lookup_delete_ne.
      * intros o1 w l Hcm; eapply coming_serve; [done..|]; intros Hi; by destruct Hne.
      * intros k l b2 req2 ts2 Hd2; apply delivering_other; [done..|]; intros c2 Hc2 Hp2.
        rewrite (rpc_at_with_call _ _ _ _ c) by done; case_decide as Hdec; [|done].
        injection Hdec as H1 H2; rewrite <- H1, <- H2, (rpc_at_Some _ _ _ _ _ Ho Hc) in Hc2; by simplify_eq.
  - destruct (proj1 (Forall_lookup _ _) (st_ops _ _ _ Hset) _ _ Ho) as [Hpk Hck].
    apply Forall_with_call; [apply Hset|]; split; [done|]; by apply Forall_insert.
Qed.

End delivery_steps.

(** ** Runs *)

Lemma settle_fstep mode opts N lb f f' h :
  fine_base mode opts N f -> settling mode f h -> on_grid settle_step lb f = true -> fstep_view f lb f' ->
  NoDup (stamps (h ++ forigin lb f)) ->
  fine_base mode opts N f' /\ settling mode f' (h ++ forigin lb f).
Proof.
  intros Hb Hs Hok Hv Hnd; assert (Hok1 : on_grid causal_step lb f = true)
    by (destruct lb; try done; by apply andb_true_iff in Hok as [? _]).
  pose proof (fine_base_step _ _ _ _ _ _ Hb Hok1 Hv) as Hb'; split; [done|].
  destruct Hv; simpl in *; rewrite ?app_nil_r in *.
  - by eapply settle_grid.
  - by eapply settle_lock.
  - by eapply settle_access.
  - by eapply settle_unlock.
Qed.

Lemma settle_run mode opts N ls f f' h :
  fine_base mode opts N f -> settling mode f h -> frun_all settle_step ls f = true -> frun ls f = Some f' ->
  NoDup (stamps (h ++ fhistory ls f)) ->
  fine_base mode opts N f' /\ settling mode f' (h ++ fhistory ls f).
Proof.
  revert f h; induction ls as [|lb ls IH]; intros f h Hb Hs Hok Hrun Hnd; simpl in *.
  - simplify_eq; by rewrite app_nil_r.
  - apply bind_Some in Hrun as (f1 & Hf1 & Hrun); rewrite Hf1 in *; apply andb_true_iff in Hok as [Hok1 Hok].
    rewrite app_assoc in Hnd |- *.
    assert (Hnd1 : NoDup (stamps (h ++ forigin lb f)))
      by (rewrite stamps_app in Hnd; by apply NoDup_app in Hnd as [? _]).
    destruct (settle_fstep _ _ _ _ _ _ _ Hb Hs Hok1 (fstepP _ _ _ Hf1) Hnd1) as [Hb1 Hs1].
    by apply IH.
Qed.

(** Only two nodes can have given one timestamp to two writes. *)
Lemma frun_stamped mode opts N ls f f' h :
  fine_base mode opts N f -> fine_stamped h f -> frun_all settle_step ls f = true -> frun ls f = Some f' ->
  fine_stamped (h ++ fhistory ls f) f'.
Proof.
  revert f h; induction ls as [|lb ls IH]; intros f h Hb Hs Hok Hrun; simpl in *.
  - simplify_eq; by rewrite app_nil_r.
  - apply bind_Some in Hrun as (f1 & Hf1 & Hrun); rewrite Hf1 in *; apply andb_true_iff in Hok as [Hok1 Hok].
    assert (Hcau : on_grid causal_step lb f = true) by (destruct lb; try done; by apply andb_true_iff in Hok1 as [? _]).
    assert (Hread : on_grid (fun lb _ => reading_step lb) lb f = true)
      by (destruct lb; try done; by apply andb_true_iff in Hcau as [? _]).
    pose proof (fstepP _ _ _ Hf1) as Hv; rewrite app_assoc; apply IH; [by eapply fine_base_step| |done|done].
    eapply fine_stamped_step; [apply Hb|apply Hb|done|done|done].
Qed.

Lemma settle_init mode opts nows g :
  async mode -> Forall (fun now => reading_ok now = true) nows -> init_grid mode opts nows = Some g ->
  fine_base mode opts (length nows) (whole g) /\ settling mode (whole g) [].
Proof.
  intros Ha Hnows Hinit; pose proof Hinit as Hg; unfold init_grid in Hg.
  apply fmap_Some in Hg as (c & Hc & Hg); apply init_cluster_nodes in Hc as (_ & _ & Hns); split.
  - split; [done| | |intros ->; by apply init_fine_causal|done].
    + eapply init_grid_wt; [|exact Hinit]; eapply Forall_impl; [exact Hnows|]; by intros now [? _]%reading_ok_spec.
    + rewrite Hg; constructor.
  - split; [|rewrite Hg; constructor|constructor|intros [|? ?] ? ? [=]].
    intros i n Hn; rewrite Hg in Hn; exists []; destruct (Hns i n Hn) as (now & Hnow & Hst).
    apply start_node_safe in Hst as (_ & Hs & Hh & Hp); [|done|by eapply Forall_lookup_1 in Hnows].
    split; simpl; rewrite ?lookup_empty; simpl; rewrite ?Hs, ?Hh, ?Hp; try done;
      intros *; by intros ?%not_elem_of_nil.
Qed.

(** With nothing left to do, a node is as [Converge.v] has it with no message in flight. *)
Lemma quiescent_node mode opts N f h i n :
  fine_base mode opts N f -> settling mode f h -> quiescent f = true ->
  grid_nodes (fn_grid f) !! i = Some n -> exists ws, conv_node i n h [] ws.
Proof.
  intros Hb Hs Hq Hn; destruct (st_nodes _ _ _ Hs _ _ Hn) as [ws [Hst Hfrom Hown Hother Hpend Hwait]].
  unfold quiescent in Hq; rewrite forallb_forall in Hq.
  assert (Hop : forall x, x ∈ grid_ops (fn_grid f) -> pc_done (op_pc x) = true /\
            forall c, c ∈ op_calls x -> served_ok c = true).
  { intros x Hx%list_elem_of_In; apply Hq, andb_true_iff in Hx as [Hp Hc]; split; [done|].
    intros c Hin%list_elem_of_In; rewrite forallb_forall in Hc; by apply Hc. }
  assert (Hrpc : forall k j c, rpc_at (grid_ops (fn_grid f)) k j = Some c -> served_ok c = true).
  { intros k j c (x & Hx & Hc)%bind_Some; apply (Hop x); by eapply list_elem_of_lookup_2. }
  exists ws; split; try done.
  - intros o w Hw Ho; left; destruct (Hother _ _ Hw Ho) as [(x & Hx & _ & Hp)|(k & j & c & Hc & _ & Hcar)].
    + destruct (Hop x Hx) as [Hd _]; by rewrite Hp in Hd.
    + specialize (Hrpc _ _ _ Hc); unfold served_ok, carried in *.
      destruct (call_srv c) as [| | | | | | | | | | | |[?|?]]; done.
  - destruct (fn_busy f !! i) as [rx|]; simpl in Hwait.
    + destruct Hwait as (b & req & ts & g0 & [_ _ (c & Hc & _ & Hsrv)] & _); specialize (Hrpc _ _ _ Hc).
      unfold served_ok in Hrpc; by rewrite Hsrv in Hrpc.
    + intros y Hy; rewrite Forall_forall in Hwait; by apply Hwait.
Qed.

(** ** Properties *)

(** C1: eventual convergence with concurrent handlers: in a cluster started in causal
    or eventual mode whose handlers interleave in any way, at the grain of single
    accesses to the store and the buffer's mutex, with RPCs delayed, reordered
    and answered late or with errors, once every call has ended and every RPC has
    been served, no node holds a write back and every node's store is the
    last-writer-wins fold of all the writes the clients made, provided no two
    nodes gave one timestamp to writes of one key, no local write was stored over
    a later version of its key, no empty value was put, and the clocks read int64s
    from the epoch on.  The first two are needed: see [timestamp_tie_diverges] and
    [interleaved_writes_lose_update]. *)
Theorem concurrent_convergence mode opts nows g0 ls f :
  async mode -> Forall (fun now => reading_ok now = true) nows -> init_grid mode opts nows = Some g0 ->
  frun_all settle_step ls (whole g0) = true -> frun ls (whole g0) = Some f ->
  ties_apart (fhistory ls (whole g0)) -> quiescent f = true ->
  Forall (fun n => held n = [] /\
    Node_Store n = apply_writes store_New (hist_writes (fhistory ls (whole g0)))) (grid_nodes (fn_grid f)).
Proof.
  intros Ha Hnows Hinit Hok Hrun Hap Hq; destruct (settle_init _ _ _ _ Ha Hnows Hinit) as [Hb Hs].
  assert (Hg0 : grid_ops g0 = []) by (unfold init_grid in Hinit; by apply fmap_Some in Hinit as (c & _ & ->)).
  pose proof (frun_stamped _ _ _ _ _ _ [] Hb (fine_stamped_init _ Hg0) Hok Hrun) as Hst; simpl in Hst.
  pose proof (fine_stamped_stamps _ _ Hst Hap) as Hnd.
  destruct (settle_run _ _ _ _ _ _ [] Hb Hs Hok Hrun Hnd) as [Hb' Hs']; simpl in Hs'.
  apply Forall_lookup; intros i n Hn; destruct (quiescent_node _ _ _ _ _ _ _ Hb' Hs' Hq Hn) as [ws Hws].
  eapply quiet_node; [exact Hws|apply Hs'|exact Hnd].
Qed.

(** The run of [Fine.v], in which node 1 puts z in the middle of a delivery, and
    the rest of the deliveries. *)
Definition c_deliver (k j i m : nat) (now : Z) : list flabel :=
  [FStep (GServe k j now); FLock k j] ++ repeat (FAccess i) m ++ [FUnlock i].
Definition c_all_served : list flabel :=
  c_x_applied ++ c_z_between ++ map FStep (turns 3 1 0) ++ c_deliver 0 1 2 1 350 ++ c_deliver 2 1 2 2 360 ++
  c_deliver 3 0 0 1 370 ++ c_deliver 3 1 2 1 380.
Definition c_settled : fine := default (whole (c_grid "causal")) (frun c_all_served (whole (c_grid "causal"))).

Lemma concurrent_convergence_witness :
  map write_key (hist_writes (fhistory c_all_served (whole (c_grid "causal")))) = ["x"; "y"; "z"] /\
  Forall (fun n => held n = [] /\ Node_Store n =
    apply_writes store_New (hist_writes (fhistory c_all_served (whole (c_grid "causal")))))
    (grid_nodes (fn_grid c_settled)).
Proof.
  split; [vm_compute; reflexivity|].
  apply (concurrent_convergence "causal" c_opts [100; 100; 100]%Z (c_grid "causal") c_all_served c_settled);
    [by right|exact c_nows_ok|vm_compute; reflexivity|vm_compute; reflexivity|vm_compute; reflexivity|
    |vm_compute; reflexivity].
  apply (bool_decide_unpack _); vm_compute; exact I.
Defined.
