(* ===== verification/Chain.v ===== *)
(** * Read-then-write chains with concurrent handlers ([src/internal/server])

    The order of a client's chain of [Session.v], a read and then a write at one
    causal node, in the world of [Fine.v]: the handlers of the node and of all
    others interleave, also between the accesses of the [Get] and the [Put].
    What it needs is that no other write at the node passes its access to the
    read tracker between those of the two. *)

From S2P Require Import Prelude Hlc Store Buffer Wire Replication Server Cluster Interleave Grid Strong Causal.
From S2P Require Import Converge Delivery Fine Stamps Settle.

(** ** Definitions *)

(** Call [k] of node [o] has come to [p]. *)
Definition at_pc (f : fine) (k o : nat) (p : pc) : Prop :=
  exists x, grid_ops (fn_grid f) !! k = Some x /\ op_node x = o /\ op_pc x = p.

(** The step takes the dependencies from the tracker of node [o]. *)
Definition takes (o : nat) (lb : glabel) (g : grid) : bool :=
  match lb with
  | GTurn k _ =>
      match grid_ops g !! k with
      | Some (MkOp i (WSent _ _) _) => Nat.eqb i o
      | _ => false
      end
  | _ => false
  end.

Definition untaken (o : nat) (lb : glabel) (g : grid) : bool := negb (takes o lb g).

(** ** The tracker *)

Lemma micro_pending now rs (n n' : Node AnyHandler) p rpcs p' d :
  micro now rs n p = (n', rpcs, p') -> (forall key v, p <> WSent key v) ->
  d ∈ pending_deps n -> d ∈ pending_deps n'.
Proof.
  intros Hm Hp Hd.
  assert (Hframe : active_tracker n' = active_tracker n -> d ∈ pending_deps n') by (intros Ht; by rewrite (pending_frame n n')).
  destruct p as [key data del|key v|key v|key v|key v|key v|key r|key|key v|r|req|req ts|r]; simpl in Hm;
    try (by apply Hframe; repeat case_match; simplify_eq).
  - by destruct (Hp key v).
  - destruct (active_tracker n) as [rt|] eqn:Ht; simplify_eq; [|done].
    rewrite pending_deps_alt in Hd |- *; unfold active_tracker in *; simpl.
    destruct (String.eqb _ _); [|done]; rewrite Ht in Hd; simpl; rewrite elem_of_app; by left.
Qed.

(** A read about to be recorded is, and with it every dependency that was. *)
Lemma micro_records mode peers opts now rs (n n' : Node AnyHandler) key v rpcs p' :
  node_wt mode peers opts n -> mode = "causal" -> micro now rs n (GRead key v) = (n', rpcs, p') ->
  MkDependency key (Value_Timestamp v) ∈ pending_deps n'.
Proof.
  intros Hn -> Hm; pose proof (nw_tracker _ _ _ _ Hn) as Ht; simpl in Hm; unfold active_tracker in Hm.
  rewrite (nw_mode _ _ _ _ Hn) in Hm; simpl in Hm.
  destruct (Node_Tracker n) as [rt|]; [|done]; injection Hm as <- _ _.
  rewrite pending_deps_alt; unfold active_tracker; simpl; rewrite (nw_mode _ _ _ _ Hn); simpl.
  rewrite elem_of_app; right; left.
Qed.

Section pending.
Context (o : nat) (d : Dependency).

Definition tracks (f : fine) : Prop :=
  exists n, grid_nodes (fn_grid f) !! o = Some n /\ d ∈ pending_deps n.

Lemma tracks_update i (n n' : Node AnyHandler) (ns : list (Node AnyHandler)) :
  ns !! i = Some n -> (i = o -> d ∈ pending_deps n -> d ∈ pending_deps n') ->
  (exists m, ns !! o = Some m /\ d ∈ pending_deps m) ->
  exists m, <[i := n']> ns !! o = Some m /\ d ∈ pending_deps m.
Proof.
  intros Hn Hd (m & Hm & Hin); destruct (decide (i = o)) as [->|Hne].
  - simplify_eq; exists n'; split; [by apply list_lookup_insert_eq; eapply lookup_lt_Some|auto].
  - exists m; by rewrite list_lookup_insert_ne.
Qed.

Lemma tracks_step lb f f' :
  clients (fn_grid f) -> on_grid (untaken o) lb f = true -> fstep_view f lb f' -> tracks f -> tracks f'.
Proof.
  intros Hcl Hun Hv Ht; unfold tracks in *.
  destruct Hv as [lb g' He Hv|k j x c n b req ts|i rx n p s Hrx Hn Ha|i rx n x c b now Hrx Hn]; simpl; [|done|..].
  - destruct Hv as [i p n Hi Hst|k now x n n' rpcs p' Hx Hn Hr Hm|k j now x c n n' rpcs p' Hx Hc Hn Hm
      |k j x c r Hx Hc Hsv Hr|k j e x c Hx Hc Hr]; simpl; try done.
    + eapply tracks_update; [done| |done]; intros Hi; eapply micro_pending; [exact Hm|].
      intros key v Hp; unfold untaken, takes in Hun; simpl in Hun; rewrite Hx in Hun.
      destruct x as [i q cs]; simpl in *; subst; by rewrite Nat.eqb_refl in Hun.
    + eapply tracks_update; [done| |done]; intros _; eapply micro_pending; [exact Hm|]; intros key v Hp.
      destruct (proj1 (Forall_lookup _ _) Hcl _ _ Hx) as [_ Hs].
      pose proof (proj1 (Forall_lookup _ _) Hs _ _ Hc) as Hsv; simpl in Hsv; by rewrite Hp in Hsv.
  - eapply tracks_update; [done| |done]; intros _; by rewrite (pending_frame n (with_store s n)).
  - eapply tracks_update; [done| |done]; intros _; by rewrite (pending_frame n (with_buffer b n)).
Qed.

End pending.

(** ** A write on its way *)

(** Call [k] is about to store the write, or has. *)
Definition fated (k o : nat) (w : write) (h : list (nat * write)) (f : fine) : Prop :=
  at_pc f k o (WDeps (write_key w) (write_val w)) \/ (o, w) ∈ h.

Lemma at_pc_ops f f' k o p :
  (forall x, grid_ops (fn_grid f) !! k = Some x -> exists x', grid_ops (fn_grid f') !! k = Some x' /\
     op_node x' = op_node x /\ op_pc x' = op_pc x) ->
  at_pc f k o p -> at_pc f' k o p.
Proof. intros Hx (x & Hk & Hn & Hp); destruct (Hx x Hk) as (x' & ? & ? & ?); exists x'; split_and!; congruence. Qed.

Lemma ops_call f k j x c' :
  grid_ops (fn_grid f) !! k = Some x ->
  forall k' y, grid_ops (fn_grid f) !! k' = Some y -> exists y', with_call k x j c' (grid_ops (fn_grid f)) !! k' = Some y' /\
     op_node y' = op_node y /\ op_pc y' = op_pc y.
Proof.
  intros Hx k' y Hy; unfold with_call; destruct (decide (k = k')) as [->|Hne].
  - simplify_eq; eexists; split; [by apply list_lookup_insert_eq; eapply lookup_lt_Some|done].
  - exists y; by rewrite list_lookup_insert_ne.
Qed.

Lemma fated_step k o w h lb f f' : fstep_view f lb f' -> fated k o w h f -> fated k o w (h ++ forigin lb f) f'.
Proof.
  intros Hv [Hat|Hin]; [|right; rewrite elem_of_app; by left].
  destruct Hv as [lb g' He Hv|k1 j x c n b req ts|i rx n p s Hrx Hn Ha|i rx n x c b now Hrx Hn Hx Hc Hp];
    cbn [forigin fn_grid]; rewrite ?app_nil_r.
  - destruct Hv as [i p n Hi Hst|k1 now x n n' rpcs p' Hx Hn Hr Hm|k1 j now x c n n' rpcs p' Hx Hc Hn Hm
      |k1 j x c r Hx Hc Hsv Hr|k1 j e x c Hx Hc Hr]; try (cbn [origin]; rewrite app_nil_r).
    + left; eapply at_pc_ops; [|exact Hat]; simpl; intros y Hy; exists y; split; [by apply lookup_app_l_Some|done].
    + destruct (decide (k1 = k)) as [->|Hne].
      * destruct Hat as (y & Hy & Hyo & Hyp); simplify_eq; right; rewrite elem_of_app, (origin_turn _ _ _ _ Hx).
        right; rewrite Hyp; simpl; replace (MkWrite _ _) with w by (by destruct w); left.
      * left; eapply at_pc_ops; [|exact Hat]; simpl; intros y Hy; exists y; by rewrite list_lookup_insert_ne.
    + left; eapply at_pc_ops; [|exact Hat]; by apply ops_call.
    + left; eapply at_pc_ops; [|exact Hat]; by apply ops_call.
    + left; eapply at_pc_ops; [|exact Hat]; by apply ops_call.
  - by left.
  - by left.
  - left; eapply at_pc_ops; [|exact Hat]; by apply ops_call.
Qed.

Lemma fated_run k o w ls f f' h :
  fated k o w h f -> frun ls f = Some f' -> fated k o w (h ++ fhistory ls f) f'.
Proof.
  revert f h; induction ls as [|lb ls IH]; intros f h Hf Hrun; simpl in *; [simplify_eq; by rewrite app_nil_r|].
  apply bind_Some in Hrun as (f1 & Hf1 & Hrun); rewrite Hf1, app_assoc; apply IH; [|done].
  eapply fated_step; [by apply fstepP|done].
Qed.

(** ** Runs *)

Lemma frun_all_impl (P Q : glabel -> grid -> bool) ls f :
  (forall lb g, P lb g = true -> Q lb g = true) -> frun_all P ls f = true -> frun_all Q ls f = true.
Proof.
  intros HPQ; revert f; induction ls as [|lb ls IH]; intros f; simpl; [done|].
  intros [Hp Hall]%andb_true_iff; apply andb_true_iff; split.
  - destruct lb; simpl in *; auto.
  - destruct (fstep lb f); auto.
Qed.

Lemma frun_all_split P ls1 ls2 f f1 :
  frun ls1 f = Some f1 -> frun_all P (ls1 ++ ls2) f = true ->
  frun_all P ls1 f = true /\ frun_all P ls2 f1 = true.
Proof.
  revert f; induction ls1 as [|lb ls1 IH]; intros f Hrun Hall; simpl in *; [by simplify_eq|].
  apply bind_Some in Hrun as (f' & Hf' & Hrun); rewrite Hf' in *; apply andb_true_iff in Hall as [-> Hall]; by apply IH.
Qed.

Lemma fhistory_app ls1 ls2 f f1 :
  frun ls1 f = Some f1 -> fhistory (ls1 ++ ls2) f = fhistory ls1 f ++ fhistory ls2 f1.
Proof.
  revert f; induction ls1 as [|lb ls1 IH]; intros f Hrun; simpl in *; [by simplify_eq|].
  apply bind_Some in Hrun as (f' & Hf' & Hrun); rewrite Hf', <- app_assoc; f_equal; by apply IH.
Qed.

Lemma frun_step ls1 lb ls2 f f1 f2 :
  frun ls1 f = Some f1 -> fstep lb f1 = Some f2 -> frun (ls1 ++ lb :: ls2) f = frun ls2 f2.
Proof. intros Hr Hs; rewrite frun_app, Hr; cbn [frun mbind option_bind]; by rewrite Hs. Qed.

Lemma frun_all_step P ls1 lb ls2 f f1 f2 :
  frun ls1 f = Some f1 -> fstep lb f1 = Some f2 -> frun_all P (ls1 ++ lb :: ls2) f = true ->
  frun_all P ls1 f = true /\ on_grid P lb f1 = true /\ frun_all P ls2 f2 = true.
Proof.
  intros Hr Hs Hall; destruct (frun_all_split _ _ _ _ _ Hr Hall) as [H1 H2]; split; [done|].
  cbn [frun_all] in H2; rewrite Hs in H2; by apply andb_true_iff in H2.
Qed.

(** A turn of call [k], from [p]. *)
Lemma turn_at k now f f' o p :
  fstep (FStep (GTurn k now)) f = Some f' -> at_pc f k o p ->
  exists x n n' rpcs p', grid_ops (fn_grid f) !! k = Some x /\ op_node x = o /\
    grid_nodes (fn_grid f) !! o = Some n /\ grid_nodes (fn_grid f') !! o = Some n' /\
    micro now (op_replies x) n p = (n', rpcs, p') /\ at_pc f' k o p'.
Proof.
  intros Hs%fstepP (x & Hx & Ho & Hp); inversion Hs as [lb g' _ Hv|k1 j1 o1 c n b r t|i1 r1 n1 p1 s1|i1 r1 n1 o1 c1 b1 w1]; subst.
  inversion Hv as [i1 p1 n1|k1 w1 y n n' rpcs p' Hy Hn Hr Hm|k1 j1 w1 y c n n' rpcs p'|k1 j1 y c r|k1 j1 e y c]; subst; simplify_eq.
  exists x, n, n', rpcs, p'; simpl; split_and!; try done; [by apply list_lookup_insert_eq; eapply lookup_lt_Some|].
  eexists; simpl; split; [by apply list_lookup_insert_eq; eapply lookup_lt_Some|done].
Qed.

Lemma untaken_run o d opts N ls f f' :
  fine_base "causal" opts N f -> tracks o d f -> frun_all causal_step ls f = true ->
  frun_all (untaken o) ls f = true -> frun ls f = Some f' ->
  fine_base "causal" opts N f' /\ tracks o d f'.
Proof.
  revert f; induction ls as [|lb ls IH]; intros f Hb Ht Hok Hun Hrun; simpl in *; [by simplify_eq|].
  apply bind_Some in Hrun as (f1 & Hf1 & Hrun); rewrite Hf1 in *.
  apply andb_true_iff in Hok as [Hok1 Hok], Hun as [Hun1 Hun]; pose proof (fstepP _ _ _ Hf1) as Hv.
  apply (IH f1); [by eapply fine_base_step| |done..]; eapply tracks_step; [apply Hb|done..].
Qed.

(** The write of the last part carries the read of the first. *)
Lemma chain_carries opts N f1 f1' f2 f2' ls2 o kr keyA vA t1 kw keyB vB t2 :
  fine_base "causal" opts N f1 -> at_pc f1 kr o (GRead keyA vA) ->
  causal_step (GTurn kr t1) (fn_grid f1) = true -> fstep (FStep (GTurn kr t1)) f1 = Some f1' ->
  frun_all causal_step ls2 f1' = true -> frun_all (untaken o) ls2 f1' = true -> frun ls2 f1' = Some f2 ->
  at_pc f2 kw o (WSent keyB vB) -> fstep (FStep (GTurn kw t2)) f2 = Some f2' ->
  exists deps, at_pc f2' kw o (WDeps keyB (with_deps deps vB)) /\ MkDependency keyA (Value_Timestamp vA) ∈ deps.
Proof.
  intros Hb Hr Hok1 Hs1 Hok2 Hun Hrun2 Hw Hs2.
  destruct (turn_at _ _ _ _ _ _ Hs1 Hr) as (x & n & n' & rpcs & p' & _ & _ & Hn & Hn' & Hm & _).
  pose proof (fine_base_step _ _ _ (FStep (GTurn kr t1)) _ _ Hb Hok1 (fstepP _ _ _ Hs1)) as Hb1.
  pose proof (micro_records _ _ _ _ _ _ _ _ _ _ _ (gw_nodes _ _ _ _ (fb_wt _ _ _ _ Hb) _ _ Hn) eq_refl Hm) as Hd.
  destruct (untaken_run o (MkDependency keyA (Value_Timestamp vA)) opts N ls2 f1' f2) as [_ (m & Hm2 & Hd2)];
    [done|by exists n'|done..|].
  destruct (turn_at _ _ _ _ _ _ Hs2 Hw) as (y & m0 & m' & rpcs' & q & _ & _ & Hm0 & _ & Hq & Hat); simplify_eq.
  simpl in Hq; destruct (take_deps m) as [m1 deps] eqn:Htake; injection Hq as _ _ <-.
  exists deps; split; [done|]; by unfold pending_deps in Hd2; rewrite Htake in Hd2.
Qed.

Lemma ties_apart_stamp o w w' h : stamp w = stamp w' -> ties_apart ((o, w) :: h) -> ties_apart ((o, w') :: h).
Proof.
  intros Heq [Hw Hap]%Forall_cons; apply Forall_cons in Hw as [_ Hw]; unfold ties_apart.
  apply Forall_cons; split; [apply Forall_cons; split; [by left|]; simpl in *; by rewrite <- Heq|].
  eapply Forall_impl; [exact Hap|]; intros x [Hx Hxs]%Forall_cons; apply Forall_cons; split; [|done].
  simpl in *; by rewrite <- Heq.
Qed.

(** A stored version with the timestamp of a write is that write. *)
Lemma fated_value mode f h k o w r n v :
  settling mode f h -> fine_stamped h f -> ties_apart ((o, w) :: h) -> fated k o w h f ->
  grid_nodes (fn_grid f) !! r = Some n -> Node_Store n !! write_key w = Some v ->
  Value_Timestamp v = write_ts w -> v = write_stored w.
Proof.
  intros Hset Hst [Hw Hap]%Forall_cons Hfate Hn Hv Hts.
  assert (Hap' : ties_apart h) by (eapply Forall_impl; [exact Hap|]; by intros x [_ Hx]%Forall_cons).
  pose proof (fine_stamped_stamps _ _ Hst Hap') as Hnd.
  destruct (st_nodes _ _ _ Hset _ _ Hn) as [ws Hws].
  pose proof (apply_writes_lookup ws (write_key w)) as Hl; rewrite <- (sn_store _ _ _ _ _ Hws), Hv in Hl.
  destruct Hl as (x & Hx & Hkey & -> & _); rewrite write_stored_ts in Hts.
  assert (Hxh : x ∈ hist_writes h) by (apply (sn_from _ _ _ _ _ Hws); rewrite elem_of_app; by left).
  destruct Hfate as [(y & Hy & Hyo & Hyp)|Hin];
    [exfalso|by apply (ts_distinct_eq _ x w (stamps_distinct _ Hnd)); [|eapply elem_of_hist| |]].
  apply elem_of_hist_inv in Hxh as [i Hin]; apply Forall_cons in Hw as [_ Hw]; rewrite Forall_forall in Hw.
  destruct (Hw (i, x) Hin) as [Hio|Hne]; simpl in *; [|by apply Hne; unfold stamp; rewrite Hkey, Hts].
  subst i; destruct Hst as [Hnodup _]; unfold given_ts in Hnodup; apply NoDup_app in Hnodup as (_ & Hdisj & _).
  apply (Hdisj (o, write_ts w)); apply list_elem_of_In; [apply in_map_iff|apply in_flat_map].
  - exists (o, x); split; [by unfold stamped_by; simpl; rewrite Hts|by apply list_elem_of_In].
  - exists y; split; [apply list_elem_of_In; by eapply list_elem_of_lookup_2|].
    unfold op_unused; rewrite Hyp, Hyo; simpl; by left.
Qed.

(** ** Properties *)

(** C6: a read-then-write chain is ordered everywhere, with concurrent handlers: in a
    causal cluster, when a Get at a node answers with version A of a key and a
    Put at that node passes its access to the read tracker later, with no other
    write of the node in between at that access, then at every later point, at
    every node, whoever has the Put's version B of its key has A, or a later
    version, of the key read: however handlers and deliveries interleave, and in
    whatever order RPCs arrive, fail or are lost.  This needs that in the whole run
    no local write is stored over a later version of its key (see
    [overlapping_put_breaks_causality]), no empty value is put, no two nodes give
    one timestamp to writes of one key and the clocks read int64s from the epoch
    on; and that A's timestamp is positive. *)
Theorem fine_chain_ordered opts nows g0 o kr keyA vA t1 kw keyB vB t2 ls1 f1 f1' ls2 f2 f2' ls3 f r n v :
  let ls := ls1 ++ FStep (GTurn kr t1) :: ls2 ++ FStep (GTurn kw t2) :: ls3 in
  Forall (fun now => reading_ok now = true) nows -> init_grid "causal" opts nows = Some g0 ->
  frun ls1 (whole g0) = Some f1 -> at_pc f1 kr o (GRead keyA vA) ->
  fstep (FStep (GTurn kr t1)) f1 = Some f1' ->
  frun ls2 f1' = Some f2 -> frun_all (untaken o) ls2 f1' = true -> at_pc f2 kw o (WSent keyB vB) ->
  fstep (FStep (GTurn kw t2)) f2 = Some f2' -> frun ls3 f2' = Some f ->
  frun_all settle_step ls (whole g0) = true -> Value_Deleted vB = false ->
  ties_apart ((o, MkWrite keyB vB) :: fhistory ls (whole g0)) ->
  ts_lt zeroTimestamp (Value_Timestamp vA) ->
  grid_nodes (fn_grid f) !! r = Some n -> Node_Store n !! keyB = Some v ->
  Value_Timestamp v = Value_Timestamp vB ->
  exists v', Node_Store n !! keyA = Some v' /\ ts_le (Value_Timestamp vA) (Value_Timestamp v').
Proof.
  intros ls Hnows Hinit Hrun1 Hread Hs1 Hrun2 Hun Hwrite Hs2 Hrun3 Hok Hdel Hap Hpos Hn Hv Hts.
  destruct (settle_init _ _ _ _ (or_intror eq_refl : async "causal") Hnows Hinit) as [Hb Hset].
  assert (Hg0 : grid_ops g0 = []) by (unfold init_grid in Hinit; by apply fmap_Some in Hinit as (c & _ & ->)).
  set (pre := ls1 ++ FStep (GTurn kr t1) :: ls2 ++ [FStep (GTurn kw t2)]).
  assert (Hls : ls = pre ++ ls3) by (unfold ls, pre; by rewrite <- !app_assoc; simpl; rewrite <- app_assoc).
  assert (Hpre : frun pre (whole g0) = Some f2').
  { unfold pre; rewrite (frun_step _ _ _ _ _ _ Hrun1 Hs1); by rewrite (frun_step _ _ _ _ _ _ Hrun2 Hs2). }
  assert (Hrun : frun ls (whole g0) = Some f) by (by rewrite Hls, frun_app, Hpre).
  (* the write carries the dependency *)
  assert (Hcau : frun_all causal_step ls (whole g0) = true)
    by (eapply frun_all_impl; [|exact Hok]; by intros lb g [? _]%andb_true_iff).
  destruct (frun_all_step _ _ _ _ _ _ _ Hrun1 Hs1 Hcau) as (Hcau1 & Hc1 & Hcau2).
  destruct (frun_all_split _ _ _ _ _ Hrun2 Hcau2) as [Hcau3 _].
  assert (Hb1 : fine_base "causal" opts (length nows) f1)
    by (eapply (frun_all_ind causal_step); [exact Hb|exact Hcau1|exact Hrun1|]; intros; by eapply fine_base_step).
  destruct (chain_carries _ _ _ _ _ _ _ _ _ _ _ _ _ _ _ _ Hb1 Hread Hc1 Hs1 Hcau3 Hun Hrun2 Hwrite Hs2)
    as (deps & Hat & Hd).
  set (wB := MkWrite keyB (with_deps deps vB)).
  (* it is the value seen *)
  pose proof (frun_stamped _ _ _ _ _ _ [] Hb (fine_stamped_init _ Hg0) Hok Hrun) as Hst; simpl in Hst.
  assert (HapB : ties_apart ((o, wB) :: fhistory ls (whole g0)))
    by (by apply (ties_apart_stamp o (MkWrite keyB vB))).
  assert (Hnd : NoDup (stamps (fhistory ls (whole g0)))).
  { eapply fine_stamped_stamps; [exact Hst|]; apply Forall_cons in Hap as [_ Hap].
    eapply Forall_impl; [exact Hap|]; by intros x [_ Hx]%Forall_cons. }
  destruct (settle_run _ _ _ _ _ _ [] Hb Hset Hok Hrun Hnd) as [Hbf Hsf]; simpl in Hsf.
  assert (Hfate : fated kw o wB (fhistory ls (whole g0)) f).
  { rewrite Hls, (fhistory_app _ _ _ _ Hpre); eapply fated_run; [by left|done]. }
  pose proof (fated_value _ _ _ _ _ wB _ _ _ Hsf Hst HapB Hfate Hn Hv Hts) as Heq.
  pose proof (nc_closed _ (gc_nodes _ _ _ (fc_grid _ _ _ (fb_causal _ _ _ _ Hbf eq_refl)) _ _ Hn)) as Hcl.
  eapply (causally_closed_present _ Hcl keyB _ (MkDependency keyA (Value_Timestamp vA)) Hv); [|done].
  rewrite Heq; unfold write_stored; simpl; rewrite Hdel; exact Hd.
Qed.

(** At node 0 a put of y has its timestamp before a client reads x there, and takes
    its dependencies after; node 1 receives y first. *)
Definition c_fine_start : fine := whole (c_grid "causal").
Definition c_before_read : list flabel :=
  map FStep ([GBegin 0 (WStart "x" [x61] false)] ++ turns 0 4 300 ++
    [GBegin 0 (WStart "y" [x62] false)] ++ turns 1 1 310 ++ [GBegin 0 (GStart "x")] ++ turns 2 1 0).
Definition c_between : list flabel := map FStep ([GBegin 1 (WStart "z" [x63] false)] ++ turns 3 2 320).
Definition c_after_take : list flabel :=
  map FStep (turns 1 2 0) ++ c_deliver 1 0 1 1 330 ++ c_deliver 0 0 1 3 340.
Definition c_reading : fine := default c_fine_start (frun c_before_read c_fine_start).
Definition c_recorded : fine := default c_fine_start (fstep (FStep (GTurn 2 0)) c_reading).
Definition c_taking : fine := default c_fine_start (frun c_between c_recorded).
Definition c_taken : fine := default c_fine_start (fstep (FStep (GTurn 1 0)) c_taking).
Definition c_chain_end : fine := default c_fine_start (frun c_after_take c_taken).
Definition c_value (now : Z) (b : byte) : Value := MkValue [b] (MkTimestamp now 0) [] false.

Lemma fine_chain_ordered_witness :
  exists n v v', grid_nodes (fn_grid c_chain_end) !! 1 = Some n /\ Node_Store n !! "y" = Some v /\
    Value_Timestamp v = MkTimestamp 310 0 /\
    Node_Store n !! "x" = Some v' /\ ts_le (MkTimestamp 300 0) (Value_Timestamp v').
Proof.
  assert (Hall : (n ← grid_nodes (fn_grid c_chain_end) !! 1; v ← Node_Store n !! "y"; Some (Value_Timestamp v)) =
    Some (MkTimestamp 310 0)) by (vm_compute; reflexivity).
  destruct (grid_nodes (fn_grid c_chain_end) !! 1) as [n|] eqn:Hn; [|discriminate Hall].
  cbn [mbind option_bind] in Hall.
  destruct (Node_Store n !! "y") as [v|] eqn:Hv; [|discriminate Hall].
  cbn [mbind option_bind] in Hall; injection Hall as Hts.
  assert (Hx : exists v', Node_Store n !! "x" = Some v' /\ ts_le (MkTimestamp 300 0) (Value_Timestamp v'));
    [|destruct Hx as (v' & Hv' & Hle); exists n, v, v'; repeat split; assumption].
  apply (fine_chain_ordered c_opts [100; 100; 100]%Z (c_grid "causal") 0 2 "x" (c_value 300 x61) 0 1 "y"
    (c_value 310 x62) 0 c_before_read c_reading c_recorded c_between c_taking c_taken c_after_take c_chain_end 1 n v
    c_nows_ok); [vm_compute; reflexivity|vm_compute; reflexivity| |vm_compute; reflexivity|vm_compute; reflexivity
    |vm_compute; reflexivity| |vm_compute; reflexivity|vm_compute; reflexivity|vm_compute; reflexivity|reflexivity
    | | |exact Hn|exact Hv|exact Hts].
  - eexists; vm_compute; split; [reflexivity|split; reflexivity].
  - eexists; vm_compute; split; [reflexivity|split; reflexivity].
  - apply (bool_decide_unpack _); vm_compute; exact I.
  - left; simpl; lia.
Defined.
