(* ===== verification/Agree.v ===== *)
(** * Agreement of a strong cluster ([src/internal/replication], [src/internal/server])

    What the stores of a strong cluster hold once every call has ended and every
    RPC has been served: all the writes sent, but for those a node sent itself
    and answered with an error, which it alone does not have.  Handlers run
    concurrently, as in [Grid.v]; the RPCs may be answered late or with errors,
    and nothing is assumed of overlapping writes but the order of local stores. *)

From S2P Require Import Prelude Hlc Store Buffer Wire Replication Server Cluster Interleave Grid Strong Causal.
From S2P Require Import Converge Delivery Fine Stamps Settle.

(** ** Histories *)

(** The write a step sends: its call, its node, and the write. *)
Definition sent (lb : glabel) (g : grid) : list (nat * (nat * write)) :=
  match lb with
  | GTurn k _ =>
      match grid_ops g !! k with
      | Some (MkOp i (WDeps key v) _) => [(k, (i, MkWrite key v))]
      | _ => []
      end
  | _ => []
  end.

Fixpoint sent_all (ls : list glabel) (g : grid) : list (nat * (nat * write)) :=
  match ls with
  | [] => []
  | lb :: ls => sent lb g ++ match gstep lb g with Some g' => sent_all ls g' | None => [] end
  end.

(** An acknowledged write about to be stored at its origin is not behind the
    version it replaces. *)
Definition store_forward (lb : glabel) (g : grid) : bool :=
  match lb with
  | GTurn k _ =>
      match o ← grid_ops g !! k; n ← grid_nodes g !! op_node o; Some (op_pc o, Node_Store n) with
      | Some (WAcked key v, s) => bool_decide (ts_le (version s key) (Value_Timestamp v))
      | _ => true
      end
  | _ => true
  end.

Definition agree_step (lb : glabel) (g : grid) : bool :=
  reading_step lb && store_forward lb g && value_given lb.

(** Every call has ended and every RPC was served without an error. *)
Definition all_served (g : grid) : bool :=
  forallb (fun o => pc_done (op_pc o) && forallb served_ok (op_calls o)) (grid_ops g).

(** Call [k] was answered without an error. *)
Definition succeeded (g : grid) (k : nat) : bool :=
  match op_pc <$> grid_ops g !! k with Some (WDone _ (Ok _)) => true | _ => false end.

(** The writes node [i] ends with: not its own that failed. *)
Definition kept (g : grid) (i : nat) (h : list (nat * (nat * write))) : list write :=
  omap (fun e => if Nat.eqb e.2.1 i && negb (succeeded g e.1) then None else Some e.2.2) h.

(** ** The invariant *)

(** An RPC of call [k] brings the write to node [i]. *)
Definition rides (ops : list op) (k i : nat) (w : write) (l : list write) : Prop :=
  exists o j c, ops !! k = Some o /\ op_calls o !! j = Some c /\ call_peer c = i /\ carried w l c.

Record agree_node (g : grid) (h : list (nat * (nat * write))) (i : nat) (n : Node AnyHandler)
    (ws : list write) : Prop := {
  an_store : Node_Store n = apply_writes ∅ ws;
  an_from : forall w, w ∈ ws -> exists k o, (k, (o, w)) ∈ h /\ (o = i -> succeeded g k = true);
  an_own : forall k w, (k, (i, w)) ∈ h -> succeeded g k = true -> w ∈ ws;
  an_other : forall k o w, (k, (o, w)) ∈ h -> o <> i -> rides (grid_ops g) k i w ws
}.

(** What a call has sent. *)
Definition sent_pc (w : write) (p : pc) : Prop :=
  match p with
  | WSending key v | WAcked key v | WDone key (Ok v) => w = MkWrite key v
  | WDone _ (Err _) => True
  | _ => False
  end.

Definition call_sent (h : list (nat * (nat * write))) (k i : nat) (p : pc) : Prop :=
  match p with
  | WStart _ data del => del = Nat.eqb (length data) 0
  | WSent _ v | WDeps _ v => wire_faithful v /\ Value_Deps v = []
  | WSending key v | WAcked key v | WDone key (Ok v) => (k, (i, MkWrite key v)) ∈ h
  | _ => True
  end.

(** An RPC of call [k] of node [i]. *)
Definition srv_sent (h : list (nat * (nat * write))) (k i : nat) (c : call) : Prop :=
  call_peer c <> i /\
  match call_srv c with
  | RStart req | RClocked req _ => exists w, (k, (i, w)) ∈ h /\ req = request_of w
  | _ => True
  end.

Definition op_sent (h : list (nat * (nat * write))) (k : nat) (o : op) : Prop :=
  call_sent h k (op_node o) (op_pc o) /\ Forall (srv_sent h k (op_node o)) (op_calls o).

Record agree (g : grid) (h : list (nat * (nat * write))) : Prop := {
  ag_nodes : forall i n, grid_nodes g !! i = Some n -> exists ws, agree_node g h i n ws;
  ag_ops : forall k o, grid_ops g !! k = Some o -> op_sent h k o;
  ag_hist : forall k i w, (k, (i, w)) ∈ h ->
    (exists o, grid_ops g !! k = Some o /\ op_node o = i /\ sent_pc w (op_pc o)) /\
    wire_faithful (write_val w) /\ Value_Deps (write_val w) = []
}.

(** What it relies on of the runs. *)
Record strong_base (opts : Options) (N : nat) (g : grid) : Prop := {
  sb_wt : grid_wt "strong" opts N g;
  sb_clients : clients g
}.

(** ** Lemmas *)

Lemma rides_mono ops k i w l l' : rides ops k i w l -> (forall x, x ∈ l -> x ∈ l') -> rides ops k i w l'.
Proof. intros (o & j & c & ? & ? & ? & Hc) Hl; exists o, j, c; split_and!; try done; by eapply carried_mono. Qed.

Lemma call_sent_mono h h' k i p : h ⊆ h' -> call_sent h k i p -> call_sent h' k i p.
Proof. intros Hh; destruct p as [| | | | | |? [?|?]| | | | | |]; simpl; try done; apply Hh. Qed.

Lemma srv_sent_mono h h' k i c : h ⊆ h' -> srv_sent h k i c -> srv_sent h' k i c.
Proof.
  intros Hh [Hp Hc]; split; [done|]; destruct (call_srv c); try done;
    destruct Hc as (w & Hw & ?); exists w; (split; [by apply Hh|done]).
Qed.

Lemma op_sent_mono h h' k o : h ⊆ h' -> op_sent h k o -> op_sent h' k o.
Proof.
  intros Hh [Hp Hc]; split; [by eapply call_sent_mono|]; eapply Forall_impl; [exact Hc|].
  intros c; by apply srv_sent_mono.
Qed.

(** The writes [new] come to a node. *)
Lemma agree_grow g g' h h' i n n' ws new :
  agree_node g h i n ws -> Node_Store n' = apply_writes ∅ (ws ++ new) -> h ⊆ h' ->
  (forall k, succeeded g k = true -> succeeded g' k = true) ->
  (forall w, w ∈ new -> exists k o, (k, (o, w)) ∈ h' /\ (o = i -> succeeded g' k = true)) ->
  (forall k w, (k, (i, w)) ∈ h' -> succeeded g' k = true ->
     w ∈ new \/ ((k, (i, w)) ∈ h /\ succeeded g k = true)) ->
  (forall k o w, (k, (o, w)) ∈ h' -> o <> i ->
     ((k, (o, w)) ∈ h -> rides (grid_ops g) k i w ws) -> rides (grid_ops g') k i w (ws ++ new)) ->
  agree_node g' h' i n' (ws ++ new).
Proof.
  intros [Hst Hfrom Hown Hother] Hst' Hh Hsucc Hnew Hown' Hrides; split; [done|..].
  - intros w [Hw|Hw]%elem_of_app; [|by apply Hnew].
    destruct (Hfrom w Hw) as (k & o & Hin & Ho); exists k, o; split; [by apply Hh|auto].
  - intros k w Hin Hs; rewrite elem_of_app; destruct (Hown' k w Hin Hs) as [?|[? ?]]; [by right|left; eauto].
  - intros k o w Hin Hne; eapply Hrides; [done..|]; intros Hin'; by eapply Hother.
Qed.

Lemma rides_begin ops x k i w l : rides ops k i w l -> rides (ops ++ [x]) k i w l.
Proof. intros (o & j & c & Ho & ?); exists o, j, c; split; [by apply lookup_app_l_Some|done]. Qed.

Lemma rides_turn ops k0 x p' cs k i w l :
  ops !! k0 = Some x -> rides ops k i w l ->
  rides (<[k0 := MkOp (op_node x) p' (op_calls x ++ cs)]> ops) k i w l.
Proof.
  intros Hx (o & j & c & Ho & Hc & ?); destruct (decide (k0 = k)) as [->|Hne].
  - simplify_eq; eexists _, j, c; split; [by apply list_lookup_insert_eq; eapply lookup_lt_Some|]; simpl.
    split; [by apply lookup_app_l_Some|done].
  - exists o, j, c; by rewrite list_lookup_insert_ne.
Qed.

Lemma rides_call ops k0 x j0 c0 c' k i w l :
  ops !! k0 = Some x -> op_calls x !! j0 = Some c0 -> call_peer c' = call_peer c0 -> rides ops k i w l ->
  (call_peer c0 = i -> carried w l c0 -> carried w l c') ->
  rides (with_call k0 x j0 c' ops) k i w l.
Proof.
  intros Hx Hc0 Hpeer (o & j & c & Ho & Hc & Hp & Hw) Hcar; unfold with_call.
  destruct (decide (k0 = k)) as [->|Hne]; [simplify_eq|exists o, j, c; by rewrite list_lookup_insert_ne].
  destruct (decide (j0 = j)) as [->|Hnj].
  - simplify_eq; eexists _, j, c'; split; [by apply list_lookup_insert_eq; eapply lookup_lt_Some|]; simpl.
    split_and!; [by apply list_lookup_insert_eq; eapply lookup_lt_Some|done|auto].
  - eexists _, j, c; split; [by apply list_lookup_insert_eq; eapply lookup_lt_Some|]; simpl.
    by rewrite list_lookup_insert_ne.
Qed.

(** An RPC started with the write. *)
Lemma rides_started ops k x p' rpcs i w l :
  ops !! k = Some x -> (i, request_of w) ∈ messages rpcs ->
  rides (<[k := MkOp (op_node x) p' (op_calls x ++ map start_call rpcs)]> ops) k i w l.
Proof.
  intros Hx Hm; unfold messages in Hm; apply list_elem_of_lookup in Hm as [a Ha].
  rewrite list_lookup_fmap in Ha; apply fmap_Some in Ha as (out & Hout & [= Hpeer Hreq]).
  eexists _, (length (op_calls x) + a), (start_call out).
  split; [by apply list_lookup_insert_eq; eapply lookup_lt_Some|]; simpl; split_and!; [|done|].
  - rewrite lookup_app_r by lia; replace (_ + a - _) with a by lia; by rewrite list_lookup_fmap, Hout.
  - by unfold carried; simpl.
Qed.

(** Two entries of a history with one stamp are one. *)
Lemma stamp_unique h (x y : nat * (nat * write)) :
  NoDup (stamps (map snd h)) -> x ∈ h -> y ∈ h -> stamp x.2.2 = stamp y.2.2 -> x = y.
Proof.
  intros Hnd [a Ha]%list_elem_of_lookup [b Hb]%list_elem_of_lookup Heq.
  assert (Hl : forall m z, h !! m = Some z -> stamps (map snd h) !! m = Some (stamp z.2.2)).
  { intros m z Hz; unfold stamps; by rewrite !list_lookup_fmap, Hz. }
  assert (a = b); [|congruence]; eapply NoDup_lookup; [exact Hnd|by apply Hl|]; rewrite Heq; by apply Hl.
Qed.

(** Steps that send and store nothing. *)
Lemma agree_same g g' h :
  agree g h ->
  (forall i n', grid_nodes g' !! i = Some n' -> exists n, grid_nodes g !! i = Some n /\ Node_Store n' = Node_Store n) ->
  (forall k, succeeded g' k = succeeded g k) ->
  (forall k i w l, rides (grid_ops g) k i w l -> rides (grid_ops g') k i w l) ->
  (forall k o, grid_ops g' !! k = Some o -> op_sent h k o) ->
  (forall k o w, grid_ops g !! k = Some o -> sent_pc w (op_pc o) ->
     exists o', grid_ops g' !! k = Some o' /\ op_node o' = op_node o /\ sent_pc w (op_pc o')) ->
  agree g' h.
Proof.
  intros [Hns Hops Hh] Hns' Hsucc Hrides Hops' Hsent; split; [|done|].
  - intros i n' Hn'; destruct (Hns' i n' Hn') as (n & Hn & Hst); destruct (Hns i n Hn) as [ws Hws].
    exists (ws ++ []); eapply agree_grow; [exact Hws| | | | | |].
    + by rewrite Hst, app_nil_r, (an_store _ _ _ _ _ Hws).
    + done.
    + intros k; by rewrite Hsucc.
    + by intros w ?%not_elem_of_nil.
    + intros k w Hin; rewrite Hsucc; auto.
    + intros k o w Hin _ Hr; rewrite app_nil_r; auto.
  - intros k i w Hin; destruct (Hh k i w Hin) as ((o & Ho & Hi & Hs) & Hf); split; [|done].
    destruct (Hsent k o w Ho Hs) as (o' & ? & Hi' & ?); exists o'; split_and!; congruence.
Qed.

(** ** Steps *)

Lemma lookup_with_call k0 x j0 c' (ops : list op) k o :
  ops !! k0 = Some x -> with_call k0 x j0 c' ops !! k = Some o ->
  (k = k0 /\ o = MkOp (op_node x) (op_pc x) (<[j0 := c']> (op_calls x))) \/ (k <> k0 /\ ops !! k = Some o).
Proof. unfold with_call; intros Hx [[<- <-]|[? ?]]%insert_lookup_cases; [by left|right; split; [congruence|done]]. Qed.

Lemma succeeded_call ns ns' ops k0 x j0 c' k :
  ops !! k0 = Some x -> succeeded (MkGrid ns' (with_call k0 x j0 c' ops)) k = succeeded (MkGrid ns ops) k.
Proof.
  intros Hx; unfold succeeded, with_call; simpl; destruct (decide (k0 = k)) as [->|Hne].
  - rewrite list_lookup_insert_eq, Hx by (by eapply lookup_lt_Some); done.
  - by rewrite list_lookup_insert_ne.
Qed.

Section steps.
Context (opts : Options) (N : nat) (g : grid) (h : list (nat * (nat * write))).
Context (Hbase : strong_base opts N g) (Hag : agree g h).

Lemma op_sent_call k x j c c' :
  grid_ops g !! k = Some x -> op_calls x !! j = Some c -> srv_sent h k (op_node x) c' ->
  forall k' o, with_call k x j c' (grid_ops g) !! k' = Some o -> op_sent h k' o.
Proof.
  intros Hx Hc Hc' k' o [[-> ->]|[_ Ho]]%lookup_with_call; [|by apply (ag_ops _ _ Hag)|done].
  destruct (ag_ops _ _ Hag _ _ Hx) as [Hp Hcs]; split; [done|]; simpl; by apply Forall_insert.
Qed.

Lemma sent_pc_call k x j c' k' o w :
  grid_ops g !! k = Some x -> grid_ops g !! k' = Some o -> sent_pc w (op_pc o) ->
  exists o', with_call k x j c' (grid_ops g) !! k' = Some o' /\ op_node o' = op_node o /\ sent_pc w (op_pc o').
Proof.
  intros Hx Ho Hs; unfold with_call; destruct (decide (k = k')) as [->|Hne].
  - simplify_eq; eexists; split; [by apply list_lookup_insert_eq; eapply lookup_lt_Some|done].
  - exists o; by rewrite list_lookup_insert_ne.
Qed.

(** The answer to an RPC, or its failure. *)
Lemma agree_reply k j x c r :
  grid_ops g !! k = Some x -> op_calls x !! j = Some c ->
  agree (MkGrid (grid_nodes g) (with_call k x j (MkCall (call_peer c) (call_srv c) r) (grid_ops g))) h.
Proof.
  intros Hx Hc; eapply agree_same; [exact Hag|..]; simpl.
  - intros i n Hn; by exists n.
  - intros k'; rewrite (succeeded_call (grid_nodes g)) by done; by destruct g.
  - intros k' i w l Hr; eapply rides_call; try done.
  - destruct (ag_ops _ _ Hag _ _ Hx) as [_ Hcs]; eapply op_sent_call; [done..|].
    exact (proj1 (Forall_lookup _ _) Hcs _ _ Hc).
  - intros k' o w Ho Hs; by eapply sent_pc_call.
Qed.

Lemma agree_begin i p :
  client_start p = true -> value_given (GBegin i p) = true ->
  agree (MkGrid (grid_nodes g) (grid_ops g ++ [MkOp i p []])) h.
Proof.
  intros Hp Hv; eapply agree_same; [exact Hag|..]; simpl.
  - intros j n Hn; by exists n.
  - intros k; unfold succeeded; simpl; destruct (decide (k < length (grid_ops g))) as [Hlt|Hge].
    { by rewrite lookup_app_l. }
    rewrite (lookup_ge_None_2 (grid_ops g)) by lia; rewrite lookup_app_r by lia.
    destruct (k - length (grid_ops g)) as [|m]; simpl; [by destruct p|done].
  - intros k i' w l Hr; by apply rides_begin.
  - intros k o [Ho|[_ Ho]]%lookup_app_Some; [by apply (ag_ops _ _ Hag)|].
    apply list_lookup_singleton_Some in Ho as [_ <-]; split; [|constructor]; simpl in *.
    destruct p; try done; by apply Bool.eqb_prop in Hv.
  - intros k o w Ho Hs; exists o; split; [by apply lookup_app_l_Some|done].
Qed.

(** A step of the handler of an RPC. *)
Lemma agree_serve k j x c n n' p' :
  grid_ops g !! k = Some x -> op_calls x !! j = Some c -> grid_nodes g !! call_peer c = Some n ->
  async_serve n (call_srv c) n' p' ->
  agree (MkGrid (<[call_peer c := n']> (grid_nodes g))
    (with_call k x j (MkCall (call_peer c) p' (call_reply c)) (grid_ops g))) h.
Proof.
  intros Hx Hc Hn Hv; set (c' := MkCall _ _ _); set (g' := MkGrid _ _).
  destruct (ag_ops _ _ Hag _ _ Hx) as [Hp Hcs]; pose proof (proj1 (Forall_lookup _ _) Hcs _ _ Hc) as [Hpeer Hs].
  destruct (proj1 (Forall_lookup _ _) (gw_ops _ _ _ _ (sb_wt _ _ _ Hbase)) _ _ Hx) as [_ Hw].
  pose proof (proj1 (Forall_lookup _ _) Hw _ _ Hc) as Hwt; simpl in Hwt.
  assert (Hsucc : forall k', succeeded g' k' = succeeded g k').
  { intros k'; unfold g'; rewrite (succeeded_call (grid_nodes g)) by done; by destruct g. }
  assert (Hsame : Node_Store n' = Node_Store n -> srv_sent h k (op_node x) c' ->
    (forall w l, carried w l c -> carried w l c') -> agree g' h).
  { intros Hst Hc' Hcar; eapply agree_same; [exact Hag| |exact Hsucc|..]; simpl.
    - intros i m [[<- <-]|[_ Hm]]%insert_lookup_cases; [by exists n|by exists m].
    - intros k' i w l Hr; eapply rides_call; try done; auto.
    - by eapply op_sent_call.
    - intros k' o w Ho Hsp; by eapply sent_pc_call. }
  unfold carried in Hsame; remember (call_srv c) as p eqn:Hsrv.
  destruct Hv as [req pts m [Hst _ _] Hpts|req m e [Hst _ _]|req ts m resp Hst _ _ _|r];
    simpl in *; try (apply Hsame; (done || by split)).
  destruct Hs as (w0 & Hw0 & ->), Hwt as [_ Hts].
  assert (Hwr : forall k1 o1 w, (k1, (o1, w)) ∈ h -> request_of w0 = request_of w ->
    MkWrite (RR_Key (request_of w0)) (request_value (request_of w0) ts) = w).
  { intros k1 o1 w Hin Heq; destruct (ag_hist _ _ Hag _ _ _ Hin) as (_ & Hf & _).
    rewrite Heq in Hts |- *; injection Hts as <-; exact (request_of_write w _ Hf eq_refl). }
  rewrite (Hwr _ _ _ Hw0 eq_refl) in Hst; split.
  - simpl; intros i m' [[<- <-]|[Hne Hm]]%insert_lookup_cases;
      [destruct (ag_nodes _ _ Hag _ _ Hn) as [ws Hws]; exists (ws ++ [w0])
      |destruct (ag_nodes _ _ Hag _ _ Hm) as [ws Hws]; exists (ws ++ [])];
      eapply agree_grow; try exact Hws; try done; try (intros k1; by rewrite Hsucc);
      try (intros k1 w1 Hin; rewrite Hsucc; by right).
    + by rewrite Hst, apply_writes_snoc, (an_store _ _ _ _ _ Hws).
    + intros w ->%list_elem_of_singleton; exists k, (op_node x); split; [done|]; intros Ho; congruence.
    + intros k1 o1 w Hin _ Hr; eapply rides_call; try done.
      { eapply rides_mono; [by apply Hr|]; intros y; rewrite elem_of_app; by left. }
      unfold carried; rewrite <- Hsrv; simpl; intros _ Heq.
      rewrite <- (Hwr _ _ _ Hin Heq), (Hwr _ _ _ Hw0 eq_refl), elem_of_app; right; left.
    + by rewrite app_nil_r, (an_store _ _ _ _ _ Hws).
    + by intros w ?%not_elem_of_nil.
    + intros k1 o1 w Hin _ Hr; rewrite app_nil_r; eapply rides_call; try done; by apply Hr.
  - simpl; eapply op_sent_call; [done..|by split].
  - intros k1 i w Hin; destruct (ag_hist _ _ Hag _ _ _ Hin) as ((o & Ho & Hi & Hsp) & Hf); split; [|done].
    destruct (sent_pc_call k x j c' k1 o w Hx Ho Hsp) as (o' & ? & ? & ?); exists o'; split_and!; [done|congruence|done].
Qed.

Definition pc_succeeded (p : pc) : bool := match p with WDone _ (Ok _) => true | _ => false end.

Lemma succeeded_turn ns ns' ops k0 i p' cs k :
  k0 < length ops ->
  succeeded (MkGrid ns' (<[k0 := MkOp i p' cs]> ops)) k =
    if decide (k0 = k) then pc_succeeded p' else succeeded (MkGrid ns ops) k.
Proof.
  intros Hk; unfold succeeded; simpl; case_decide as Hd; [subst; by rewrite list_lookup_insert_eq|].
  by rewrite list_lookup_insert_ne.
Qed.

Lemma succeeded_pc k o : grid_ops g !! k = Some o -> succeeded g k = pc_succeeded (op_pc o).
Proof. unfold succeeded; intros ->; done. Qed.

(** A turn that neither sends nor stores. *)
Lemma agree_turn_same k o n n' p' :
  grid_ops g !! k = Some o -> grid_nodes g !! op_node o = Some n -> Node_Store n' = Node_Store n ->
  call_sent h k (op_node o) p' -> (forall w, sent_pc w (op_pc o) -> sent_pc w p') ->
  pc_succeeded p' = pc_succeeded (op_pc o) ->
  agree (MkGrid (<[op_node o := n']> (grid_nodes g))
    (<[k := MkOp (op_node o) p' (op_calls o ++ map start_call [])]> (grid_ops g))) h.
Proof.
  intros Ho Hn Hst Hp' Hsent Hsucc; pose proof (lookup_lt_Some _ _ _ Ho) as Hk.
  destruct (ag_ops _ _ Hag _ _ Ho) as [_ Hcs]; eapply agree_same; [exact Hag|..]; simpl.
  - intros i m [[<- <-]|[_ Hm]]%insert_lookup_cases; [by exists n|by exists m].
  - intros k'; rewrite (succeeded_turn (grid_nodes g)) by done; case_decide as Hd; [subst|by destruct g].
    by rewrite (succeeded_pc _ _ Ho).
  - intros k' i w l Hr; by apply rides_turn.
  - intros k' x [[<- <-]|[_ Hx]]%insert_lookup_cases; [|by apply (ag_ops _ _ Hag)].
    split; [done|]; simpl; by rewrite app_nil_r.
  - intros k' x w Hx Hs; destruct (decide (k = k')) as [<-|Hne].
    + rewrite list_lookup_insert_eq by done; eexists; split; [done|]; simplify_eq; simpl; auto.
    + exists x; by rewrite list_lookup_insert_ne.
Qed.

(** The turn that starts the RPCs. *)
Lemma agree_send k o n key v rpcs :
  let i := op_node o in
  let e := (k, (i, MkWrite key v)) in
  grid_ops g !! k = Some o -> grid_nodes g !! i = Some n -> op_pc o = WDeps key v ->
  (forall j, j ∈ other_peers N i -> (j, request_of (MkWrite key v)) ∈ messages rpcs) ->
  (forall j r, (j, r) ∈ messages rpcs -> j <> i /\ r = request_of (MkWrite key v)) ->
  agree (MkGrid (<[i := n]> (grid_nodes g))
    (<[k := MkOp i (WSending key v) (op_calls o ++ map start_call rpcs)]> (grid_ops g))) (h ++ [e]).
Proof.
  intros i e Ho Hn Hpc Hall Honly; pose proof (lookup_lt_Some _ _ _ Ho) as Hk; set (g' := MkGrid _ _).
  assert (Hh : h ⊆ h ++ [e]) by (intros y Hy; rewrite elem_of_app; by left).
  assert (Hsucc : forall k', succeeded g' k' = succeeded g k').
  { intros k'; unfold g'; rewrite (succeeded_turn (grid_nodes g)) by done; case_decide as Hd; [subst|by destruct g].
    by rewrite (succeeded_pc _ _ Ho), Hpc. }
  destruct (ag_ops _ _ Hag _ _ Ho) as [Hp Hcs]; rewrite Hpc in Hp; destruct Hp as [Hf Hd].
  assert (Hno : succeeded g k = false) by (by rewrite (succeeded_pc _ _ Ho), Hpc).
  split; simpl.
  - intros j m Hm; assert (Hj : j < N).
    { apply lookup_lt_Some in Hm; rewrite length_insert in Hm; by rewrite <- (gw_length _ _ _ _ (sb_wt _ _ _ Hbase)). }
    assert (Hm' : grid_nodes g !! j = Some m) by (by apply insert_lookup_cases in Hm as [[<- <-]|[_ ?]]).
    destruct (ag_nodes _ _ Hag _ _ Hm') as [ws Hws]; exists (ws ++ []).
    eapply agree_grow; [exact Hws|by rewrite app_nil_r, (an_store _ _ _ _ _ Hws)|done|intros k1; by rewrite Hsucc
      |by intros w ?%not_elem_of_nil| |].
    + intros k1 w [Hin|[= -> _ _]]%elem_of_snoc; rewrite Hsucc; [by right|by rewrite Hno].
    + intros k1 o1 w [Hin|[= -> -> ->]]%elem_of_snoc Hne Hr; rewrite app_nil_r.
      * by apply rides_turn; [|apply Hr].
      * by apply rides_started, Hall, other_peers_spec.
  - intros k' x [[<- <-]|[_ Hx]]%insert_lookup_cases; [|by eapply op_sent_mono, (ag_ops _ _ Hag)].
    split; [simpl; rewrite elem_of_app; right; left|]; simpl; apply Forall_app; split.
    { eapply Forall_impl; [exact Hcs|]; intros c; by apply srv_sent_mono. }
    apply Forall_map, Forall_forall; intros out Hout.
    destruct (Honly (out_peer out) (out_req out)) as [Hp Hr].
    { unfold messages; by apply (list_elem_of_fmap_2 (fun o => (out_peer o, out_req o))). }
    split; [done|]; simpl; rewrite Hr; exists (MkWrite key v); split; [rewrite elem_of_app; right; left|done].
  - intros k1 i1 w [Hin|[= -> -> ->]]%elem_of_snoc.
    + destruct (ag_hist _ _ Hag _ _ _ Hin) as ((x & Hx & Hi & Hs) & Hrest); split; [|done].
      destruct (decide (k = k1)) as [<-|Hne]; [simplify_eq; by rewrite Hpc in Hs|].
      exists x; by rewrite list_lookup_insert_ne.
    + split; [|done]; eexists; split; [by apply list_lookup_insert_eq|done].
Qed.

(** The turn that stores an acknowledged write. *)
Lemma agree_store k o n key v :
  let i := op_node o in
  let w := MkWrite key v in
  grid_ops g !! k = Some o -> grid_nodes g !! i = Some n -> op_pc o = WAcked key v ->
  ts_le (version (Node_Store n) key) (Value_Timestamp v) -> NoDup (stamps (map snd h)) ->
  agree (MkGrid (<[i := with_store (<[key := write_stored w]> (Node_Store n)) n]> (grid_nodes g))
    (<[k := MkOp i (WDone key (Ok v)) (op_calls o ++ map start_call [])]> (grid_ops g))) h.
Proof.
  intros i w Ho Hn Hpc Hver Hnd; pose proof (lookup_lt_Some _ _ _ Ho) as Hk; set (g' := MkGrid _ _).
  destruct (ag_ops _ _ Hag _ _ Ho) as [Hp Hcs]; rewrite Hpc in Hp; simpl in Hp; fold i w in Hp.
  assert (Hno : succeeded g k = false) by (by rewrite (succeeded_pc _ _ Ho), Hpc).
  assert (Hsucc : forall k', succeeded g' k' = true <-> k' = k \/ succeeded g k' = true).
  { intros k'; unfold g'; rewrite (succeeded_turn (grid_nodes g)) by done; destruct g; simpl in *.
    case_decide; subst; simpl; intuition congruence. }
  split; simpl.
  - intros j m [[<- <-]|[Hne Hm]]%insert_lookup_cases;
      [destruct (ag_nodes _ _ Hag _ _ Hn) as [ws Hws]; exists (ws ++ [w])
      |destruct (ag_nodes _ _ Hag _ _ Hm) as [ws Hws]; exists (ws ++ [])];
      eapply agree_grow; try exact Hws; try done; try (intros k1 Hk1; apply Hsucc; by right).
    + simpl; rewrite <- (local_store_fresh ws w).
      * by rewrite local_store_write, (an_store _ _ _ _ _ Hws).
      * by rewrite <- (an_store _ _ _ _ _ Hws).
      * intros w' Hw' Heq; destruct (an_from _ _ _ _ _ Hws _ Hw') as (k1 & o1 & Hin & Hs1).
        pose proof (stamp_unique h _ _ Hnd Hin Hp Heq) as [= -> -> _].
        rewrite Hs1 in Hno by done; done.
    + intros w' ->%list_elem_of_singleton; exists k, i; split; [done|]; intros _; apply Hsucc; by left.
    + intros k1 w1 Hin [->|Hs]%Hsucc; [left|by right].
      destruct (ag_hist _ _ Hag _ _ _ Hin) as ((x & Hx & _ & Hsp) & _); simplify_eq.
      rewrite Hpc in Hsp; simpl in Hsp; subst; left.
    + intros k1 o1 w1 Hin _ Hr; apply rides_turn; [done|]; eapply rides_mono; [by apply Hr|].
      intros y Hy; rewrite elem_of_app; by left.
    + by rewrite app_nil_r, (an_store _ _ _ _ _ Hws).
    + by intros w' ?%not_elem_of_nil.
    + intros k1 w1 Hin [->|Hs]%Hsucc; right; [|done].
      destruct (ag_hist _ _ Hag _ _ _ Hin) as ((x & Hx & Hi & _) & _); simplify_eq.
    + intros k1 o1 w1 Hin _ Hr; rewrite app_nil_r; by apply rides_turn; [|apply Hr].
  - intros k' x [[<- <-]|[_ Hx]]%insert_lookup_cases; [|by apply (ag_ops _ _ Hag)].
    split; [done|]; simpl; by rewrite app_nil_r.
  - intros k1 i1 w1 Hin; destruct (ag_hist _ _ Hag _ _ _ Hin) as ((x & Hx & Hi & Hs) & Hrest); split; [|done].
    destruct (decide (k = k1)) as [<-|Hne]; [|exists x; by rewrite list_lookup_insert_ne].
    simplify_eq; rewrite Hpc in Hs; eexists; split; [by apply list_lookup_insert_eq|done].
Qed.

Lemma agree_turn k now o n n' rpcs p' :
  grid_ops g !! k = Some o -> grid_nodes g !! op_node o = Some n ->
  strong_turn N (op_node o) n (op_replies o) (op_pc o) n' rpcs p' ->
  store_forward (GTurn k now) g = true -> NoDup (stamps (map snd h)) ->
  agree (MkGrid (<[op_node o := n']> (grid_nodes g))
    (<[k := MkOp (op_node o) p' (op_calls o ++ map start_call rpcs)]> (grid_ops g))) (h ++ sent (GTurn k now) g).
Proof.
  intros Ho Hn Ht Hfw Hnd; destruct (ag_ops _ _ Hag _ _ Ho) as [Hp _].
  unfold store_forward in Hfw; rewrite Ho in Hfw; simpl in Hfw; rewrite Hn in Hfw; simpl in Hfw.
  simpl; rewrite Ho; destruct o as [i p cs]; simpl in *.
  assert (Hsame : forall m q, Node_Store m = Node_Store n -> call_sent h k i q -> (forall w, sent_pc w p -> sent_pc w q) ->
      pc_succeeded q = pc_succeeded p ->
      agree (MkGrid (<[i := m]> (grid_nodes g)) (<[k := MkOp i q cs]> (grid_ops g))) h).
  { intros m q Hst Hq Hs Hsc; rewrite <- (app_nil_r cs); exact (agree_turn_same k (MkOp i p cs) n m q Ho Hn Hst Hq Hs Hsc). }
  revert Ho Hp Hfw Hsame; destruct Ht as [key data del e|key data del clk ts _ _|key v|key v rpcs Hpeers Hreqs|key v e|key v _|key v|key v|q r Hg|q Hd];
    intros Ho Hp Hfw Hsame; rewrite ?app_nil_r.
  - by apply Hsame.
  - by apply Hsame; [|split| |].
  - by apply Hsame; [|split; [apply Hp|done]| |].
  - destruct Hp as [Hf Hd]; eapply (agree_send k (MkOp i (WDeps key v) cs) n key v rpcs); try done; simpl;
      unfold request_of, write_deps; simpl; rewrite Hd.
    + intros j Hj; rewrite <- Hpeers, list_elem_of_In, in_map_iff in Hj; destruct Hj as (out & <- & Hout).
      apply list_elem_of_In in Hout; rewrite Forall_forall in Hreqs; rewrite <- (Hreqs out Hout).
      unfold messages; by apply (list_elem_of_fmap_2 (fun o => (out_peer o, out_req o))).
    + intros j r Hm; unfold messages in Hm; apply list_elem_of_In, in_map_iff in Hm as (out & [= <- <-] & Hout).
      apply list_elem_of_In in Hout; rewrite Forall_forall in Hreqs; rewrite (Hreqs out Hout); split; [|done].
      eapply other_peers_spec; rewrite <- Hpeers; apply list_elem_of_In, in_map; by apply list_elem_of_In.
  - by apply Hsame.
  - by apply Hsame.
  - apply bool_decide_eq_true in Hfw; rewrite <- (app_nil_r cs).
    by apply (agree_store k (MkOp i (WAcked key v) cs) n key v).
  - by apply Hsame.
  - destruct q; try done; rewrite app_nil_r; by apply Hsame.
  - replace (match q with WDeps key v => _ | _ => _ end) with (@nil (nat * (nat * write))) by (by destruct q).
    rewrite app_nil_r; by apply Hsame.
Qed.

End steps.

(** ** Runs *)

Lemma sent_origin lb g : map snd (sent lb g) = origin lb g.
Proof.
  destruct lb as [|k now| | |]; try done; simpl; destruct (grid_ops g !! k) as [[i p cs]|]; [|done].
  by destruct p.
Qed.

Lemma strong_base_step opts N g lb g' :
  strong_base opts N g -> reading_step lb = true -> gstep_view g lb g' -> strong_base opts N g'.
Proof.
  intros [Hwt Hcl] Hread Hv; split; [|by eapply gstep_clients].
  eapply gstep_wt; [exact Hwt| |exact Hv]; unfold glabel_typed, reading_step in *.
  destruct (glabel_now lb); [|done]; by apply reading_ok_spec in Hread as [? _].
Qed.

(** In strong mode no handler enters a buffer. *)
Lemma strong_no_buffer opts N lb g : strong_base opts N g -> enters_buffer lb g = false.
Proof.
  intros [Hwt _]; destruct lb as [| |k j now| |]; try done; simpl.
  destruct (grid_ops g !! k) as [o|]; [simpl|done]; destruct (op_calls o !! j) as [c|]; [simpl|done].
  destruct (grid_nodes g !! call_peer c) as [n|] eqn:Hn; [simpl|done].
  destruct (strong_mode opts N (call_peer c) n (gw_nodes _ _ _ _ Hwt _ _ Hn)) as (_ & -> & _); by destruct (call_srv c).
Qed.

Lemma agree_gstep opts N g h lb g' :
  strong_base opts N g -> agree g h -> agree_step lb g = true -> gstep_view g lb g' ->
  NoDup (stamps (map snd h)) -> agree g' (h ++ sent lb g).
Proof.
  intros Hb Hag Hok Hv Hnd; apply andb_true_iff in Hok as [[Hread Hfw]%andb_true_iff Hval].
  pose proof Hb as [Hwt Hcl].
  destruct Hv as [i p n Hi Hp|k now o n n' rpcs p' Ho Hn Hr Hm|k j now o c n n' rpcs p' Ho Hc Hn Hm
    |k j o c r Ho Hc Hs Hr|k j e o c Ho Hc Hr]; try (simpl; rewrite app_nil_r).
  - by apply agree_begin.
  - destruct (proj1 (Forall_lookup _ _) (gw_ops _ _ _ _ Hwt) _ _ Ho) as [Hpw _].
    destruct (proj1 (Forall_lookup _ _) Hcl _ _ Ho) as [Hsv _].
    pose proof (lookup_lt_Some _ _ _ Hn) as Hi; rewrite (gw_length _ _ _ _ Hwt) in Hi.
    eapply agree_turn; try done; eapply micro_turn; try done; by apply (gw_nodes _ _ _ _ Hwt).
  - pose proof (gw_nodes _ _ _ _ Hwt _ _ Hn) as Hnw.
    destruct (proj1 (Forall_lookup _ _) (gw_ops _ _ _ _ Hwt) _ _ Ho) as [_ Hcw].
    destruct (proj1 (Forall_lookup _ _) Hcl _ _ Ho) as [_ Hsv].
    eapply agree_serve; try done; eapply micro_async_serve; try done.
    + exact (proj1 (Forall_lookup _ _) Hcw _ _ Hc).
    + exact (proj1 (Forall_lookup _ _) Hsv _ _ Hc).
    + left; by destruct (strong_mode opts N (call_peer c) n Hnw) as (_ & ? & _).
  - rewrite <- Hs; by eapply agree_reply.
  - by eapply agree_reply.
Qed.

Lemma ties_apart_sub h h' : h ⊆ h' -> ties_apart h' -> ties_apart h.
Proof.
  intros Hsub Hap; unfold ties_apart in *; rewrite Forall_forall in Hap.
  apply Forall_forall; intros x Hx; apply Forall_forall; intros y Hy.
  exact (proj1 (Forall_forall _ _) (Hap x (Hsub x Hx)) y (Hsub y Hy)).
Qed.

Lemma agree_run opts N ls g g' h :
  strong_base opts N g -> agree g h -> fine_stamped (map snd h) (whole g) ->
  grun_all agree_step ls g = true -> grun ls g = Some g' -> ties_apart (map snd (h ++ sent_all ls g)) ->
  strong_base opts N g' /\ agree g' (h ++ sent_all ls g) /\ NoDup (stamps (map snd (h ++ sent_all ls g))).
Proof.
  revert g h; induction ls as [|lb ls IH]; intros g h Hb Hag Hst Hok Hrun Hap; simpl in *.
  - simplify_eq; rewrite app_nil_r in *; split_and!; [done..|]; by eapply fine_stamped_stamps.
  - apply bind_Some in Hrun as (g1 & Hg1 & Hrun); rewrite Hg1 in *; apply andb_true_iff in Hok as [Hok1 Hok].
    pose proof Hok1 as [[Hread _]%andb_true_iff _]%andb_true_iff.
    pose proof (gstepP _ _ _ Hg1) as Hv; rewrite app_assoc in Hap |- *.
    assert (Hnd : NoDup (stamps (map snd h))).
    { eapply fine_stamped_stamps, ties_apart_sub; [exact Hst| |exact Hap].
      intros x Hx; rewrite !map_app, !elem_of_app; auto. }
    apply IH; [by eapply strong_base_step|by eapply agree_gstep| |done|done|done].
    rewrite map_app, sent_origin; change (origin lb g) with (forigin (FStep lb) (whole g)).
    eapply (fine_stamped_step "strong" opts N); [apply Hb|apply Hb|done| |done].
    apply (FV_step (whole g)); [by eapply strong_no_buffer|done].
Qed.

Lemma agree_init opts nows g :
  Forall (fun now => reading_ok now = true) nows -> init_grid "strong" opts nows = Some g ->
  strong_base opts (length nows) g /\ agree g [].
Proof.
  intros Hnows Hinit; pose proof Hinit as Hg; unfold init_grid in Hg.
  apply fmap_Some in Hg as (c & Hc & Hg); apply init_cluster_nodes in Hc as (_ & _ & Hns); split.
  - split; [|rewrite Hg; constructor].
    eapply init_grid_wt; [|exact Hinit]; eapply Forall_impl; [exact Hnows|]; by intros now [? _]%reading_ok_spec.
  - split; [|by rewrite Hg|by intros k i w ?%not_elem_of_nil].
    intros i n Hn; rewrite Hg in Hn; exists []; destruct (Hns i n Hn) as (now & _ & Hst).
    injection Hst as <-.
    split; [done|..]; intros *; by intros ?%not_elem_of_nil.
Qed.

(** Once all RPCs are served, a node has the writes it keeps. *)
Lemma agree_quiet g h i n ws :
  agree_node g h i n ws -> agree g h -> all_served g = true ->
  forall w, w ∈ ws <-> w ∈ kept g i h.
Proof.
  intros [_ Hfrom Hown Hother] Hag Hq w; unfold kept; rewrite list_elem_of_omap; split.
  - intros (k & o & Hin & Ho)%Hfrom; exists (k, (o, w)); split; [done|]; simpl.
    destruct (Nat.eqb_spec o i) as [->|]; [by rewrite Ho|done].
  - intros ([k [o w']] & Hin & Hk); simpl in Hk; destruct (Nat.eqb_spec o i) as [->|Hne]; simpl in Hk.
    + destruct (succeeded g k) eqn:Hs; simplify_eq/=; by eapply Hown.
    + simplify_eq; destruct (Hother k o w Hin Hne) as (x & j & c & Hx & Hc & _ & Hw).
      unfold all_served in Hq; rewrite forallb_forall in Hq.
      specialize (Hq x (proj1 (list_elem_of_In _ _) (list_elem_of_lookup_2 _ _ _ Hx))).
      apply andb_true_iff in Hq as [_ Hq]; rewrite forallb_forall in Hq.
      specialize (Hq c (proj1 (list_elem_of_In _ _) (list_elem_of_lookup_2 _ _ _ Hc))).
      unfold served_ok, carried in *; destruct (call_srv c) as [| | | | | | | | | | | |[?|?]]; done.
Qed.

(** ** Properties *)

(** C7: agreement of a strong cluster: whatever the interleaving of its handlers,
    with RPCs delayed, reordered and answered late or with errors, once every
    call has ended and every RPC has been served, the store of each node is the
    last-writer-wins fold of all the writes that were sent, but for those the
    node sent itself and answered with an error.  So the nodes agree on all
    acknowledged writes, in the same versions, and differ exactly in the failed
    ones, each missing at its own origin alone.  This needs that no two nodes
    gave one timestamp to writes of one key, that no acknowledged write was
    stored at its origin over a later version of its key, that no empty value was
    put, and that the clocks read int64s from the epoch on. *)
Theorem strong_agreement opts nows g0 ls g i n :
  Forall (fun now => reading_ok now = true) nows -> init_grid "strong" opts nows = Some g0 ->
  grun_all agree_step ls g0 = true -> grun ls g0 = Some g ->
  ties_apart (map snd (sent_all ls g0)) -> all_served g = true ->
  grid_nodes g !! i = Some n ->
  Node_Store n = apply_writes store_New (kept g i (sent_all ls g0)).
Proof.
  intros Hnows Hinit Hok Hrun Hap Hq Hn; destruct (agree_init _ _ _ Hnows Hinit) as [Hb Hag].
  assert (Hg0 : grid_ops g0 = []) by (unfold init_grid in Hinit; by apply fmap_Some in Hinit as (c & _ & ->)).
  destruct (agree_run _ _ ls g0 g [] Hb Hag (fine_stamped_init _ Hg0) Hok Hrun Hap) as (_ & Hag' & Hnd).
  destruct (ag_nodes _ _ Hag' _ _ Hn) as [ws Hws]; rewrite (an_store _ _ _ _ _ Hws).
  pose proof (agree_quiet _ _ _ _ _ Hws Hag' Hq) as Hset; simpl in Hset.
  apply apply_writes_set_eq; [done|].
  pose proof (stamps_distinct _ Hnd) as Hdist; unfold ts_distinct in *.
  assert (Hsub : forall w, w ∈ ws -> w ∈ hist_writes (map snd (sent_all ls g0))).
  { intros w (k & o & Hin & _)%(an_from _ _ _ _ _ Hws); unfold hist_writes; rewrite map_map.
    by apply (list_elem_of_fmap_2 (fun e => e.2.2) _ (k, (o, w))). }
  apply Forall_forall; intros x Hx; apply Forall_forall; intros y Hy.
  rewrite Forall_forall in Hdist; exact (proj1 (Forall_forall _ _) (Hdist x (Hsub x Hx)) y (Hsub y Hy)).
Qed.

(** A put that succeeds with one failed RPC, which is served later all the same,
    and a put of another node that fails although both peers take it. *)
Definition c_agree_run : list glabel :=
  strong_call 0 0 "x" x61 200 0 ++ [GServe 0 1 250; GServe 0 1 260] ++
  [GBegin 1 (WStart "x" [x62] false)] ++ turns 1 3 300 ++
  [GFail 1 0 "timeout"; GFail 1 1 "timeout"] ++ turns 1 2 0 ++
  [GServe 1 0 310; GServe 1 0 320; GServe 1 1 330; GServe 1 1 340].
Definition c_agreed : grid := default (c_grid "strong") (grun c_agree_run (c_grid "strong")).

Lemma strong_agreement_witness :
  map op_pc (grid_ops c_agreed) =
    [WDone "x" (Ok (MkValue [x61] (MkTimestamp 200 0) [] false)); WDone "x" (Err errQuorum)] /\
  forall i n, grid_nodes c_agreed !! i = Some n ->
    Node_Store n = apply_writes store_New (kept c_agreed i (sent_all c_agree_run (c_grid "strong"))) /\
    (fun v => Value_Data v) <$> Node_Store n !! "x" = Some (if Nat.eqb i 1 then [x61] else [x62]).
Proof.
  split; [vm_compute; reflexivity|]; intros i n Hn.
  assert (Hst : Node_Store n = apply_writes store_New (kept c_agreed i (sent_all c_agree_run (c_grid "strong")))).
  { apply (strong_agreement c_opts [100; 100; 100]%Z (c_grid "strong") c_agree_run c_agreed i n);
      [exact c_nows_ok|vm_compute; reflexivity|vm_compute; reflexivity|vm_compute; reflexivity|
      |vm_compute; reflexivity|exact Hn].
    apply (bool_decide_unpack _); vm_compute; exact I. }
  split; [exact Hst|]; rewrite Hst; clear Hst.
  destruct i as [|[|[|i]]]; [vm_compute; reflexivity..|].
  apply lookup_lt_Some in Hn; vm_compute in Hn; lia.
Defined.
