(* ===== verification/Progress.v ===== *)
(** * Calls can always end ([src/internal/server], [src/internal/replication])

    No state of a cluster is stuck: from every state that its handlers can reach,
    in any of the three modes and whatever failed or was delayed before, there is
    a way on in which every call returns to its client and every RPC is served
    and answered.  This is also so at the grain of [Fine.v], where handlers wait for
    the buffer's mutex. *)

From S2P Require Import Prelude Hlc Store Buffer Wire Replication Server Cluster Interleave Grid Strong Causal.
From S2P Require Import Converge Delivery Fine.

(** ** Definitions *)

Definition call_finished (c : call) : bool := pc_done (call_srv c) && isSome (call_reply c).

Definition op_finished (o : op) : bool := pc_done (op_pc o) && forallb call_finished (op_calls o).

(** Every call has ended; every RPC has been served and answered. *)
Definition finished (g : grid) : bool := forallb op_finished (grid_ops g).

(** No client comes, and no RPC fails. *)
Definition serves (lb : glabel) (_ : grid) : bool :=
  match lb with
  | GBegin _ _ | GFail _ _ _ => false
  | GReturn _ _ => true
  | GTurn _ now | GServe _ _ now => reading_ok now
  end.

(** The work left: a turn of a call may start an RPC to every peer. *)
Definition call_weight (c : call) : nat :=
  turns_left (call_srv c) + (if isSome (call_reply c) then 0 else 1).
Definition op_weight (N : nat) (o : op) : nat :=
  (3 * N + 1) * turns_left (op_pc o) + sum_list_with call_weight (op_calls o).
Definition weight (N : nat) (g : grid) : nat := sum_list_with (op_weight N) (grid_ops g).

(** Calls and RPCs are at nodes of the cluster. *)
Definition routed (N : nat) (g : grid) : Prop :=
  Forall (fun o => op_node o < N /\ Forall (fun c => call_peer c < N) (op_calls o)) (grid_ops g).

(** ** Lemmas *)

Lemma sum_list_with_insert {A} (f : A -> nat) l k x y :
  l !! k = Some x -> sum_list_with f (<[k := y]> l) + f x = sum_list_with f l + f y.
Proof.
  revert k; induction l as [|z l IH]; intros [|k] Hk; simplify_eq/=; [lia|]; specialize (IH _ Hk); lia.
Qed.

Lemma forallb_false {A} (t : A -> bool) l :
  forallb t l = false -> exists k x, l !! k = Some x /\ t x = false.
Proof.
  induction l as [|x l IH]; simpl; [done|]; destruct (t x) eqn:Ht; simpl; [|by exists 0, x].
  intros Hl; destruct (IH Hl) as (k & y & ? & ?); by exists (S k), y.
Qed.

Lemma handler_peers_new mode peers opts h : NewHandler mode peers opts = Some h -> handler_peers h = peers.
Proof. unfold NewHandler; repeat case_match; by intros [= <-]. Qed.

(** The RPCs of a turn go to the peers of its node. *)
Lemma micro_rpcs mode N i opts now rs n p n' rpcs p' :
  node_wt mode (other_peers N i) opts n -> micro now rs n p = (n', rpcs, p') ->
  rpcs = [] \/ map out_peer rpcs = other_peers N i.
Proof.
  intros Hn Hm; rewrite <- (handler_peers_new _ _ _ _ (nw_handler _ _ _ _ Hn)).
  assert (Ho : forall key v, fst (OnWrite (Node_Handler n) key v rs) = [] \/
    map out_peer (fst (OnWrite (Node_Handler n) key v rs)) = handler_peers (Node_Handler n)).
  { intros key v; destruct (on_write_peers (Node_Handler n) key v rs); auto. }
  destruct p as [key data del|key v|key v|key v|key v|key v|key r|key|key v|r|req|req ts|r]; cbn [micro] in Hm;
    try (by revert Hm; repeat case_match; intros Hm; simplify_eq; left).
  - destruct (String.eqb _ _); simplify_eq; [apply Ho|by left].
  - specialize (Ho key v); destruct (OnWrite _ _ _ _) as [? [?|]]; by simplify_eq.
Qed.

Lemma other_peers_length_le N i : length (other_peers N i) <= N.
Proof.
  unfold other_peers; pose proof (filter_length_le (fun j => negb (Nat.eqb j i)) (seq 0 N)) as Hl.
  by rewrite length_seq in Hl.
Qed.

Lemma gstep_routed mode opts N lb g g' :
  grid_wt mode opts N g -> gstep_view g lb g' -> routed N g -> routed N g'.
Proof.
  intros Hw Hv Hr; pose proof (fun k o Ho => proj1 (Forall_lookup _ _) Hr k o Ho) as Hop; simpl in Hop.
  destruct Hv as [i p n Hi Hp|k now o n n' rpcs p' Ho Hn Hrd Hm|k j now o c n n' rpcs p' Ho Hc Hn Hm
    |k j o c r Ho Hc Hs Hrp|k j e o c Ho Hc Hrp]; unfold routed in *; simpl;
    try (destruct (Hop _ _ Ho) as [Hl Hcs]).
  - apply Forall_app; split; [done|]; repeat constructor; simpl.
    rewrite <- (gw_length _ _ _ _ Hw); by eapply lookup_lt_Some.
  - apply Forall_insert; [done|]; split; [done|]; apply Forall_app; split; [done|]; apply Forall_map.
    apply Forall_forall; intros out Hout; simpl.
    destruct (micro_rpcs _ _ _ _ _ _ _ _ _ _ _ (gw_nodes _ _ _ _ Hw _ _ Hn) Hm) as [->|Hpeers];
      [by apply not_elem_of_nil in Hout|].
    assert (Hp : out_peer out ∈ map out_peer rpcs) by (by apply list_elem_of_fmap_2).
    rewrite Hpeers, other_peers_spec in Hp; apply Hp.
  - apply Forall_with_call; [done|]; split; [done|]; apply Forall_insert; [done|].
    exact (proj1 (Forall_lookup _ _) Hcs _ _ Hc).
  - apply Forall_with_call; [done|]; split; [done|]; apply Forall_insert; [done|].
    exact (proj1 (Forall_lookup _ _) Hcs _ _ Hc).
  - apply Forall_with_call; [done|]; split; [done|]; apply Forall_insert; [done|].
    exact (proj1 (Forall_lookup _ _) Hcs _ _ Hc).
Qed.

(** What progress relies on. *)
Record movable (mode : string) (opts : Options) (N : nat) (g : grid) : Prop := {
  mv_wt : grid_wt mode opts N g;
  mv_clients : clients g;
  mv_routed : routed N g
}.

Lemma gstep_movable mode opts N lb g g' :
  movable mode opts N g -> glabel_typed lb -> gstep lb g = Some g' -> movable mode opts N g'.
Proof.
  intros [Hw Hc Hr] Hty Hs%gstepP; split; [by eapply gstep_wt|by eapply gstep_clients|by eapply gstep_routed].
Qed.

(** ** Progress *)

Lemma turns_left_less now rs (n n' : Node AnyHandler) p rpcs p' :
  micro now rs n p = (n', rpcs, p') -> pc_done p = false -> turns_left p' < turns_left p.
Proof.
  intros Hm Hp; pose proof (micro_turns _ _ _ _ _ _ _ Hm) as Hle.
  destruct (turns_left p) eqn:Ht; [apply turns_done in Ht; congruence|simpl in *; lia].
Qed.

Section step.
Context (mode : string) (opts : Options) (N : nat) (g : grid).
Context (Hg : movable mode opts N g).

Lemma node_at i : i < N -> exists n, grid_nodes g !! i = Some n.
Proof. intros Hi; apply lookup_lt_is_Some; by rewrite (gw_length _ _ _ _ (mv_wt _ _ _ _ Hg)). Qed.

Lemma call_step_weight k o j c c' :
  grid_ops g !! k = Some o -> op_calls o !! j = Some c -> call_weight c' < call_weight c ->
  forall ns, weight N (MkGrid ns (with_call k o j c' (grid_ops g))) < weight N g.
Proof.
  intros Ho Hc Hlt ns; unfold weight; simpl.
  set (o' := MkOp (op_node o) (op_pc o) (<[j := c']> (op_calls o))).
  pose proof (sum_list_with_insert (op_weight N) _ _ _ o' Ho) as H1.
  pose proof (sum_list_with_insert call_weight _ _ _ c' Hc) as H2.
  unfold with_call; fold o'; unfold op_weight in H1 at 2 4; simpl in H1; lia.
Qed.

(** An RPC not yet served, or not yet answered. *)
Lemma call_can_move k o j c :
  grid_ops g !! k = Some o -> op_calls o !! j = Some c -> call_finished c = false ->
  exists lb g', gstep lb g = Some g' /\ serves lb g = true /\ weight N g' < weight N g.
Proof.
  intros Ho Hc Hf; destruct (proj1 (Forall_lookup _ _) (mv_routed _ _ _ _ Hg) _ _ Ho) as [_ Hr].
  destruct (proj1 (Forall_lookup _ _) (mv_clients _ _ _ _ Hg) _ _ Ho) as [_ Hs].
  pose proof (proj1 (Forall_lookup _ _) Hr _ _ Hc) as Hp; pose proof (proj1 (Forall_lookup _ _) Hs _ _ Hc) as Hsv.
  simpl in Hp, Hsv; destruct (node_at _ Hp) as [n Hn]; unfold call_finished in Hf.
  destruct (pc_done (call_srv c)) eqn:Hd; simpl in Hf.
  - destruct (call_srv c) as [| | | | | | | | | | | |r] eqn:Hsrv; try done.
    destruct (call_reply c) eqn:Hrep; [done|]; exists (GReturn k j).
    eexists; split; [simpl; rewrite Ho; simpl; rewrite Hc; simpl; by rewrite Hsrv, Hrep|]; split; [done|].
    eapply call_step_weight; [done..|]; unfold call_weight; rewrite Hsrv, Hrep; simpl; lia.
  - exists (GServe k j 0); destruct (micro 0 [] n (call_srv c)) as [[n' rpcs] p'] eqn:Hm.
    eexists; split; [simpl; rewrite Ho; simpl; rewrite Hc; simpl; rewrite Hn; simpl; by rewrite Hm|].
    split; [done|]; eapply call_step_weight; [done..|].
    pose proof (turns_left_less _ _ _ _ _ _ _ Hm Hd); unfold call_weight; simpl; lia.
Qed.

(** A call of a client whose RPCs have all been answered. *)
Lemma op_can_move k o :
  grid_ops g !! k = Some o -> pc_done (op_pc o) = false -> forallb call_finished (op_calls o) = true ->
  exists lb g', gstep lb g = Some g' /\ serves lb g = true /\ weight N g' < weight N g.
Proof.
  intros Ho Hd Hall; destruct (proj1 (Forall_lookup _ _) (mv_routed _ _ _ _ Hg) _ _ Ho) as [Hi _].
  destruct (node_at _ Hi) as [n Hn].
  assert (Hrd : op_ready o = true).
  { unfold op_ready, all_replied; destruct (op_pc o); try done; rewrite forallb_forall in Hall |- *.
    intros c Hc%Hall%andb_true_iff; apply Hc. }
  exists (GTurn k 0); destruct (micro 0 (op_replies o) n (op_pc o)) as [[n' rpcs] p'] eqn:Hm.
  eexists; split; [simpl; rewrite Ho; simpl; rewrite Hn; simpl; by rewrite Hrd, Hm|].
  split; [done|]; unfold weight; simpl.
  set (o' := MkOp (op_node o) p' (op_calls o ++ map start_call rpcs)).
  pose proof (sum_list_with_insert (op_weight N) _ _ _ o' Ho) as H1; unfold op_weight in H1 at 2 4; simpl in H1.
  rewrite sum_list_with_app in H1; pose proof (turns_left_less _ _ _ _ _ _ _ Hm Hd) as Hlt.
  assert (Hrpcs : length rpcs <= N).
  { destruct (micro_rpcs _ _ _ _ _ _ _ _ _ _ _ (gw_nodes _ _ _ _ (mv_wt _ _ _ _ Hg) _ _ Hn) Hm) as [->|Hp];
      [simpl; lia|]; rewrite <- (length_map out_peer), Hp; apply other_peers_length_le. }
  assert (Hsum : sum_list_with call_weight (map start_call rpcs) = 3 * length rpcs).
  { clear; induction rpcs as [|r rpcs IH]; [done|]; cbn [map sum_list_with length]; rewrite IH.
    unfold call_weight; simpl; lia. }
  rewrite Hsum in H1; nia.
Qed.

Lemma grid_can_move : finished g = false ->
  exists lb g', gstep lb g = Some g' /\ serves lb g = true /\ weight N g' < weight N g.
Proof.
  intros Hf; destruct (forallb_false _ _ Hf) as (k & o & Ho & Hof); unfold op_finished in Hof.
  destruct (forallb call_finished (op_calls o)) eqn:Hc; [rewrite andb_true_r in Hof; by eapply op_can_move|].
  destruct (forallb_false _ _ Hc) as (j & c & Hj & Hcf); by eapply call_can_move.
Qed.

End step.

Lemma grid_can_finish mode opts N g :
  movable mode opts N g ->
  exists ls g', grun ls g = Some g' /\ grun_all serves ls g = true /\ finished g' = true.
Proof.
  remember (weight N g) as m eqn:Hm; revert g Hm.
  induction m as [m IH] using lt_wf_ind; intros g -> Hg; destruct (finished g) eqn:Hf; [by exists [], g|].
  destruct (grid_can_move _ _ _ _ Hg Hf) as (lb & g1 & Hg1 & Hs & Hlt).
  assert (Hty : glabel_typed lb).
  { unfold glabel_typed; destruct lb; simpl in *; try done; by apply reading_ok_spec in Hs as [? _]. }
  destruct (IH _ Hlt _ eq_refl (gstep_movable _ _ _ _ _ _ Hg Hty Hg1)) as (ls & g' & Hrun & Hall & Hfin).
  exists (lb :: ls), g'; simpl; rewrite Hg1, Hs; split; [done|]; by split.
Qed.

Lemma init_movable mode opts nows g :
  Forall in_int64 nows -> init_grid mode opts nows = Some g -> movable mode opts (length nows) g.
Proof.
  intros Hnows Hinit; split; [by apply init_grid_wt|..]; unfold init_grid in Hinit;
    apply fmap_Some in Hinit as (c & _ & ->); constructor.
Qed.

Lemma grun_movable mode opts N ls g g' :
  movable mode opts N g -> Forall glabel_typed ls -> grun ls g = Some g' -> movable mode opts N g'.
Proof.
  revert g; induction ls as [|lb ls IH]; intros g Hg Hls Hrun; simpl in *; [by simplify_eq|].
  apply Forall_cons in Hls as [Hty Hls]; apply bind_Some in Hrun as (g1 & Hg1 & Hrun).
  eapply IH; [by eapply gstep_movable|done|done].
Qed.

(** ** The same with the buffer's mutex *)

Lemma fstep_routed mode opts N lb f f' :
  grid_wt mode opts N (fn_grid f) -> fstep_view f lb f' -> routed N (fn_grid f) -> routed N (fn_grid f').
Proof.
  intros Hw Hv Hr; destruct Hv as [lb g' _ Hv|k j o c n b req ts|i rx n p s|i rx n o c b now Hrx Hn Ho Hc];
    simpl; try done; [by eapply gstep_routed|].
  destruct (proj1 (Forall_lookup _ _) Hr _ _ Ho) as [Hl Hcs].
  apply Forall_with_call; [done|]; split; [done|]; apply Forall_insert; [done|].
  exact (proj1 (Forall_lookup _ _) Hcs _ _ Hc).
Qed.

Definition flabel_typed (lb : flabel) : Prop :=
  match lb with FStep lb => glabel_typed lb | _ => True end.

(** A delivery under way: an RPC that is being served, and a program that applies
    well-formed values and returns, whatever it reads of the store. *)
Definition rx_sound (g : grid) (i : nat) (rx : receiving) : Prop :=
  (exists n b req ts, delivering g i (rx_op rx) (rx_rpc rx) n b req ts) /\
  applies (fun _ v => val_wt v) (returned (fun _ v => val_wt v)) (rx_prog rx).

Record fine_movable (mode : string) (opts : Options) (N : nat) (f : fine) : Prop := {
  fm_grid : movable mode opts N (fn_grid f);
  fm_busy : forall i rx, fn_busy f !! i = Some rx -> rx_sound (fn_grid f) i rx
}.

Section fine.
Context (mode : string) (opts : Options) (N : nat).
Implicit Types (f : fine).

Lemma fine_wt_put f i n' k o' :
  grid_wt mode opts N (fn_grid f) -> node_wt mode (other_peers N i) opts n' -> grid_ops (fn_grid f) !! k = Some o' ->
  grid_wt mode opts N (MkGrid (<[i := n']> (grid_nodes (fn_grid f))) (grid_ops (fn_grid f))).
Proof.
  intros Hg Hn Ho; destruct (proj1 (Forall_lookup _ _) (gw_ops _ _ _ _ Hg) _ _ Ho) as [Hp Hc].
  rewrite <- (list_insert_id (grid_ops (fn_grid f)) k o' Ho); by apply grid_wt_update.
Qed.

Lemma fine_access_wt f i rx n p s :
  fine_movable mode opts N f -> fn_busy f !! i = Some rx -> grid_nodes (fn_grid f) !! i = Some n ->
  access (rx_prog rx) (Node_Store n) = Some (p, s) ->
  node_wt mode (other_peers N i) opts (with_store s n) /\
  applies (fun _ v => val_wt v) (returned (fun _ v => val_wt v)) p.
Proof.
  intros [[Hw _ _] Hbusy] Hrx Hn Ha; destruct (Hbusy i rx Hrx) as [_ Hp]; pose proof (gw_nodes _ _ _ _ Hw _ _ Hn) as Hnw.
  destruct (rx_prog rx) as [r|key k|key v q]; simpl in Ha, Hp; simplify_eq; [by split; [destruct n|]|].
  destruct Hp as [Hv Hp]; split; [|done]; apply node_wt_store; [done|].
  rewrite applyLocked_apply_write; apply (apply_writes_wt (Node_Store n) [MkWrite key v]); [apply Hnw|by constructor].
Qed.

Lemma fstep_movable lb f f' :
  fine_movable mode opts N f -> flabel_typed lb -> fstep_view f lb f' -> fine_movable mode opts N f'.
Proof.
  intros Hf Hty Hv; pose proof Hf as [[Hw Hc Hr] Hbusy].
  assert (Hr' : routed N (fn_grid f')) by (by eapply fstep_routed).
  destruct Hv as [lb g' He Hv|k j o c n b req ts Ho Hj Hn Hb Hs Hfree|i rx n p s Hrx Hn Ha|i rx n o c b now Hrx Hn Ho Hj Hp].
  - split; [split; [by eapply gstep_wt|by eapply gstep_clients|done]|]; simpl; intros i rx Hrx.
    destruct (Hbusy i rx Hrx) as [(n & b & req & ts & Hd) Hp]; split; [|done].
    destruct (gstep_delivering _ _ _ _ _ _ _ _ _ _ Hv He Hc Hd) as (n' & Hd'); by exists n', b, req, ts.
  - split; [by split|]; simpl; intros i rx [[<- <-]|[_ Hrx]]%lookup_insert_Some; [|by apply Hbusy].
    assert (Hd : delivering (fn_grid f) (call_peer c) k j n b req ts).
    { split; [done..|]; exists c; split; [by eapply rpc_at_Some|done]. }
    destruct (delivering_wt _ _ _ _ _ _ _ _ _ _ _ Hw Hd); split; [by exists n, b, req, ts|by apply applies_receive].
  - destruct (fine_access_wt _ _ _ _ _ _ Hf Hrx Hn Ha) as [Hnw Hp].
    destruct (Hbusy i rx Hrx) as [(x & b & req & ts & Hd) _]; pose proof Hd as [Hx Hb (c & Hj & Hi & Hs)].
    rewrite Hn in Hx; injection Hx as <-; pose proof Hj as (o & Ho & _)%bind_Some.
    split; [split; [by eapply fine_wt_put|done|done]|]; simpl.
    intros i' rx' [[<- <-]|[Hne Hrx']]%lookup_insert_Some; (split; [|done || exact (proj2 (Hbusy _ _ Hrx'))]).
    + exists (with_store s n), b, req, ts; split; simpl; [|done|by exists c].
      rewrite list_lookup_insert_eq; [done|by eapply lookup_lt_Some].
    + destruct (Hbusy i' rx' Hrx') as [(x & b' & req' & ts' & Hd') _]; exists x, b', req', ts'; by apply delivering_other.
  - destruct (Hbusy i rx Hrx) as [(x & b1 & req & ts & Hd) Hret]; pose proof Hd as [Hx Hb (c1 & Hj1 & Hi & Hs)].
    rewrite Hp in Hret; destruct Hret as (b' & now' & [= <- <-] & Hheld); pose proof (gw_nodes _ _ _ _ Hw _ _ Hn) as Hnw.
    rewrite (rpc_at_Some _ _ _ _ _ Ho Hj) in Hj1; simplify_eq.
    destruct (proj1 (Forall_lookup _ _) (gw_ops _ _ _ _ Hw) _ _ Ho) as [Hpo Hco].
    split; [split; [|by apply clients_with_call|done]|]; simpl.
    + apply grid_wt_update; [done| |done|by apply Forall_insert].
      unfold active_buffer in Hb; destruct (String.eqb_spec (Node_Mode n) "causal") as [Hm|]; [|done].
      destruct Hnw; split; try done; simpl; split; [congruence|done].
    + intros i' rx' [Hne Hrx']%lookup_delete_Some.
      destruct (Hbusy i' rx' Hrx') as [(x & b' & req' & ts' & Hd') Hp']; split; [|done]; exists x, b', req', ts'.
      apply delivering_other; [done..|]; intros c' Hc' Hpc; rewrite (rpc_at_with_call _ _ _ _ c1) by done.
      case_decide as Hdec; [|done]; injection Hdec as H1 H2.
      rewrite <- H1, <- H2, (rpc_at_Some _ _ _ _ _ Ho Hj) in Hc'; by simplify_eq.
Qed.

Lemma frun_movable ls f f' :
  fine_movable mode opts N f -> Forall flabel_typed ls -> frun ls f = Some f' -> fine_movable mode opts N f'.
Proof.
  intros Hf Hls; revert f Hf; induction Hls as [|lb ls Hlb _ IH]; intros f Hf Hrun; simpl in *; [by simplify_eq|].
  apply bind_Some in Hrun as (f1 & Hf1%fstepP & Hrun); eapply IH; [|done]; by eapply fstep_movable.
Qed.

(** A delivery under way, left to itself, gives the mutex back. *)
Lemma busy_released f i rx :
  fine_movable mode opts N f -> fn_busy f !! i = Some rx ->
  exists m f', frun (repeat (FAccess i) m ++ [FUnlock i]) f = Some f' /\ fn_busy f' = delete i (fn_busy f).
Proof.
  intros Hf Hrx; destruct (fm_busy _ _ _ _ Hf i rx Hrx) as [(n & b & req & ts & [Hn Hb (c & (o & Ho & Hc)%bind_Some & _)]) Hp].
  destruct rx as [k j p], f as [g busy]; simpl in *.
  pose proof (frun_accesses p i k j g busy n Hn Hrx) as Hacc.
  pose proof (applies_uninterrupted _ _ _ (Node_Store n) Hp) as (b' & now & Hret & _).
  destruct (uninterrupted p (Node_Store n)) as [st a], Hacc as [m Hm]; simpl in Hret; subst a.
  exists m; rewrite frun_app, Hm; simpl.
  rewrite lookup_insert_eq; simpl; rewrite list_lookup_insert_eq by (by eapply lookup_lt_Some); simpl.
  rewrite Ho; simpl; rewrite Hc; simpl; eexists; split; [done|]; simpl; apply delete_insert_eq.
Qed.

End fine.

Lemma frun_all_release t i m f : frun_all t (repeat (FAccess i) m ++ [FUnlock i]) f = true.
Proof.
  revert f; induction m as [|m IH]; intros f; cbn [repeat app frun_all]; [by destruct (fstep _ f)|].
  destruct (fstep _ f); [apply IH|done].
Qed.

(** The deliveries under way end one after the other. *)
Lemma all_released mode opts N f :
  fine_movable mode opts N f ->
  exists ls f', frun ls f = Some f' /\ (forall t, frun_all t ls f = true) /\ fn_busy f' = ∅ /\
    fine_movable mode opts N f'.
Proof.
  remember (size (fn_busy f)) as m eqn:Hm; revert f Hm.
  induction m as [m IH] using lt_wf_ind; intros f -> Hf; destruct (map_choose_or_empty (fn_busy f)) as [(i & rx & Hrx)|He].
  - destruct (busy_released _ _ _ _ _ _ Hf Hrx) as (a & f1 & Hrun & Hb).
    assert (Hty : Forall flabel_typed (repeat (FAccess i) a ++ [FUnlock i])).
    { apply Forall_app; split; [|by repeat constructor]; clear; induction a; by constructor. }
    pose proof (frun_movable _ _ _ _ _ _ Hf Hty Hrun) as Hf1.
    assert (Hlt : size (fn_busy f1) < size (fn_busy f)).
    { rewrite Hb, map_size_delete_Some by done; pose proof (map_size_ne_0_lookup_2 (fn_busy f) i ltac:(by exists rx)); lia. }
    destruct (IH _ Hlt _ eq_refl Hf1) as (ls & f2 & Hrun2 & Ht & He & Hf2).
    eexists (_ ++ ls), f2; rewrite frun_app, Hrun; split; [exact Hrun2|]; split; [|done].
    intros t; eapply frun_all_app; [exact Hrun|apply frun_all_release|apply Ht].
  - exists [], f; by split_and!.
Qed.

Lemma fine_can_finish mode opts N f :
  fine_movable mode opts N f ->
  exists ls f', frun ls f = Some f' /\ frun_all serves ls f = true /\ fn_busy f' = ∅ /\
    finished (fn_grid f') = true.
Proof.
  intros Hf; destruct (all_released _ _ _ _ Hf) as (ls1 & [g1 busy] & Hrun1 & Ht1 & He & Hf1); simpl in *.
  subst busy; destruct (grid_can_finish mode opts N g1 (fm_grid _ _ _ _ Hf1)) as (ls2 & g2 & Hrun2 & Ht2 & Hfin).
  destruct (grun_fine serves _ _ _ Hrun2 Ht2) as (fls & Hfls & Hts).
  exists (ls1 ++ fls), (whole g2); rewrite frun_app, Hrun1; simpl; split; [exact Hfls|]; split; [|done].
  eapply frun_all_app; [exact Hrun1|apply Ht1|exact Hts].
Qed.

(** ** Properties *)

(** C17: no state is stuck: in each of the three modes, from every state that
    concurrent handlers can reach, with RPCs failing at any moment, there is a
    way on, without new calls and without RPCs failing, in which every call
    returns to its client and every RPC is served and answered; a strong write
    that waits for all its RPCs is among them. *)
Theorem calls_can_end mode opts nows g0 ls g :
  Forall in_int64 nows -> init_grid mode opts nows = Some g0 -> Forall glabel_typed ls ->
  grun ls g0 = Some g ->
  exists ls' g', grun ls' g = Some g' /\ grun_all serves ls' g = true /\ finished g' = true.
Proof.
  intros Hnows Hinit Hls Hrun; eapply grid_can_finish, grun_movable; [|done..]; by apply init_movable.
Qed.

(** The strong put of [c_strong_put] while it waits for its RPCs. *)
Definition c_strong_waits : list glabel := [GBegin 0 (WStart "x" [x61] false)] ++ turns 0 3 200.
Definition c_strong_waiting : grid := default (c_grid "strong") (grun c_strong_waits (c_grid "strong")).

Lemma calls_can_end_witness :
  map op_ready (grid_ops c_strong_waiting) = [false] /\
  exists ls' g', grun ls' c_strong_waiting = Some g' /\ grun_all serves ls' c_strong_waiting = true /\
    finished g' = true.
Proof.
  split; [vm_compute; reflexivity|].
  apply (calls_can_end "strong" c_opts [100; 100; 100]%Z (c_grid "strong") c_strong_waits);
    [exact c_int64|vm_compute; reflexivity| |vm_compute; reflexivity].
  repeat constructor; unfold glabel_typed, in_int64; simpl; lia.
Defined.

(** C16: the same with the buffer's mutex: in each of the three modes, from every
    state that concurrent handlers can reach at the grain of single accesses to the
    store, with deliveries interrupted anywhere, RPCs failing at any moment and
    whatever was stored over what, there is a way on, without new calls and without
    RPCs failing, in which every delivery gives the mutex back, every call returns
    and every RPC is served and answered. *)
Theorem deliveries_can_end mode opts nows g0 ls f :
  Forall in_int64 nows -> init_grid mode opts nows = Some g0 -> Forall flabel_typed ls ->
  frun ls (whole g0) = Some f ->
  exists ls' f', frun ls' f = Some f' /\ frun_all serves ls' f = true /\ fn_busy f' = ∅ /\
    finished (fn_grid f') = true.
Proof.
  intros Hnows Hinit Hls Hrun; eapply fine_can_finish, frun_movable; [|done..].
  split; [by apply init_movable|by intros i rx Hrx].
Qed.

Lemma deliveries_can_end_witness :
  size (fn_busy c_in_receive) = 1 /\ finished (fn_grid c_in_receive) = false /\
  exists ls' f', frun ls' c_in_receive = Some f' /\ frun_all serves ls' c_in_receive = true /\
    fn_busy f' = ∅ /\ finished (fn_grid f') = true.
Proof.
  do 2 (split; [vm_compute; reflexivity|]).
  apply (deliveries_can_end "causal" c_opts [100; 100; 100]%Z (c_grid "causal") c_x_applied);
    [exact c_int64|vm_compute; reflexivity| |vm_compute; reflexivity].
  repeat constructor; unfold flabel_typed, glabel_typed, in_int64; simpl; lia.
Defined.
