(* ===== verification/Trace.v ===== *)
(** * Where values come from ([src/internal/server], [src/internal/buffer])

    In the world of [Fine.v], in the three modes and under every schedule of
    handlers, accesses and failures: whatever a store holds and whatever a client
    reads was given its timestamp in a call that a client began, for that key and
    with these bytes. *)

From S2P Require Import Prelude Hlc Store Buffer Wire Replication Server Cluster Interleave Grid Strong Causal.
From S2P Require Import Converge Delivery Fine Settle.

(** ** Histories *)

(** The calls that clients begin, numbered as in [grid_ops]. *)
Definition begun (lb : flabel) : list pc :=
  match lb with FStep (GBegin _ p) => [p] | _ => [] end.

Definition begins (ls : list flabel) : list pc := flat_map begun ls.

(** The write that gets its timestamp at a step. *)
Definition issue (lb : flabel) (f : fine) : list write :=
  match lb with
  | FStep (GTurn k now) =>
      match o ← grid_ops (fn_grid f) !! k; n ← grid_nodes (fn_grid f) !! op_node o;
            Some (micro now (op_replies o) n (op_pc o)) with
      | Some (_, _, WSent key v) => [MkWrite key v]
      | _ => []
      end
  | _ => []
  end.

Fixpoint issues (ls : list flabel) (f : fine) : list write :=
  match ls with
  | [] => []
  | lb :: ls => issue lb f ++ match fstep lb f with Some f' => issues ls f' | None => [] end
  end.

(** [v] under [key] is the write [w], as its node or as a peer stores it. *)
Record shows (w : write) (key : string) (v : Value) : Prop := {
  sh_key : write_key w = key;
  sh_ts : Value_Timestamp v = write_ts w;
  sh_data : Value_Data v = Value_Data (write_val w);
  sh_deleted : Value_Deleted (write_val w) = true -> Value_Deleted v = true;
  sh_empty : Value_Deleted v = true -> Value_Data (write_val w) = []
}.

Definition issued (h : list write) (key : string) (v : Value) : Prop := exists w, w ∈ h /\ shows w key v.

(** ** Values as they travel *)

Section values.
Context (h : list write).
Notation P := (issued h).

Lemma issued_tombstone key v : P key v -> Value_Deleted v = true -> P key (tombstone (Value_Timestamp v)).
Proof.
  intros (w & Hw & [Hk Ht Hd Hdel He]) Hv; exists w; split; [done|]; split; simpl; try done; [|auto].
  by rewrite He.
Qed.

Lemma issued_deps key v deps : P key v -> P key (with_deps deps v).
Proof. intros (w & Hw & [Hk Ht Hd Hdel He]); exists w; split; [done|]; by split. Qed.

Lemma issued_request key v deps :
  P key v -> P key (request_value (buildReplicateRequest key v deps) (Value_Timestamp v)).
Proof.
  intros (w & Hw & [Hk Ht Hd Hdel He]); exists w; split; [done|]; split; simpl; try done.
  - intros Hdw; by rewrite Hd, He by auto.
  - intros Hl; rewrite <- Hd; by destruct (Value_Data v).
Qed.

Definition store_from (s : Store) : Prop := forall key v, s !! key = Some v -> P key v.

Lemma store_from_insert key v s : store_from s -> P key v -> store_from (<[key := v]> s).
Proof. intros Hs Hv k x [[<- <-]|[_ Hx]]%lookup_insert_Some; [done|by apply Hs]. Qed.

Lemma store_from_local key v s : store_from s -> P key v -> store_from (local_store key v s).
Proof.
  intros Hs Hv; unfold local_store, Store_Delete, Store_Put.
  destruct (Value_Deleted v) eqn:Hd; apply store_from_insert; try done; by apply issued_tombstone.
Qed.

Lemma store_from_apply key v s : store_from s -> P key v -> store_from (applyLocked key v s).
Proof.
  intros Hs Hv; unfold applyLocked, Store_ApplyDelete, Store_Apply.
  destruct (Value_Deleted v) eqn:Hd; [pose proof (issued_tombstone _ _ Hv Hd) as Ht|];
    (destruct (s !! key); [destruct (_ <=? 0)%Z|]); simpl; try done; by apply store_from_insert.
Qed.

(** One access of a program. *)
Lemma applies_access {A} (Q : A -> Prop) p q s s' :
  applies P Q p -> store_from s -> access p s = Some (q, s') -> applies P Q q /\ store_from s'.
Proof.
  destruct p as [a|key k|key v p]; simpl; intros Hp Hs Ha; simplify_eq; [done|].
  destruct Hp; split; [done|by apply store_from_apply].
Qed.

(** ** Handlers *)

Record node_from (n : Node AnyHandler) : Prop := {
  nf_store : store_from (Node_Store n);
  nf_held : forall b, active_buffer n = Some b -> held_all P (Buffer_held b)
}.

Definition request_from (req : ReplicateRequest) : Prop :=
  forall pts, RR_Timestamp req = Some pts -> P (RR_Key req) (request_value req (fromProtoTS pts)).

Definition serves_from (p : pc) : Prop :=
  match p with
  | RStart req => request_from req
  | RClocked req ts => P (RR_Key req) (request_value req ts)
  | _ => True
  end.

(** A client's call that began as [p0] is at [p]. *)
Definition call_from (p0 p : pc) : Prop :=
  match p with
  | WStart _ _ _ | GStart _ => p0 = p
  | WSent key v | WDeps key v | WStored key v | WSending key v | WAcked key v => P key v
  | GRead key v => p0 = GStart key /\ P key v /\ Value_Deleted v = false
  | GDone (Ok resp) => exists key, p0 = GStart key /\ (GetResp_Found resp = true -> exists v,
      P key v /\ Value_Deleted v = false /\
      resp = MkGetResponse (Value_Data v) (Some (toProtoTS (Value_Timestamp v))) true)
  | WDone _ _ | GDone (Err _) => True
  | _ => False
  end.

Lemma OnWrite_from (hd : AnyHandler) key v rs :
  P key v -> Forall (fun o => request_from (out_req o)) (fst (OnWrite hd key v rs)).
Proof.
  intros Hv; apply Forall_forall; intros o Ho; apply on_write_request in Ho as (deps & _ & ->).
  intros pts [= <-]; simpl; rewrite fromProto_toReplicateTS; by apply issued_request.
Qed.

Lemma node_from_same n n' :
  Node_Store n' = Node_Store n -> active_buffer n' = active_buffer n -> node_from n -> node_from n'.
Proof. intros Hs Hb [H1 H2]; split; [by rewrite Hs|by rewrite Hb]. Qed.

Lemma node_from_store s n : node_from n -> store_from s -> node_from (with_store s n).
Proof. intros [H1 H2] Hs; by split. Qed.

Lemma micro_call_from now rs (n n' : Node AnyHandler) p0 p rpcs p' :
  node_from n -> call_from p0 p -> micro now rs n p = (n', rpcs, p') ->
  (forall key v, p' = WSent key v -> P key v) ->
  node_from n' /\ call_from p0 p' /\ Forall (fun o => request_from (out_req o)) rpcs.
Proof.
  intros Hn Hp Hm Hnew.
  destruct p as [key data del|key v|key v|key v|key v|key v|key r|key|key v|r|req|req ts|r]; simpl in Hp;
    cbn [micro] in Hm; try done.
  - destruct (Clock_Send _ _) as [clk [ts|e]]; simplify_eq/=; (split; [by apply (node_from_same n)|]);
      (split; [try done; by apply Hnew|done]).
  - destruct (take_deps n) as [n1 deps] eqn:Ht; simplify_eq/=; split; [|split; [by apply issued_deps|done]].
    unfold take_deps in Ht; destruct (active_tracker n); simplify_eq/=; [by apply (node_from_same n)|done].
  - destruct (String.eqb _ _); simplify_eq/=; (split; [|split; [done|]]); try done; [by apply OnWrite_from|].
    apply node_from_store; [done|]; apply store_from_local; [apply Hn|done].
  - pose proof (OnWrite_from (Node_Handler n) key v rs Hp) as Hw.
    destruct (OnWrite _ _ _ _) as [l [e|]]; simplify_eq/=; by split.
  - destruct (snd (OnWrite _ _ _ _)); simplify_eq/=; by split.
  - simplify_eq/=; split; [|done]; apply node_from_store; [done|]; apply store_from_local; [apply Hn|done].
  - by simplify_eq/=.
  - subst p0; unfold Store_Get in Hm; destruct (Node_Store n !! key) as [v|] eqn:Hv;
      [destruct (Value_Deleted v) eqn:Hd|]; simplify_eq/=; (split; [done|]); (split; [|done]); try by exists key.
    split; [done|]; split; [by eapply nf_store|done].
  - destruct Hp as (-> & Hv & Hd); simplify_eq/=; split; [|split; [|done]].
    + by destruct (active_tracker n); [apply (node_from_same n)|].
    + exists key; split; [done|]; intros _; by exists v.
  - by simplify_eq/=.
Qed.

Lemma micro_serve_from now (n n' : Node AnyHandler) p rpcs p' :
  node_from n -> serves_from p -> serving p = true ->
  (active_buffer n = None \/ forall req ts, p <> RClocked req ts) ->
  micro now [] n p = (n', rpcs, p') -> node_from n' /\ serves_from p'.
Proof.
  intros Hn Hp Hs Hb Hm; destruct p as [| | | | | | | | | |req|req ts|r]; try discriminate; cbn [micro] in Hm.
  - simpl in Hp; unfold request_from in Hp; destruct (RR_Timestamp req) as [pts|]; [|by simplify_eq/=].
    destruct (Clock_Receive _ _ _) as [clk [t|e]]; simplify_eq/=; (split; [by apply (node_from_same n)|]); auto.
  - destruct Hb as [Hb|Hno]; [|by destruct (Hno req ts)]; rewrite Hb in Hm; simpl in Hp.
    pose proof (store_from_apply _ _ _ (nf_store _ Hn) Hp) as Happ; unfold applyLocked in Happ; simpl in *.
    destruct (if Nat.eqb _ 0 then Store_ApplyDelete _ _ _ else _) as [s ok] eqn:Hs2; simplify_eq/=.
    split; [|done]; apply node_from_store; [done|]; destruct (Nat.eqb _ 0); by rewrite Hs2 in Happ.
  - by simplify_eq/=.
Qed.

End values.

(** ** Histories that grow *)

Section grow.
Context (h h' : list write) (Hh : h ⊆ h').

Lemma issued_mono key v : issued h key v -> issued h' key v.
Proof. intros (w & Hw & Hs); exists w; auto. Qed.

Lemma node_from_mono n : node_from h n -> node_from h' n.
Proof.
  intros [Hs Hb]; split; [intros key v Hv; by apply issued_mono, Hs|].
  intros b Hbuf; eapply Forall_impl; [by apply Hb|]; intros w; apply issued_mono.
Qed.

Lemma serves_from_mono p : serves_from h p -> serves_from h' p.
Proof.
  destruct p; simpl; try done; [|apply issued_mono].
  intros Hr pts Hpts; by apply issued_mono, Hr.
Qed.

Lemma call_from_mono p0 p : call_from h p0 p -> call_from h' p0 p.
Proof.
  destruct p as [| | | | | | | | |r| | |]; simpl; try done; try apply issued_mono.
  - intros (-> & Hv & Hd); split; [done|]; split; [by apply issued_mono|done].
  - destruct r as [resp|]; [|done]; intros (key & -> & Hr); exists key; split; [done|].
    intros Hf; destruct (Hr Hf) as (v & Hv & Hd); exists v; split; [by apply issued_mono|done].
Qed.

Lemma receiving_mono p : applies (issued h) (returned (issued h)) p -> applies (issued h') (returned (issued h')) p.
Proof.
  apply applies_mono; [apply issued_mono|]; intros r (b & now & -> & Hb); exists b, now; split; [done|].
  eapply Forall_impl; [exact Hb|]; intros w; apply issued_mono.
Qed.

End grow.

(** ** Steps *)

Record flows (h : list write) (bs : list pc) (f : fine) : Prop := {
  fl_nodes : forall i n, grid_nodes (fn_grid f) !! i = Some n -> node_from h n;
  fl_ops : Forall2 (fun p0 o => call_from h p0 (op_pc o)) bs (grid_ops (fn_grid f));
  fl_calls : Forall (fun o => Forall (fun c => serves_from h (call_srv c)) (op_calls o)) (grid_ops (fn_grid f));
  fl_busy : forall i rx, fn_busy f !! i = Some rx -> applies (issued h) (returned (issued h)) (rx_prog rx);
  fl_clients : clients (fn_grid f)
}.

Lemma flows_mono h h' bs f : h ⊆ h' -> flows h bs f -> flows h' bs f.
Proof.
  intros Hh [Hn Ho Hc Hb Hcl]; split; [..|done].
  - intros i n Hi; by eapply node_from_mono, Hn.
  - eapply Forall2_impl; [exact Ho|]; intros p0 o; by apply call_from_mono.
  - eapply Forall_impl; [exact Hc|]; intros o Hoc; eapply Forall_impl; [exact Hoc|]; intros c; by apply serves_from_mono.
  - intros i rx Hrx; by eapply receiving_mono, Hb.
Qed.

Lemma nodes_from_insert h (ns : list (Node AnyHandler)) i n' :
  (forall j n, ns !! j = Some n -> node_from h n) -> node_from h n' ->
  forall j n, <[i := n']> ns !! j = Some n -> node_from h n.
Proof. intros Hns Hn' j n [[<- <-]|[_ Hn]]%insert_lookup_cases; eauto. Qed.

(** Nodes changed, and a call of an RPC moved. *)
Lemma flows_call h bs f k o j c ns busy :
  flows h bs f -> grid_ops (fn_grid f) !! k = Some o ->
  (forall i n, ns !! i = Some n -> node_from h n) -> serves_from h (call_srv c) -> serving (call_srv c) = true ->
  (forall i rx, busy !! i = Some rx -> applies (issued h) (returned (issued h)) (rx_prog rx)) ->
  flows h bs (MkFine (MkGrid ns (with_call k o j c (grid_ops (fn_grid f)))) busy).
Proof.
  intros [Hn Ho Hc Hb Hcl] Hk Hns Hs Hsv Hbusy; split; simpl; [done| | |done|by apply clients_with_call].
  - unfold with_call; destruct (Forall2_lookup_r _ _ _ _ _ Ho Hk) as (p0 & Hp0 & Hcall).
    rewrite <- (list_insert_id bs k p0) by done; by apply Forall2_insert.
  - apply Forall_with_call; [done|]; apply Forall_insert; [|done].
    by eapply (proj1 (Forall_lookup _ _) Hc).
Qed.

(** An RPC of a call, in what is known. *)
Lemma flows_rpc h bs f k o j c :
  flows h bs f -> grid_ops (fn_grid f) !! k = Some o -> op_calls o !! j = Some c ->
  serves_from h (call_srv c) /\ serving (call_srv c) = true.
Proof.
  intros [_ _ Hc _ Hcl] Hk Hj; split.
  - pose proof (proj1 (Forall_lookup _ _) Hc _ _ Hk) as Hoc; exact (proj1 (Forall_lookup _ _) Hoc _ _ Hj).
  - destruct (proj1 (Forall_lookup _ _) Hcl _ _ Hk) as [_ Hsv]; exact (proj1 (Forall_lookup _ _) Hsv _ _ Hj).
Qed.

Lemma not_entering k j now g o c n :
  enters_buffer (GServe k j now) g = false -> grid_ops g !! k = Some o -> op_calls o !! j = Some c ->
  grid_nodes g !! call_peer c = Some n -> active_buffer n = None \/ forall req ts, call_srv c <> RClocked req ts.
Proof.
  intros He Ho Hc Hn; simpl in He; rewrite Ho in He; simpl in He; rewrite Hc in He; simpl in He.
  rewrite Hn in He; simpl in He; destruct (active_buffer n); [right|by left].
  intros req ts Heq; by rewrite Heq in He.
Qed.

(** The write that a turn issues. *)
Lemma issue_turn h (n n' : Node AnyHandler) now rs p0 p rpcs key v :
  call_from h p0 p -> client_start p0 = true -> micro now rs n p = (n', rpcs, WSent key v) ->
  p0 = WStart key (Value_Data v) (Value_Deleted v) /\ shows (MkWrite key v) key v.
Proof.
  intros Hp Hc Hm; destruct p; cbn [micro] in Hm; repeat case_match; simplify_eq/=.
  split; [done|]; split; simpl; try done; intros ->; by destruct data.
Qed.

Lemma flows_turn h bs f k now o n n' rpcs p' :
  flows h bs f -> Forall (fun p => client_start p = true) bs ->
  grid_ops (fn_grid f) !! k = Some o -> grid_nodes (fn_grid f) !! op_node o = Some n ->
  micro now (op_replies o) n (op_pc o) = (n', rpcs, p') ->
  (forall w, w ∈ match p' with WSent key v => [MkWrite key v] | _ => [] end -> w ∈ h) ->
  flows h bs (MkFine (MkGrid (<[op_node o := n']> (grid_nodes (fn_grid f)))
    (<[k := MkOp (op_node o) p' (op_calls o ++ map start_call rpcs)]> (grid_ops (fn_grid f)))) (fn_busy f)).
Proof.
  intros [Hns Ho Hc Hb Hcl] Hbs Hk Hn Hm Hnew.
  destruct (Forall2_lookup_r _ _ _ _ _ Ho Hk) as (p0 & Hp0 & Hcall).
  pose proof (proj1 (Forall_lookup _ _) Hbs _ _ Hp0) as Hstart; simpl in Hstart.
  destruct (micro_call_from h _ _ _ _ _ _ _ _ (Hns _ _ Hn) Hcall Hm) as (Hn' & Hp' & Hrpcs).
  { intros key v ->; exists (MkWrite key v); split; [apply Hnew; left|].
    by eapply issue_turn. }
  pose proof (proj1 (Forall_lookup _ _) Hcl _ _ Hk) as [Hcl1 Hcl2].
  split; simpl; [by apply nodes_from_insert| | |done|].
  - rewrite <- (list_insert_id bs k p0) by done; by apply Forall2_insert.
  - apply Forall_insert; [done|]; simpl; apply Forall_app; split; [by eapply (proj1 (Forall_lookup _ _) Hc)|].
    apply Forall_map; eapply Forall_impl; [exact Hrpcs|]; by intros x.
  - apply Forall_insert; [done|]; split; [by eapply micro_client|]; apply Forall_app; split; [done|].
    by apply Forall_map, Forall_true.
Qed.

Lemma flows_grid h bs f lb g' :
  flows h bs f -> Forall (fun p => client_start p = true) bs -> enters_buffer lb (fn_grid f) = false ->
  gstep_view (fn_grid f) lb g' -> (forall w, w ∈ issue (FStep lb) f -> w ∈ h) ->
  flows h (bs ++ begun (FStep lb)) (MkFine g' (fn_busy f)).
Proof.
  intros Hf Hbs He Hv Hnew; pose proof Hf as [Hns Ho Hc Hb Hcl].
  destruct Hv as [i p n Hi Hst|k now o n n' rpcs p' Hk Hn Hr Hm|k j now o c n n' rpcs p' Hk Hj Hn Hm
    |k j o c r Hk Hj Hs Hr|k j e o c Hk Hj Hr]; simpl; rewrite ?app_nil_r.
  - split; simpl; [done| | |done|].
    + apply Forall2_app; [done|]; constructor; [|done]; by destruct p.
    + apply Forall_app; split; [done|by repeat constructor].
    + apply Forall_app; split; [done|]; constructor; [|done]; split; [by destruct p|done].
  - eapply flows_turn; try done; simpl in Hnew; rewrite Hk in Hnew; simpl in Hnew; rewrite Hn in Hnew.
    simpl in Hnew; rewrite Hm in Hnew; exact Hnew.
  - destruct (flows_rpc _ _ _ _ _ _ _ Hf Hk Hj) as [Hsc Hsv].
    destruct (micro_serve_from h _ _ _ _ _ _ (Hns _ _ Hn) Hsc Hsv (not_entering _ _ _ _ _ _ _ He Hk Hj Hn) Hm).
    apply flows_call; try done; [by apply nodes_from_insert|by eapply micro_serving].
  - by apply flows_call.
  - destruct (flows_rpc _ _ _ _ _ _ _ Hf Hk Hj) as [Hsc Hsv]; by apply flows_call.
Qed.

Lemma flows_step h bs f lb f' :
  flows h bs f -> Forall (fun p => client_start p = true) bs -> fstep_view f lb f' -> (forall w, w ∈ issue lb f -> w ∈ h) -> flows h (bs ++ begun lb) f'.
Proof.
  intros Hf Hbs Hv Hnew; pose proof Hf as [Hns Ho Hc Hb Hcl].
  destruct Hv as [lb g' He Hv|k j o c n b req ts Hk Hj Hn Hab Hs Hfree|i rx n p s Hrx Hn Ha
    |i rx n o c b now Hrx Hn Hk Hj Hp]; [by apply flows_grid|..]; simpl; rewrite app_nil_r.
  - destruct (flows_rpc _ _ _ _ _ _ _ Hf Hk Hj) as [Hsc _]; rewrite Hs in Hsc.
    split; simpl; try done; intros i rx [[<- <-]|[_ Hrx]]%lookup_insert_Some; [|by eapply Hb]; simpl.
    apply applies_receive; [done|]; by eapply nf_held; [eapply Hns|].
  - destruct (applies_access h _ _ _ _ _ (Hb _ _ Hrx) (nf_store _ _ (Hns _ _ Hn)) Ha) as [Hq Hst].
    split; simpl; try done; [apply nodes_from_insert; [done|]; by apply node_from_store, Hst; eapply Hns|].
    intros i' rx' [[<- <-]|[_ Hrx']]%lookup_insert_Some; [done|by eapply Hb].
  - pose proof (Hb _ _ Hrx) as Hr; rewrite Hp in Hr; destruct Hr as (b1 & now1 & [= <- <-] & Hr).
    apply flows_call; try done.
    + apply nodes_from_insert; [done|]; split; simpl; [by eapply nf_store, Hns|].
      unfold active_buffer; simpl; intros b' Hb'; destruct (String.eqb _ _); by simplify_eq.
    + intros i' rx' [_ Hrx']%lookup_delete_Some; by eapply Hb.
Qed.

(** ** Runs *)

(** The whole of what is known after a run: [bs] were begun and [h] issued. *)
Record traced (h : list write) (bs : list pc) (f : fine) : Prop := {
  td_flows : flows h bs f;
  td_begun : Forall (fun p => client_start p = true) bs;
  td_issued : forall w, w ∈ h -> WStart (write_key w) (Value_Data (write_val w)) (Value_Deleted (write_val w)) ∈ bs
}.

(** A write is issued by a call that was begun for it. *)
Lemma issue_begun h bs f lb f' w :
  traced h bs f -> fstep_view f lb f' -> w ∈ issue lb f ->
  WStart (write_key w) (Value_Data (write_val w)) (Value_Deleted (write_val w)) ∈ bs.
Proof.
  intros [[_ Ho _ _ _] Hbs _] Hv Hw; destruct Hv as [lb g' He Hv| | |]; try by apply elem_of_nil in Hw.
  destruct Hv as [| k now o n n' rpcs p' Hk Hn Hr Hm| | |]; try by apply elem_of_nil in Hw.
  simpl in Hw; rewrite Hk in Hw; simpl in Hw; rewrite Hn in Hw; simpl in Hw; rewrite Hm in Hw.
  destruct p'; try (by apply elem_of_nil in Hw); apply list_elem_of_singleton in Hw as ->.
  destruct (Forall2_lookup_r _ _ _ _ _ Ho Hk) as (p0 & Hp0 & Hcall).
  destruct (issue_turn _ _ _ _ _ _ _ _ _ _ Hcall (proj1 (Forall_lookup _ _) Hbs _ _ Hp0) Hm) as [-> _].
  by eapply list_elem_of_lookup_2.
Qed.

Lemma traced_step h bs f lb f' :
  traced h bs f -> fstep_view f lb f' -> traced (h ++ issue lb f) (bs ++ begun lb) f'.
Proof.
  intros Ht Hv; pose proof Ht as [Hf Hbs His]; split.
  - apply (flows_step _ _ f); [|done|done|intros w Hw; apply elem_of_app; by right].
    apply (flows_mono h); [intros w Hw; apply elem_of_app; by left|done].
  - apply Forall_app; split; [done|]; destruct Hv as [lb g' He Hv| | |]; try done.
    destruct Hv; try done; by constructor.
  - intros w [Hw|Hw]%elem_of_app; apply elem_of_app; left; [auto|by eapply issue_begun].
Qed.

Lemma traced_run ls f f' h bs :
  traced h bs f -> frun ls f = Some f' -> traced (h ++ issues ls f) (bs ++ begins ls) f'.
Proof.
  revert f h bs; induction ls as [|lb ls IH]; intros f h bs Ht Hrun; simpl in *.
  { rewrite !app_nil_r; by simplify_eq. }
  apply bind_Some in Hrun as (f1 & Hf1 & Hrun); rewrite Hf1, !app_assoc.
  apply IH; [|done]; apply traced_step; [done|by apply fstepP].
Qed.

Lemma traced_init mode opts nows g : init_grid mode opts nows = Some g -> traced [] [] (whole g).
Proof.
  unfold init_grid; intros (c & Hc & ->)%fmap_Some; split; [|done|by intros w Hw%elem_of_nil].
  destruct (init_cluster_nodes _ _ _ _ Hc) as (_ & _ & Hns).
  split; simpl; [|constructor|constructor|done|constructor]; intros i n Hn.
  destruct (Hns _ _ Hn) as (now & _ & Hstart); split.
  - rewrite (start_node_store _ _ _ _ _ Hstart); by intros key v Hv.
  - unfold start_node in Hstart; destruct (negb _); [done|]; destruct (NewHandler _ _ _); [|done].
    injection Hstart as <-; intros b Hb; unfold active_buffer in Hb; simpl in Hb.
    destruct (String.eqb _ _); simplify_eq/=; constructor.
Qed.

(** ** Properties *)

(** C3: no value out of thin air: in each of the three modes, whatever the interleaving
    of handlers at the grain of single accesses, the order and delay of RPCs and
    their failures: every value in every store is a write that was given its
    timestamp in a Put or Delete a client began for that key with these bytes;
    and a Get that answers "found" answers with the bytes and the timestamp of
    such a Put of the key asked for. *)
Theorem no_thin_air mode opts nows g0 ls f :
  init_grid mode opts nows = Some g0 -> frun ls (whole g0) = Some f ->
  let h := issues ls (whole g0) in
  (forall i n key v, grid_nodes (fn_grid f) !! i = Some n -> Node_Store n !! key = Some v ->
     exists w, w ∈ h /\ shows w key v) /\
  (forall k o key resp, begins ls !! k = Some (GStart key) -> grid_ops (fn_grid f) !! k = Some o ->
     op_pc o = GDone (Ok resp) -> GetResp_Found resp = true ->
     exists w, w ∈ h /\ write_key w = key /\ Value_Deleted (write_val w) = false /\
       resp = MkGetResponse (Value_Data (write_val w)) (Some (toProtoTS (write_ts w))) true) /\
  (forall w, w ∈ h ->
     WStart (write_key w) (Value_Data (write_val w)) (Value_Deleted (write_val w)) ∈ begins ls).
Proof.
  intros Hinit Hrun; destruct (traced_run _ _ _ _ _ (traced_init _ _ _ _ Hinit) Hrun) as [[Hns Ho _ _ _] _ His].
  simpl in *; split; [|split; [|done]].
  - intros i n key v Hn Hv; by eapply nf_store; [eapply Hns|].
  - intros k o key resp Hk Hko Hpc Hfound; pose proof (Forall2_lookup_lr _ _ _ _ _ _ Ho Hk Hko) as Hcall; simpl in Hcall.
    rewrite Hpc in Hcall; destruct Hcall as (key' & [= <-] & Hr).
    destruct (Hr Hfound) as (v & (w & Hw & [Hkey Hts Hd Hdel He]) & Hlive & ->); exists w.
    split; [done|]; split; [done|]; rewrite Hts, Hd; split; [|done].
    destruct (Value_Deleted (write_val w)); [|done]; by rewrite Hdel in Hlive.
Qed.

(** The run of [Settle.v], and then a Get of y at node 2. *)
Definition c_traced : list flabel := c_all_served ++ map FStep ([GBegin 2 (GStart "y")] ++ turns 4 2 400).
Definition c_traced_end : fine := default (whole (c_grid "causal")) (frun c_traced (whole (c_grid "causal"))).

Lemma no_thin_air_witness :
  exists w, w ∈ issues c_traced (whole (c_grid "causal")) /\ write_key w = "y" /\
    Value_Deleted (write_val w) = false /\
    MkGetResponse [x62] (Some (MkKvTS 310 0)) true =
      MkGetResponse (Value_Data (write_val w)) (Some (toProtoTS (write_ts w))) true.
Proof.
  assert (Ho : exists o, grid_ops (fn_grid c_traced_end) !! 4 = Some o /\
    op_pc o = GDone (Ok (MkGetResponse [x62] (Some (MkKvTS 310 0)) true))).
  { eexists; split; vm_compute; reflexivity. }
  destruct Ho as (o & Ho & Hpc).
  refine (proj1 (proj2 (no_thin_air "causal" c_opts [100; 100; 100]%Z (c_grid "causal") c_traced c_traced_end _ _))
    4 o "y" _ _ Ho Hpc eq_refl); vm_compute; reflexivity.
Defined.
