(* ===== verification/Session.v ===== *)
(** * What a client of a causal cluster can rely on

    Where the writes a node stores come from, in any run, with losses; from it,
    the ordering of a read-then-write chain (the causal-chain experiment), and
    its limits: only reads are tracked, so a client's own writes are not
    ordered, and a local write does not release the writes held for it. *)

From S2P Require Import Prelude Hlc Store Buffer Wire Replication Server Cluster Converge.

(** ** Histories of concatenated runs *)

Lemma run_app ls1 ls2 c :
  run (ls1 ++ ls2) c = (c' ← run ls1 c; run ls2 c').
Proof.
  revert c; induction ls1 as [|lb ls1 IH]; intros c; simpl; [done|].
  destruct (step lb c) as [c1|]; simpl; [apply IH|done].
Qed.

Lemma history_app ls1 ls2 c c' :
  run ls1 c = Some c' -> history (ls1 ++ ls2) c = history ls1 c ++ history ls2 c'.
Proof.
  revert c; induction ls1 as [|lb ls1 IH]; intros c; simpl; [by intros [= ->]|].
  destruct (step lb c) as [c1|]; simpl; [|done]. intros Hr; by rewrite <- app_assoc, IH.
Qed.

Lemma run_ok_app ls1 ls2 c c' :
  run ls1 c = Some c' -> run_ok (ls1 ++ ls2) c = (run_ok ls1 c && run_ok ls2 c')%bool.
Proof.
  revert c; induction ls1 as [|lb ls1 IH]; intros c; simpl; [by intros [= ->]|].
  destruct (step lb c) as [c1|]; simpl; [|done]. intros Hr; by rewrite (IH _ Hr), andb_assoc.
Qed.

(** No empty value is put (the wire format turns one into a deletion). *)
Definition nonempty_put (lb : label) : bool :=
  match lb with LPut _ _ req => negb (Nat.eqb (length (PutReq_Value req)) 0) | _ => true end.

Lemma nonempty_faithful lb i w :
  label_write lb = Some (i, write_key w, Value_Data (write_val w), Value_Deleted (write_val w)) ->
  nonempty_put lb = true -> wire_faithful (write_val w).
Proof.
  unfold wire_faithful; destruct lb; simpl; intros [= -> _ <- <-]; [|done].
  by intros ->%negb_true_iff.
Qed.

(** ** Provenance *)

(** Every stored, held and travelling write is one of the history. *)
Record provenance (c : cluster) (h : list (nat * write)) : Prop := {
  pv_store : forall i n key v, nodes c !! i = Some n -> Node_Store n !! key = Some v ->
    exists w, w ∈ hist_writes h /\ write_key w = key /\ v = write_stored w;
  pv_held : forall i n w, nodes c !! i = Some n -> w ∈ held n -> w ∈ hist_writes h;
  pv_net : forall i req, (i, req) ∈ net c -> exists w, w ∈ hist_writes h /\ req = request_of w;
  pv_faithful : Forall (fun w => wire_faithful (write_val w)) (hist_writes h)
}.

Lemma provenance_grow c h h' :
  provenance c h -> (forall w, w ∈ hist_writes h -> w ∈ hist_writes h') ->
  Forall (fun w => wire_faithful (write_val w)) (hist_writes h') -> provenance c h'.
Proof.
  intros [Hs Hh Hn Hf] Hin Hf'; split; eauto.
  - intros i n key v Hi Hv; destruct (Hs _ _ _ _ Hi Hv) as (w & ? & ?); exists w; auto.
  - intros i req Hr; destruct (Hn _ _ Hr) as (w & ? & ?); exists w; auto.
Qed.

(** A node replaced by one whose store comes from the old one and some writes. *)
Lemma provenance_insert c h i n n' ws msgs :
  provenance c h -> nodes c !! i = Some n -> Node_Store n' = apply_writes (Node_Store n) ws ->
  (forall w, w ∈ ws \/ w ∈ held n' -> w ∈ hist_writes h) ->
  (forall j req, (j, req) ∈ msgs -> exists w, w ∈ hist_writes h /\ req = request_of w) ->
  provenance (MkCluster (<[i := n']> (nodes c)) msgs) h.
Proof.
  intros [Hs Hh Hn Hf] Hi Hst Hws Hm; split; simpl; try done.
  - intros j m key v [[<- <-]|[_ Hj]]%insert_lookup_cases; [|by eapply Hs].
    rewrite Hst; clear Hst; revert v; induction ws as [|w ws IH] using rev_ind; intros v.
    + simpl; by eapply Hs.
    + rewrite apply_writes_snoc, apply_write_lookup; case_decide as Hk.
      * intros [Hv| ->]%lww_from; [apply IH; [|done]|].
        -- intros w' [?|?]; apply Hws; rewrite ?elem_of_snoc; auto.
        -- exists w; split; [apply Hws; rewrite elem_of_snoc; auto|done].
      * apply IH; intros w' [?|?]; apply Hws; rewrite ?elem_of_snoc; auto.
  - intros j m w [[<- <-]|[_ Hj]]%insert_lookup_cases; [auto|by eapply Hh].
Qed.

Lemma provenance_step mode opts N c lb c' h :
  cluster_safe mode opts N c -> provenance c h -> nonempty_put lb = true ->
  effect mode opts N lb c c' (originated lb c) -> provenance c' (h ++ originated lb c).
Proof.
  intros Hs Hp Hne He; pose proof Hp as [Hst Hh Hn Hf].
  destruct He as [i n w n' rpcs Hlb Hi Hl -> ->|i n key Hi -> ->| -> ->
    |m now i req pts n n' ws -> Hm Hmok Hi Hd -> ->|m -> _ ->]; rewrite ?app_nil_r.
  - assert (Hw : w ∈ hist_writes (h ++ [(i, w)])) by (rewrite hist_writes_app, elem_of_app; right; left).
    assert (Hold : forall w', w' ∈ hist_writes h -> w' ∈ hist_writes (h ++ [(i, w)]))
      by (intros w' Hw'; rewrite hist_writes_app, elem_of_app; by left).
    assert (Hp' : provenance c (h ++ [(i, w)])).
    { eapply provenance_grow; try done. rewrite hist_writes_app; apply Forall_app; split; [done|].
      repeat constructor; by eapply nonempty_faithful. }
    eapply (provenance_insert c _ i n n' [w]); [done|done|by rewrite (lw_store _ _ _ _ _ _ Hl)|..].
    + intros w' [->%list_elem_of_singleton|Hw']; [done|apply Hold, (Hh i n); [done|]].
      revert Hw'; unfold held; by rewrite (lw_buffer _ _ _ _ _ _ Hl).
    + intros j req [Hr|Hr]%elem_of_app; [by eapply (pv_net _ _ Hp')|].
      destruct (local_write_msgs _ _ _ _ _ _ _ (cs_nodes _ _ _ _ Hs _ _ Hi) Hl) as [Hmsg _].
      rewrite Hmsg, list_elem_of_In, in_map_iff in Hr; destruct Hr as (p & [= _ <-] & _).
      by exists w.
  - destruct (Node_Get_safe _ _ _ key _ (cs_nodes _ _ _ _ Hs _ _ Hi)) as (_ & Hst' & Hh' & _).
    eapply (provenance_insert c _ i n _ []); [done|done|by rewrite Hst'| |done].
    intros w [Hw|Hw]; [by apply not_elem_of_nil in Hw|]. rewrite Hh' in Hw; by eapply Hh.
  - done.
  - destruct (Hn i req) as (w & Hw & ->); [by eapply list_elem_of_lookup_2|].
    assert (Hreq : request_write (request_of w) pts = w)
      by (apply request_of_write; [by eapply hist_faithful|apply Hmok]).
    rewrite Hreq in Hd.
    eapply (provenance_insert c _ i n n' ws); [done|done|by apply causal_run_apply, Hd|..].
    + intros w' Hw'; assert (Hin : w' ∈ ws ++ held n') by (by apply elem_of_app).
      rewrite (dl_held _ _ _ _ Hd), elem_of_snoc in Hin; destruct Hin as [?| ->]; [by eapply Hh|done].
    + intros j req Hr; apply (Hn j); by eapply list_elem_of_delete_inv.
  - split; simpl; try done. intros j req Hr; apply (Hn j); by eapply list_elem_of_delete_inv.
Qed.

Lemma provenance_run mode opts N ls c c' h :
  cluster_safe mode opts N c -> run_ok ls c = true -> forallb nonempty_put ls = true ->
  run ls c = Some c' -> provenance c h -> provenance c' (h ++ history ls c).
Proof.
  revert c h; induction ls as [|lb ls IH]; intros c h Hs Hok Hne Hrun Hp; simpl in *.
  - simplify_eq; by rewrite app_nil_r.
  - apply bind_Some in Hrun as (c1 & Hlb & Hrun); rewrite Hlb in *.
    apply andb_true_iff in Hok as [Hok1 Hok], Hne as [Hne1 Hne].
    destruct (step_effect _ _ _ _ _ _ Hs Hok1 Hlb) as [Hs1 He].
    rewrite app_assoc; apply IH; try done; by eapply provenance_step.
Qed.

Lemma provenance_init mode opts nows c :
  async mode -> Forall (fun now => reading_ok now = true) nows ->
  init_cluster mode opts nows = Some c -> provenance c [].
Proof.
  intros Ha Hnows Hc; apply init_cluster_nodes in Hc as (Hnet & _ & Hn).
  assert (Hinit : forall i n, nodes c !! i = Some n -> Node_Store n = ∅ /\ held n = []).
  { intros i n Hi; destruct (Hn _ _ Hi) as (now & Hnow & Hst).
    apply start_node_safe in Hst as (_ & ? & ? & _); [done|done|by eapply Forall_lookup_1 in Hnows]. }
  split; [| | |constructor].
  - intros i n key v Hi; destruct (Hinit _ _ Hi) as [-> _]; by rewrite lookup_empty.
  - intros i n w Hi; destruct (Hinit _ _ Hi) as [_ ->]; intros Hw; by apply not_elem_of_nil in Hw.
  - rewrite Hnet; intros i req Hr; by apply not_elem_of_nil in Hr.
Qed.

(** ** A read-then-write chain *)

Definition chain (o : nat) (nowA : Z) (keyA : string) (dataA : list byte) (nowB : Z)
    (keyB : string) (dataB : list byte) : list label :=
  [LPut o nowA (MkPutRequest keyA dataA); LGet o (MkGetRequest keyA);
   LPut o nowB (MkPutRequest keyB dataB)].

Lemma originated_put i now key data c o w :
  originated (LPut i now (MkPutRequest key data)) c = [(o, w)] ->
  o = i /\ exists n n' rpcs ts, nodes c !! i = Some n /\
    node_write now key data false [] n = (n', rpcs, Ok ts) /\
    w = MkWrite key (MkValue data ts (pending_deps n) false) /\
    step (LPut i now (MkPutRequest key data)) c =
      Some (MkCluster (<[i := n']> (nodes c)) (net c ++ messages rpcs)).
Proof.
  unfold originated; simpl; destruct (nodes c !! i) as [n|] eqn:Hn; [|done]; simpl.
  rewrite Node_Put_write; simpl.
  destruct (node_write _ _ _ _ _ n) as [[n' rpcs] [ts|e]] eqn:Hw; [|done].
  intros [= <- <-]; split; [done|]; by exists n, n', rpcs, ts.
Qed.

Lemma originated_length lb c : length (originated lb c) <= 1.
Proof.
  unfold originated; destruct (label_write lb) as [[[[i key] data] del]|], (label_now lb) as [now|];
    simpl; try lia.
  destruct (nodes c !! i) as [n|]; simpl; [|lia].
  destruct (node_write _ _ _ _ _ n) as [[n' rpcs] [ts|e]]; simpl; lia.
Qed.

(** The second write of an accepted chain depends on the first. *)
Lemma chain_deps opts N c1 c2 o nowA keyA dataA nowB keyB dataB wA wB :
  let ls := chain o nowA keyA dataA nowB keyB dataB in
  cluster_safe "causal" opts N c1 -> run_ok ls c1 = true -> run ls c1 = Some c2 ->
  history ls c1 = [(o, wA); (o, wB)] ->
  MkDependency keyA (write_ts wA) ∈ write_deps wB /\ write_key wB = keyB /\
  Value_Deleted (write_val wB) = false.
Proof.
  intros ls Hs Hok Hrun Hh; subst ls; unfold chain in *.
  apply run_cons in Hrun as (c1a & Hstep1 & Hrun); apply run_cons in Hrun as (c1b & Hstep2 & Hrun).
  apply run_cons in Hrun as (c1c & Hstep3 & _).
  cbn [run_ok] in Hok; rewrite Hstep1 in Hok; apply andb_true_iff in Hok as [Hok1 Hok].
  cbn [history] in Hh; rewrite Hstep1, Hstep2, Hstep3 in Hh; rewrite app_nil_r in Hh.
  pose proof (originated_length (LPut o nowA (MkPutRequest keyA dataA)) c1) as Hl1.
  pose proof (originated_length (LPut o nowB (MkPutRequest keyB dataB)) c1b) as Hl3.
  change (originated (LGet o (MkGetRequest keyA)) c1a) with (@nil (nat * write)) in Hh; simpl in Hh.
  destruct (originated (LPut o nowA (MkPutRequest keyA dataA)) c1) as [|pA [|]] eqn:Ho1;
    simpl in Hl1; [|simpl in Hh|lia].
  { simpl in Hh; rewrite Hh in Hl3; simpl in Hl3; lia. }
  injection Hh as -> Ho3.
  apply originated_put in Ho1 as (_ & n & n1 & rpcs & tsA & Hn & Hw & -> & Hst1).
  apply originated_put in Ho3 as (_ & nb & nc & rpcs' & tsB & Hnb & _ & -> & _).
  destruct (step_effect _ _ _ _ _ _ Hs Hok1 Hstep1) as [Hs1 _].
  rewrite Hst1 in Hstep1; injection Hstep1 as <-; simpl in Hstep2.
  assert (Hlen : o < length (nodes c1)) by (by eapply lookup_lt_Some).
  assert (Hn1 : <[o := n1]> (nodes c1) !! o = Some n1) by (by apply list_lookup_insert_eq).
  rewrite Hn1 in Hstep2; simpl in Hstep2.
  pose proof (cs_nodes _ _ _ _ Hs1 o n1 Hn1) as Hsafe1.
  pose proof (Node_Get_deps keyA n1) as (Hd & _).
  destruct (Node_Get (MkGetRequest keyA) n1) as [n1g rg]; injection Hstep2 as <-; simpl in *.
  rewrite list_insert_insert_eq in Hnb; rewrite list_lookup_insert_eq in Hnb by done.
  injection Hnb as <-; split; [|done].
  apply node_write_ok in Hw as (_ & _ & _ & Hst & _); [|by apply (ns_clock _ _ _ _ (cs_nodes _ _ _ _ Hs _ _ Hn))].
  unfold write_deps; simpl; rewrite Hd.
  destruct (ns_tracker _ _ _ _ Hsafe1 eq_refl) as [rt ->].
  unfold read_dep; rewrite Hst, lookup_insert_eq; simpl.
  rewrite elem_of_app; right; left.
Qed.

(** ** Properties *)

(** A read-then-write chain is ordered everywhere: in a causal cluster, if a
    client of some node puts A, reads it and puts B, then at every later point,
    at every node, whoever sees this B finds A in the store, in the version
    written or a later one; whatever else runs, in whatever order RPCs arrive,
    and even if some are lost. *)
Theorem causal_chain_ordered opts nows c0 ls1 c1 o nowA keyA dataA nowB keyB dataB c2 ls2 c
    wA wB r n v :
  let ls := chain o nowA keyA dataA nowB keyB dataB in
  Forall (fun now => reading_ok now = true) nows -> init_cluster "causal" opts nows = Some c0 ->
  run ls1 c0 = Some c1 -> run ls c1 = Some c2 -> run ls2 c2 = Some c ->
  run_ok (ls1 ++ ls ++ ls2) c0 = true -> forallb nonempty_put (ls1 ++ ls ++ ls2) = true ->
  ties_apart (history (ls1 ++ ls ++ ls2) c0) -> history ls c1 = [(o, wA); (o, wB)] ->
  nodes c !! r = Some n -> Node_Store n !! keyB = Some v -> Value_Timestamp v = write_ts wB ->
  ts_lt zeroTimestamp (write_ts wA) ->
  exists v', Node_Store n !! keyA = Some v' /\ ts_le (write_ts wA) (Value_Timestamp v').
Proof.
  intros ls Hnows Hinit Hr1 Hr2 Hr3 Hok Hne Hap Hh Hn Hv Hts Hpos.
  assert (Ha : async "causal") by (by right).
  pose proof (init_cluster_safe _ _ _ _ Ha Hnows Hinit) as Hs0.
  pose proof Hok as Hok'; rewrite (run_ok_app _ _ _ _ Hr1), (run_ok_app _ _ _ _ Hr2) in Hok'.
  apply andb_true_iff in Hok' as [Hok1 [Hok2 Hok3]%andb_true_iff].
  pose proof (run_safe _ _ _ _ _ _ Hs0 Hok1 Hr1) as Hs1.
  destruct (chain_deps _ _ _ _ _ _ _ _ _ _ _ _ _ Hs1 Hok2 Hr2 Hh) as (Hdep & Hkey & Hdel).
  assert (Hrun : run (ls1 ++ ls ++ ls2) c0 = Some c).
  { transitivity (run (ls ++ ls2) c1); rewrite run_app; [by rewrite Hr1|by rewrite Hr2]. }
  pose proof (history_distinct _ _ _ _ _ _ Ha Hnows Hinit Hok Hrun Hap) as Hnd.
  pose proof (provenance_run _ _ _ _ _ _ [] Hs0 Hok Hne Hrun
    (provenance_init _ _ _ _ Ha Hnows Hinit)) as Hp; simpl in Hp.
  destruct (pv_store _ _ Hp _ _ _ _ Hn Hv) as (w & Hw & Hwk & ->).
  assert (HwB : wB ∈ hist_writes (history (ls1 ++ ls ++ ls2) c0)).
  { rewrite (history_app _ _ _ _ Hr1), (history_app _ _ _ _ Hr2), Hh, !hist_writes_app.
    rewrite !elem_of_app; simpl; right; left; right; left. }
  rewrite write_stored_ts in Hts.
  rewrite (ts_distinct_eq _ w wB (stamps_distinct _ Hnd)) in Hv by congruence || done.
  pose proof (run_safe _ _ _ _ _ _ Hs0 Hok Hrun) as Hs.
  pose proof (causally_closed_present _ (ns_closed _ _ _ _ (cs_nodes _ _ _ _ Hs _ _ Hn))) as Hcl.
  apply (Hcl keyB _ (MkDependency keyA (write_ts wA)) Hv); [|done].
  unfold write_stored; by rewrite Hdel.
Qed.

(** The chain of [x] and [y] at node 0 of three; node 2 receives [y] first. *)
Definition c_xy : list label := chain 0 200 "x" [x78] 300 "y" [x79].
Definition c_xy_c2 : cluster := default c_cluster (run c_xy c_cluster).
Definition c_xy_ls2 : list label := [LDeliver 3 310; LDeliver 1 320].
Definition c_xy_end : cluster := default c_cluster (run c_xy_ls2 c_xy_c2).
Definition c_xy_w (key : string) (now : Z) (b : byte) (deps : list Dependency) : write :=
  MkWrite key (MkValue [b] (MkTimestamp now 0) deps false).
Definition c_xy_wB : write :=
  c_xy_w "y" 300 x79 [MkDependency "x" (MkTimestamp 200 0)].
Definition c_xy_n : Node AnyHandler := default (c_node1 c_xy_end) (nodes c_xy_end !! 2).

Lemma causal_chain_ordered_witness :
  exists v', Node_Store c_xy_n !! "x" = Some v' /\
    ts_le (MkTimestamp 200 0) (Value_Timestamp v').
Proof.
  refine (causal_chain_ordered c_opts [100; 100; 100]%Z c_cluster [] c_cluster 0 200 "x" [x78]
    300 "y" [x79] c_xy_c2 c_xy_ls2 c_xy_end (c_xy_w "x" 200 x78 []) c_xy_wB 2
    c_xy_n (write_val c_xy_wB) c_nows_ok _ eq_refl _ _ _ _ _ _ _ _ eq_refl _).
  - by apply isSome_default.
  - by apply isSome_default; vm_compute.
  - by apply isSome_default; vm_compute.
  - vm_compute; reflexivity.
  - vm_compute; reflexivity.
  - apply (bool_decide_unpack _); vm_compute; exact I.
  - vm_compute; reflexivity.
  - by apply isSome_default; vm_compute.
  - vm_compute; reflexivity.
  - left; simpl; lia.
Defined.

Lemma causal_write_ok now key data n n' rpcs ts peers opts :
  clock_wf (Node_Clock n) -> Node_Handler n = HCausal (MkCausal peers opts) ->
  node_write now key data false [] n = (n', rpcs, Ok ts) ->
  rpcs = sends opts peers (buildReplicateRequest key (MkValue data ts (pending_deps n) false)
                             (pending_deps n)) /\
  ts_lt (Clock_Now (Node_Clock n)) ts /\ (Logical ts <= maxLogical)%Z /\
  Node_Store n' = <[key := MkValue data ts (pending_deps n) false]> (Node_Store n) /\
  Node_Buffer n' = Node_Buffer n /\ Node_Mode n' = Node_Mode n /\ pending_deps n' = [] /\
  Node_Handler n' = Node_Handler n.
Proof.
  intros Hwf Hh Hw; apply node_write_spec in Hw
    as [(? & _)|(ts' & Hlt & _ & _ & Hlog & Hm & Hh' & Hb & Hp & Hr & Hs)]; [done| |done].
  rewrite Hh in Hr, Hs; simpl in Hr, Hs; destruct Hs as [[= ->] Hs]; split_and!; try done; lia.
Qed.

(** Own writes are not ordered: the read tracker records reads only, so of two
    puts made one after the other at a causal node, with no read between, the
    second carries no dependency, and a replica that receives it first serves it
    while the first is missing. *)
Theorem back_to_back_puts_unordered peers opts nowA keyA dataA nowB keyB dataB
    (n n1 n2 m m' : Node AnyHandler) rpcsA rA rpcsB rB o now clk t b r :
  clock_wf (Node_Clock n) -> clock_wf (Node_Clock n1) -> clock_wf (Node_Clock m) ->
  Node_Handler n = HCausal (MkCausal peers opts) ->
  Node_Put nowA (MkPutRequest keyA dataA) [] n = (n1, rpcsA, Ok rA) ->
  Node_Put nowB (MkPutRequest keyB dataB) [] n1 = (n2, rpcsB, Ok rB) ->
  o ∈ rpcsB -> dataB <> [] -> keyA <> keyB ->
  active_buffer m = Some b -> Buffer_held b = [] ->
  Node_Store m !! keyA = None -> Node_Store m !! keyB = None ->
  (forall ts, RR_Timestamp (out_req o) = Some (toReplicateTS ts) ->
     Clock_Receive now ts (Node_Clock m) = (clk, Ok t)) ->
  Node_Replicate now (out_req o) m = (m', r) ->
  RR_Deps (out_req o) = [] /\
  (exists ts, snd (Node_Get (MkGetRequest keyB) m') = Ok (MkGetResponse dataB (Some ts) true)) /\
  snd (Node_Get (MkGetRequest keyA) m') = Ok (MkGetResponse [] None false).
Proof.
  intros Hwf Hwf1 Hwfm Hh; rewrite !Node_Put_write; simpl.
  destruct (node_write nowA _ _ _ _ n) as [[nA rsA] resA] eqn:HwA; intros [= -> -> HrA].
  apply res_map_ok in HrA as (tsA & -> & _).
  destruct (node_write nowB _ _ _ _ n1) as [[nB rsB] resB] eqn:HwB; intros [= -> -> HrB].
  apply res_map_ok in HrB as (tsB & -> & _).
  apply (causal_write_ok _ _ _ _ _ _ _ peers opts) in HwA
    as (_ & _ & _ & _ & _ & _ & Hp & Hh1); [|done..]; rewrite Hh in Hh1.
  apply (causal_write_ok _ _ _ _ _ _ _ peers opts) in HwB
    as (-> & _ & Hlog & _); [|done..]; rewrite Hp.
  intros ->%sends_req Hd Hne Hbuf Hheld HmA HmB Hrecv Hr; split; [done|].
  specialize (Hrecv tsB eq_refl).
  pose proof (Node_Replicate_spec now (buildReplicateRequest keyB (MkValue dataB tsB [] false) [])
    (toReplicateTS tsB) m Hwfm eq_refl) as Hspec; simpl in Hspec.
  rewrite fromProto_toReplicateTS in Hspec; specialize (Hspec Hlog).
  rewrite Hr, Hrecv, Hbuf in Hspec; destruct Hspec as (_ & _ & _ & _ & Hspec).
  unfold Buffer_Receive in Hspec; rewrite Hheld in Hspec.
  change (depsSatisfied (Node_Store m) _) with true in Hspec; cbn iota in Hspec.
  change (drainLocked ?s []) with (s, @nil write) in Hspec.
  destruct Hspec as (Hst & _ & _).
  assert (Hdel : Nat.eqb (length dataB) 0 = false) by (by destruct dataB).
  rewrite applyLocked_apply_write, apply_write_spec in Hst; simpl in Hst.
  rewrite !Node_Get_spec, Hst; simpl; rewrite lookup_insert_eq, lookup_insert_ne, HmA, HmB by done.
  unfold request_value, write_stored, write_ts; simpl; rewrite ?Hdel; simpl; rewrite ?Hdel; simpl.
  split; [by eexists|done].
Qed.

(** C23: the read tracker belongs to the node, not to a client: when one client reads a
    key at a causal node and another one puts anything there, the dependency goes
    out with the other's write, and what the first puts next carries none. *)
Theorem other_client_takes_dependencies peers opts keyA nowZ keyZ dataZ nowB keyB dataB
    (n n1 n2 : Node AnyHandler) rpcsZ rZ rpcsB rB d z b :
  clock_wf (Node_Clock n) -> clock_wf (Node_Clock n1) -> is_Some (active_tracker n) ->
  Node_Handler n = HCausal (MkCausal peers opts) -> read_dep n keyA = Some d ->
  Node_Put nowZ (MkPutRequest keyZ dataZ) [] (fst (Node_Get (MkGetRequest keyA) n)) = (n1, rpcsZ, Ok rZ) ->
  Node_Put nowB (MkPutRequest keyB dataB) [] n1 = (n2, rpcsB, Ok rB) ->
  z ∈ rpcsZ -> b ∈ rpcsB ->
  d ∈ fromProtoDeps (RR_Deps (out_req z)) /\ fromProtoDeps (RR_Deps (out_req b)) = [].
Proof.
  intros Hwf Hwf1 [rt Ha] Hh Hd; destruct (Node_Get_deps keyA n) as (Hp & _ & Hh0 & _ & _).
  rewrite Ha, Hd in Hp; rewrite Hh in Hh0.
  assert (Hwf0 : clock_wf (Node_Clock (fst (Node_Get (MkGetRequest keyA) n)))) by (by rewrite (proj1 (proj2 (Node_Get_frame _ _)))).
  rewrite !Node_Put_write; simpl; destruct (node_write nowZ _ _ _ _ _) as [[nZ rsZ] resZ] eqn:HwZ; intros [= -> -> HrZ].
  apply res_map_ok in HrZ as (tsZ & -> & _).
  destruct (node_write nowB _ _ _ _ n1) as [[nB rsB] resB] eqn:HwB; intros [= -> -> HrB].
  apply res_map_ok in HrB as (tsB & -> & _).
  apply (causal_write_ok _ _ _ _ _ _ _ peers opts) in HwZ as (-> & _ & _ & _ & _ & _ & Hp1 & Hh1); [|done..].
  apply (causal_write_ok _ _ _ _ _ _ _ peers opts) in HwB as (-> & _); [|done|by rewrite Hh1].
  intros ->%sends_req ->%sends_req; rewrite !fromProtoDeps_build, Hp1, Hp; split; [|done].
  apply elem_of_app; right; left.
Qed.

(** A held write that a local put satisfies stays held: [Put] never sweeps the
    buffer, so after it the dependency of a held write is satisfied by the store
    and the write is still held. *)
Theorem put_leaves_satisfied_write_held peers opts now data (n n' : Node AnyHandler) rpcs resp w d :
  clock_wf (Node_Clock n) -> Node_Handler n = HCausal (MkCausal peers opts) ->
  w ∈ held n -> write_deps w = [d] -> ts_le (Dependency_MinTS d) (Clock_Now (Node_Clock n)) ->
  Node_Put now (MkPutRequest (Dependency_Key d) data) [] n = (n', rpcs, Ok resp) ->
  depsSatisfied (Node_Store n') (write_deps w) = true /\ w ∈ held n'.
Proof.
  intros Hwf Hh Hw Hd Hle; rewrite Node_Put_write; simpl.
  destruct (node_write _ _ _ _ _ n) as [[n1 rpcs1] r1] eqn:Hwr; intros [= -> -> Hr].
  apply res_map_ok in Hr as (ts & -> & _).
  apply (causal_write_ok _ _ _ _ _ _ _ peers opts) in Hwr
    as (_ & Hlt & _ & Hst & Hb & Hm & _); [|done..]; split.
  - rewrite Hd, depsSatisfied_spec; constructor; [|constructor].
    unfold version, Store_GetVersion; rewrite Hst, lookup_insert_eq; simpl.
    right; by eapply ts_le_lt_trans.
  - unfold held; by rewrite (active_buffer_frame _ _ Hb Hm).
Qed.

Definition c_writer : Node AnyHandler :=
  NewNode "causal" store_New (hlc_New 100) (Some buffer_New) (HCausal (MkCausal [1; 2] c_opts)).
Definition c_put (now : Z) (key : string) (b : byte) (n : Node AnyHandler) : Node AnyHandler :=
  fst (fst (Node_Put now (MkPutRequest key [b]) [] n)).
Definition c_putB : ReplicateRequest :=
  buildReplicateRequest "b" (MkValue [x62] (MkTimestamp 300 0) [] false) [].

Lemma c_writer_wf : clock_wf (Node_Clock c_writer).
Proof. split; simpl; unfold in_int64, maxLogical; lia. Qed.

Lemma back_to_back_puts_unordered_witness :
  let m' := fst (Node_Replicate 310 c_putB c_writer) in
  RR_Deps c_putB = [] /\
  (exists ts, snd (Node_Get (MkGetRequest "b") m') = Ok (MkGetResponse [x62] (Some ts) true)) /\
  snd (Node_Get (MkGetRequest "a") m') = Ok (MkGetResponse [] None false).
Proof.
  refine (back_to_back_puts_unordered [1; 2] c_opts 200 "a" [x61] 300 "b" [x62] c_writer
    (c_put 200 "a" x61 c_writer) (c_put 300 "b" x62 (c_put 200 "a" x61 c_writer)) c_writer _
    _ (MkPutResponse (Some (MkKvTS 200 0))) _ (MkPutResponse (Some (MkKvTS 300 0)))
    (MkOutgoing 1 None c_putB) 310 (MkClock 310 0) (MkTimestamp 310 0) buffer_New
    (Ok (MkReplicateResponse true))
    c_writer_wf _ c_writer_wf eq_refl (triple_eta _) (triple_eta _) _ _ _ eq_refl eq_refl
    eq_refl eq_refl _ (surjective_pairing _)).
  - split; vm_compute; split; discriminate.
  - left.
  - discriminate.
  - discriminate.
  - intros [wall log]; intros [= <- <-]; reflexivity.
Defined.

(** At node 0 a client puts x, reads it and puts y; before the last, another one puts
    z.  Node 1 receives y first and shows it without x. *)
Definition c_two_clients : list label :=
  [LPut 0 200 (MkPutRequest "x" [x78]); LGet 0 (MkGetRequest "x"); LPut 0 250 (MkPutRequest "z" [x7a]);
   LPut 0 300 (MkPutRequest "y" [x79]); LDeliver 4 310].
Definition c_shared : Node AnyHandler :=
  fst (Node_Get (MkGetRequest "x") (c_put 200 "x" x78 c_writer)).

Lemma other_client_takes_dependencies_witness :
  option_map (fun c => option_map (fun n => (isSome (Node_Store n !! "y"), isSome (Node_Store n !! "x"))) (nodes c !! 1))
    (run c_two_clients c_cluster) = Some (Some (true, false)) /\
  forall z b, z ∈ snd (fst (Node_Put 250 (MkPutRequest "z" [x7a]) [] c_shared)) ->
    b ∈ snd (fst (Node_Put 300 (MkPutRequest "y" [x79]) [] (c_put 250 "z" x7a c_shared))) ->
    MkDependency "x" (MkTimestamp 200 0) ∈ fromProtoDeps (RR_Deps (out_req z)) /\
    fromProtoDeps (RR_Deps (out_req b)) = [].
Proof.
  split; [vm_compute; reflexivity|]; intros z b Hz Hb.
  refine (other_client_takes_dependencies [1; 2] c_opts "x" 250 "z" [x7a] 300 "y" [x79]
    (c_put 200 "x" x78 c_writer) (c_put 250 "z" x7a c_shared) _ _ (MkPutResponse (Some (MkKvTS 250 0))) _
    (MkPutResponse (Some (MkKvTS 300 0))) (MkDependency "x" (MkTimestamp 200 0)) z b _ _ _ eq_refl eq_refl
    (triple_eta _) (triple_eta _) Hz Hb); [split; vm_compute; split; discriminate..|by eexists].
Defined.

(** A write of [y] that depends on [x], held; then a local put of [x]. *)
Definition c_holding : Node AnyHandler :=
  fst (Node_Replicate 310 (request_of c_xy_wB) c_writer).

Lemma put_leaves_satisfied_write_held_witness :
  c_xy_wB ∈ held c_holding /\
  depsSatisfied (Node_Store c_holding) (write_deps c_xy_wB) = false /\
  depsSatisfied (Node_Store (c_put 400 "x" x7a c_holding)) (write_deps c_xy_wB) = true /\
  c_xy_wB ∈ held (c_put 400 "x" x7a c_holding).
Proof.
  split; [left|]. split; [vm_compute; reflexivity|].
  refine (put_leaves_satisfied_write_held [1; 2] c_opts 400 [x7a] c_holding _ _
    (MkPutResponse (Some (MkKvTS 400 0))) c_xy_wB (MkDependency "x" (MkTimestamp 200 0))
    _ eq_refl _ eq_refl _ (triple_eta _)).
  - split; vm_compute; split; discriminate.
  - left.
  - right; left; vm_compute; reflexivity.
Defined.
