(* ===== verification/Float.v ===== *)
(** * Go's float64

    [float64] values are the standard library's executable binary64 numbers;
    the conversions to and from [int], and what the rank computation
    [int(float64(n) * p)] of the percentile functions returns. *)

From S2P Require Import Prelude.
From Stdlib Require Export Floats.SpecFloat.
#[local] Open Scope Z_scope.

Definition prec : Z := 53.
Definition emax : Z := 1024.

(** [float64(z)]; the binary operators. *)
Definition of_int (z : Z) : spec_float := binary_normalize prec emax z 0 false.
Definition fmul (x y : spec_float) : spec_float := SFmul prec emax x y.
Definition fadd (x y : spec_float) : spec_float := SFadd prec emax x y.
Definition fsub (x y : spec_float) : spec_float := SFsub prec emax x y.
Definition fdiv (x y : spec_float) : spec_float := SFdiv prec emax x y.
Definition flt (x y : spec_float) : bool := SFltb x y.
Definition fle (x y : spec_float) : bool := SFleb x y.
Definition feq (x y : spec_float) : bool := SFeqb x y.
Definition fzero : spec_float := S754_zero false.

(** The float64 nearest to a decimal literal [a / b], both exact. *)
Definition lit (a b : Z) : spec_float := fdiv (of_int a) (of_int b).

(** [int(f)], truncation toward zero; [None] where Go leaves the result to the
    implementation. *)
Definition to_int (f : spec_float) : option Z :=
  match f with
  | S754_zero _ => Some 0
  | S754_finite s m e =>
      let z := if 0 <=? e then Zpos m * 2 ^ e else Zpos m / 2 ^ (- e) in
      let z := if s then - z else z in
      if (-9223372036854775808 <=? z) && (z <=? 9223372036854775807) then Some z else None
  | _ => None
  end.

(** [int(float64(n) * p)]: the rank of a percentile. *)
Definition rank (n : Z) (p : spec_float) : option Z := to_int (fmul (of_int n) p).

(** ** Digits *)

Lemma digits2_bounds p : 2 ^ (Zpos (digits2_pos p) - 1) <= Zpos p < 2 ^ Zpos (digits2_pos p).
Proof.
  induction p as [p IH|p IH|]; cbn [digits2_pos]; [..|simpl; lia];
    rewrite Pos2Z.inj_succ; replace (Z.succ (Zpos (digits2_pos p)) - 1)
      with (Z.succ (Zpos (digits2_pos p) - 1)) by lia;
    rewrite !Z.pow_succ_r by lia; lia.
Qed.

Lemma digits2_unique p d : 0 < d -> 2 ^ (d - 1) <= Zpos p < 2 ^ d -> Zpos (digits2_pos p) = d.
Proof.
  intros Hd [Hl Hu]; pose proof (digits2_bounds p) as [Hl' Hu'].
  assert (H1 : 2 ^ (d - 1) < 2 ^ Zpos (digits2_pos p)) by lia.
  assert (H2 : 2 ^ (Zpos (digits2_pos p) - 1) < 2 ^ d) by lia.
  apply Z.pow_lt_mono_r_iff in H1, H2; lia.
Qed.

(** ** Rounding *)

(** [mrs] is [m] shifted right by [k], with its round and sticky bits. *)
Definition shifted (m k : Z) (mrs : shr_record) : Prop :=
  exists f, 0 <= shr_m mrs /\ m = shr_m mrs * 2 ^ k + f /\ 0 <= f < 2 ^ k /\
    (shr_r mrs = true -> 2 ^ k <= 2 * f) /\ (shr_r mrs = false -> 2 * f < 2 ^ k) /\
    (shr_s mrs = false -> f = 0 \/ 2 * f = 2 ^ k).

Lemma shr_1_shifted m k mrs : 0 <= k -> shifted m k mrs -> shifted m (k + 1) (shr_1 mrs).
Proof.
  intros Hk (f & Hm & Heq & Hf & Hr1 & Hr0 & Hs); destruct mrs as [q r s]; simpl in *.
  assert (Hp : 2 ^ (k + 1) = 2 * 2 ^ k) by (rewrite Z.pow_add_r by lia; lia).
  assert (Hs' : (r || s)%bool = false -> f = 0).
  { intros [-> ->]%orb_false_iff; destruct (Hs eq_refl); [done|]; specialize (Hr0 eq_refl); lia. }
  destruct q as [|[q|q|]|q]; [..|lia];
    [exists f|exists (2 ^ k + f)|exists f|exists (2 ^ k + f)]; simpl;
    rewrite Hp; split_and!; try lia; intros; try discriminate; try lia;
    specialize (Hs' ltac:(assumption)); lia.
Qed.

Lemma iter_shifted m k p mrs :
  0 <= k -> shifted m k mrs -> shifted m (k + Zpos p) (iter_pos shr_1 p mrs).
Proof.
  revert k mrs; induction p as [p IH|p IH|]; intros k mrs Hk Hs; cbn [iter_pos].
  - replace (k + Zpos p~1) with (k + 1 + Zpos p + Zpos p) by lia.
    apply IH; [lia|]; apply IH; [lia|]; by apply shr_1_shifted.
  - replace (k + Zpos p~0) with (k + Zpos p + Zpos p) by lia.
    apply IH; [lia|]; by apply IH.
  - by apply shr_1_shifted.
Qed.

Lemma shr_shifted m e d :
  0 <= m -> 0 <= d -> exists mrs, shr (shr_record_of_loc m loc_Exact) e d = (mrs, e + d) /\
    shifted m d mrs.
Proof.
  intros Hm Hd; unfold shr; destruct d as [|d|d]; [..|lia].
  - eexists; rewrite Z.add_0_r; split; [done|]. exists 0; simpl; lia.
  - eexists; split; [done|]. apply (iter_shifted m 0); [lia|]. exists 0; simpl; lia.
Qed.

Lemma rne_error m d mrs :
  0 <= d -> shifted m d mrs ->
  let q := round_nearest_even (shr_m mrs) (loc_of_shr_record mrs) in
  shr_m mrs <= q <= shr_m mrs + 1 /\ 2 * Z.abs (q * 2 ^ d - m) <= 2 ^ d /\
  (d = 0 -> q = m).
Proof.
  intros Hd (f & Hm & Heq & Hf & Hr1 & Hr0 & Hs); destruct mrs as [a r s]; simpl in *.
  assert (Hq : forall q, q = a \/ q = a + 1 -> q * 2 ^ d - m = (q - a) * 2 ^ d - f) by lia.
  destruct r, s; simpl; [|destruct (Z.even a)|..]; rewrite ?Hq by lia;
    specialize (Hr1 ltac:(first [done|lia])) || specialize (Hr0 ltac:(first [done|lia]));
    try specialize (Hs eq_refl);
    (split; [lia|]; split; [lia|]; intros ->; change (2 ^ 0) with 1 in *; lia).
Qed.

(** Rounding a positive mantissa of at least 53 digits, away from the ends of the
    exponent range: the result has 53 digits and is within half a unit of its
    last place. *)
Lemma round_aux_spec mx e d :
  Zpos (digits2_pos mx) = 53 + d -> 0 <= d -> -1074 <= e + d -> e + d + 1 <= 971 ->
  exists q e', binary_round_aux prec emax false (Zpos mx) e loc_Exact = S754_finite false q e' /\
    2 ^ 52 <= Zpos q < 2 ^ 53 /\ e + d <= e' <= e + d + 1 /\
    2 * Z.abs (Zpos q * 2 ^ (e' - e) - Zpos mx) <= 2 ^ d /\
    (d = 0 -> q = mx /\ e' = e).
Proof.
  intros Hdig Hd Hmin Hmax; unfold binary_round_aux, shr_fexp, fexp, emin.
  change (Zdigits2 (Zpos mx)) with (Zpos (digits2_pos mx)); rewrite Hdig.
  unfold prec, emax; replace (Z.max _ _ - e) with d by lia.
  destruct (shr_shifted (Zpos mx) e d) as (mrs & -> & Hsh); [lia|done|].
  pose proof (rne_error _ _ _ Hd Hsh) as (Hq & Herr & Hex); cbn zeta in *.
  set (q := round_nearest_even _ _) in *.
  pose proof (digits2_bounds mx) as [Hlo Hhi]; rewrite Hdig in Hlo, Hhi.
  assert (Hm : 2 ^ 52 <= shr_m mrs < 2 ^ 53).
  { destruct Hsh as (f & Hm & Heq & Hf & _). rewrite Heq in Hlo, Hhi.
    replace (53 + d - 1) with (52 + d) in Hlo by lia.
    rewrite Z.pow_add_r in Hlo, Hhi by lia; nia. }
  assert (Hcase : 2 ^ 52 <= q < 2 ^ 53 \/ q = 2 ^ 53) by lia.
  destruct Hcase as [Hn|Hc].
  - destruct q as [|q'|q'] eqn:Hqe; [lia| |lia].
    change (Zdigits2 (Zpos q')) with (Zpos (digits2_pos q')).
    rewrite (digits2_unique q' 53) by (try done; exact Hn).
    replace (Z.max _ _ - (e + d)) with 0 by lia; simpl; change (1024 - 53) with 971.
    rewrite (proj2 (Z.leb_le (e + d) 971)) by lia.
    exists q', (e + d); rewrite (Z.add_simpl_l e d); split_and!; try done; lia.
  - assert (Hd0 : d <> 0).
    { intros ->; specialize (Hex eq_refl); rewrite <- Hex, Hc in Hhi.
      change (2 ^ (53 + 0)) with (2 ^ 53) in Hhi; lia. }
    rewrite Hc; change (Zdigits2 (2 ^ 53)) with 54.
    replace (Z.max _ _ - (e + d)) with 1 by lia.
    change (shr _ (e + d) 1) with (Build_shr_record (2 ^ 52) false false, e + d + 1);
      cbn [shr_m]; change (1024 - 53) with 971.
    rewrite (proj2 (Z.leb_le (e + d + 1) 971)) by lia.
    eexists _, (e + d + 1); split_and!; try done; try lia.
    replace (e + d + 1 - e) with (1 + d) by lia; rewrite Z.pow_add_r by lia.
    rewrite Hc in Herr; change (2 ^ 53) with (2 ^ 52 * 2 ^ 1) in Herr; lia.
Qed.

Lemma of_int_spec n :
  0 < n < 2 ^ 53 ->
  exists a k, of_int n = S754_finite false a (- k) /\ 0 <= k <= 52 /\
    Zpos a = n * 2 ^ k /\ 2 ^ 52 <= Zpos a < 2 ^ 53.
Proof.
  intros Hn; destruct n as [|p|p]; [lia| |lia].
  unfold of_int, binary_normalize, binary_round, shl_align, fexp, emin, prec, emax.
  pose proof (digits2_bounds p) as [Hlo Hhi]; set (D := Zpos (digits2_pos p)) in *.
  assert (HD : 1 <= D <= 53).
  { split; [lia|]. assert (2 ^ (D - 1) < 2 ^ 53) as Hlt%Z.pow_lt_mono_r_iff by lia; lia. }
  replace (Z.max _ _ - 0) with (D - 53) by lia.
  assert (Hround : forall a k, 0 <= k <= 52 -> Zpos a = Zpos p * 2 ^ k -> k = 53 - D ->
    exists a' k', binary_round_aux 53 1024 false (Zpos a) (- k) loc_Exact =
      S754_finite false a' (- k') /\ 0 <= k' <= 52 /\ Zpos a' = Zpos p * 2 ^ k' /\
      2 ^ 52 <= Zpos a' < 2 ^ 53).
  { intros a k Hk Ha HkD.
    assert (Hda : Zpos (digits2_pos a) = 53 + 0).
    { apply digits2_unique; [done|]. rewrite Ha.
      replace (53 + 0) with (D + k) by lia. replace (D + k - 1) with (D - 1 + k) by lia.
      rewrite !Z.pow_add_r by lia. assert (0 < 2 ^ k) by lia; nia. }
    destruct (round_aux_spec a (- k) 0 Hda) as (q & e' & Hr & Hq & _ & _ & Hex); try lia.
    destruct (Hex eq_refl) as [-> ->]; by exists a, k. }
  destruct (D - 53) as [|d|d] eqn:HDd; [|lia|].
  - apply (Hround p 0); lia.
  - rewrite Z.max_l by lia; replace (D + 0 - 53) with (- Zpos d) by lia.
    apply Hround; [lia| |lia]. clear; rewrite <- (Z.mul_1_r (Zpos p)) at 1.
    induction d as [|d IH] using Pos.peano_ind; [simpl; lia|].
    rewrite Pos.iter_succ, Pos2Z.inj_succ, Z.pow_succ_r by lia; lia.
Qed.

(** The rank, for a constant [p] in [[1/2, 1)]: the quotient of a number [T] that
    differs from the exact product by less than one part in [2^53]. *)
Lemma rank_spec n m :
  0 < n < 2 ^ 53 -> 2 ^ 52 <= Zpos m < 2 ^ 53 ->
  exists T k, 0 <= k /\ rank n (S754_finite false m (-53)) = Some (T / 2 ^ (k + 53)) /\
    2 ^ 53 * Z.abs (T - n * Zpos m * 2 ^ k) <= n * Zpos m * 2 ^ k.
Proof.
  intros Hn Hm; destruct (of_int_spec n Hn) as (a & k & Ha & Hk & Hav & Har).
  unfold rank, fmul, SFmul; rewrite Ha; cbn [xorb].
  assert (Hprod : 2 ^ 104 <= Zpos (a * m) < 2 ^ 106).
  { rewrite Pos2Z.inj_mul. change (2 ^ 104) with (2 ^ 52 * 2 ^ 52).
    change (2 ^ 106) with (2 ^ 53 * 2 ^ 53); nia. }
  assert (Hdig : exists d, 52 <= d <= 53 /\ Zpos (digits2_pos (a * m)) = 53 + d).
  { destruct (Z.lt_ge_cases (Zpos (a * m)) (2 ^ 105)) as [Hlt|Hge].
    - exists 52; split; [lia|]. apply digits2_unique; [done|]; split; [apply Hprod|exact Hlt].
    - exists 53; split; [lia|]. apply digits2_unique; [done|]; split; [exact Hge|apply Hprod]. }
  destruct Hdig as (d & Hd & Hdig).
  destruct (round_aux_spec (a * m) (- k + -53) d Hdig) as (q & e' & -> & Hq & He' & Herr & _);
    try lia.
  exists (Zpos q * 2 ^ (e' - (- k + -53))), k.
  pose proof (digits2_bounds (a * m)) as [Hlo _]; rewrite Hdig in Hlo.
  assert (Herr' : 2 ^ 53 * Z.abs (Zpos q * 2 ^ (e' - (- k + -53)) - n * Zpos m * 2 ^ k)
                  <= n * Zpos m * 2 ^ k).
  { assert (Ham : n * Zpos m * 2 ^ k = Zpos (a * m)) by (rewrite Pos2Z.inj_mul, Hav; ring).
    rewrite Ham; replace (53 + d - 1) with (52 + d) in Hlo by lia.
    rewrite Z.pow_add_r in Hlo by lia; change (2 ^ 53) with (2 * 2 ^ 52); nia. }
  split_and!; [lia| |done].
  set (T := Zpos q * _) in *.
  assert (Hz : (if 0 <=? e' then Zpos q * 2 ^ e' else Zpos q / 2 ^ (- e')) = T / 2 ^ (k + 53)).
  { subst T; destruct (Z.leb_spec 0 e').
    - replace (e' - (- k + -53)) with (e' + (k + 53)) by lia.
      rewrite Z.pow_add_r, Z.mul_assoc, Z.div_mul by lia; done.
    - replace (k + 53) with (e' - (- k + -53) + - e') by lia.
      rewrite (Z.pow_add_r 2 (e' - (- k + -53))) by lia.
      rewrite (Z.mul_comm (Zpos q)), Z.div_mul_cancel_l by lia; done. }
  unfold to_int; rewrite Hz.
  assert (Hrange : 0 <= T / 2 ^ (k + 53) < 2 ^ 54).
  { assert (Hpow : 2 ^ (k + 53) = 2 ^ k * 2 ^ 53) by (by rewrite Z.pow_add_r by lia).
    split; [apply Z.div_pos; lia|]. apply Z.div_lt_upper_bound; [lia|].
    assert (0 < 2 ^ k) by lia. rewrite Hpow.
    assert (n * Zpos m * 2 ^ k <= 2 ^ 53 * 2 ^ 53 * 2 ^ k) by nia. nia. }
  rewrite (proj2 (Z.leb_le _ _)), (proj2 (Z.leb_le _ _)) by lia; done.
Qed.

Lemma div_le_div T A T' A' : 0 < A -> 0 < A' -> T * A' <= T' * A -> T / A <= T' / A'.
Proof.
  intros HA HA' Hle; apply Z.div_le_lower_bound; [done|].
  pose proof (Z.mul_div_le T A HA); nia.
Qed.

Lemma rank_mono n m m' r r' :
  0 < n < 2 ^ 53 -> 2 ^ 52 <= Zpos m < 2 ^ 53 -> 2 ^ 52 <= Zpos m' < 2 ^ 53 ->
  Zpos m * (2 ^ 53 + 1) <= Zpos m' * (2 ^ 53 - 1) ->
  rank n (S754_finite false m (-53)) = Some r -> rank n (S754_finite false m' (-53)) = Some r' ->
  r <= r'.
Proof.
  intros Hn Hm Hm' Hmm Hr Hr'.
  destruct (rank_spec n m Hn Hm) as (T & k & Hk & Heq & Herr).
  destruct (rank_spec n m' Hn Hm') as (T' & k' & Hk' & Heq' & Herr').
  rewrite Heq in Hr; rewrite Heq' in Hr'; injection Hr as <-; injection Hr' as <-.
  assert (HK : 0 < 2 ^ k) by lia; assert (HK' : 0 < 2 ^ k') by lia.
  rewrite !Z.pow_add_r by lia; apply div_le_div; [lia..|].
  generalize dependent (2 ^ k); generalize dependent (2 ^ k'); intros K' Herr' HK' K Herr HK.
  assert (H1 : 2 ^ 53 * T * K' <= n * K * K' * (Zpos m * (2 ^ 53 + 1))) by nia.
  assert (H2 : n * K * K' * (Zpos m' * (2 ^ 53 - 1)) <= 2 ^ 53 * T' * K) by nia.
  assert (H3 : n * K * K' * (Zpos m * (2 ^ 53 + 1)) <= n * K * K' * (Zpos m' * (2 ^ 53 - 1))).
  { apply Z.mul_le_mono_nonneg_l; [nia|done]. }
  lia.
Qed.

Lemma rank_range n m :
  0 < n < 2 ^ 53 -> 2 ^ 52 <= Zpos m -> Zpos m * (2 ^ 53 + 1) <= 2 ^ 53 * 2 ^ 53 ->
  exists r, rank n (S754_finite false m (-53)) = Some r /\ 0 <= r <= n.
Proof.
  intros Hn Hm Hup; destruct (rank_spec n m Hn ltac:(lia)) as (T & k & Hk & -> & Herr).
  eexists; split; [done|]; rewrite Z.pow_add_r by lia.
  assert (HK : 0 < 2 ^ k) by lia; revert HK Herr; generalize (2 ^ k); clear Hk k.
  intros K HK Herr; split; [apply Z.div_pos; nia|].
  apply Z.div_le_upper_bound; [lia|].
  assert (H1 : 2 ^ 53 * T <= n * K * (Zpos m * (2 ^ 53 + 1))) by nia.
  assert (H2 : n * K * (Zpos m * (2 ^ 53 + 1)) <= n * K * (2 ^ 53 * 2 ^ 53)).
  { apply Z.mul_le_mono_nonneg_l; [nia|done]. }
  lia.
Qed.

Definition p50 : spec_float := lit 50 100.
Definition p95 : spec_float := lit 95 100.
Definition p99 : spec_float := lit 99 100.

Lemma p50_eq : p50 = S754_finite false 4503599627370496 (-53). Proof. by vm_compute. Qed.
Lemma p95_eq : p95 = S754_finite false 8556839292003942 (-53). Proof. by vm_compute. Qed.
Lemma p99_eq : p99 = S754_finite false 8917127262193582 (-53). Proof. by vm_compute. Qed.

(** The ranks of the three percentiles are in range and in order. *)
Lemma ranks_ordered n :
  0 <= n < 2 ^ 53 ->
  exists a b d, rank n p50 = Some a /\ rank n p95 = Some b /\ rank n p99 = Some d /\
    0 <= a <= b /\ b <= d <= n.
Proof.
  intros Hn; destruct (decide (n = 0)) as [->|Hnz]; [by exists 0, 0, 0|].
  rewrite p50_eq, p95_eq, p99_eq.
  destruct (rank_range n 4503599627370496) as (a & Ha & ?); [lia..|].
  destruct (rank_range n 8556839292003942) as (b & Hb & ?); [lia..|].
  destruct (rank_range n 8917127262193582) as (d & Hd & ?); [lia..|].
  exists a, b, d; split_and!; try done; try lia.
  - eapply (rank_mono n 4503599627370496 8556839292003942); try done; lia.
  - eapply (rank_mono n 8556839292003942 8917127262193582); try done; lia.
Qed.
