(* ===== verification/Env.v ===== *)
(** * What the tools see of the world

    The interfaces through which the checker, the benchmark driver and the
    experiments reach the program's surroundings: the key-value service behind a
    gRPC client, the time, a random source, and the formatting of values the
    standard library does.  The world is a type of its own, threaded through
    every call; a client is a handle. *)

From S2P Require Import Prelude Hlc Store Wire Float.

From stdpp Require Export pretty.

Abbreviation client := nat (only parsing).

(** ** The key-value service *)

Class KVService (W : Type) := {
  client_Get : client -> GetRequest -> W -> W * res GetResponse;
  client_Put : client -> PutRequest -> W -> W * res PutResponse;
  client_Delete : client -> DeleteRequest -> W -> W * res DeleteResponse
}.

(** ** Time

    [time_Now] is [time.Now], in nanoseconds; [ctx_wait d] is the [select] on
    [ctx.Done()] and [time.After(d)], [Some e] when the context ended with error
    [e]; [time_Sleep d] is [time.Sleep]. *)
Class Time (W : Type) := {
  time_Now : W -> W * Z;
  time_Sleep : Z -> W -> W;
  ctx_wait : Z -> W -> W * option string
}.

(** Time does not run backwards and a wait lasts as long as asked. *)
Class TimeLaws (W : Type) `{KVService W} `{Time W} := {
  time_of : W -> Z;
  time_Get c req w : (time_of w <= time_of (fst (client_Get c req w)))%Z;
  time_Put c req w : (time_of w <= time_of (fst (client_Put c req w)))%Z;
  time_Delete c req w : (time_of w <= time_of (fst (client_Delete c req w)))%Z;
  time_Now_law w :
    (time_of w <= snd (time_Now w) /\ snd (time_Now w) <= time_of (fst (time_Now w)))%Z;
  time_Sleep_law d w : (0 <= d)%Z -> (time_of w + d <= time_of (time_Sleep d w))%Z;
  ctx_wait_law d w : (0 <= d)%Z ->
    snd (ctx_wait d w) = None -> (time_of w + d <= time_of (fst (ctx_wait d w)))%Z
}.

(** ** Random numbers: [math/rand] *)
Class Random (W : Type) := {
  rand_Float64 : W -> W * spec_float;
  rand_Intn : Z -> W -> W * Z
}.

(** The documented range of [Intn], which panics on [n <= 0]. *)
Class RandomLaws (W : Type) `{Random W} := {
  rand_Intn_law n w : (0 < n)%Z -> (0 <= snd (rand_Intn n w) < n)%Z
}.

(** ** Formatting

    [%.<n>f] of a float, [%q] of bytes, [%s] of a duration. *)
Class Format := {
  fmt_float : nat -> spec_float -> string;
  fmt_quote : list byte -> string;
  fmt_duration : Z -> string
}.

(** [%d] of an integer. *)
Definition fmt_d (z : Z) : string := pretty z.

(** "\n" *)
Definition newline : string := String (Ascii.ascii_of_nat 10) EmptyString.

(** [[]byte(s)] of a string of bytes. *)
Definition bytes_of (s : string) : list byte := map Ascii.byte_of_ascii (String.list_ascii_of_string s).

Lemma fmt_d_inj x y : fmt_d x = fmt_d y -> x = y.
Proof. apply (inj (pretty (A := Z))). Qed.

Lemma string_app_inj s a b : (s +:+ a)%string = (s +:+ b)%string -> a = b.
Proof. by induction s as [|c s IH]; simpl; [|intros [= ?]; auto]. Qed.

Lemma bytes_of_inj a b : bytes_of a = bytes_of b -> a = b.
Proof.
  unfold bytes_of; intros Heq.
  assert (Hl : String.list_ascii_of_string a = String.list_ascii_of_string b).
  { revert Heq; generalize (String.list_ascii_of_string a) (String.list_ascii_of_string b).
    induction l as [|x l IH]; intros [|y k]; simpl; try done; intros [= Hx Hl].
    f_equal; [|by apply IH].
    by rewrite <- (Ascii.ascii_of_byte_of_ascii x), <- (Ascii.ascii_of_byte_of_ascii y), Hx. }
  by rewrite <- (String.string_of_list_ascii_of_string a), <- (String.string_of_list_ascii_of_string b), Hl.
Qed.

(** ** A concrete world

    Answers given by a function of the client, the key and the time; every call
    takes a millisecond; the random numbers are drawn from a list, then zero. *)

Record fixture := MkFixture {
  fx_get : client -> string -> Z -> res GetResponse;
  fx_put : client -> PutRequest -> Z -> res PutResponse;
  fx_now : Z;
  fx_floats : list spec_float;
  fx_ints : list Z
}.

Definition fx_advance (d : Z) (w : fixture) : fixture :=
  MkFixture (fx_get w) (fx_put w) (fx_now w + Z.max 0 d)%Z (fx_floats w) (fx_ints w).

#[export] Instance fixture_service : KVService fixture := {|
  client_Get c req w := (fx_advance 1000000 w, fx_get w c (GetReq_Key req) (fx_now w));
  client_Put c req w := (fx_advance 1000000 w, fx_put w c req (fx_now w));
  client_Delete c req w := (fx_advance 1000000 w, Ok (MkDeleteResponse None))
|}.

#[export] Instance fixture_time : Time fixture := {|
  time_Now w := (w, fx_now w);
  time_Sleep d w := fx_advance d w;
  ctx_wait d w := (fx_advance d w, None)
|}.

#[export] Instance fixture_laws : TimeLaws fixture.
Proof. refine {| time_of := fx_now |}; simpl; intros; lia. Defined.

#[export] Instance fixture_random : Random fixture := {|
  rand_Float64 w :=
    (MkFixture (fx_get w) (fx_put w) (fx_now w) (tail (fx_floats w)) (fx_ints w),
     hd (S754_zero false) (fx_floats w));
  rand_Intn n w :=
    (MkFixture (fx_get w) (fx_put w) (fx_now w) (fx_floats w) (tail (fx_ints w)),
     (hd 0%Z (fx_ints w) mod n)%Z)
|}.

#[export] Instance fixture_random_laws : RandomLaws fixture.
Proof. constructor; intros n w Hn; simpl; by apply Z.mod_pos_bound. Defined.

(** A formatting that is enough to look at results. *)
#[export] Instance plain_format : Format := {|
  fmt_float _ f := match f with S754_finite _ _ _ => "finite" | _ => "0" end;
  fmt_quote b := fmt_d (Z.of_nat (length b));
  fmt_duration d := fmt_d d
|}.
