(* ===== verification/World.v ===== *)
(** * A running cluster as the world of the tools

    A cluster of [Cluster.v] with a schedule, seen through the interfaces of
    [Env.v]: a client handle is a node, a call is the node's handler, and before
    each call of the tool, and while it waits, the rest of the cluster goes on as
    the schedule says: RPCs are delivered in any order and lost, and other clients
    call any node.  Nothing is assumed of ties here.  What the cluster's steps
    leave alone is stated for any step first, then for the schedule. *)

From S2P Require Import Prelude Hlc Store Buffer Wire Replication Server Cluster Env.

(** ** The world *)

Record deployed := MkDeployed {
  dp_cluster : cluster;
  dp_now : Z;                       (* the tool's clock *)
  dp_readings : list Z;             (* the readings of the nodes' clocks at its next writes *)
  dp_batches : list (list label)    (* what happens before its next calls and in its waits *)
}.

(** Steps that are not possible do not happen. *)
Definition happen (batch : list label) (c : cluster) : cluster :=
  foldl (fun c lb => default c (step lb c)) c batch.

Definition deployed_pause (d : Z) (w : deployed) : deployed :=
  MkDeployed (happen (hd [] (dp_batches w)) (dp_cluster w)) (dp_now w + Z.max 0 d)%Z
    (dp_readings w) (tl (dp_batches w)).

Definition errUnavailable : string := "rpc error: code = Unavailable".

Definition deployed_Get (i : client) (req : GetRequest) (w : deployed) : deployed * res GetResponse :=
  let w := deployed_pause 0 w in
  match nodes (dp_cluster w) !! i with
  | Some n =>
      let '(n', r) := Node_Get req n in
      (MkDeployed (MkCluster (<[i := n']> (nodes (dp_cluster w))) (net (dp_cluster w)))
         (dp_now w) (dp_readings w) (dp_batches w), r)
  | None => (w, Err errUnavailable)
  end.

Definition deployed_Put (i : client) (req : PutRequest) (w : deployed) : deployed * res PutResponse :=
  let w := deployed_pause 0 w in
  match nodes (dp_cluster w) !! i with
  | Some n =>
      let '(n', rpcs, r) := Node_Put (hd 1%Z (dp_readings w)) req [] n in
      (MkDeployed (MkCluster (<[i := n']> (nodes (dp_cluster w))) (net (dp_cluster w) ++ messages rpcs))
         (dp_now w) (tl (dp_readings w)) (dp_batches w), r)
  | None => (w, Err errUnavailable)
  end.

Definition deployed_Delete (i : client) (req : DeleteRequest) (w : deployed)
    : deployed * res DeleteResponse :=
  let w := deployed_pause 0 w in
  match nodes (dp_cluster w) !! i with
  | Some n =>
      let '(n', rpcs, r) := Node_Delete (hd 1%Z (dp_readings w)) req [] n in
      (MkDeployed (MkCluster (<[i := n']> (nodes (dp_cluster w))) (net (dp_cluster w) ++ messages rpcs))
         (dp_now w) (tl (dp_readings w)) (dp_batches w), r)
  | None => (w, Err errUnavailable)
  end.

#[export] Instance deployed_service : KVService deployed := {|
  client_Get := deployed_Get;
  client_Put := deployed_Put;
  client_Delete := deployed_Delete
|}.

#[export] Instance deployed_time : Time deployed := {|
  time_Now w := (w, dp_now w);
  time_Sleep := deployed_pause;
  ctx_wait d w := (deployed_pause d w, None)
|}.

#[export] Instance deployed_laws : TimeLaws deployed.
Proof.
  refine {| time_of := dp_now |}; simpl; intros; try lia.
  - unfold deployed_Get; destruct (_ !! _) as [n|]; [destruct (Node_Get _ _)|]; simpl; lia.
  - unfold deployed_Put; destruct (_ !! _) as [n|]; [destruct (Node_Put _ _ _ _) as [[? ?] ?]|]; simpl; lia.
  - unfold deployed_Delete; destruct (_ !! _) as [n|]; [destruct (Node_Delete _ _ _ _) as [[? ?] ?]|];
      simpl; lia.
Defined.

(** ** Steps *)

(** The clock reading of a step is an int64 from the epoch on. *)
Definition label_timed (lb : label) : bool :=
  match label_now lb with Some now => reading_ok now | None => true end.

(** The key a step writes, and where. *)
Definition label_key (lb : label) : option string :=
  match label_write lb with Some (_, key, _, _) => Some key | None => None end.

Definition label_origin (lb : label) : option nat :=
  match label_write lb with Some (i, _, _, _) => Some i | None => None end.

Record node_ok (mode : string) (n : Node AnyHandler) : Prop := {
  no_mode : Node_Mode n = mode;
  no_handler : exists peers opts, NewHandler mode peers opts = Some (Node_Handler n);
  no_clock : clock_wf (Node_Clock n);
  no_buffer : mode = "causal" -> is_Some (active_buffer n);
  no_tracker : mode = "causal" -> is_Some (active_tracker n)
}.

Record req_ok (req : ReplicateRequest) (pts : repb_HLCTimestamp) : Prop := {
  rq_ts : RR_Timestamp req = Some pts;
  rq_wall : in_int64 (repb_WallTime pts);
  rq_logical : (0 <= repb_Logical pts <= maxLogical)%Z
}.

Record cluster_ok (mode : string) (N : nat) (c : cluster) : Prop := {
  co_length : length (nodes c) = N;
  co_nodes : forall i n, nodes c !! i = Some n -> node_ok mode n;
  co_net : Forall (fun m => exists pts, req_ok (snd m) pts) (net c)
}.

(** A local write, and the messages it sends. *)
Record wrote (mode : string) (n : Node AnyHandler) (w : write) (n' : Node AnyHandler)
    (msgs : list (peer * ReplicateRequest)) : Prop := {
  wr_store : Node_Store n' = <[write_key w := write_stored w]> (Node_Store n);
  wr_held : held n' = held n;
  wr_deps : write_deps w = pending_deps n;
  wr_pending : pending_deps n' = [];
  wr_later : ts_lt (Clock_Now (Node_Clock n)) (write_ts w);
  wr_clock : Clock_Now (Node_Clock n') = write_ts w;
  wr_count : (Clock_c (Node_Clock n') <= Clock_c (Node_Clock n) + 1)%Z;
  wr_typed : in_int64 (WallTime (write_ts w)) /\ (0 <= Logical (write_ts w) <= maxLogical)%Z;
  wr_msgs : forall p req, (p, req) ∈ msgs -> exists deps,
    req = buildReplicateRequest (write_key w) (write_val w) deps /\
    (mode = "causal" -> deps = write_deps w)
}.

(** A delivery: the writes it applies, the new one or held ones. *)
Record received (n : Node AnyHandler) (w : write) (n' : Node AnyHandler) (ws : list write) : Prop := {
  rc_store : Node_Store n' = apply_writes (Node_Store n) ws;
  rc_held : ws ++ held n' ≡ₚ held n ++ [w];
  rc_causal : is_Some (active_buffer n) -> causal_run (Node_Store n) ws (Node_Store n');
  rc_clock : ts_lt (Clock_Now (Node_Clock n)) (Clock_Now (Node_Clock n'));
  rc_count : (Clock_c (Node_Clock n') <= Z.max (Clock_c (Node_Clock n)) (Logical (write_ts w)) + 1)%Z;
  rc_pending : pending_deps n' = pending_deps n
}.

(** What a step does. *)
Inductive happened (mode : string) (lb : label) (c c' : cluster) : Prop :=
| hp_write i n w n' msgs :
    label_write lb = Some (i, write_key w, Value_Data (write_val w), Value_Deleted (write_val w)) ->
    nodes c !! i = Some n -> wrote mode n w n' msgs ->
    c' = MkCluster (<[i := n']> (nodes c)) (net c ++ msgs) -> happened mode lb c c'
| hp_read i n key :
    nodes c !! i = Some n ->
    c' = MkCluster (<[i := fst (Node_Get (MkGetRequest key) n)]> (nodes c)) (net c) ->
    happened mode lb c c'
| hp_deliver m i req pts n n' ws :
    net c !! m = Some (i, req) -> req_ok req pts -> nodes c !! i = Some n ->
    received n (request_write req pts) n' ws ->
    c' = MkCluster (<[i := n']> (nodes c)) (delete m (net c)) -> happened mode lb c c'
| hp_net msgs :
    c' = MkCluster (nodes c) msgs -> (forall m, m ∈ msgs -> m ∈ net c) -> happened mode lb c c'.

(** ** One handler *)

Lemma Clock_Send_counter now clk clk' ts :
  (0 <= Clock_c clk <= maxLogical)%Z -> Clock_Send now clk = (clk', Ok ts) ->
  (Clock_c clk' <= Clock_c clk + 1)%Z.
Proof.
  intros Hc; unfold Clock_Send; destruct (_ =? _)%Z; [destruct (Z.leb_spec maxLogical (Clock_c clk)); [done|]|];
    intros [= <- _]; simpl; [rewrite int32_succ|]; lia.
Qed.

Lemma Clock_Receive_counter now msg clk clk' ts :
  (0 <= Clock_c clk <= maxLogical)%Z -> Clock_Receive now msg clk = (clk', Ok ts) ->
  (Clock_c clk' <= Z.max (Clock_c clk) (Logical msg) + 1)%Z.
Proof.
  intros Hc; unfold Clock_Receive; destruct (Z.ltb_spec (Logical msg) 0); [done|].
  destruct (_ =? Clock_l clk)%Z; [destruct (Z.leb_spec maxLogical (Clock_c clk)); [done|]|
    destruct (_ =? WallTime msg)%Z; [destruct (Z.leb_spec maxLogical (Logical msg)); [done|]|]];
    intros [= <- _]; simpl; rewrite ?int32_succ by lia; lia.
Qed.

Section handlers.
Context (mode : string) (Ha : async mode).
Implicit Types (n : Node AnyHandler).

Lemma async_not_strong n : node_ok mode n -> String.eqb (Node_Mode n) "strong" = false.
Proof. intros Hn; rewrite (no_mode _ _ Hn); by destruct Ha as [->| ->]. Qed.

(** The handler never fails, and sends the write to its peers. *)
Lemma node_ok_OnWrite n key val :
  node_ok mode n ->
  snd (OnWrite (Node_Handler n) key val []) = None /\
  forall p req, (p, req) ∈ messages (fst (OnWrite (Node_Handler n) key val [])) -> exists deps,
    req = buildReplicateRequest key val deps /\ (mode = "causal" -> deps = Value_Deps val).
Proof.
  intros Hn; destruct (no_handler _ _ Hn) as (peers & opts & Hh); split.
  { by destruct Ha as [->| ->]; injection Hh as <-. }
  intros p req; unfold messages; rewrite list_elem_of_In, in_map_iff.
  intros (o & [= <- <-] & Ho); apply list_elem_of_In in Ho.
  destruct Ha as [->| ->]; injection Hh as Hh; rewrite <- Hh in Ho; simpl in Ho; apply sends_req in Ho as ->; by eexists.
Qed.

Lemma node_write_wrote now key data del n n' rpcs r :
  node_ok mode n -> reading_ok now = true -> node_write now key data del [] n = (n', rpcs, r) ->
  (r = Err errOverflow /\ n' = n /\ rpcs = [] /\ Clock_c (Node_Clock n) = maxLogical) \/
  exists ts, r = Ok ts /\ node_ok mode n' /\ (now <= WallTime ts)%Z /\
    wrote mode n (MkWrite key (MkValue data ts (pending_deps n) del)) n' (messages rpcs).
Proof.
  intros Hn [Hnow _]%reading_ok_spec Hw; pose proof (no_clock _ _ Hn) as Hwf.
  pose proof (node_write_refused _ _ _ _ _ _ _ _ _ Hwf Hw) as Hr.
  destruct ((_ <=? _) && _)%Z eqn:Hfull.
  { left; destruct Hr as (-> & -> & ->); split_and!; try done.
    destruct Hwf as [_ ?]; bool_facts; lia. }
  right; pose proof (node_write_tracker now key data del [] n) as Htr; rewrite Hw in Htr; cbn [fst] in Htr.
  pose proof (fun clk ts => Clock_Send_counter now (Node_Clock n) clk ts (wf_c _ Hwf)) as Hcount.
  assert (Hck : fst (Clock_Send now (Node_Clock n)) = Node_Clock n').
  { revert Hw; unfold node_write; destruct (Clock_Send _ _) as [clk [ts|e]]; [|done].
    pose proof (take_deps_fst (with_clock clk n)) as (_ & Hc & _).
    destruct (take_deps _) as [n1 deps]; simpl in Hc; destruct (OnWrite _ _ _ _) as [? [?|]]; intros; simplify_eq/=;
      [by destruct (String.eqb _ _)|done]. }
  destruct (Clock_Send now (Node_Clock n)) as [clk [ts0|]] eqn:Hs; [|done]; simpl in Hck; subst clk.
  specialize (Hcount _ _ eq_refl).
  apply node_write_done in Hw as (ts & Hlt & Hwall & Hts & Hlog & Hm & Hh & Hb & Hp & -> & Hres);
    [|done|by rewrite Hs].
  destruct (node_ok_OnWrite n key (MkValue data ts (pending_deps n) del) Hn) as [Hok Hmsgs].
  cbn [write_val] in *; rewrite Hok in Hres; destruct Hres as [-> Hst]; exists ts; split; [done|].
  assert (Hty : in_int64 (WallTime ts)) by (rewrite Hwall; destruct Hwf; unfold in_int64 in *; lia).
  split; [|split; [lia|]].
  - split; [by rewrite Hm, (no_mode _ _ Hn)|setoid_rewrite Hh; apply Hn| | |].
    + rewrite Hts in Hty, Hlog; by split.
    + intros Hc; rewrite (active_buffer_frame n n') by done; by apply Hn.
    + intros Hc; by apply Htr, Hn.
  - split; try done. unfold held; by rewrite (active_buffer_frame n n').
Qed.

Lemma Node_Replicate_ok now req pts n n' r :
  node_ok mode n -> reading_ok now = true -> req_ok req pts -> Node_Replicate now req n = (n', r) ->
  n' = n \/ (node_ok mode n' /\ exists ws, received n (request_write req pts) n' ws).
Proof.
  intros Hn [Hnow _]%reading_ok_spec Hq Hr; pose proof (no_clock _ _ Hn) as Hwf.
  pose proof (Node_Replicate_spec now req pts n Hwf (rq_ts _ _ Hq) (proj2 (rq_logical _ _ Hq))) as Hspec.
  rewrite Hr in Hspec; destruct Hspec as (Hmo & Hh & Ht & Hspec).
  pose proof (clock_step_view (Node_Clock n) (EvReceive now (fromProtoTS pts)) Hwf) as Hv.
  pose proof (clock_step_wf (Node_Clock n) (EvReceive now (fromProtoTS pts))) as Hwf'.
  assert (Hty : event_typed (EvReceive now (fromProtoTS pts))).
  { destruct Hq; repeat split; unfold in_int64, in_int32, maxLogical in *; simpl; lia. }
  pose proof (fun clk t => Clock_Receive_counter now (fromProtoTS pts) (Node_Clock n) clk t (wf_c _ Hwf)) as Hcount.
  simpl in Hv, Hwf'; destruct (Clock_Receive _ _ _) as [clk [t|e]]; [right|left; by destruct Hspec].
  specialize (Hv Hty) as [[Hnowt Hlater _ _ _] _]; specialize (Hwf' _ _ Hwf Hty eq_refl).
  specialize (Hcount _ _ eq_refl); destruct Hspec as [Hck Hspec]; rewrite <- Hck in *; subst t.
  assert (Hpend : pending_deps n' = pending_deps n).
  { rewrite !pending_deps_alt; unfold active_tracker; by rewrite Hmo, Ht. }
  assert (Hok : (is_Some (active_buffer n) -> is_Some (active_buffer n')) -> node_ok mode n').
  { intros Hb; split; [rewrite Hmo; apply Hn|setoid_rewrite Hh; apply Hn|done| |].
    - intros Hc; by apply Hb, Hn.
    - intros Hc; unfold active_tracker; rewrite Hmo, Ht; by apply (no_tracker _ _ Hn). }
  destruct (active_buffer n) as [b|] eqn:Hb.
  - destruct (Buffer_Receive _ _ _ b) as [[s b'] now'] eqn:Hrecv; destruct Hspec as (Hst & Hb' & _).
    assert (Hab' : active_buffer n' = Some b').
    { unfold active_buffer in *; rewrite Hmo, Hb'; by destruct (String.eqb _ _). }
    split; [apply Hok; by rewrite Hab'|].
    apply Buffer_Receive_spec in Hrecv as (ws & Hrun & Hperm & _).
    exists ws; split; unfold held; rewrite ?Hab', ?Hb, ?Hst; try done; by apply causal_run_apply.
  - destruct Hspec as (Hst & Hb' & _).
    assert (Hab' : active_buffer n' = None) by (by rewrite (active_buffer_frame n n')).
    split; [apply Hok; by intros []|].
    exists [request_write req pts]; split; unfold held; rewrite ?Hab', ?Hb, ?Hst; try done; by intros [].
Qed.

Lemma Node_Get_ok key n :
  node_ok mode n ->
  let n' := fst (Node_Get (MkGetRequest key) n) in
  node_ok mode n' /\ Node_Store n' = Node_Store n /\ held n' = held n /\ Node_Clock n' = Node_Clock n.
Proof.
  intros Hn; pose proof (Node_Get_deps key n) as (_ & Hm & Hh & Htr & _).
  pose proof (Node_Get_frame (MkGetRequest key) n) as (Hst & Hc & Hb); cbn zeta.
  pose proof (active_buffer_frame _ _ Hb Hm) as Hab; unfold held; rewrite Hab; split; [|done].
  split; [rewrite Hm; apply Hn|setoid_rewrite Hh; apply Hn|rewrite Hc; apply Hn|rewrite Hab; apply Hn|].
  intros Hca; by apply Htr, Hn.
Qed.

(** ** One step of a cluster *)

Lemma cluster_ok_insert N c i n n' msgs :
  cluster_ok mode N c -> nodes c !! i = Some n -> node_ok mode n' ->
  Forall (fun m => exists pts, req_ok (snd m) pts) msgs ->
  cluster_ok mode N (MkCluster (<[i := n']> (nodes c)) msgs).
Proof.
  intros [Hl Hn _] Hi Hok Hm; split; simpl; [by rewrite length_insert| |done].
  intros j m [[<- <-]|[_ ?]]%insert_lookup_cases; eauto.
Qed.

Lemma write_happened N c i n now key data del lb n' rpcs r :
  cluster_ok mode N c -> nodes c !! i = Some n -> reading_ok now = true ->
  label_write lb = Some (i, key, data, del) -> node_write now key data del [] n = (n', rpcs, r) ->
  let c' := MkCluster (<[i := n']> (nodes c)) (net c ++ messages rpcs) in
  cluster_ok mode N c' /\ happened mode lb c c'.
Proof.
  intros Hc Hi Hnow Hlb Hw; cbn zeta.
  destruct (node_write_wrote _ _ _ _ _ _ _ _ (co_nodes _ _ _ Hc _ _ Hi) Hnow Hw)
    as [(_ & -> & -> & _)|(ts & _ & Hn' & _ & Hwr)].
  - unfold messages; simpl; rewrite app_nil_r, list_insert_id by done; split; [by destruct c|].
    by eapply hp_net.
  - split; [|eapply (hp_write _ _ _ _ i n (MkWrite key (MkValue data ts _ del))); [exact Hlb|done|exact Hwr|done]].
    eapply cluster_ok_insert; [done..|]; apply Forall_app; split; [apply Hc|].
    apply Forall_forall; intros [p req] Hm; destruct (wr_msgs _ _ _ _ _ Hwr _ _ Hm) as (deps & -> & _).
    destruct (wr_typed _ _ _ _ _ Hwr) as [? ?]; exists (toReplicateTS ts); by split.
Qed.

Lemma step_happened N lb c c' :
  cluster_ok mode N c -> label_timed lb = true -> step lb c = Some c' ->
  cluster_ok mode N c' /\ happened mode lb c c'.
Proof.
  intros Hc Hlb; destruct lb as [i now req|i req|i now req|m now|m]; simpl;
    intros Hstep; apply bind_Some in Hstep as (x & Hx & Hstep).
  - rewrite Node_Put_write in Hstep.
    destruct (node_write _ _ _ _ _ _) as [[n' rpcs] r] eqn:Hw; simplify_eq.
    exact (write_happened _ _ _ _ _ _ _ _ (LPut i now req) _ _ _ Hc Hx Hlb eq_refl Hw).
  - destruct (Node_Get_ok (GetReq_Key req) _ (co_nodes _ _ _ Hc _ _ Hx)) as [Hn _].
    destruct req as [key]; simpl in Hn; destruct (Node_Get _ x) as [n' r] eqn:Hg; simplify_eq.
    split; [eapply cluster_ok_insert; [done..|apply Hc]|].
    eapply hp_read; [done|]; by rewrite Hg.
  - rewrite Node_Delete_write in Hstep.
    destruct (node_write _ _ _ _ _ _) as [[n' rpcs] r] eqn:Hw; simplify_eq.
    exact (write_happened _ _ _ _ _ _ _ _ (LDelete i now req) _ _ _ Hc Hx Hlb eq_refl Hw).
  - apply bind_Some in Hstep as (n & Hn & Hstep); destruct x as [i req]; simpl in *.
    destruct (Node_Replicate now req n) as [n' r] eqn:Hr; simplify_eq.
    assert (Hnet : Forall (fun m => exists pts, req_ok (snd m) pts) (delete m (net c))) by apply Forall_delete, Hc.
    destruct (proj1 (Forall_lookup _ _) (co_net _ _ _ Hc) _ _ Hx) as [pts Hq].
    destruct (Node_Replicate_ok _ _ _ _ _ _ (co_nodes _ _ _ Hc _ _ Hn) Hlb Hq Hr) as [->|[Hn' (ws & Hws)]].
    + rewrite list_insert_id by done; split; [destruct Hc; by split|].
      eapply hp_net; [done|]; intros y Hy; by eapply list_elem_of_delete_inv.
    + split; [by eapply cluster_ok_insert|]; by eapply hp_deliver.
  - simplify_eq; split; [destruct Hc; split; try done; by apply Forall_delete|].
    eapply hp_net; [done|]; intros y Hy; by eapply list_elem_of_delete_inv.
Qed.

End handlers.

(** ** What a step leaves alone *)

(** No version of [key] later than [t] is on its way to node [i] or held there. *)
Record none_later (i : nat) (key : string) (t : Timestamp) (c : cluster) : Prop := {
  nl_net : forall req pts, (i, req) ∈ net c -> RR_Key req = key -> RR_Timestamp req = Some pts ->
    ts_le (fromProtoTS pts) t;
  nl_held : forall n w, nodes c !! i = Some n -> w ∈ held n -> write_key w = key -> ts_le (write_ts w) t
}.

(** None is later than the node's clock. *)
Definition quiet (i : nat) (key : string) (c : cluster) : Prop :=
  forall n, nodes c !! i = Some n -> none_later i key (Clock_Now (Node_Clock n)) c.

(** Node [i] stores [v], which nothing on its way replaces. *)
Definition keeps (i : nat) (key : string) (v : Value) (c : cluster) : Prop :=
  (exists n, nodes c !! i = Some n /\ Node_Store n !! key = Some v) /\
  none_later i key (Value_Timestamp v) c.

(** All logical counters, in clocks and in flight, are at most [b]. *)
Definition counters_to (b : Z) (c : cluster) : Prop :=
  (forall i n, nodes c !! i = Some n -> (Clock_c (Node_Clock n) <= b)%Z) /\
  (forall p req pts, (p, req) ∈ net c -> RR_Timestamp req = Some pts -> (repb_Logical pts <= b)%Z).

Lemma none_later_le i key t t' c : none_later i key t c -> ts_le t t' -> none_later i key t' c.
Proof. intros [Hn Hh] Ht; split; intros; (etrans; [|exact Ht]); eauto. Qed.

Lemma apply_writes_keep key v ws s :
  s !! key = Some v -> (forall w, w ∈ ws -> write_key w = key -> ts_le (write_ts w) (Value_Timestamp v)) ->
  apply_writes s ws !! key = Some v.
Proof.
  induction ws as [|w ws IH] using rev_ind; intros Hv Hws; [done|].
  rewrite apply_writes_snoc, apply_write_lookup.
  assert (Hkeep : apply_writes s ws !! key = Some v)
    by (apply IH; [done|intros w' Hw'; apply Hws, elem_of_app; by left]).
  case_decide as Hk; [|done]; rewrite Hkeep; unfold lww; rewrite write_stored_ts, decide_True; [done|].
  apply Hws; [apply elem_of_app; right; left|done].
Qed.

(** The writes of a delivery were held or are the one that arrives. *)
Lemma received_from n w n' ws w' : received n w n' ws -> w' ∈ ws \/ w' ∈ held n' -> w' ∈ held n \/ w' = w.
Proof.
  intros Hr Hw; apply elem_of_app in Hw; rewrite (rc_held _ _ _ _ Hr), elem_of_app in Hw.
  by rewrite list_elem_of_singleton in Hw.
Qed.

Section step.
Context (mode : string) (lb : label) (c c' : cluster).
Context (Hh : happened mode lb c c').

(** Nodes stay; their clocks do not go back. *)
Lemma happened_node i n : nodes c !! i = Some n ->
  exists n', nodes c' !! i = Some n' /\ ts_le (Clock_Now (Node_Clock n)) (Clock_Now (Node_Clock n')).
Proof.
  assert (Hput : forall j x x' msgs, nodes c !! j = Some x -> nodes c !! i = Some n ->
    ts_le (Clock_Now (Node_Clock x)) (Clock_Now (Node_Clock x')) -> c' = MkCluster (<[j := x']> (nodes c)) msgs ->
    exists n', nodes c' !! i = Some n' /\ ts_le (Clock_Now (Node_Clock n)) (Clock_Now (Node_Clock n'))).
  { intros j x x' msgs Hj Hi Hle ->; simpl; destruct (decide (j = i)) as [->|Hne].
    - exists x'; rewrite list_lookup_insert_eq by (by eapply lookup_lt_Some); by simplify_eq.
    - exists n; rewrite list_lookup_insert_ne by done; split; [done|by left]. }
  intros Hi; destruct Hh as [j x w x' msgs _ Hj Hw Hc|j x key Hj Hc|m j req pts x x' ws _ _ Hj Hr Hc|msgs Hc _].
  - eapply Hput; [exact Hj|done| |exact Hc]; right; rewrite (wr_clock _ _ _ _ _ Hw); apply (wr_later _ _ _ _ _ Hw).
  - eapply Hput; [exact Hj|done| |exact Hc]; left; by rewrite (proj1 (proj2 (Node_Get_frame _ x))).
  - eapply Hput; [exact Hj|done| |exact Hc]; right; apply (rc_clock _ _ _ _ Hr).
  - exists n; rewrite Hc; split; [done|by left].
Qed.

Lemma held_get key (n : Node AnyHandler) : held (fst (Node_Get (MkGetRequest key) n)) = held n.
Proof.
  pose proof (Node_Get_deps key n) as (_ & Hm & _); pose proof (Node_Get_frame (MkGetRequest key) n) as (_ & _ & Hb).
  unfold held; by rewrite (active_buffer_frame n).
Qed.

(** Messages and held writes come from the step's own write or from before. *)
Lemma happened_net p req : (p, req) ∈ net c' -> (p, req) ∈ net c \/
  exists i n w n' msgs, label_key lb = Some (write_key w) /\ label_origin lb = Some i /\
    nodes c !! i = Some n /\ wrote mode n w n' msgs /\ nodes c' !! i = Some n' /\ (p, req) ∈ msgs.
Proof.
  destruct Hh as [i n w n' msgs Hlb Hi Hw Hc|i n key _ Hc|m i rq pts n n' ws _ _ _ _ Hc|msgs Hc Hin];
    rewrite Hc; simpl; [|by left|intros Hr; left; by eapply list_elem_of_delete_inv|left; auto].
  intros [Hr|Hr]%elem_of_app; [by left|right]; exists i, n, w, n', msgs.
  unfold label_key, label_origin; rewrite Hlb; split_and!; try done.
  apply list_lookup_insert_eq; by eapply lookup_lt_Some.
Qed.

Lemma happened_held i n' w : nodes c' !! i = Some n' -> w ∈ held n' ->
  exists n, nodes c !! i = Some n /\
    (w ∈ held n \/ exists req pts, (i, req) ∈ net c /\ req_ok req pts /\ w = request_write req pts).
Proof.
  destruct Hh as [j x w0 x' msgs _ Hj Hw Hc|j x key Hj Hc|m j req pts x x' ws Hm Hq Hj Hr Hc|msgs Hc _];
    rewrite Hc; simpl; [| | |by exists n'; auto].
  - intros [[<- <-]|[_ Hi]]%insert_lookup_cases Hin; [|by exists n'; auto].
    exists x; split; [done|left]; by rewrite <- (wr_held _ _ _ _ _ Hw).
  - intros [[<- <-]|[_ Hi]]%insert_lookup_cases Hin; [|by exists n'; auto].
    exists x; split; [done|left]; by rewrite held_get in Hin.
  - intros [[<- <-]|[_ Hi]]%insert_lookup_cases Hin; [|by exists n'; auto].
    exists x; split; [done|]; destruct (received_from _ _ _ _ w Hr (or_intror Hin)) as [?| ->]; [by left|right].
    exists req, pts; split_and!; try done; by eapply list_elem_of_lookup_2.
Qed.

Lemma happened_none_later i key t :
  label_key lb <> Some key -> none_later i key t c -> none_later i key t c'.
Proof.
  intros Hlb [Hn Hhd]; split.
  - intros req pts [Hr|(j & n & w & n' & msgs & Hk & _ & _ & Hw & _ & Hr)]%happened_net Hkey Hpts; [by eapply Hn|].
    destruct (wr_msgs _ _ _ _ _ Hw _ _ Hr) as (deps & -> & _); simpl in Hkey; congruence.
  - intros n' w Hn' Hw Hk; destruct (happened_held _ _ _ Hn' Hw) as (n & Hi & [?|(req & pts & Hr & Hq & ->)]);
      [by eapply Hhd|]; eapply Hn; [exact Hr|exact Hk|apply Hq].
Qed.

Lemma happened_keeps i key v : label_key lb <> Some key -> keeps i key v c -> keeps i key v c'.
Proof.
  intros Hlb [(n & Hi & Hv) Hnl]; split; [|by apply happened_none_later].
  destruct Hh as [j x w x' msgs Hw Hj Hwr Hc|j x k Hj Hc|m j req pts x x' ws Hm Hq Hj Hr Hc|msgs Hc _];
    rewrite Hc; simpl; [| | |by exists n]; destruct (decide (j = i)) as [->|Hne];
    try (exists n; rewrite list_lookup_insert_ne by done; done); simplify_eq;
    (eexists; split; [apply list_lookup_insert_eq; by eapply lookup_lt_Some|]).
  - rewrite (wr_store _ _ _ _ _ Hwr), lookup_insert_ne; [done|].
    unfold label_key in Hlb; rewrite Hw in Hlb; congruence.
  - by rewrite (proj1 (Node_Get_frame _ n)).
  - rewrite (rc_store _ _ _ _ Hr); apply apply_writes_keep; [done|]; intros w Hw Hk.
    destruct (received_from _ _ _ _ w Hr (or_introl Hw)) as [?| ->]; [by eapply Hnl|].
    eapply (nl_net _ _ _ _ Hnl); [by eapply list_elem_of_lookup_2|exact Hk|apply Hq].
Qed.

(** Other nodes do not write the key. *)
Lemma happened_quiet i key :
  (label_key lb = Some key -> label_origin lb = Some i) -> quiet i key c -> quiet i key c'.
Proof.
  intros Hlb Hq n' Hn'; destruct (nodes c !! i) as [n|] eqn:Hi.
  2: { destruct Hh as [j x w x' msgs _ Hj _ Hc|j x k Hj Hc|m j req pts x x' ws _ _ Hj _ Hc|msgs Hc _];
         rewrite Hc in Hn'; simpl in Hn'; try (apply insert_lookup_cases in Hn' as [[<- <-]|[_ Hn']]); congruence. }
  destruct (happened_node _ _ Hi) as (x & Hx & Hle); rewrite Hn' in Hx; injection Hx as <-.
  pose proof (Hq _ Hi) as [Hnet Hhd]; split.
  - intros req pts [Hr|(j & y & w & y' & msgs & Hk & Ho & Hj & Hw & Hy' & Hr)]%happened_net Hkey Hpts;
      [etrans; [by eapply Hnet|done]|].
    destruct (wr_msgs _ _ _ _ _ Hw _ _ Hr) as (deps & -> & _); simpl in Hkey, Hpts.
    rewrite Hk, <- Hkey in Hlb; specialize (Hlb eq_refl); rewrite Ho in Hlb; simplify_eq.
    left; rewrite fromProto_toReplicateTS; symmetry; by apply (wr_clock _ _ _ _ _ Hw).
  - intros m w Hm Hw Hk; rewrite Hn' in Hm; injection Hm as <-; etrans; [|exact Hle].
    destruct (happened_held _ _ _ Hn' Hw) as (y & Hy & [?|(req & pts & Hr & Hrq & ->)]); [by simplify_eq; eapply Hhd|].
    eapply Hnet; [exact Hr|exact Hk|apply Hrq].
Qed.

Lemma happened_counters N b : cluster_ok mode N c -> counters_to b c -> counters_to (b + 1) c'.
Proof.
  intros Hok [Hcn Hcm]; split.
  - assert (Hput : forall j x msgs, c' = MkCluster (<[j := x]> (nodes c)) msgs -> (Clock_c (Node_Clock x) <= b + 1)%Z ->
      forall i n, nodes c' !! i = Some n -> (Clock_c (Node_Clock n) <= b + 1)%Z).
    { intros j x msgs -> Hle i n [[<- <-]|[_ Hi]]%insert_lookup_cases; [done|specialize (Hcn _ _ Hi); lia]. }
    destruct Hh as [j x w x' msgs _ Hj Hw Hc|j x key Hj Hc|m j req pts x x' ws Hm Hq Hj Hr Hc|msgs Hc _].
    + eapply Hput; [exact Hc|]; pose proof (wr_count _ _ _ _ _ Hw); specialize (Hcn _ _ Hj); lia.
    + eapply Hput; [exact Hc|]; rewrite (proj1 (proj2 (Node_Get_frame _ x))); specialize (Hcn _ _ Hj); lia.
    + eapply Hput; [exact Hc|]; pose proof (rc_count _ _ _ _ Hr) as Hle; specialize (Hcn _ _ Hj).
      pose proof (Hcm j req pts ltac:(by eapply list_elem_of_lookup_2) (rq_ts _ _ Hq)); simpl in Hle; lia.
    + rewrite Hc; intros i n Hi; specialize (Hcn _ _ Hi); lia.
  - intros p req pts [Hr|(j & n & w & n' & msgs & _ & _ & Hj & Hw & _ & Hr)]%happened_net Hpts;
      [specialize (Hcm _ _ _ Hr Hpts); lia|].
    destruct (wr_msgs _ _ _ _ _ Hw _ _ Hr) as (deps & -> & _); simpl in Hpts; simplify_eq; simpl.
    pose proof (wr_clock _ _ _ _ _ Hw) as Hck; unfold write_ts in Hck; rewrite <- Hck; simpl.
    pose proof (wr_count _ _ _ _ _ Hw); specialize (Hcn _ _ Hj); lia.
Qed.

End step.

(** ** The schedule *)

(** A step of the schedule that writes none of the [keys]. *)
Definition apart (keys : string -> Prop) (lb : label) : Prop :=
  label_timed lb = true /\ forall key, label_key lb = Some key -> ~ keys key.

(** The steps the schedule still has. *)
Definition steps_left (w : deployed) : Z := Z.of_nat (length (concat (dp_batches w))).

(** A tool that works at node [i] and alone writes the [keys], with room in the
    counters for [k] more writes of its own and for the rest of the schedule. *)
Record runs (mode : string) (N i : nat) (keys : string -> Prop) (k : Z) (w : deployed) : Prop := {
  rn_ok : cluster_ok mode N (dp_cluster w);
  rn_node : i < N;
  rn_quiet : forall key, keys key -> quiet i key (dp_cluster w);
  rn_readings : Forall (fun now => reading_ok now = true) (dp_readings w);
  rn_batches : Forall (Forall (apart keys)) (dp_batches w);
  rn_room : counters_to (maxLogical - k - steps_left w) (dp_cluster w)
}.

Lemma counters_to_le b b' c : (b <= b')%Z -> counters_to b c -> counters_to b' c.
Proof.
  intros Hb [Hn Hm]; split; [intros i n Hi; specialize (Hn _ _ Hi); lia|].
  intros p req pts Hr Hp; specialize (Hm _ _ _ Hr Hp); lia.
Qed.

Section schedule.
Context (mode : string) (Ha : async mode) (N i : nat) (keys : string -> Prop).
Implicit Types (w : deployed).

(** Some steps of the schedule. *)
Lemma happen_runs batch c b :
  cluster_ok mode N c -> Forall (apart keys) batch -> counters_to b c ->
  let c' := happen batch c in
  cluster_ok mode N c' /\ counters_to (b + Z.of_nat (length batch)) c' /\
  (forall key, keys key -> quiet i key c -> quiet i key c') /\
  (forall key v, keys key -> keeps i key v c -> keeps i key v c').
Proof.
  intros Hc Hb; revert b c Hc; induction Hb as [|lb batch [Ht Hk] _ IH]; intros b c Hc Hcount; cbn zeta.
  { simpl; rewrite Z.add_0_r; split_and!; auto. }
  cbn [happen foldl length]; fold (happen batch (default c (step lb c))).
  replace (b + Z.of_nat (S (length batch)))%Z with (b + 1 + Z.of_nat (length batch))%Z by lia.
  destruct (step lb c) as [c1|] eqn:Hs; cbn [default].
  2: { destruct (IH (b + 1)%Z c Hc) as (? & ? & ? & ?); [by eapply counters_to_le; [|exact Hcount]; lia|]; by split_and!. }
  destruct (step_happened mode Ha N lb c c1 Hc Ht Hs) as [Hc1 Hh].
  destruct (IH (b + 1)%Z c1 Hc1) as (? & ? & Hq & Hkp); [by eapply happened_counters|]; split_and!; [done..| |].
  - intros key Hkey Hqu; apply Hq; [done|]; eapply happened_quiet; [done|by intros ?%Hk|done].
  - intros key v Hkey Hks; apply Hkp; [done|]; eapply happened_keeps; [done|by intros ?%Hk|done].
Qed.

Lemma pause_runs d k w :
  runs mode N i keys k w ->
  runs mode N i keys k (deployed_pause d w) /\
  forall key v, keys key -> keeps i key v (dp_cluster w) -> keeps i key v (dp_cluster (deployed_pause d w)).
Proof.
  intros [Hok Hi Hq Hr Hb Hroom].
  assert (Hhd : Forall (apart keys) (hd [] (dp_batches w)) /\ Forall (Forall (apart keys)) (tl (dp_batches w)) /\
    steps_left w = (Z.of_nat (length (hd [] (dp_batches w))) + steps_left (deployed_pause d w))%Z).
  { unfold steps_left, deployed_pause; cbn [dp_batches]; destruct Hb; simpl; [done|].
    rewrite length_app; split_and!; [done..|lia]. }
  destruct Hhd as (Hhd & Htl & Hlen).
  destruct (happen_runs _ _ _ Hok Hhd Hroom) as (Hok' & Hroom' & Hq' & Hk'); split; [|exact Hk'].
  split; try done; [intros key Hkey; apply Hq'; [done|by apply Hq]|].
  eapply counters_to_le; [|exact Hroom']; lia.
Qed.

(** A read of a key the tool has written, or of any. *)
Lemma get_runs k key w :
  runs mode N i keys k w ->
  exists w' resp, client_Get i (MkGetRequest key) w = (w', Ok resp) /\ runs mode N i keys k w' /\
    (forall key' v, keys key' -> keeps i key' v (dp_cluster w) -> keeps i key' v (dp_cluster w')) /\
    (forall v, keys key -> keeps i key v (dp_cluster w) ->
       GetResp_Found resp = negb (Value_Deleted v) /\
       (Value_Deleted v = false -> GetResp_Value resp = Value_Data v)).
Proof.
  intros Hw; destruct (pause_runs 0 k w Hw) as [Hw1 Hk1]; simpl; unfold deployed_Get.
  revert Hw1 Hk1; generalize (deployed_pause 0 w); intros w1 [Hok Hi Hq Hr Hb Hroom] Hk1; cbn zeta.
  destruct (lookup_lt_is_Some_2 (nodes (dp_cluster w1)) i) as [n Hn]; [by rewrite (co_length _ _ _ Hok)|]; rewrite Hn.
  pose proof (Node_Get_spec (MkGetRequest key) n) as Hsp.
  set (lb := LGet i (MkGetRequest key)).
  set (c' := MkCluster (<[i := fst (Node_Get (MkGetRequest key) n)]> (nodes (dp_cluster w1))) (net (dp_cluster w1))).
  assert (Hh : happened mode lb (dp_cluster w1) c') by (by eapply hp_read).
  assert (Hok' : cluster_ok mode N c').
  { eapply cluster_ok_insert; [done|done| |apply Hok]; by apply Node_Get_ok, (co_nodes _ _ _ Hok i). }
  assert (Hroom' : counters_to (maxLogical - k - steps_left w1) c').
  { destruct Hroom as [Hcn Hcm]; split; [|exact Hcm]; intros j x [[<- <-]|[_ Hj]]%insert_lookup_cases; [|by eapply Hcn].
    rewrite (proj1 (proj2 (Node_Get_frame _ n))); by eapply Hcn. }
  assert (Hkeep : forall key' v, keys key' -> keeps i key' v (dp_cluster w) -> keeps i key' v c').
  { intros key' v Hkey Hks; eapply happened_keeps; [exact Hh|done|by apply Hk1]. }
  subst c'; destruct (Node_Get _ n) as [n' r]; simpl in Hsp, Hok', Hroom', Hkeep, Hh.
  assert (Hruns : runs mode N i keys k (MkDeployed (MkCluster (<[i:=n']> (nodes (dp_cluster w1))) (net (dp_cluster w1)))
    (dp_now w1) (dp_readings w1) (dp_batches w1))).
  { split; try done; intros key' Hkey; simpl; eapply happened_quiet; [exact Hh|done|by apply Hq]. }
  destruct (Node_Store n !! key) as [v|] eqn:Hv; [destruct (Value_Deleted v) eqn:Hd|]; subst r;
    (do 2 eexists; split; [reflexivity|]; split; [exact Hruns|]; split; [exact Hkeep|]);
    intros v' Hkey Hks%Hk1; try done; destruct Hks as [(m & Hm & Hmv) _]; rewrite Hm in Hn; injection Hn as ->;
    rewrite Hmv in Hv; simplify_eq; rewrite ?Hd; done.
Qed.

(** A write of the tool at its node. *)
Lemma write_runs k key data del n n' rpcs r now w1 :
  keys key -> (0 <= k)%Z -> (del = true -> data = []) -> runs mode N i keys (k + 1) w1 ->
  nodes (dp_cluster w1) !! i = Some n -> reading_ok now = true ->
  node_write now key data del [] n = (n', rpcs, r) ->
  let c' := MkCluster (<[i := n']> (nodes (dp_cluster w1))) (net (dp_cluster w1) ++ messages rpcs) in
  exists ts v, r = Ok ts /\
    runs mode N i keys k (MkDeployed c' (dp_now w1) (tl (dp_readings w1)) (dp_batches w1)) /\
    keeps i key v c' /\ Value_Deleted v = del /\ Value_Data v = data /\
    forall key' v', keys key' -> key' <> key -> keeps i key' v' (dp_cluster w1) -> keeps i key' v' c'.
Proof.
  intros Hkey Hk Hdel [Hok Hi Hq Hr Hb Hroom] Hn Hnow Hw; cbn zeta; pose proof (co_nodes _ _ _ Hok _ _ Hn) as Hno.
  pose proof (proj1 Hroom _ _ Hn) as Hroomn; unfold steps_left in Hroomn.
  destruct (node_write_wrote mode Ha _ _ _ _ _ _ _ _ Hno Hnow Hw) as [(_ & _ & _ & Hfull)|(ts & -> & Hn' & _ & Hwr)]; [lia|].
  set (lb := if del then LDelete i now (MkDeleteRequest key) else LPut i now (MkPutRequest key data)).
  set (wr := MkWrite key (MkValue data ts (pending_deps n) del)) in *.
  assert (Hlb : label_write lb = Some (i, key, data, del)) by (unfold lb; destruct del; [by rewrite Hdel|done]).
  destruct (write_happened mode Ha N _ _ _ _ _ _ _ lb _ _ _ Hok Hn Hnow Hlb Hw) as [Hok' Hh].
  set (c' := MkCluster _ _) in *; assert (Hlk : label_key lb = Some key) by (unfold label_key; by rewrite Hlb).
  assert (Hq' : forall key', keys key' -> quiet i key' c').
  { intros key' Hkey'; eapply happened_quiet; [exact Hh| |by apply Hq]; intros _; unfold label_origin; by rewrite Hlb. }
  assert (Hi' : nodes c' !! i = Some n') by (apply list_lookup_insert_eq; by eapply lookup_lt_Some).
  exists ts, (write_stored wr); split; [done|]; split; [|split].
  - split; simpl; try done; [by destruct Hr|].
    eapply counters_to_le; [|by eapply happened_counters]; unfold steps_left; simpl; lia.
  - split; [exists n'; split; [done|]; rewrite (wr_store _ _ _ _ _ Hwr); apply lookup_insert_eq|].
    rewrite write_stored_ts, <- (wr_clock _ _ _ _ _ Hwr); by apply Hq'.
  - unfold write_stored, wr; simpl; split; [by destruct del|]; split; [destruct del; [by rewrite Hdel|done]|].
    intros key' v' Hkey' Hne; eapply happened_keeps; [exact Hh|congruence].
Qed.

Lemma hd_reading w : Forall (fun now => reading_ok now = true) (dp_readings w) -> reading_ok (hd 1%Z (dp_readings w)) = true.
Proof. by destruct 1. Qed.

Lemma put_runs k key data w :
  keys key -> (0 <= k)%Z -> runs mode N i keys (k + 1) w ->
  exists w' resp v, client_Put i (MkPutRequest key data) w = (w', Ok resp) /\ runs mode N i keys k w' /\
    keeps i key v (dp_cluster w') /\ Value_Deleted v = false /\ Value_Data v = data /\
    forall key' v', keys key' -> key' <> key -> keeps i key' v' (dp_cluster w) -> keeps i key' v' (dp_cluster w').
Proof.
  intros Hkey Hk Hw; destruct (pause_runs 0 _ w Hw) as [Hw1 Hk1]; simpl; unfold deployed_Put.
  revert Hw1 Hk1; generalize (deployed_pause 0 w); intros w1 Hw1 Hk1; cbn zeta.
  destruct (lookup_lt_is_Some_2 (nodes (dp_cluster w1)) i) as [n Hn];
    [rewrite (co_length _ _ _ (rn_ok _ _ _ _ _ _ Hw1)); apply Hw1|]; rewrite Hn, Node_Put_write; simpl.
  destruct (node_write _ _ _ _ _ _) as [[n' rpcs] r] eqn:Hwr.
  destruct (write_runs k key data false _ _ _ _ _ w1 Hkey Hk ltac:(done) Hw1 Hn
    (hd_reading _ (rn_readings _ _ _ _ _ _ Hw1)) Hwr) as (ts & v & -> & Hruns & Hks & Hd & Hv & Hother).
  do 3 eexists; split; [reflexivity|]; split; [exact Hruns|]; split_and!; eauto.
Qed.

Lemma delete_runs k key w :
  keys key -> (0 <= k)%Z -> runs mode N i keys (k + 1) w ->
  exists w' resp v, client_Delete i (MkDeleteRequest key) w = (w', Ok resp) /\ runs mode N i keys k w' /\
    keeps i key v (dp_cluster w') /\ Value_Deleted v = true.
Proof.
  intros Hkey Hk Hw; destruct (pause_runs 0 _ w Hw) as [Hw1 Hk1]; simpl; unfold deployed_Delete.
  revert Hw1 Hk1; generalize (deployed_pause 0 w); intros w1 Hw1 Hk1; cbn zeta.
  destruct (lookup_lt_is_Some_2 (nodes (dp_cluster w1)) i) as [n Hn];
    [rewrite (co_length _ _ _ (rn_ok _ _ _ _ _ _ Hw1)); apply Hw1|]; rewrite Hn, Node_Delete_write; simpl.
  destruct (node_write _ _ _ _ _ _) as [[n' rpcs] r] eqn:Hwr.
  destruct (write_runs k key [] true _ _ _ _ _ w1 Hkey Hk ltac:(done) Hw1 Hn
    (hd_reading _ (rn_readings _ _ _ _ _ _ Hw1)) Hwr) as (ts & v & -> & Hruns & Hks & Hd & Hv & Hother).
  do 3 eexists; split; [reflexivity|]; split; [exact Hruns|]; by split.
Qed.

(** The tool waits or draws a random number. *)
Lemma runs_same k w w' :
  dp_cluster w' = dp_cluster w -> dp_readings w' = dp_readings w -> dp_batches w' = dp_batches w ->
  runs mode N i keys k w -> runs mode N i keys k w'.
Proof.
  intros Hc Hr Hb [? ? ? ? ? ?]; split; rewrite ?Hc, ?Hr, ?Hb; try done.
  unfold steps_left in *; by rewrite Hb.
Qed.

Lemma runs_weaken k k' w : (k' <= k)%Z -> runs mode N i keys k w -> runs mode N i keys k' w.
Proof. intros Hk [? ? ? ? ? Hroom]; split; try done; eapply counters_to_le; [|exact Hroom]; lia. Qed.

End schedule.

(** ** A cluster that has run *)

Lemma start_node_ok mode peers opts now n :
  async mode -> reading_ok now = true -> start_node mode peers opts now = Some n -> node_ok mode n.
Proof.
  intros Ha Hnow Hst; destruct (start_node_safe _ _ _ _ _ Ha Hnow Hst) as ([] & _); split; try done.
  - by eexists _, _.
  - by intros Hc; apply ns_buffer.
Qed.

Lemma run_cluster_ok mode opts nows c0 ls c :
  async mode -> Forall (fun now => reading_ok now = true) nows -> init_cluster mode opts nows = Some c0 ->
  forallb label_timed ls = true -> run ls c0 = Some c -> cluster_ok mode (length nows) c.
Proof.
  intros Ha Hnows Hinit Hls; assert (Hc0 : cluster_ok mode (length nows) c0).
  { apply init_cluster_nodes in Hinit as (Hnet & Hlen & Hn); split; [done| |by rewrite Hnet].
    intros i n Hi; destruct (Hn i n Hi) as (now & Hnow & Hst).
    eapply start_node_ok; [done| |done]; by eapply Forall_lookup_1 in Hnows. }
  clear Hinit; revert c0 Hc0; induction ls as [|lb ls IH]; intros c0 Hc0 Hrun; simpl in *; [by simplify_eq|].
  apply andb_true_iff in Hls as [Hlb Hls]; apply bind_Some in Hrun as (c1 & Hc1 & Hrun).
  eapply (IH Hls c1); [|done]; by eapply step_happened.
Qed.
