(* ===== verification/Process.v ===== *)
(** * Commands as processes

    What the [main] functions and the file-writing helpers do besides computing:
    they print, log, open connections, append to files, return, exit or panic.
    A small state-and-exit monad over the world of [Env.v], with Go's rules:
    [log.Fatal] and [os.Exit] end the process without running deferred calls, a
    return and a panic run them.  [wp] is its predicate transformer. *)

From S2P Require Import Prelude Hlc Store Wire Float Env.

(** ** The process *)

(** A connection: [true] while it is open. *)
Record process (W : Type) := MkProcess {
  pr_world : W;
  pr_stdout : list string;                        (* the printed lines *)
  pr_log : list string;                           (* the lines on standard error *)
  pr_files : gmap string (list byte);             (* the files: their bytes *)
  pr_conns : list bool
}.
Arguments MkProcess {W}.
Arguments pr_world {W}.
Arguments pr_stdout {W}.
Arguments pr_log {W}.
Arguments pr_files {W}.
Arguments pr_conns {W}.

(** How a call ends.  [Panicked] is also the loop whose fuel ran out. *)
Inductive outcome (A : Type) :=
| Returned (a : A)
| Exited (code : Z)
| Panicked.
Arguments Returned {A}.
Arguments Exited {A}.
Arguments Panicked {A}.

Definition is_returned {A} (o : outcome A) : bool :=
  match o with Returned _ => true | _ => false end.

Definition cmd (W A : Type) : Type := process W -> process W * outcome A.

#[export] Instance cmd_ret W : MRet (cmd W) := fun A a p => (p, Returned a).

#[export] Instance cmd_bind W : MBind (cmd W) := fun A B k m p =>
  match m p with
  | (p, Returned a) => k a p
  | (p, Exited c) => (p, Exited c)
  | (p, Panicked) => (p, Panicked)
  end.

(** [make] of a slice with room for [n] elements of [size] bytes panics when [n] is
    negative or when they do not fit in what the runtime can address, 2^48 bytes
    on 64-bit Linux; short of that memory is unbounded. *)
Definition maxAlloc : Z := 2 ^ 48.

Definition make_ok (size n : Z) : bool := ((0 <=? n) && (size * n <=? maxAlloc))%Z.

Lemma make_ok_spec size n : make_ok size n = true <-> (0 <= n /\ size * n <= 2 ^ 48)%Z.
Proof. unfold make_ok, maxAlloc; rewrite andb_true_iff, !Z.leb_le; done. Qed.

(** ** Effects *)

Section effects.
Context {W : Type}.
Implicit Types (p : process W).

Definition with_world w p : process W :=
  MkProcess w (pr_stdout p) (pr_log p) (pr_files p) (pr_conns p).
Definition with_files fs p : process W :=
  MkProcess (pr_world p) (pr_stdout p) (pr_log p) fs (pr_conns p).
Definition with_conns cs p : process W :=
  MkProcess (pr_world p) (pr_stdout p) (pr_log p) (pr_files p) cs.

(** A step of the world. *)
Definition in_world {A} (f : W -> W * A) : cmd W A := fun p =>
  let '(w, a) := f (pr_world p) in (with_world w p, Returned a).

(** A computation that may panic. *)
Definition in_world_run {A} (f : W -> W * option A) : cmd W A := fun p =>
  let '(w, r) := f (pr_world p) in
  (with_world w p, match r with Some a => Returned a | None => Panicked end).

(** [fmt.Print] of one line. *)
Definition printf (line : string) : cmd W unit := fun p =>
  (MkProcess (pr_world p) (pr_stdout p ++ [line]) (pr_log p) (pr_files p) (pr_conns p), Returned tt).

(** A line on standard error, by package [log] or [fmt.Fprintf]. *)
Definition log_printf (line : string) : cmd W unit := fun p =>
  (MkProcess (pr_world p) (pr_stdout p) (pr_log p ++ [line]) (pr_files p) (pr_conns p), Returned tt).

Definition os_exit {A} (code : Z) : cmd W A := fun p => (p, Exited code).

Definition panic {A} : cmd W A := fun p => (p, Panicked).

(** [log.Fatal] *)
Definition log_fatal {A} (line : string) : cmd W A := log_printf line;; os_exit 1.

(** [defer d], then [m]. *)
Definition with_defer {A} (d : cmd W unit) (m : cmd W A) : cmd W A := fun p =>
  match m p with
  | (p, Exited c) => (p, Exited c)
  | (p, o) =>
      match d p with
      | (p, Returned _) => (p, o)
      | (p, Exited c) => (p, Exited c)
      | (p, Panicked) => (p, Panicked)
      end
  end.

(** [for _, x := range xs { body }] *)
Fixpoint for_each {A} (body : A -> cmd W unit) (xs : list A) : cmd W unit :=
  match xs with
  | [] => mret tt
  | x :: xs => body x;; for_each body xs
  end.

(** ** Connections

    [dial] stands for [grpc.NewClient] with the insecure credentials; a client is
    the handle the calls of [Env.v] take, a connection its index. *)
Definition grpc_NewClient (dial : string -> res client) (addr : string) : cmd W (res (client * nat)) :=
  fun p =>
  match dial addr with
  | Ok c => (with_conns (pr_conns p ++ [true]) p, Returned (Ok (c, length (pr_conns p))))
  | Err e => (p, Returned (Err e))
  end.

Definition conn_Close (conn : nat) : cmd W unit := fun p =>
  (with_conns (<[conn := false]> (pr_conns p)) p, Returned tt).

(** All connections are closed. *)
Definition all_closed p : bool := forallb negb (pr_conns p).

End effects.

(** A process that starts. *)
Definition init_process {W} (w : W) : process W := MkProcess w [] [] ∅ [].

(** ** Weakest preconditions *)

Section wp.
Context {W : Type}.
Implicit Types (p : process W).

Definition wp {A} (m : cmd W A) (Q : process W -> outcome A -> Prop) p : Prop :=
  let '(p', o) := m p in Q p' o.

(** What follows a call that ended in [o]. *)
Definition and_then {A B} (k : A -> cmd W B) (Q : process W -> outcome B -> Prop) p (o : outcome A) : Prop :=
  match o with
  | Returned a => wp (k a) Q p
  | Exited c => Q p (Exited c)
  | Panicked => Q p Panicked
  end.

Lemma wp_bind {A B} (m : cmd W A) (k : A -> cmd W B) Q p :
  wp m (and_then k Q) p -> wp (a ← m; k a) Q p.
Proof. unfold wp, and_then, mbind, cmd_bind; by destruct (m p) as [p' [a|c|]]. Qed.

Lemma wp_mono {A} (m : cmd W A) (P Q : process W -> outcome A -> Prop) p :
  wp m P p -> (forall p' o, P p' o -> Q p' o) -> wp m Q p.
Proof. unfold wp; destruct (m p) as [p' o]; auto. Qed.

Lemma wp_run {A} (m : cmd W A) (Q : process W -> outcome A -> Prop) p : wp m Q p -> Q (fst (m p)) (snd (m p)).
Proof. unfold wp; by destruct (m p). Qed.

Lemma wp_ret {A} (a : A) Q p : Q p (Returned a) -> wp (mret a) Q p.
Proof. done. Qed.

Lemma wp_fatal {A} line (Q : process W -> outcome A -> Prop) p :
  Q (MkProcess (pr_world p) (pr_stdout p) (pr_log p ++ [line]) (pr_files p) (pr_conns p)) (Exited 1) ->
  wp (log_fatal line) Q p.
Proof. done. Qed.

Lemma wp_defer {A} (d : cmd W unit) (m : cmd W A) Q p :
  wp m (fun p' o => match o with
                    | Exited c => Q p' (Exited c)
                    | o => wp d (fun p'' od => match od with
                                               | Returned _ => Q p'' o
                                               | Exited c => Q p'' (Exited c)
                                               | Panicked => Q p'' Panicked
                                               end) p'
                    end) p ->
  wp (with_defer d m) Q p.
Proof.
  unfold wp, with_defer; destruct (m p) as [p' [a|c|]]; [|done|];
    by destruct (d p') as [p'' [?|?|]].
Qed.

(** An invariant of a loop over a list, and what holds where the loop is left. *)
Lemma wp_for_each {A} (body : A -> cmd W unit) (I : list A -> process W -> Prop)
    (R : process W -> outcome unit -> Prop) xs pre p :
  I pre p ->
  (forall pre' x p', I pre' p' -> pre' ++ [x] `prefix_of` pre ++ xs ->
     wp (body x) (fun p'' o => match o with Returned _ => I (pre' ++ [x]) p'' | o => R p'' o end) p') ->
  wp (for_each body xs)
    (fun p' o => match o with Returned _ => I (pre ++ xs) p' | o => R p' o end) p.
Proof.
  revert pre p; induction xs as [|x xs IH]; intros pre p Hi Hbody; simpl.
  { by rewrite app_nil_r. }
  apply wp_bind; eapply wp_mono; [apply Hbody; [exact Hi|]|].
  { exists xs; by rewrite <- app_assoc. }
  intros p' [[]|c|]; simpl; [|done..]; intros Hi'.
  replace (pre ++ x :: xs) with ((pre ++ [x]) ++ xs) by (by rewrite <- app_assoc).
  apply IH; [done|]; intros pre' y p'' Hp Hpre; apply Hbody; [done|].
  by rewrite <- app_assoc in Hpre.
Qed.

(** Printing lines, and closing the connections opened last. *)
Lemma printf_run lines p :
  for_each printf lines p =
    (MkProcess (pr_world p) (pr_stdout p ++ lines) (pr_log p) (pr_files p) (pr_conns p), Returned tt).
Proof.
  revert p; induction lines as [|l lines IH]; intros p; simpl.
  { rewrite app_nil_r; by destruct p. }
  unfold mbind, cmd_bind; simpl; rewrite IH; simpl; by rewrite <- app_assoc.
Qed.

Lemma close_run old k p :
  pr_conns p = old ++ replicate k true ->
  for_each conn_Close (seq (length old) k) p = (with_conns (old ++ replicate k false) p, Returned tt).
Proof.
  revert old p; induction k as [|k IH]; intros old p Hp; simpl in *.
  { rewrite <- Hp; by destruct p. }
  unfold mbind, cmd_bind; simpl.
  specialize (IH (old ++ [false]) (with_conns (<[length old := false]> (pr_conns p)) p)).
  rewrite length_app, Nat.add_1_r in IH; rewrite IH; simpl.
  - unfold with_conns; simpl; by rewrite <- app_assoc.
  - rewrite Hp, <- app_assoc; simpl; replace (length old) with (length old + 0) by lia.
    by rewrite insert_app_r.
Qed.

Lemma wp_close_conn old later (Q : process W -> outcome unit -> Prop) p :
  pr_conns p = old ++ true :: later -> Q (with_conns (old ++ false :: later) p) (Returned tt) ->
  wp (conn_Close (length old)) Q p.
Proof.
  unfold wp, conn_Close; intros -> HQ; replace (length old) with (length old + 0) by lia.
  by rewrite insert_app_r.
Qed.

End wp.

Create HintDb wp.
#[export] Hint Resolve wp_bind wp_ret wp_fatal wp_defer : wp.

(** One step of a command's proof. *)
Ltac wp_step :=
  first [ apply wp_bind | apply wp_defer | apply wp_fatal | apply wp_ret ]; cbn [and_then].

#[global] Arguments for_each : simpl never.
