(* ===== verification/Csv.v ===== *)
(** * Files and CSV writers

    What [WriteSummaryCSV] and [appendTrialRow] use of package [os], of a
    [csv.Writer] and of the [bufio.Writer] below it: a file is its bytes, a
    writer encodes records into a buffer of 4096 bytes that is written to the
    file when it is full or flushed, and a write to the file may stop short with
    an error, which the writer keeps.  [csv_read] is a reader of such files, to
    say that the rows can be read back. *)

From S2P Require Import Prelude Hlc Store Wire Float Env Process.

(** ** Records as text *)

Definition comma : byte := x2c.
Definition quote : byte := x22.
Definition lf : byte := x0a.
Definition cr : byte := x0d.

(** The runes of [unicode.IsSpace] in UTF-8. *)
Definition go_spaces : list (list byte) :=
  [[x09]; [x0a]; [x0b]; [x0c]; [x0d]; [x20]; [xc2; x85]; [xc2; xa0]; [xe1; x9a; x80];
   [xe2; x80; x80]; [xe2; x80; x81]; [xe2; x80; x82]; [xe2; x80; x83]; [xe2; x80; x84]; [xe2; x80; x85];
   [xe2; x80; x86]; [xe2; x80; x87]; [xe2; x80; x88]; [xe2; x80; x89]; [xe2; x80; x8a];
   [xe2; x80; xa8]; [xe2; x80; xa9]; [xe2; x80; xaf]; [xe2; x81; x9f]; [xe3; x80; x80]].

Definition leading_space (field : list byte) : bool :=
  existsb (fun s => bool_decide (take (length s) field = s)) go_spaces.

(** The bytes that end a field that is not quoted. *)
Definition ends_bare (b : byte) : bool :=
  bool_decide (b = comma) || bool_decide (b = quote) || bool_decide (b = cr) || bool_decide (b = lf).

Definition fieldNeedsQuotes (field : list byte) : bool :=
  match field with
  | [] => false
  | _ => bool_decide (field = [x5c; x2e]) || existsb ends_bare field || leading_space field
  end.

(** The writes to the buffer for the inside of a quoted field: each stretch without
    quotes and line breaks, and each of these. *)
Fixpoint quoted_tokens (stretch field : list byte) : list (list byte) :=
  match field with
  | [] => [stretch]
  | b :: field =>
      if decide (b = quote) then stretch :: [quote; quote] :: quoted_tokens [] field
      else if decide (b = cr \/ b = lf) then stretch :: [b] :: quoted_tokens [] field
      else quoted_tokens (stretch ++ [b]) field
  end.

Definition field_tokens (field : list byte) : list (list byte) :=
  if fieldNeedsQuotes field then [quote] :: quoted_tokens [] field ++ [[quote]] else [field].

Fixpoint fields_tokens (fields : list string) : list (list byte) :=
  match fields with
  | [] => []
  | field :: fields => [comma] :: field_tokens (bytes_of field) ++ fields_tokens fields
  end.

(** The writes of [w.Write(record)]; the last ends the line. *)
Definition csv_tokens (record : list string) : list (list byte) :=
  match record with
  | [] => []
  | field :: fields => field_tokens (bytes_of field) ++ fields_tokens fields
  end ++ [[lf]].

Definition csv_line (record : list string) : list byte := concat (csv_tokens record).

Definition csv_text (records : list (list string)) : list byte := concat (map csv_line records).

(** ** A reader *)

Inductive scan := SField | SBare | SQuoted | SClosed.

(** [row] and [field] are what the line and the field have so far.  A file ends
    with a line break. *)
Fixpoint csv_scan (st : scan) (row : list (list byte)) (field s : list byte) : option (list (list (list byte))) :=
  match s with
  | [] => match st, row with SField, [] => Some [] | _, _ => None end
  | b :: s =>
      if match st with SQuoted => true | _ => false end then
        if decide (b = quote) then csv_scan SClosed row field s else csv_scan SQuoted row (field ++ [b]) s
      else if decide (b = comma) then csv_scan SField (row ++ [field]) [] s
      else if decide (b = lf) then rows ← csv_scan SField [] [] s; Some ((row ++ [field]) :: rows)
      else match st with
           | SField => if decide (b = quote) then csv_scan SQuoted row [] s else csv_scan SBare row [b] s
           | SBare => if decide (b = quote) then None else csv_scan SBare row (field ++ [b]) s
           | _ => if decide (b = quote) then csv_scan SQuoted row (field ++ [quote]) s else None
           end
  end.

Definition csv_read (s : list byte) : option (list (list (list byte))) := csv_scan SField [] [] s.

(** ** Writing to files *)

(** The errors of package [os] are the world's, and so is how many bytes of a write
    reached the file when it fails; what the files hold is the process's. *)
Class Files (W : Type) := {
  os_MkdirAll : string -> W -> W * option string;
  os_OpenAppend : string -> W -> W * option string;
  os_Write : string -> list byte -> W -> W * option (nat * string)
}.

Definition bufio_size : nat := 4096.

(** A [csv.Writer] on a file opened at [cw_path], with its [bufio.Writer]. *)
Record csv_Writer := MkWriter {
  cw_path : string;
  cw_buf : list byte;
  cw_err : option string
}.

Definition csv_NewWriter (path : string) : csv_Writer := MkWriter path [] None.

Section files.
Context {W : Type} `{Files W}.

(** Whether [os.Stat] finds the file. *)
Definition os_Stat (path : string) : cmd W bool := fun p =>
  (p, Returned (isSome (pr_files p !! path))).

Definition append_file (path : string) (data : list byte) : cmd W unit := fun p =>
  (with_files (<[path := default [] (pr_files p !! path) ++ data]> (pr_files p)) p, Returned tt).

(** [os.OpenFile] with [O_CREATE|O_WRONLY|O_APPEND]. *)
Definition open_append (path : string) : cmd W (option string) :=
  err ← in_world (os_OpenAppend path);
  match err with
  | Some e => mret (Some e)
  | None => append_file path [];; mret None
  end.

(** [f.Write], and [f.WriteString]. *)
Definition f_Write (path : string) (data : list byte) : cmd W (option (nat * string)) :=
  r ← in_world (os_Write path data);
  append_file path (match r with Some (n, _) => take n data | None => data end);;
  mret r.

Definition bufio_Flush (w : csv_Writer) : cmd W csv_Writer :=
  match cw_err w, cw_buf w with
  | None, (_ :: _) as buf =>
      r ← f_Write (cw_path w) buf;
      mret (match r with
            | Some (n, e) => MkWriter (cw_path w) (drop n buf) (Some e)
            | None => MkWriter (cw_path w) [] None
            end)
  | _, _ => mret w
  end.

(** A large write with an empty buffer goes to the file directly. *)
Definition bufio_direct (path : string) (s : list byte) : cmd W csv_Writer :=
  r ← f_Write path s;
  mret (MkWriter path [] (snd <$> r)).

(** [w.WriteString(s)]; [WriteByte] and [WriteRune] of one byte are the same.  Its
    loop goes round at most twice. *)
Definition bufio_WriteString (s : list byte) (w : csv_Writer) : cmd W csv_Writer :=
  let available := bufio_size - length (cw_buf w) in
  match cw_err w with
  | Some _ => mret w
  | None =>
      if length s <=? available then mret (MkWriter (cw_path w) (cw_buf w ++ s) None)
      else match cw_buf w with
           | [] => bufio_direct (cw_path w) s
           | buf =>
               w ← bufio_Flush (MkWriter (cw_path w) (buf ++ take available s) None);
               match cw_err w with
               | Some _ => mret w
               | None =>
                   let s := drop available s in
                   if length s <=? bufio_size then mret (MkWriter (cw_path w) s None)
                   else bufio_direct (cw_path w) s
               end
           end
  end.

Fixpoint bufio_writes (ss : list (list byte)) (w : csv_Writer) : cmd W csv_Writer :=
  match ss with
  | [] => mret w
  | s :: ss =>
      w ← bufio_WriteString s w;
      match cw_err w with
      | Some _ => mret w
      | None => bufio_writes ss w
      end
  end.

(** [w.Write(record)], which returns the error [cw_err]. *)
Definition csv_Write (record : list string) (w : csv_Writer) : cmd W csv_Writer :=
  bufio_writes (csv_tokens record) w.

Definition csv_Flush (w : csv_Writer) : cmd W csv_Writer := bufio_Flush w.

Definition csv_Error (w : csv_Writer) : option string := cw_err w.

End files.

#[export] Instance fixture_files : Files fixture := {|
  os_MkdirAll _ w := (w, None);
  os_OpenAppend _ w := (w, None);
  os_Write _ _ w := (w, None)
|}.

(** The same world with no space left. *)
Definition full_disk : Files fixture := {|
  os_MkdirAll _ w := (w, None);
  os_OpenAppend _ w := (w, None);
  os_Write _ _ w := (w, Some (0, "no space left on device"))
|}.

(** ** Reading back *)

(** The end of a field. *)
Definition field_end (b : byte) (row : list (list byte)) (s : list byte) : option (list (list (list byte))) :=
  if decide (b = comma) then csv_scan SField row [] s
  else rows ← csv_scan SField [] [] s; Some (row :: rows).

Definition separator (b : byte) : Prop := b = comma \/ b = lf.

Lemma bare_scan row acc field b s :
  existsb ends_bare field = false -> separator b ->
  csv_scan SBare row acc (field ++ b :: s) = field_end b (row ++ [acc ++ field]) s.
Proof.
  intros Hf Hb; revert acc Hf; induction field as [|c field IH]; intros acc Hf; simpl.
  - rewrite app_nil_r; unfold field_end; destruct (decide (b = comma)); [done|].
    destruct Hb as [->| ->]; [done|]; by rewrite decide_True.
  - simpl in Hf; apply orb_false_iff in Hf as [Hc Hf]; unfold ends_bare in Hc.
    rewrite !orb_false_iff, !bool_decide_eq_false in Hc; destruct Hc as [[[? ?] ?] ?].
    rewrite !decide_False by done; rewrite IH by done; by rewrite <- app_assoc.
Qed.

(** The inside of a quoted field. *)
Definition doubled (field : list byte) : list byte :=
  flat_map (fun b => if decide (b = quote) then [quote; quote] else [b]) field.

Lemma quoted_tokens_doubled stretch field : concat (quoted_tokens stretch field) = stretch ++ doubled field.
Proof.
  revert stretch; induction field as [|b field IH]; intros stretch; simpl; [by rewrite app_nil_r|].
  destruct (decide (b = quote)); [simpl; by rewrite IH|].
  case_decide; simpl; rewrite IH; [done|by rewrite <- app_assoc].
Qed.

Lemma quoted_scan row acc field b s :
  separator b ->
  csv_scan SQuoted row acc (doubled field ++ quote :: b :: s) = field_end b (row ++ [acc ++ field]) s.
Proof.
  intros Hb; revert acc; induction field as [|c field IH]; intros acc; simpl.
  - rewrite app_nil_r; unfold field_end; destruct (decide (b = comma)); [done|].
    destruct Hb as [->| ->]; [done|]; by rewrite decide_True.
  - destruct (decide (c = quote)) as [->|Hc]; simpl.
    + by rewrite IH, <- app_assoc.
    + rewrite decide_False by done; by rewrite IH, <- app_assoc.
Qed.

Lemma field_scan row field b s :
  separator b ->
  csv_scan SField row [] (concat (field_tokens field) ++ b :: s) = field_end b (row ++ [field]) s.
Proof.
  intros Hb; unfold field_tokens; destruct (fieldNeedsQuotes field) eqn:Hq.
  - rewrite concat_cons, concat_app, quoted_tokens_doubled; simpl; rewrite <- app_assoc; by apply quoted_scan.
  - simpl; rewrite app_nil_r; destruct field as [|c field].
    { simpl; unfold field_end; destruct (decide (b = comma)); [done|].
      destruct Hb as [->| ->]; [done|]; by rewrite decide_True. }
    unfold fieldNeedsQuotes in Hq; rewrite !orb_false_iff in Hq; destruct Hq as [[_ Hq] _].
    pose proof Hq as Hq'; simpl in Hq'; apply orb_false_iff in Hq' as [Hc Hf]; unfold ends_bare in Hc.
    rewrite !orb_false_iff, !bool_decide_eq_false in Hc; destruct Hc as [[[? ?] ?] ?].
    simpl; rewrite !decide_False by done; by apply (bare_scan row [c]).
Qed.

Lemma line_scan row field fields s :
  csv_scan SField row [] (csv_line (field :: fields) ++ s) =
    rows ← csv_scan SField [] [] s; Some ((row ++ map bytes_of (field :: fields)) :: rows).
Proof.
  revert row field; induction fields as [|next fields IH]; intros row field; unfold csv_line, csv_tokens in *;
    simpl in *; rewrite !concat_app, <- !app_assoc; simpl.
  - rewrite field_scan by (by right); done.
  - rewrite field_scan by (by left); unfold field_end; rewrite decide_True by done.
    specialize (IH (row ++ [bytes_of field]) next); rewrite !concat_app, <- !app_assoc in IH; simpl in IH.
    by rewrite concat_app, <- app_assoc.
Qed.

Lemma text_scan records s :
  Forall (fun r => r <> []) records ->
  csv_read (csv_text records ++ s) = rows ← csv_read s; Some (map (map bytes_of) records ++ rows).
Proof.
  unfold csv_read, csv_text; induction 1 as [|r records Hr _ IH]; simpl.
  { by destruct (csv_scan _ _ _ s). }
  destruct r as [|field fields]; [done|]; rewrite <- app_assoc, line_scan, IH; simpl.
  by destruct (csv_scan SField [] [] s).
Qed.

(** A text that can be read is read as far as it goes. *)
Lemma scan_app st row field s t rows :
  (st = SField -> field = []) -> csv_scan st row field s = Some rows ->
  csv_scan st row field (s ++ t) = more ← csv_read t; Some (rows ++ more).
Proof.
  revert st row field rows; induction s as [|b s IH]; intros st row field rows Hst; simpl.
  - destruct st, row; try done; intros [= <-]; rewrite Hst by done; unfold csv_read.
    by destruct (csv_scan _ _ _ t).
  - repeat case_match; try done; intros Hs; try (by apply IH);
      apply bind_Some in Hs as (more & Hm & [= <-]); rewrite (IH _ _ _ more) by done;
      by destruct (csv_read t).
Qed.

Lemma read_append old rows records :
  csv_read old = Some rows -> Forall (fun r => r <> []) records ->
  csv_read (old ++ csv_text records) = Some (rows ++ map (map bytes_of) records).
Proof.
  intros Hold Hr; unfold csv_read in *; rewrite (scan_app _ _ _ _ _ _ (fun _ => eq_refl) Hold).
  rewrite <- (app_nil_r (csv_text records)), text_scan by done; simpl; by rewrite app_nil_r.
Qed.

(** ** Writing *)

#[global] Strategy 100 [bufio_size].

(** How writes to files go: all succeed, or none reaches the file. *)
Definition writes_succeed (W : Type) `{Files W} : Prop :=
  forall path data (w : W), snd (os_Write path data w) = None.
Definition writes_fail (W : Type) `{Files W} : Prop :=
  forall path data (w : W), exists e, snd (os_Write path data w) = Some (0, e).

Section writing.
Context {W : Type} `{Files W}.
Implicit Types (p : process W).

(** Only files have changed (and the world). *)
Record same_output p p' : Prop := {
  so_stdout : pr_stdout p' = pr_stdout p;
  so_log : pr_log p' = pr_log p;
  so_conns : pr_conns p' = pr_conns p
}.

Lemma same_output_refl p : same_output p p.
Proof. by split. Qed.

Lemma same_output_trans p1 p2 p3 : same_output p1 p2 -> same_output p2 p3 -> same_output p1 p3.
Proof. intros [? ? ?] [? ? ?]; split; congruence. Qed.

(** The writer has been given [data] for a file that had [old]. *)
Record given (fs : gmap string (list byte)) (old data : list byte) (w : csv_Writer) p : Prop := {
  gv_file : exists sent, pr_files p = <[cw_path w := old ++ sent]> fs /\
    match cw_err w with
    | None => sent ++ cw_buf w = data
    | Some _ => sent `prefix_of` data
    end /\ (writes_fail W -> sent = []);
  gv_ok : writes_succeed W -> cw_err w = None
}.

(** A write of what is buffered, or about to be. *)
Lemma f_Write_given fs old data path s p :
  given fs old data (MkWriter path s None) p ->
  wp (f_Write path s) (fun p' o => exists r, o = Returned r /\ same_output p p' /\
    forall buf, (r = None -> buf = []) -> given fs old data (MkWriter path buf (snd <$> r)) p') p.
Proof.
  intros [(sent & Hf & Hs & Hfail) _]; simpl in *; unfold wp, f_Write, mbind, cmd_bind, in_world.
  pose proof (fun Ha : writes_succeed W => Ha path s (pr_world p)) as Hok.
  pose proof (fun Ha : writes_fail W => Ha path s (pr_world p)) as Hno.
  destruct (os_Write path s (pr_world p)) as [w r]; simpl in *.
  exists r; split; [done|]; split; [done|]; intros buf Hbuf; split; simpl; [|by intros ->%Hok].
  rewrite Hf, lookup_insert_eq, insert_insert_eq; simpl.
  exists (sent ++ match r with Some (n, _) => take n s | None => s end); rewrite app_assoc; split; [done|].
  split.
  - destruct r as [[n e]|]; simpl; [|by rewrite Hbuf, app_nil_r by done].
    rewrite <- Hs; apply prefix_app, prefix_take.
  - intros Hf'; destruct (Hno Hf') as [e ->]; by rewrite (Hfail Hf').
Qed.

Lemma given_more fs old data s w p : given fs old data w p -> cw_err w <> None -> given fs old (data ++ s) w p.
Proof.
  intros [(sent & Hf & Hs & Hno) Hok] He; split; [|done]; exists sent; split; [done|]; split; [|done].
  destruct (cw_err w); [by apply prefix_app_r|done].
Qed.

Lemma given_buffer fs old data s path buf p :
  given fs old data (MkWriter path buf None) p -> given fs old (data ++ s) (MkWriter path (buf ++ s) None) p.
Proof.
  intros [(sent & Hf & Hs & Hno) Hok]; split; [|done]; simpl in *; exists sent; split; [done|].
  split; [|done]; by rewrite app_assoc, Hs.
Qed.

(** What the writer's methods do, given [data] in all: the writer they return, and
    nothing but the file. *)
Definition writing (fs : gmap string (list byte)) (old data : list byte) (w : csv_Writer) p p'
    (o : outcome csv_Writer) : Prop :=
  exists w', o = Returned w' /\ cw_path w' = cw_path w /\ same_output p p' /\ given fs old data w' p'.

Lemma bufio_direct_spec fs old data path s p :
  given fs old data (MkWriter path s None) p ->
  wp (bufio_direct path s) (fun p' o => writing fs old data (MkWriter path s None) p p' o) p.
Proof.
  intros Hg; apply wp_bind; eapply wp_mono; [by apply f_Write_given|].
  intros p' o (r & -> & Hsame & Hgv); apply wp_ret; eexists; split; [done|]; split; [done|].
  split; [done|by apply Hgv].
Qed.

Lemma bufio_Flush_spec fs old data w p :
  given fs old data w p ->
  wp (bufio_Flush w) (fun p' o => writing fs old data w p p' o /\
    forall w', o = Returned w' -> cw_err w' = None -> cw_buf w' = []) p.
Proof.
  intros Hg; unfold bufio_Flush; destruct w as [path buf [e|]]; simpl.
  { apply wp_ret; split; [|by intros w' [= <-]]; eexists; split; [done|]; split; [done|].
    split; [apply same_output_refl|done]. }
  destruct buf as [|b buf].
  { apply wp_ret; split; [|by intros w' [= <-]]; eexists; split; [done|]; split; [done|].
    split; [apply same_output_refl|done]. }
  apply wp_bind; eapply wp_mono; [by apply f_Write_given|].
  intros p' o (r & -> & Hsame & Hgv); apply wp_ret; split.
  - destruct r as [[n e]|]; eexists; (split; [done|]); (split; [done|]); (split; [done|]).
    + exact (Hgv (drop n (b :: buf)) ltac:(done)).
    + exact (Hgv [] ltac:(done)).
  - by intros w' [= <-]; destruct r as [[n e]|].
Qed.

Lemma bufio_WriteString_spec fs old data s w p :
  given fs old data w p ->
  wp (bufio_WriteString s w) (fun p' o => writing fs old (data ++ s) w p p' o) p.
Proof.
  intros Hg; unfold bufio_WriteString; destruct w as [path buf [e|]]; simpl.
  { apply wp_ret; eexists; split; [done|]; split; [done|]; split; [apply same_output_refl|].
    by apply given_more. }
  pose proof (given_buffer _ _ _ s _ _ _ Hg) as Hs; set (available := bufio_size - length buf).
  destruct (length s <=? available).
  { apply wp_ret; eexists; split; [done|]; split; [done|]; split; [apply same_output_refl|done]. }
  destruct buf as [|b buf]; [exact (bufio_direct_spec _ _ _ _ _ _ Hs)|].
  pose proof (given_buffer _ _ _ (take available s) _ _ _ Hg) as Hfull.
  apply wp_bind; eapply wp_mono; [exact (bufio_Flush_spec _ _ _ _ _ Hfull)|].
  intros p1 o ((w1 & -> & Hp1 & Hsame1 & Hg1) & Hbuf); simpl in *.
  set (early := data ++ take available s) in *.
  assert (Hdata : data ++ s = early ++ drop available s)
    by (unfold early; by rewrite <- app_assoc, take_drop).
  rewrite Hdata; destruct w1 as [path1 buf1 [e|]]; simpl in *; subst path1.
  { apply wp_ret; eexists; split; [done|]; split; [done|]; split; [done|by apply given_more]. }
  specialize (Hbuf _ eq_refl eq_refl); simpl in Hbuf; subst buf1.
  apply (given_buffer _ _ _ (drop available s)) in Hg1; simpl in Hg1.
  destruct (length (drop available s) <=? bufio_size).
  - apply wp_ret; eexists; split; [done|]; split; [done|]; split; done.
  - eapply wp_mono; [by apply bufio_direct_spec|].
    intros p2 o (w2 & -> & Hp2 & Hsame2 & Hg2); eexists; split; [done|]; split; [done|].
    split; [by eapply same_output_trans|done].
Qed.

Lemma bufio_writes_spec fs old data ss w p :
  given fs old data w p ->
  wp (bufio_writes ss w) (fun p' o => writing fs old (data ++ concat ss) w p p' o) p.
Proof.
  revert data w p; induction ss as [|s ss IH]; intros data w p Hg; simpl.
  { rewrite app_nil_r; apply wp_ret; eexists; split; [done|]; split; [done|].
    split; [apply same_output_refl|done]. }
  apply wp_bind; eapply wp_mono; [by apply bufio_WriteString_spec|].
  intros p1 o (w1 & -> & Hp1 & Hsame1 & Hg1); simpl; rewrite app_assoc.
  destruct (cw_err w1) eqn:He.
  - apply wp_ret; eexists; split; [done|]; split; [done|]; split; [done|].
    apply given_more; [done|by rewrite He].
  - eapply wp_mono; [by apply IH|]; intros p2 o (w2 & -> & Hp2 & Hsame2 & Hg2).
    eexists; split; [done|]; split; [by rewrite Hp2|]; split; [by eapply same_output_trans|done].
Qed.

End writing.

(** ** Appending records *)

(** What appending a record to a file should write: it, after the header if the file
    is new. *)
Definition record_text (header : list string) (path : string) (fs : gmap string (list byte))
    (record : list string) : list byte :=
  (if isSome (fs !! path) then [] else csv_line header) ++ csv_line record.

Definition add_row (header : list string) (path : string) (fs : gmap string (list byte)) (record : list string)
    : gmap string (list byte) :=
  <[path := default [] (fs !! path) ++ record_text header path fs record]> fs.

Definition add_rows (header : list string) (path : string) (records : list (list string))
    (fs : gmap string (list byte)) : gmap string (list byte) :=
  foldl (add_row header path) fs records.

(** The file has gained [text], or what a failing write has left of it. *)
Definition gained (W : Type) `{Files W} (path : string) (text : list byte) (fs fs' : gmap string (list byte)) : Prop :=
  exists l, l `prefix_of` text /\ fs' = <[path := default [] (fs !! path) ++ l]> fs /\
    (writes_succeed W -> l = text) /\ (writes_fail W -> l = []).

(** The same for records one after the other. *)
Fixpoint gained_rows (W : Type) `{Files W} (header : list string) (path : string) (records : list (list string))
    (fs fs' : gmap string (list byte)) : Prop :=
  match records with
  | [] => fs' = fs
  | r :: records => exists fs1, gained W path (record_text header path fs r) fs fs1 /\
                                gained_rows W header path records fs1 fs'
  end.

Section appending.
Context {W : Type} `{Files W}.
Implicit Types (p : process W) (fs : gmap string (list byte)).

Lemma open_append_spec path p :
  wp (open_append path) (fun p' o => same_output p p' /\
    match o with
    | Returned None => given (pr_files p) (default [] (pr_files p !! path)) [] (csv_NewWriter path) p'
    | Returned (Some _) => pr_files p' = pr_files p
    | _ => False
    end) p.
Proof.
  unfold wp, open_append, mbind, cmd_bind, in_world; destruct (os_OpenAppend path (pr_world p)) as [w [e|]]; simpl.
  { split; [by split|done]. }
  split; [by split|]; split; [|done]; exists []; by rewrite app_nil_r.
Qed.

(** A writer that was flushed. *)
Lemma given_gained fs path data w p :
  cw_path w = path -> given fs (default [] (fs !! path)) data w p -> (cw_err w = None -> cw_buf w = []) ->
  gained W path data fs (pr_files p) /\
  (cw_err w = None -> pr_files p = <[path := default [] (fs !! path) ++ data]> fs).
Proof.
  intros <- [(sent & Hf & Hs & Hno) Hok] Hbuf.
  assert (Hall : cw_err w = None -> sent = data).
  { intros He; rewrite He in Hs; by rewrite Hbuf, app_nil_r in Hs. }
  split; [|intros He; by rewrite Hf, Hall].
  exists sent; split; [|split; [done|split; auto]].
  destruct (cw_err w); [done|by rewrite Hall].
Qed.

Lemma gained_rows_app header path rows1 rows2 fs fs1 fs2 :
  gained_rows W header path rows1 fs fs1 -> gained_rows W header path rows2 fs1 fs2 ->
  gained_rows W header path (rows1 ++ rows2) fs fs2.
Proof.
  revert fs; induction rows1 as [|r rows1 IH]; intros fs; simpl; [by intros ->|].
  intros (fs' & Hr & Hrows) Hrows2; exists fs'; eauto.
Qed.

Lemma gained_rows_succeed header path rows fs fs' :
  writes_succeed W -> gained_rows W header path rows fs fs' -> fs' = add_rows header path rows fs.
Proof.
  intros Hok; revert fs; induction rows as [|r rows IH]; intros fs; simpl; [done|].
  intros (fs1 & (l & _ & Hf & Hl & _) & Hrows); rewrite (IH _ Hrows), Hf, Hl by done; done.
Qed.

Lemma gained_rows_fail header path rows fs fs' :
  writes_fail W -> gained_rows W header path rows fs fs' ->
  default [] (fs' !! path) = default [] (fs !! path) /\ forall q, q <> path -> fs' !! q = fs !! q.
Proof.
  intros Hno; revert fs; induction rows as [|r rows IH]; intros fs; simpl; [by intros ->|].
  intros (fs1 & (l & _ & -> & _ & Hl) & Hrows); destruct (IH _ Hrows) as [H1 H2]; rewrite Hl in * by done.
  rewrite H1, lookup_insert_eq, app_nil_r; split; [done|].
  intros q Hq; rewrite H2 by done; by rewrite lookup_insert_ne.
Qed.

End appending.

Lemma add_rows_app header path rows1 rows2 fs :
  add_rows header path (rows1 ++ rows2) fs = add_rows header path rows2 (add_rows header path rows1 fs).
Proof. apply foldl_app. Qed.

Lemma add_rows_lookup header path rows fs :
  rows <> [] -> add_rows header path rows fs !! path =
    Some (default (csv_line header) (fs !! path) ++ csv_text rows).
Proof.
  unfold add_rows; revert fs; induction rows as [|row rows IH]; intros fs Hne; [done|]; simpl.
  assert (Hrow : add_row header path fs row !! path = Some (default (csv_line header) (fs !! path) ++ csv_line row)).
  { unfold add_row, record_text; rewrite lookup_insert_eq; by destruct (fs !! path). }
  unfold csv_text; simpl; destruct rows as [|row2 rows]; [cbn [foldl map concat]; by rewrite app_nil_r|].
  rewrite IH, Hrow by done; simpl; by rewrite <- app_assoc.
Qed.

(** The file can be read back: the records it had, if it could be read, or else the
    header, and the new ones. *)
Lemma add_rows_read header path rows fs old :
  header <> [] -> rows <> [] -> Forall (fun r => r <> []) rows ->
  match fs !! path with Some text => csv_read text | None => Some [map bytes_of header] end = Some old ->
  csv_read (default [] (add_rows header path rows fs !! path)) = Some (old ++ map (map bytes_of) rows).
Proof.
  intros Hh Hne Hr Hold; rewrite add_rows_lookup by done; simpl.
  apply read_append; [|done]; destruct (fs !! path) as [text|]; simpl; [done|].
  pose proof (text_scan [header] []) as Ht; unfold csv_text in Ht; simpl in Ht.
  rewrite !app_nil_r in Ht; injection Hold as <-; rewrite Ht by (by constructor); done.
Qed.

#[global] Arguments csv_line : simpl never.
#[global] Arguments bufio_writes : simpl never.
