(* ===== verification/Workload.v ===== *)
(** * Benchmark workloads ([src/bench/workload.go])

    The description of a workload, its validation, and the names of its records.
    Reading the file and decoding YAML are given as their results. *)

From S2P Require Import Prelude Hlc Store Wire Float Env.
#[local] Open Scope Z_scope.

Record Workload := MkWorkload {
  W_Name : string;
  W_RecordCount : Z;
  W_OperationCount : Z;
  W_ReadProportion : spec_float;
  W_UpdateProportion : spec_float;
  W_InsertProportion : spec_float;
  W_KeyPrefix : string;
  W_FieldLength : Z;
  W_RequestDistribution : string;
  W_ZipfianConstant : spec_float
}.

Definition zeroWorkload : Workload :=
  MkWorkload "" 0 0 fzero fzero fzero "" 0 "" fzero.

Definition with_KeyPrefix (p : string) (w : Workload) : Workload :=
  MkWorkload (W_Name w) (W_RecordCount w) (W_OperationCount w) (W_ReadProportion w)
    (W_UpdateProportion w) (W_InsertProportion w) p (W_FieldLength w)
    (W_RequestDistribution w) (W_ZipfianConstant w).

Definition with_ZipfianConstant (z : spec_float) (w : Workload) : Workload :=
  MkWorkload (W_Name w) (W_RecordCount w) (W_OperationCount w) (W_ReadProportion w)
    (W_UpdateProportion w) (W_InsertProportion w) (W_KeyPrefix w) (W_FieldLength w)
    (W_RequestDistribution w) z.

Section workload.
Context `{Format}.

(** The error, [None] when nil.  The receiver is a value: the default the method
    gives to [KeyPrefix] is set on its own copy. *)
Definition Validate (w : Workload) : option string :=
  if W_RecordCount w <=? 0 then Some "record_count must be > 0"
  else if W_OperationCount w <=? 0 then Some "operation_count must be > 0"
  else
    let w := if String.eqb (W_KeyPrefix w) "" then with_KeyPrefix "user" w else w in
    let sum := fadd (fadd (W_ReadProportion w) (W_UpdateProportion w)) (W_InsertProportion w) in
    if flt sum (lit 99 100) || flt (lit 101 100) sum
    then Some ("operation proportions must sum to 1.0, got " +:+ fmt_float 2 sum)
    else if W_FieldLength w <=? 0 then Some "field_length must be > 0"
    else if String.eqb (W_RequestDistribution w) "" then Some "request_distribution is required"
    else if String.eqb (W_RequestDistribution w) "uniform"
            || String.eqb (W_RequestDistribution w) "zipfian" then None
    else Some ("unsupported request_distribution " +:+ fmt_quote (bytes_of (W_RequestDistribution w))
               +:+ " (use uniform or zipfian)").

(** [data] is what [os.ReadFile] returned and [unmarshal] the YAML decoding. *)
Definition LoadWorkload (data : res (list byte)) (unmarshal : list byte -> res Workload)
    : Workload * option string :=
  match data with
  | Err e => (zeroWorkload, Some e)
  | Ok data =>
      match unmarshal data with
      | Err e => (zeroWorkload, Some e)
      | Ok w =>
          let w := if String.eqb (W_KeyPrefix w) "" then with_KeyPrefix "user" w else w in
          let w := if String.eqb (W_RequestDistribution w) "zipfian" && feq (W_ZipfianConstant w) fzero
                   then with_ZipfianConstant (lit 99 100) w else w in
          (w, Validate w)
      end
  end.

End workload.

Definition KeyFor (w : Workload) (i : Z) : string := W_KeyPrefix w +:+ fmt_d i.

(** ** Specification *)

(** What a validated workload guarantees the driver. *)
Record workload_ok (w : Workload) : Prop := {
  wo_records : 0 < W_RecordCount w;
  wo_operations : 0 < W_OperationCount w;
  wo_field : 0 < W_FieldLength w;
  wo_distribution : W_RequestDistribution w = "uniform" \/ W_RequestDistribution w = "zipfian";
  wo_sum : let sum := fadd (fadd (W_ReadProportion w) (W_UpdateProportion w)) (W_InsertProportion w) in
    flt sum (lit 99 100) = false /\ flt (lit 101 100) sum = false
}.

Lemma KeyFor_inj w i j : KeyFor w i = KeyFor w j -> i = j.
Proof. intros Heq%string_app_inj; by apply fmt_d_inj. Qed.

Lemma Validate_spec `{Format} w : Validate w = None <-> workload_ok w.
Proof.
  unfold Validate; split.
  - intros Hv; destruct (String.eqb (W_KeyPrefix w) ""); simpl in Hv;
      repeat case_match; try discriminate; bool_facts; split; try lia; try tauto;
      match goal with Hd : (_ || _)%bool = true |- _ =>
        apply orb_true_iff in Hd as [Hd|Hd]; apply String.eqb_eq in Hd; auto
      end.
  - intros [Hr Ho Hf Hd [Hlo Hhi]]; cbn zeta in *.
    rewrite (proj2 (Z.leb_gt _ _)), (proj2 (Z.leb_gt _ _)) by done.
    assert (Hf' : (W_FieldLength w <=? 0) = false) by lia.
    destruct (String.eqb (W_KeyPrefix w) ""); simpl; rewrite Hlo, Hhi, Hf'; simpl;
      by destruct Hd as [->| ->].
Qed.

(** ** Properties *)

(** Loading a workload: [LoadWorkload] returns no error exactly when the file was
    read and decoded and the workload satisfies what the driver relies on; the
    workload it then returns has a key prefix, and, for a zipfian one, a constant
    that is not zero. *)
Theorem LoadWorkload_correct `{Format} data unmarshal :
  let '(w, err) := LoadWorkload data unmarshal in
  (err = None <-> (exists d w0, data = Ok d /\ unmarshal d = Ok w0) /\ workload_ok w) /\
  (err = None -> W_KeyPrefix w <> "" /\
     (W_RequestDistribution w = "zipfian" -> feq (W_ZipfianConstant w) fzero = false)).
Proof.
  unfold LoadWorkload; destruct data as [d|e].
  2: { split; [split|]; try done. intros [(? & ? & ? & _) _]; done. }
  destruct (unmarshal d) as [w0|e] eqn:Hu.
  2: { split; [split|]; try done. intros [(? & ? & [= <-] & ?) _]; congruence. }
  rewrite Validate_spec; split; [split|].
  - intros Hw; split; [by exists d, w0|done].
  - by intros [_ ?].
  - intros _; split.
    + destruct (String.eqb_spec (W_KeyPrefix w0) ""); destruct (_ && _); simpl; done.
    + destruct (String.eqb (W_KeyPrefix w0) ""); simpl;
        destruct (String.eqb_spec (W_RequestDistribution w0) "zipfian") as [Hz|Hz]; simpl;
        (destruct (feq (W_ZipfianConstant w0) fzero) eqn:Hf; simpl; intros ?;
          [done|exact Hf]) || done.
Qed.

(** Records have different names: the keys of a workload's records are pairwise
    different, whatever the prefix. *)
Theorem KeyFor_distinct w (n : nat) :
  NoDup (map (fun i => KeyFor w (Z.of_nat i)) (seq 0 n)).
Proof.
  apply NoDup_fmap_2; [|apply NoDup_seq].
  intros i j Heq%KeyFor_inj; lia.
Qed.
