(* ===== verification/Driver.v ===== *)
(** * The benchmark driver ([src/bench/ycsb_driver.go])

    The load phase, the run phase with its random choices, and the summary of the
    latencies.  The service, the time and the random source are reached through
    the interfaces of [Env.v]; [math.Pow] and the integer Go leaves to the
    implementation when a float does not convert are a class of their own. *)

From S2P Require Import Prelude Hlc Store Wire Float Env Process Csv Workload.
#[local] Open Scope Z_scope.

Class Math := {
  math_Pow : spec_float -> spec_float -> spec_float;
  int_other : spec_float -> Z
}.

(** ** Data *)

Record Result := MkResult {
  Res_Mode : string;
  Res_Workload : string;
  Res_Seed : Z;
  Res_PeerDelayMs : Z;
  Res_Operations : Z;
  Res_Reads : Z;
  Res_Writes : Z;
  Res_Errors : Z;
  Res_Duration : Z;
  Res_Throughput : spec_float;
  Res_LatencyP50NS : Z;
  Res_LatencyP95NS : Z;
  Res_LatencyP99NS : Z;
  Res_LatencyAvgNS : Z
}.

Record Driver := MkDriver {
  D_Client : client;
  D_Workload : Workload;
  D_Mode : string;
  D_Seed : Z
}.

Definition byte_of_Z (z : Z) : byte := default x00 (Byte.of_N (Z.to_N (z mod 256))).

(** A slice of [n] elements given by their index. *)
Definition make {A} (n : Z) (f : Z -> A) : list A :=
  map (fun i => f (Z.of_nat i)) (seq 0 (Z.to_nat n)).

(** ** Hashing *)

Definition offset64 : Z := 0xcbf29ce484222325.
Definition prime64 : Z := 0x100000001b3.

Fixpoint fnv_loop (n : nat) (hash val : Z) : Z :=
  match n with
  | O => hash
  | S n =>
      let hash := Z.lxor hash (Z.land val 0xff) in
      let hash := uint64 (hash * prime64) in
      fnv_loop n hash (Z.shiftr val 8)
  end.

Definition fnvHash64 (val : Z) : Z := fnv_loop 8 offset64 val.

(** ** Summary *)

Definition percentile (sorted : list Z) (p : spec_float) : option Z :=
  if Nat.eqb (length sorted) 0 then Some 0
  else
    idx ← rank (Z.of_nat (length sorted) - 1) p;
    if idx <? 0 then None else sorted !! Z.to_nat idx.

(** [None] is an index out of range. *)
Definition summarize (latencies : list Z) : option (Z * Z * Z * Z) :=
  if Nat.eqb (length latencies) 0 then Some (0, 0, 0, 0)
  else
    let sorted := merge_sort Z.le latencies in
    let sum := foldl (fun sum v => int64 (sum + v)) 0 sorted in
    let avg := Z.quot sum (Z.of_nat (length sorted)) in
    v50 ← percentile sorted p50;
    v95 ← percentile sorted p95;
    v99 ← percentile sorted p99;
    Some (v50, v95, v99, avg).

(** [Duration.Seconds]. *)
Definition Seconds (d : Z) : spec_float :=
  fadd (of_int (Z.quot d 1000000000)) (fdiv (of_int (Z.rem d 1000000000)) (of_int 1000000000)).

Section driver.
Context {W : Type} `{KVService W} `{Time W} `{Random W} `{Format} `{Math}.

Definition int (f : spec_float) : Z := default (int_other f) (to_int f).

(** A seed of 0 is replaced by the time; the generator seeded with it is the
    world's random source. *)
Definition NewDriver (client : client) (wl : Workload) (mode : string) (seed : Z) (w : W)
    : W * Driver :=
  if seed =? 0 then
    let '(w, now) := time_Now w in (w, MkDriver client wl mode now)
  else (w, MkDriver client wl mode seed).

Fixpoint load_loop (d : Driver) (value : list byte) (ids : list Z) (w : W) : W * option string :=
  match ids with
  | [] => (w, None)
  | i :: ids =>
      let key := KeyFor (D_Workload d) i in
      match client_Put (D_Client d) (MkPutRequest key value) w with
      | (w, Err e) => (w, Some ("load " +:+ key +:+ ": " +:+ e))
      | (w, Ok _) => load_loop d value ids w
      end
  end.

(** The panic of [make] is [None]. *)
Definition load_value (wl : Workload) : option (list byte) :=
  if make_ok 1 (W_FieldLength wl)
  then Some (make (W_FieldLength wl) (fun i => byte_of_Z (97 + i mod 26)))
  else None.

(** The error of a [Load] that ends. *)
Definition Load (d : Driver) (w : W) : W * option (option string) :=
  match load_value (D_Workload d) with
  | None => (w, None)
  | Some value =>
      let '(w, err) := load_loop d value (make (W_RecordCount (D_Workload d)) id) w in (w, Some err)
  end.

Definition pickOperation (d : Driver) (w : W) : W * string :=
  let '(w, r) := rand_Float64 w in
  if flt r (W_ReadProportion (D_Workload d)) then (w, "read")
  else
    let r := fsub r (W_ReadProportion (D_Workload d)) in
    if flt r (W_UpdateProportion (D_Workload d)) then (w, "update")
    else (w, "insert").

Definition zipfianIndex (n : Z) (theta : spec_float) (w : W) : W * Z :=
  if n <=? 1 then (w, 0)
  else
    let theta := if fle theta fzero then lit 99 100 else theta in
    let '(w, u) := rand_Float64 w in
    let idx := int (fmul (of_int n) (math_Pow u (fdiv (of_int 1) theta))) in
    let idx := if n <=? idx then n - 1 else idx in
    (w, idx).

Definition scrambledZipfianIndex (n : Z) (theta : spec_float) (w : W) : W * Z :=
  if n <=? 1 then (w, 0)
  else
    let '(w, raw) := zipfianIndex n theta w in
    (w, fnvHash64 (int64 raw) mod n).

Definition pickKey (d : Driver) (w : W) : W * string :=
  let n := W_RecordCount (D_Workload d) in
  let '(w, idx) :=
    if String.eqb (W_RequestDistribution (D_Workload d)) "zipfian"
    then scrambledZipfianIndex n (W_ZipfianConstant (D_Workload d)) w
    else rand_Intn n w in
  (w, KeyFor (D_Workload d) idx).

Definition run_value (wl : Workload) (i : Z) : option (list byte) :=
  if make_ok 1 (W_FieldLength wl)
  then Some (make (W_FieldLength wl) (fun j => byte_of_Z (120 + (i + j) mod 26)))
  else None.

(** The variables of the run's loop. *)
Record tally := MkTally {
  t_latencies : list Z;
  t_operations : Z;
  t_reads : Z;
  t_writes : Z;
  t_errors : Z
}.

(** One iteration; [None] is a panic, in all of the loop. *)
Definition run_op (d : Driver) (i : Z) (t : tally) (w : W) : W * option tally :=
  let '(w, op) := pickOperation d w in
  let '(w, key) := pickKey d w in
  let '(w, opStart) := time_Now w in
  let '(w, done) :=
    if String.eqb op "read" then
      let '(w, r) := client_Get (D_Client d) (MkGetRequest key) w in
      (w, Some (negb (is_ok r), t_reads t + 1, t_writes t))
    else if String.eqb op "update" || String.eqb op "insert" then
      match run_value (D_Workload d) i with
      | None => (w, None)
      | Some value =>
          let '(w, r) := client_Put (D_Client d) (MkPutRequest key value) w in
          (w, Some (negb (is_ok r), t_reads t, t_writes t + 1))
      end
    else (w, Some (true, t_reads t, t_writes t)) in
  match done with
  | None => (w, None)
  | Some (err, reads, writes) =>
      let '(w, now) := time_Now w in
      (w, Some (MkTally (t_latencies t ++ [now - opStart]) (t_operations t + 1) reads writes
                  (if err then t_errors t + 1 else t_errors t)))
  end.

Fixpoint run_ops (d : Driver) (ids : list Z) (t : tally) (w : W) : W * option tally :=
  match ids with
  | [] => (w, Some t)
  | i :: ids =>
      match run_op d i t w with
      | (w, None) => (w, None)
      | (w, Some t) => run_ops d ids t w
      end
  end.

Definition Run (d : Driver) (w : W) : W * option Result :=
  if negb (make_ok 8 (W_OperationCount (D_Workload d))) then (w, None) else
  let '(w, start) := time_Now w in
  match run_ops d (make (W_OperationCount (D_Workload d)) id) (MkTally [] 0 0 0 0) w with
  | (w, None) => (w, None)
  | (w, Some t) =>
      let '(w, now) := time_Now w in
      let duration := now - start in
      (w, '(v50, v95, v99, avg) ← summarize (t_latencies t);
          Some (MkResult (D_Mode d) (W_Name (D_Workload d)) (D_Seed d) 0 (t_operations t) (t_reads t)
                  (t_writes t) (t_errors t) duration
                  (fdiv (of_int (t_operations t)) (Seconds duration)) v50 v95 v99 avg))
  end.

Definition SummaryHeader : list string :=
  ["mode"; "workload"; "seed"; "peer_delay_ms"; "operations"; "reads"; "writes"; "errors";
   "duration_ms"; "throughput_ops"; "latency_p50_ns"; "latency_p95_ns";
   "latency_p99_ns"; "latency_avg_ns"].

Definition Row (r : Result) : list string :=
  [Res_Mode r; Res_Workload r; fmt_d (Res_Seed r); fmt_d (Res_PeerDelayMs r);
   fmt_d (Res_Operations r); fmt_d (Res_Reads r); fmt_d (Res_Writes r); fmt_d (Res_Errors r);
   fmt_float 3 (fmul (Seconds (Res_Duration r)) (of_int 1000)); fmt_float 2 (Res_Throughput r);
   fmt_d (Res_LatencyP50NS r); fmt_d (Res_LatencyP95NS r); fmt_d (Res_LatencyP99NS r);
   fmt_d (Res_LatencyAvgNS r)].

End driver.

(** ** Files *)

(** The character [/]. *)
Definition slash : Ascii.ascii := Ascii.ascii_of_nat 47.

(** The loop from the last character down; [i] is the index plus one. *)
Fixpoint dir_loop (i : nat) (path : string) : string :=
  match i with
  | O => "."
  | S i =>
      match String.get i path with
      | Some c => if Ascii.eqb c slash then String.substring 0 i path else dir_loop i path
      | None => dir_loop i path
      end
  end.

Definition dirOf (path : string) : string := dir_loop (String.length path) path.

Definition fileExists {W : Type} (path : string) : cmd W bool := os_Stat path.

(** The error is the result; the process goes on.  The error [Write] returns is the
    one its writer keeps.  That of [f.Close] is not looked at. *)
Definition WriteSummaryCSV {W : Type} `{Files W} `{Format} (path : string) (res : Result)
    : cmd W (option string) :=
  err ← in_world (os_MkdirAll (dirOf path));
  match err with
  | Some e => mret (Some e)
  | None =>
      exists_ ← fileExists path;
      err ← open_append path;
      match err with
      | Some e => mret (Some e)
      | None =>
          let w := csv_NewWriter path in
          w ← (if negb exists_ then csv_Write SummaryHeader w else mret w);
          match cw_err w with
          | Some e => mret (Some e)
          | None =>
              w ← csv_Write (Row res) w;
              match cw_err w with
              | Some e => mret (Some e)
              | None => w ← csv_Flush w; mret (csv_Error w)
              end
          end
      end
  end.

(** ** Specification *)

(** The eight bytes of a 64-bit integer, the least significant first. *)
Definition le_bytes (val : Z) : list Z :=
  map (fun i => (uint64 val / 256 ^ Z.of_nat i) mod 256) (seq 0 8).

(** FNV-1a over bytes. *)
Definition fnv1a_step (hash b : Z) : Z := uint64 (Z.lxor hash b * prime64).
Definition fnv1a (bytes : list Z) : Z := foldl fnv1a_step offset64 bytes.

(** ** Lemmas *)

Lemma make_length {A} n (f : Z -> A) : 0 <= n -> Z.of_nat (length (make n f)) = n.
Proof. intros Hn; unfold make; rewrite length_map, length_seq; lia. Qed.

Lemma fnv_loop_fold n hash val :
  fnv_loop n hash val =
  foldl fnv1a_step hash (map (fun i => (val / 256 ^ Z.of_nat i) mod 256) (seq 0 n)).
Proof.
  revert hash val; induction n as [|n IH]; intros hash val; [done|].
  cbn [fnv_loop seq map foldl]; rewrite IH, <- seq_shift, map_map.
  change 255 with (Z.ones 8); rewrite Z.land_ones, Z.shiftr_div_pow2 by lia.
  change (2 ^ 8) with 256; change (Z.of_nat 0) with 0; rewrite Z.pow_0_r, Z.div_1_r.
  f_equal; apply map_ext; intros i.
  rewrite Z.div_div by lia; rewrite Nat2Z.inj_succ, Z.pow_succ_r by lia; done.
Qed.

Lemma byte_uint64 val i :
  (i < 8)%nat -> (val / 256 ^ Z.of_nat i) mod 256 = (uint64 val / 256 ^ Z.of_nat i) mod 256.
Proof.
  intros Hi; unfold uint64, wrap_u.
  assert (Hp : 2 ^ 64 = 256 ^ Z.of_nat i * (256 ^ (7 - Z.of_nat i) * 256)).
  { rewrite Z.mul_comm, <- Z.mul_assoc, <- (Z.pow_succ_r 256) by lia.
    rewrite <- Z.pow_add_r by lia.
    replace (7 - Z.of_nat i + Z.succ (Z.of_nat i)) with 8 by lia; done. }
  rewrite (Z.div_mod val (2 ^ 64)) at 1 by lia; rewrite Hp at 1.
  rewrite Z.add_comm, <- Z.mul_assoc, (Z.mul_comm (256 ^ _)), Z.div_add by lia.
  rewrite (Z.mul_comm _ (val / _)), Z.mul_assoc, Z.mod_add by lia; done.
Qed.

Section summary.

Lemma merge_sort_Permutation (l : list Z) : merge_sort Z.le l ≡ₚ l.
Proof. apply merge_sort_Permutation. Qed.

Lemma percentile_rank sorted p r :
  rank (Z.of_nat (length sorted) - 1) p = Some r ->
  0 <= r <= Z.of_nat (length sorted) - 1 ->
  exists v, percentile sorted p = Some v /\ sorted !! Z.to_nat r = Some v.
Proof.
  intros Hr Hrange; unfold percentile.
  destruct (Nat.eqb_spec (length sorted) 0) as [Hz|_]; [lia|].
  rewrite Hr; simpl; rewrite (proj2 (Z.ltb_ge r 0)) by lia.
  destruct (lookup_lt_is_Some_2 sorted (Z.to_nat r)) as [v Hv]; [lia|]; by exists v.
Qed.

Lemma sorted_lookup_le (l : list Z) i j x y :
  StronglySorted Z.le l -> l !! i = Some x -> l !! j = Some y -> (i <= j)%nat -> x <= y.
Proof.
  intros Hs; revert i j; induction Hs as [|z l Hs IH Hall]; intros i j Hi Hj Hle; [done|].
  destruct i as [|i], j as [|j]; simplify_eq/=; try lia.
  - rewrite Forall_forall in Hall; apply Hall; by eapply list_elem_of_lookup_2.
  - by eapply (IH i j); [..|lia].
Qed.

Lemma sum_fold l s :
  Forall (fun v => 0 <= v) l -> 0 <= s -> s + foldr Z.add 0 l <= 9223372036854775807 ->
  foldl (fun sum v => int64 (sum + v)) s l = s + foldr Z.add 0 l.
Proof.
  intros Hl; revert s; induction Hl as [|v l Hv Hl IH]; intros s Hs Hsum; simpl in *; [lia|].
  assert (Hpos : 0 <= foldr Z.add 0 l) by (clear -Hl; induction Hl; simpl; lia).
  rewrite int64_small by (unfold in_int64; lia). rewrite IH by lia; lia.
Qed.

Lemma sum_Permutation l k : l ≡ₚ k -> foldr Z.add 0 l = foldr Z.add 0 k.
Proof. induction 1; simpl; lia. Qed.

End summary.

Section picking.
Context {W : Type} `{Random W} `{Math}.

Lemma scrambled_range n theta (w : W) :
  0 < n -> 0 <= snd (scrambledZipfianIndex n theta w) < n.
Proof.
  intros Hn; unfold scrambledZipfianIndex; destruct (Z.leb_spec n 1); simpl; [lia|].
  destruct (zipfianIndex n theta w) as [w1 raw]; simpl; by apply Z.mod_pos_bound.
Qed.

Lemma zipfianIndex_lt n theta (w : W) : 0 < n -> snd (zipfianIndex n theta w) < n.
Proof.
  intros Hn; unfold zipfianIndex; destruct (Z.leb_spec n 1); simpl; [lia|].
  destruct (rand_Float64 w) as [w1 u].
  match goal with |- snd (_, if _ <=? ?i then _ else _) < _ => destruct (Z.leb_spec n i) end;
    simpl; lia.
Qed.

Lemma pickOperation_cases d (w : W) :
  snd (pickOperation d w) = "read" \/ snd (pickOperation d w) = "update" \/
  snd (pickOperation d w) = "insert".
Proof.
  unfold pickOperation; destruct (rand_Float64 w) as [w1 r].
  destruct (flt r _); simpl; [auto|]; destruct (flt _ _); simpl; auto.
Qed.

End picking.

(** The key drawn is that of a record. *)
Lemma pickKey_index {W : Type} `{RandomLaws W} `{Math} d (w : W) :
  0 < W_RecordCount (D_Workload d) ->
  exists idx, snd (pickKey d w) = KeyFor (D_Workload d) idx /\ 0 <= idx < W_RecordCount (D_Workload d).
Proof.
  intros Hn; unfold pickKey; set (n := W_RecordCount (D_Workload d)) in *.
  assert (Hr : 0 <= snd (if String.eqb (W_RequestDistribution (D_Workload d)) "zipfian"
    then scrambledZipfianIndex n (W_ZipfianConstant (D_Workload d)) w else rand_Intn n w) < n).
  { destruct (String.eqb _ _); [by apply scrambled_range|by apply rand_Intn_law]. }
  destruct (if String.eqb _ _ then _ else _) as [w1 idx]; by exists idx.
Qed.

(** The counters of the run's loop after [n] operations. *)
Record tally_ok (n : Z) (t : tally) : Prop := {
  to_operations : t_operations t = n;
  to_latencies : Z.of_nat (length (t_latencies t)) = n;
  to_reads : 0 <= t_reads t;
  to_writes : 0 <= t_writes t;
  to_sum : t_reads t + t_writes t = n;
  to_errors : 0 <= t_errors t <= n
}.

Section operations.
Context {W : Type} `{KVService W} `{Time W} `{Random W} `{Math} (d : Driver).
(** What a part of the run that started with [n] operations done ends with. *)
Definition tallied (n : Z) (r : option tally) : Prop :=
  match r with
  | Some t => tally_ok n t
  | None => make_ok 1 (W_FieldLength (D_Workload d)) = false
  end.

Lemma run_op_ok i n t (w : W) : tally_ok n t -> tallied (n + 1) (snd (run_op d i t w)).
Proof.
  intros [Ho Hl Hr Hw Hs He]; unfold run_op, run_value.
  pose proof (pickOperation_cases d w) as Hop; destruct (pickOperation d w) as [w1 op]; simpl in Hop.
  destruct (pickKey d w1) as [w2 key], (time_Now w2) as [w3 start].
  destruct Hop as [->|[->| ->]]; simpl.
  1: destruct (client_Get _ _ w3) as [w4 r].
  2,3: destruct (make_ok 1 _) eqn:Hf; [|exact Hf]; destruct (client_Put _ _ w3) as [w4 r].
  all: destruct (time_Now w4) as [w5 now]; split; simpl; rewrite ?length_app; simpl;
    destruct (is_ok r); simpl; lia.
Qed.

Lemma run_ops_ok ids n t (w : W) :
  tally_ok n t -> tallied (n + Z.of_nat (length ids)) (snd (run_ops d ids t w)).
Proof.
  revert n t w; induction ids as [|i ids IH]; intros n t w Ht; simpl; [by rewrite Z.add_0_r|].
  pose proof (run_op_ok i n t w Ht) as Ht'; destruct (run_op d i t w) as [w1 [t1|]]; [|exact Ht'].
  replace (n + Z.of_nat (S (length ids))) with (n + 1 + Z.of_nat (length ids)) by lia; by apply IH.
Qed.

End operations.

(** The percentiles of a list that is not empty. *)
Lemma summarize_spec latencies :
  0 < Z.of_nat (length latencies) < 2 ^ 53 ->
  exists v50 v95 v99, summarize latencies =
    Some (v50, v95, v99, Z.quot (foldl (fun sum v => int64 (sum + v)) 0 (merge_sort Z.le latencies))
                           (Z.of_nat (length latencies))) /\
    v50 ∈ latencies /\ v95 ∈ latencies /\ v99 ∈ latencies /\ v50 <= v95 <= v99.
Proof.
  intros Hlen; unfold summarize; destruct (Nat.eqb_spec (length latencies) 0) as [Hz|_]; [lia|].
  set (sorted := merge_sort Z.le latencies).
  assert (Hp : sorted ≡ₚ latencies) by apply merge_sort_Permutation.
  assert (Hs : StronglySorted Z.le sorted) by (apply StronglySorted_merge_sort; apply _).
  pose proof (Permutation_length Hp) as Hl; rewrite Hl.
  destruct (ranks_ordered (Z.of_nat (length latencies) - 1)) as (a & b & d & Ha & Hb & Hd & ? & ?);
    [lia|]; rewrite <- Hl in Ha, Hb, Hd.
  destruct (percentile_rank sorted p50 a Ha) as (v50 & -> & Hv50); [lia|].
  destruct (percentile_rank sorted p95 b Hb) as (v95 & -> & Hv95); [lia|].
  destruct (percentile_rank sorted p99 d Hd) as (v99 & -> & Hv99); [lia|].
  exists v50, v95, v99; simpl; split; [done|]; rewrite <- !Hp.
  split_and!; try (by eapply list_elem_of_lookup_2);
    eapply sorted_lookup_le; try done; lia.
Qed.

Section latencies.
Context {W : Type} `{TimeLaws W} `{Random W} `{Math}.

Definition latencies_nonneg (r : option tally) : Prop :=
  match r with Some t => Forall (fun v => 0 <= v) (t_latencies t) | None => True end.

Lemma run_op_nonneg d i t (w : W) :
  Forall (fun v => 0 <= v) (t_latencies t) -> latencies_nonneg (snd (run_op d i t w)).
Proof.
  intros Ht; unfold run_op; destruct (pickOperation d w) as [w1 op].
  destruct (pickKey d w1) as [w2 key].
  pose proof (time_Now_law w2) as Hs; destruct (time_Now w2) as [w3 start]; simpl in Hs.
  assert (Hlast : forall w4, time_of w3 <= time_of w4 -> 0 <= snd (time_Now w4) - start).
  { intros w4 Hw4; pose proof (time_Now_law w4); lia. }
  destruct (String.eqb op "read"); [|destruct (_ || _)%bool; [destruct (run_value _ _) as [value|]; [|done]|]].
  - pose proof (time_Get (D_Client d) (MkGetRequest key) w3) as Hg.
    destruct (client_Get _ _ w3) as [w4 r]; specialize (Hlast w4 Hg).
    destruct (time_Now w4) as [w5 now]; simpl in *; apply Forall_app; by repeat constructor.
  - pose proof (time_Put (D_Client d) (MkPutRequest key value) w3) as Hg.
    destruct (client_Put _ _ w3) as [w4 r]; specialize (Hlast w4 Hg).
    destruct (time_Now w4) as [w5 now]; simpl in *; apply Forall_app; by repeat constructor.
  - specialize (Hlast w3 (Z.le_refl _)).
    destruct (time_Now w3) as [w5 now]; simpl in *; apply Forall_app; by repeat constructor.
Qed.

Lemma run_ops_nonneg d ids t (w : W) :
  Forall (fun v => 0 <= v) (t_latencies t) -> latencies_nonneg (snd (run_ops d ids t w)).
Proof.
  revert t w; induction ids as [|i ids IH]; intros t w Ht; simpl; [done|].
  pose proof (run_op_nonneg d i t w Ht) as Ht'.
  destruct (run_op d i t w) as [w1 [t1|]]; [by apply IH|done].
Qed.

End latencies.

(** The slices of a run can be made: the latencies and the values. *)
Definition run_makes (wl : Workload) : bool := make_ok 8 (W_OperationCount wl) && make_ok 1 (W_FieldLength wl).

(** What a result says of a run of [n] operations. *)
Definition result_ok (n : Z) (res : Result) : Prop :=
  Res_Operations res = n /\ 0 <= Res_Reads res /\ 0 <= Res_Writes res /\
  Res_Reads res + Res_Writes res = Res_Operations res /\ 0 <= Res_Errors res <= Res_Operations res /\
  0 <= Res_LatencyP50NS res <= Res_LatencyP95NS res /\ Res_LatencyP95NS res <= Res_LatencyP99NS res.

(** The whole run. *)
Lemma run_ends {W : Type} `{TimeLaws W} `{Random W} `{Math} d (w : W) :
  0 < W_OperationCount (D_Workload d) ->
  match snd (Run d w) with
  | Some res => result_ok (W_OperationCount (D_Workload d)) res
  | None => run_makes (D_Workload d) = false
  end.
Proof.
  intros Hpos; unfold Run, run_makes; destruct (make_ok 8 _) eqn:Hops; [|done]; simpl.
  destruct (time_Now w) as [w1 start]; apply make_ok_spec in Hops.
  pose proof (run_ops_ok d (make (W_OperationCount (D_Workload d)) id) 0 (MkTally [] 0 0 0 0) w1) as Hok.
  pose proof (run_ops_nonneg d (make (W_OperationCount (D_Workload d)) id) (MkTally [] 0 0 0 0) w1
    (Forall_nil_2 _)) as Hnn; destruct (run_ops _ _ _ w1) as [w2 [t|]]; [|by apply Hok].
  destruct (time_Now w2) as [w3 now]; simpl in *.
  rewrite make_length in * by lia; destruct Hok as [Ho Hl Hr Hw Hs He]; [by split; simpl|].
  destruct (summarize_spec (t_latencies t)) as (v50 & v95 & v99 & Hsum & Hv50 & _ & _ & ? & ?);
    [lia|]; rewrite Hsum; simpl.
  rewrite Forall_forall in Hnn; specialize (Hnn _ Hv50).
  unfold result_ok; simpl; split_and!; lia.
Qed.

(** ** Properties *)

(** The result of a run of a workload with records ([Intn] panics without): [Run]
    never indexes out of range, and panics only when one of its slices is too large
    to be made; it counts every operation of the
    workload once, as a read or a write (the unknown operation is never picked), no
    more errors than operations, and its latency percentiles are in order and not
    negative. *)
Theorem Run_correct {W : Type} `{TimeLaws W} `{Random W} `{Math} d (w : W) :
  0 < W_OperationCount (D_Workload d) ->
  match snd (Run d w) with
  | Some res => result_ok (W_OperationCount (D_Workload d)) res
  | None => run_makes (D_Workload d) = false
  end.
Proof. apply run_ends. Qed.

#[export] Instance half_math : Math := {| math_Pow u _ := u; int_other _ := 0 |}.

Definition c_workload : Workload :=
  MkWorkload "a" 10 4 (lit 1 2) (lit 1 2) fzero "user" 3 "zipfian" (lit 99 100).
Definition c_driver : Driver := MkDriver 0 c_workload "causal" 1.
Definition c_bench : fixture :=
  MkFixture (fun _ _ _ => Ok (MkGetResponse [] None false))
    (fun _ _ _ => Err "unavailable") 0
    [lit 1 4; lit 1 8; lit 3 4; lit 1 3; lit 9 10; fzero; fzero; lit 2 3] [].

Lemma Run_correct_witness :
  match snd (Run c_driver c_bench) with Some res => Res_Operations res = 4 | None => False end /\
  option_map (fun r => (Res_Reads r, Res_Writes r, Res_Errors r, Res_LatencyP99NS r))
    (snd (Run c_driver c_bench)) = Some (2, 2, 2, 1000000).
Proof.
  split; [|vm_compute; reflexivity].
  assert (Hr : match snd (Run c_driver c_bench) with
               | Some res => result_ok 4 res | None => run_makes c_workload = false end).
  { apply (Run_correct c_driver c_bench); simpl; lia. }
  destruct (snd (Run c_driver c_bench)) as [res|]; [exact (proj1 Hr)|discriminate Hr].
Defined.

(** A count of operations whose latencies cannot be made is a panic. *)
Example Run_too_large :
  snd (Run (MkDriver 0 (MkWorkload "a" 10 (10 ^ 15) (lit 1 2) (lit 1 2) fzero "user" 3 "zipfian" (lit 99 100))
    "causal" 1) c_bench) = None.
Proof. reflexivity. Qed.

(** C40: every key a run touches has been loaded: for a workload with records, the
    index [pickKey] draws, uniform or scrambled zipfian, is that of a record of the
    workload, whatever [math.Pow] returns, and whatever the operation drawn before
    it. *)
Theorem pickKey_loaded {W : Type} `{RandomLaws W} `{Math} d (w : W) :
  0 < W_RecordCount (D_Workload d) ->
  exists idx, snd (pickKey d w) = KeyFor (D_Workload d) idx /\
    0 <= idx < W_RecordCount (D_Workload d) /\
    snd (pickKey d w) ∈
      map (KeyFor (D_Workload d)) (make (W_RecordCount (D_Workload d)) id).
Proof.
  intros Hn; destruct (pickKey_index d w Hn) as (idx & Hk & Hi).
  exists idx; split_and!; try lia; [done|]; rewrite Hk.
  rewrite list_elem_of_In; apply in_map; unfold make; rewrite in_map_iff.
  exists (Z.to_nat idx); rewrite in_seq; unfold id; lia.
Qed.

Lemma pickKey_loaded_witness :
  snd (pickKey c_driver c_bench) = "user3" /\
  exists idx, snd (pickKey c_driver c_bench) = KeyFor c_workload idx /\ 0 <= idx < 10.
Proof.
  split; [vm_compute; reflexivity|].
  destruct (pickKey_loaded c_driver c_bench) as (idx & Hk & Hi & _).
  - simpl; lia.
  - exists idx; split; [exact Hk|exact Hi].
Defined.

(** The latency summary: for a list that is not empty, [summarize] returns three of
    its latencies in order, and, when none is negative and their sum fits an
    int64, the rounded-down mean, which lies between the smallest and the
    largest. *)
Theorem summarize_correct latencies :
  0 < Z.of_nat (length latencies) < 2 ^ 53 ->
  exists v50 v95 v99 avg, summarize latencies = Some (v50, v95, v99, avg) /\
    v50 ∈ latencies /\ v95 ∈ latencies /\ v99 ∈ latencies /\ v50 <= v95 <= v99 /\
    (Forall (fun v => 0 <= v) latencies -> foldr Z.add 0 latencies <= 9223372036854775807 ->
       avg = foldr Z.add 0 latencies / Z.of_nat (length latencies) /\
       forall lo hi, Forall (fun v => lo <= v <= hi) latencies -> lo <= avg <= hi).
Proof.
  intros Hlen; destruct (summarize_spec latencies Hlen) as (v50 & v95 & v99 & -> & Hrest).
  do 4 eexists; split; [done|]; destruct Hrest as (? & ? & ? & ?); split_and!; try lia; try done.
  assert (Hp : merge_sort Z.le latencies ≡ₚ latencies) by apply merge_sort_Permutation.
  intros Hnn Hsum; rewrite sum_fold, (sum_Permutation _ _ Hp) by
    (rewrite ?Hp, ?(sum_Permutation _ _ Hp); done || lia); rewrite Z.add_0_l.
  assert (Hpos : 0 <= foldr Z.add 0 latencies) by (clear -Hnn; induction Hnn; simpl; lia).
  rewrite Z.quot_div_nonneg by lia; split; [done|]; intros lo hi Hb.
  assert (Hbounds : lo * Z.of_nat (length latencies) <= foldr Z.add 0 latencies <=
                    hi * Z.of_nat (length latencies)).
  { clear -Hb; induction Hb; cbn [length foldr]; lia. }
  split; [apply Z.div_le_lower_bound|apply Z.div_le_upper_bound]; lia.
Qed.

Lemma summarize_correct_witness :
  summarize [30; 10; 20; 40] = Some (20, 30, 30, 25) /\
  exists v50 v95 v99 avg, summarize [30; 10; 20; 40] = Some (v50, v95, v99, avg) /\ v50 <= v95 <= v99.
Proof.
  split; [vm_compute; reflexivity|].
  destruct (summarize_correct [30; 10; 20; 40]) as (v50 & v95 & v99 & avg & Hs & _ & _ & _ & Ho & _).
  - simpl; lia.
  - exists v50, v95, v99, avg; split; [exact Hs|exact Ho].
Defined.

(** The ranks: [int(float64(n-1) * p)] is, for up to 200 samples and in spite of
    the rounding of the constants, the rank rounded down in exact arithmetic. *)
Theorem percentile_rank_exact n :
  0 <= n < 200 ->
  rank n p50 = Some (n / 2) /\ rank n p95 = Some (n * 95 / 100) /\ rank n p99 = Some (n * 99 / 100).
Proof.
  intros Hn.
  assert (Hall : Forall (fun i => rank (Z.of_nat i) p50 = Some (Z.of_nat i / 2) /\
    rank (Z.of_nat i) p95 = Some (Z.of_nat i * 95 / 100) /\
    rank (Z.of_nat i) p99 = Some (Z.of_nat i * 99 / 100)) (seq 0 200)).
  { apply (bool_decide_unpack _); vm_compute; exact I. }
  rewrite Forall_forall in Hall; specialize (Hall (Z.to_nat n)).
  rewrite Z2Nat.id in Hall by lia; apply Hall; rewrite list_elem_of_In, in_seq; lia.
Qed.

Lemma percentile_rank_exact_witness : rank 99 p95 = Some 94.
Proof. apply (percentile_rank_exact 99); lia. Defined.

(** The hash: [fnvHash64] of an int64 is FNV-1a over its eight bytes, the least
    significant first, and is a uint64. *)
Theorem fnvHash64_fnv1a val :
  fnvHash64 val = fnv1a (le_bytes val) /\ in_uint64 (fnvHash64 val).
Proof.
  assert (Heq : fnvHash64 val = fnv1a (le_bytes val)).
  { unfold fnvHash64, fnv1a, le_bytes; rewrite fnv_loop_fold; f_equal.
    apply map_ext_in; intros i [_ Hi]%in_seq; apply byte_uint64; lia. }
  split; [done|]; unfold fnvHash64; cbn [fnv_loop]; apply uint64_range.
Qed.


(** The records the scrambling can reach from the indexes of [n] records. *)
Definition reachable (n : Z) : gset Z :=
  list_to_set (make n (fun raw => fnvHash64 raw mod n)).

(** The scrambling is not a permutation: with the 1000 records of the shipped
    workloads, the hash modulo the number of records reaches only 648 of them,
    so 352 loaded records are never read or updated by a zipfian run. *)
Theorem scramble_not_permutation {W : Type} `{Random W} `{Math} theta (w : W) :
  0 <= snd (zipfianIndex 1000 theta w) ->
  snd (scrambledZipfianIndex 1000 theta w) ∈ reachable 1000 /\ size (reachable 1000) = 648%nat.
Proof.
  intros Hraw; split; [|vm_compute; reflexivity].
  pose proof (zipfianIndex_lt 1000 theta w eq_refl) as Hup.
  unfold scrambledZipfianIndex; change (1000 <=? 1) with false; cbn iota.
  destruct (zipfianIndex 1000 theta w) as [w1 raw]; cbn [snd] in *.
  rewrite int64_small by (unfold in_int64; lia).
  unfold reachable; rewrite elem_of_list_to_set.
  unfold make; rewrite list_elem_of_In, in_map_iff; exists (Z.to_nat raw).
  rewrite in_seq, Z2Nat.id by done; split; [done|lia].
Qed.

Lemma scramble_not_permutation_witness :
  snd (scrambledZipfianIndex 1000 (lit 99 100) c_bench) ∈ reachable 1000.
Proof.
  assert (Hraw : 0 <= snd (zipfianIndex 1000 (lit 99 100) c_bench)).
  { vm_compute; discriminate. }
  exact (proj1 (scramble_not_permutation (lit 99 100) c_bench Hraw)).
Defined.
