(* ===== verification/Experiments.v ===== *)
(** * The consistency experiments ([src/internal/experiments/experiments.go])

    Staleness: write at the origin and poll the replica until the value shows.
    Causal chains: write A, read it, write B at the origin, and look at the
    replica for B without A.  The nodes and the time are those of [Env.v],
    connections those of [Process.v]. *)

From S2P Require Import Prelude Hlc Store Wire Float Env Process.
#[local] Open Scope Z_scope.

(** ** Data *)

(** The connection is a pointer that may be nil. *)
Record Client := MkClient {
  Client_Addr : string;
  Client_Client : client;
  Client_conn : option nat
}.

Definition Dial {W : Type} (dial : string -> res client) (addr : string) : cmd W (res Client) :=
  r ← grpc_NewClient dial addr;
  match r with
  | Err e => mret (Err e)
  | Ok (c, conn) => mret (Ok (MkClient addr c (Some conn)))
  end.

(** Its callers discard the error of closing. *)
Definition Client_Close {W : Type} (c : Client) : cmd W unit :=
  match Client_conn c with
  | Some conn => conn_Close conn
  | None => mret tt
  end.

Record StalenessResult := MkStalenessResult {
  SR_Trials : Z;
  SR_Visible : Z;
  SR_MeanMs : spec_float;
  SR_P95Ms : spec_float;
  SR_Timeouts : Z;
  SR_SamplesMs : list spec_float
}.

Record CausalChainResult := MkCausalChainResult {
  CC_Trials : Z;
  CC_Violations : Z;
  CC_TrialViolations : list bool
}.

(** ** Statistics *)

Definition mean (vals : list spec_float) : spec_float :=
  if Nat.eqb (length vals) 0 then fzero
  else
    let sum := foldl fadd fzero vals in
    fdiv sum (of_int (Z.of_nat (length vals))).

(** The body of the double loop: [cp[i], cp[j] = cp[j], cp[i]] if out of order. *)
Definition exchange (i : nat) (cp : list spec_float) (j : nat) : list spec_float :=
  match cp !! i, cp !! j with
  | Some x, Some y => if flt y x then <[i := y]> (<[j := x]> cp) else cp
  | _, _ => cp
  end.

Definition exchange_row (cp : list spec_float) (i : nat) : list spec_float :=
  foldl (exchange i) cp (seq (S i) (length cp - S i)).

Definition exchange_sort (vals : list spec_float) : list spec_float :=
  foldl exchange_row vals (seq 0 (length vals)).

(** [None] is an index out of range. *)
Definition percentile (vals : list spec_float) (p : spec_float) : option spec_float :=
  if Nat.eqb (length vals) 0 then Some fzero
  else
    let cp := exchange_sort vals in
    idx ← rank (Z.of_nat (length cp) - 1) p;
    if idx <? 0 then None else cp !! Z.to_nat idx.

Section experiments.
Context {W : Type} `{KVService W} `{Time W}.

(** ** Staleness *)

Definition bytes_eqb (a b : list byte) : bool := bool_decide (a = b).

(** Polling for one value: [None] when [fuel] polls did not end it, else the
    milliseconds if it became visible, or the error of a call. *)
Fixpoint poll_visible (fuel : nat) (replica : Client) (key : string) (val : list byte)
    (start deadline : Z) (w : W) : W * option (res (option spec_float)) :=
  match fuel with
  | O => (w, None)
  | S fuel =>
      let '(w, now) := time_Now w in
      if negb (now <? deadline) then (w, Some (Ok None))
      else
        match client_Get (Client_Client replica) (MkGetRequest key) w with
        | (w, Err e) => (w, Some (Err e))
        | (w, Ok resp) =>
            if GetResp_Found resp && bytes_eqb (GetResp_Value resp) val then
              let '(w, now) := time_Now w in
              (w, Some (Ok (Some (of_int (Z.quot (now - start) 1000000)))))
            else poll_visible fuel replica key val start deadline (time_Sleep 5000000 w)
        end
  end.

(** 5 s, polled every 5 ms. *)
Definition staleness_fuel : nat := 1002.

Definition staleness_key (i : Z) : string := "staleness-" +:+ fmt_d i.
Definition staleness_val (i now : Z) : list byte :=
  bytes_of ("v-" +:+ fmt_d i +:+ "-" +:+ fmt_d now).

Definition staleness_trial (origin replica : Client) (i : Z) (w : W)
    : W * option (res (option spec_float)) :=
  let key := staleness_key i in
  let '(w, now) := time_Now w in
  let val := staleness_val i now in
  match client_Put (Client_Client origin) (MkPutRequest key val) w with
  | (w, Err e) => (w, Some (Err ("put: " +:+ e)))
  | (w, Ok _) =>
      let '(w, now) := time_Now w in
      let deadline := now + 5000000000 in
      let '(w, start) := time_Now w in
      poll_visible staleness_fuel replica key val start deadline w
  end.

Fixpoint staleness_trials (origin replica : Client) (ids : list Z) (r : StalenessResult)
    (samples : list spec_float) (w : W)
    : W * option (StalenessResult * list spec_float * option string) :=
  match ids with
  | [] => (w, Some (r, samples, None))
  | i :: ids =>
      match staleness_trial origin replica i w with
      | (w, None) => (w, None)
      | (w, Some (Err e)) => (w, Some (r, samples, Some e))
      | (w, Some (Ok (Some ms))) =>
          staleness_trials origin replica ids
            (MkStalenessResult (SR_Trials r) (SR_Visible r + 1) (SR_MeanMs r) (SR_P95Ms r)
               (SR_Timeouts r) (SR_SamplesMs r)) (samples ++ [ms]) w
      | (w, Some (Ok None)) =>
          staleness_trials origin replica ids
            (MkStalenessResult (SR_Trials r) (SR_Visible r) (SR_MeanMs r) (SR_P95Ms r)
               (SR_Timeouts r + 1) (SR_SamplesMs r)) samples w
      end
  end.

Definition trial_ids (trials : Z) : list Z := map Z.of_nat (seq 0 (Z.to_nat trials)).

(** [None] is also the panic of [make]. *)
Definition MeasureStaleness (origin replica : Client) (trials : Z) (w : W)
    : W * option (StalenessResult * option string) :=
  if negb (make_ok 8 trials) then (w, None) else
  match staleness_trials origin replica (trial_ids trials)
          (MkStalenessResult trials 0 fzero fzero 0 []) [] w with
  | (w, None) => (w, None)
  | (w, Some (r, _, Some e)) => (w, Some (r, Some e))
  | (w, Some (r, samples, None)) =>
      (w, m ← (if Nat.eqb (length samples) 0 then Some (SR_MeanMs r, SR_P95Ms r)
               else v ← percentile samples p95; Some (mean samples, v));
          Some (MkStalenessResult (SR_Trials r) (SR_Visible r) (fst m) (snd m) (SR_Timeouts r) samples,
                None))
  end.

(** ** Causal chains *)

Fixpoint poll_chain (fuel : nat) (replica : Client) (keyA : string) (valA : list byte)
    (keyB : string) (valB : list byte) (deadline : Z) (w : W) : W * option bool :=
  match fuel with
  | O => (w, None)
  | S fuel =>
      let '(w, now) := time_Now w in
      if negb (now <? deadline) then (w, Some false)
      else
        match client_Get (Client_Client replica) (MkGetRequest keyB) w with
        | (w, Err _) => (w, Some false)
        | (w, Ok respB) =>
            match client_Get (Client_Client replica) (MkGetRequest keyA) w with
            | (w, Err _) => (w, Some false)
            | (w, Ok respA) =>
                if GetResp_Found respB && bytes_eqb (GetResp_Value respB) valB then
                  if negb (GetResp_Found respA) || negb (bytes_eqb (GetResp_Value respA) valA)
                  then (w, Some true)
                  else (w, Some false)
                else poll_chain fuel replica keyA valA keyB valB deadline (time_Sleep 2000000 w)
            end
        end
  end.

(** One poll per 2 ms of the window, and two more. *)
Definition pollCausalViolation (replica : Client) (keyA : string) (valA : list byte)
    (keyB : string) (valB : list byte) (window : Z) (w : W) : W * option bool :=
  let '(w, now) := time_Now w in
  poll_chain (Z.to_nat (window / 2000000) + 2) replica keyA valA keyB valB (now + window) w.

Definition chain_trial (origin replica : Client) (i : Z) (w : W) : W * option (res bool) :=
  let keyA := "chain-a-" +:+ fmt_d i in
  let keyB := "chain-b-" +:+ fmt_d i in
  let valA := bytes_of ("a-" +:+ fmt_d i) in
  let valB := bytes_of ("b-" +:+ fmt_d i) in
  match client_Put (Client_Client origin) (MkPutRequest keyA valA) w with
  | (w, Err e) => (w, Some (Err e))
  | (w, Ok _) =>
      match client_Get (Client_Client origin) (MkGetRequest keyA) w with
      | (w, Err e) => (w, Some (Err e))
      | (w, Ok _) =>
          match client_Put (Client_Client origin) (MkPutRequest keyB valB) w with
          | (w, Err e) => (w, Some (Err e))
          | (w, Ok _) =>
              let '(w, r) := pollCausalViolation replica keyA valA keyB valB 500000000 w in
              (w, option_map Ok r)
          end
      end
  end.

Fixpoint chain_trials (origin replica : Client) (ids : list Z) (r : CausalChainResult) (w : W)
    : W * option (CausalChainResult * option string) :=
  match ids with
  | [] => (w, Some (r, None))
  | i :: ids =>
      match chain_trial origin replica i w with
      | (w, None) => (w, None)
      | (w, Some (Err e)) => (w, Some (r, Some e))
      | (w, Some (Ok violated)) =>
          chain_trials origin replica ids
            (MkCausalChainResult (CC_Trials r)
               (if violated then CC_Violations r + 1 else CC_Violations r)
               (CC_TrialViolations r ++ [violated])) w
      end
  end.

Definition MeasureCausalChains (origin replica : Client) (trials : Z) (w : W)
    : W * option (CausalChainResult * option string) :=
  if negb (make_ok 1 trials) then (w, None) else
  chain_trials origin replica (trial_ids trials) (MkCausalChainResult trials 0 []) w.

End experiments.

(** ** The exchange sort *)

(** The order [flt] decides on numbers, as a lexicographic order on the class, the
    exponent and the mantissa. *)
Definition float_key (f : spec_float) : Z * Z * Z :=
  match f with
  | S754_infinity true => (-2, 0, 0)
  | S754_finite true m e => (-1, - e, - Zpos m)
  | S754_finite false m e => (1, e, Zpos m)
  | S754_infinity false => (2, 0, 0)
  | _ => (0, 0, 0)
  end.

Definition key_lt (x y : Z * Z * Z) : Prop :=
  let '(a, b, d) := x in let '(a', b', d') := y in
  a < a' \/ (a = a' /\ (b < b' \/ (b = b' /\ d < d'))).

Definition is_number (f : spec_float) : bool :=
  match f with S754_nan => false | _ => true end.

Lemma flt_finite sx mx ex sy my ey :
  flt (S754_finite sx mx ex) (S754_finite sy my ey) = true <->
  key_lt (float_key (S754_finite sx mx ex)) (float_key (S754_finite sy my ey)).
Proof.
  unfold flt, SFltb, SFcompare; change (PosDef.Pos.compare_cont Eq mx my) with (Pos.compare mx my).
  destruct sx, sy, (Z.compare_spec ex ey), (Pos.compare_spec mx my); cbn; split; intros;
    try done; lia.
Qed.

Lemma flt_spec x y :
  is_number x = true -> is_number y = true -> flt x y = true <-> key_lt (float_key x) (float_key y).
Proof.
  destruct x as [sx|sx| |sx mx ex], y as [sy|sy| |sy my ey]; intros Hx Hy; try discriminate;
    [..|apply flt_finite]; try destruct sx; try destruct sy;
    unfold flt, SFltb, SFcompare; cbn; split; intros; try done; lia.
Qed.

(** Not out of order. *)
Definition fle_key (x y : spec_float) : Prop := ~ key_lt (float_key y) (float_key x).

Lemma fle_key_trans x y z : fle_key x y -> fle_key y z -> fle_key x z.
Proof.
  unfold fle_key, key_lt; destruct (float_key x) as [[a b] d], (float_key y) as [[a' b'] d'],
    (float_key z) as [[a'' b''] d'']; lia.
Qed.

Lemma fle_key_total x y : fle_key x y \/ fle_key y x.
Proof.
  unfold fle_key, key_lt; destruct (float_key x) as [[a b] d], (float_key y) as [[a' b'] d']; lia.
Qed.

Lemma fle_key_refl x : fle_key x x.
Proof. unfold fle_key, key_lt; destruct (float_key x) as [[a b] d]; lia. Qed.

Lemma exchange_Permutation i cp j : exchange i cp j ≡ₚ cp.
Proof.
  unfold exchange; destruct (cp !! i) as [x|] eqn:Hi, (cp !! j) as [y|] eqn:Hj; try done.
  destruct (flt y x); [by apply Permutation_insert_swap|done].
Qed.

Lemma exchange_fold_Permutation i cp js : foldl (exchange i) cp js ≡ₚ cp.
Proof.
  revert cp; induction js as [|j js IH]; intros cp; simpl; [done|].
  by rewrite IH, exchange_Permutation.
Qed.

Lemma exchange_sort_Permutation vals : exchange_sort vals ≡ₚ vals.
Proof.
  unfold exchange_sort; generalize (seq 0 (length vals)) as js; intros js; revert vals.
  induction js as [|j js IH]; intros vals; simpl; [done|].
  rewrite IH; apply exchange_fold_Permutation.
Qed.

(** The first [i] places hold their final values. *)
Definition placed (i : nat) (l : list spec_float) : Prop :=
  forall a b x y, (a < i)%nat -> (a < b)%nat -> l !! a = Some x -> l !! b = Some y -> fle_key x y.

(** The place [i] holds a least value of the places up to [k]. *)
Definition least (i k : nat) (l : list spec_float) : Prop :=
  forall b x y, (i < b)%nat -> (b < k)%nat -> l !! i = Some x -> l !! b = Some y -> fle_key x y.

Lemma exchange_step i k l :
  Forall (fun f => is_number f = true) l -> (i < k)%nat -> placed i l -> least i k l ->
  placed i (exchange i l k) /\ least i (S k) (exchange i l k).
Proof.
  intros Hnum Hik Hp Hl; unfold exchange.
  destruct (l !! i) as [x|] eqn:Hi, (l !! k) as [y|] eqn:Hk.
  2-4: split; [done|]; intros b u v Hb Hbk Hu Hv; (assert (b <> k) by congruence || congruence);
         eapply (Hl b); try done; lia.
  pose proof (proj1 (Forall_lookup _ _) Hnum _ _ Hi) as Hnx.
  pose proof (proj1 (Forall_lookup _ _) Hnum _ _ Hk) as Hny; simpl in Hnx, Hny.
  pose proof (flt_spec y x Hny Hnx) as Hlt.
  destruct (flt y x) eqn:Hf.
  - assert (Hyx : fle_key y x).
    { destruct (fle_key_total y x) as [?|Hc]; [done|]; destruct (Hc (proj1 Hlt eq_refl)). }
    assert (Hlen : (i < length l)%nat) by (by eapply lookup_lt_Some).
    assert (Hlenk : (k < length l)%nat) by (by eapply lookup_lt_Some).
    assert (Hnew : forall b v, <[i := y]> (<[k := x]> l) !! b = Some v ->
      (b = i /\ v = y) \/ (b = k /\ v = x) \/ (b <> i /\ b <> k /\ l !! b = Some v)).
    { intros b v [[<- <-]|[Hbi Hv]]%insert_lookup_cases; [by left|].
      apply insert_lookup_cases in Hv as [[<- <-]|[Hbk Hv]]; auto. }
    split.
    + intros a b u v Ha Hab Hu Hv.
      destruct (Hnew _ _ Hu) as [[-> _]|[[-> _]|(_ & _ & Hu')]]; [lia..|].
      destruct (Hnew _ _ Hv) as [[-> ->]|[[-> ->]|(_ & _ & Hv')]];
        [eapply (Hp a k)|eapply (Hp a i)|eapply (Hp a b)]; eauto; lia.
    + intros b u v Hb Hbk Hu Hv.
      destruct (Hnew _ _ Hu) as [[_ ->]|[[? _]|(? & _)]]; [|lia..].
      destruct (Hnew _ _ Hv) as [[? _]|[[_ ->]|(_ & Hne & Hv')]]; [lia|done|].
      eapply fle_key_trans; [exact Hyx|]; eapply (Hl b); eauto; lia.
  - split; [done|]; intros b u v Hb Hbk Hu Hv; simplify_eq.
    destruct (decide (b = k)) as [->|Hne]; [|eapply (Hl b); eauto; lia].
    simplify_eq; intros Hc; apply Hlt in Hc; discriminate.
Qed.

Lemma exchange_fold_step i k n l :
  Forall (fun f => is_number f = true) l -> (i < k)%nat -> placed i l -> least i k l ->
  placed i (foldl (exchange i) l (seq k n)) /\ least i (k + n) (foldl (exchange i) l (seq k n)).
Proof.
  revert k l; induction n as [|n IH]; intros k l Hnum Hik Hp Hl; simpl; [by rewrite Nat.add_0_r|].
  destruct (exchange_step i k l Hnum Hik Hp Hl) as [Hp' Hl'].
  rewrite <- Nat.add_succ_comm; apply IH; try done; [|lia].
  by rewrite exchange_Permutation.
Qed.

Lemma exchange_rows l i n :
  Forall (fun f => is_number f = true) l -> (i + n = length l)%nat -> placed i l ->
  placed (i + n) (foldl exchange_row l (seq i n)).
Proof.
  revert l i; induction n as [|n IH]; intros l i Hnum Hlen Hp; simpl; [by rewrite Nat.add_0_r|].
  assert (Hrow : exchange_row l i ≡ₚ l) by apply exchange_fold_Permutation.
  rewrite <- Nat.add_succ_comm; apply IH; [by rewrite Hrow|rewrite Hrow; lia|].
  assert (Hl0 : least i (S i) l) by (intros b x y; lia).
  destruct (exchange_fold_step i (S i) (length l - S i) l Hnum ltac:(lia) Hp Hl0) as [Hp' Hl'].
  fold (exchange_row l i) in Hp', Hl'; intros a b x y Ha Hab Hx Hy.
  destruct (decide (a < i)%nat) as [Hai|Hai]; [by eapply (Hp' a b)|].
  assert (a = i) as -> by lia; eapply (Hl' b); try done.
  apply lookup_lt_Some in Hy; rewrite Hrow in Hy; lia.
Qed.

Lemma exchange_sort_sorted vals :
  Forall (fun f => is_number f = true) vals -> placed (length vals) (exchange_sort vals).
Proof.
  intros Hnum; apply (exchange_rows vals 0); [done|done|]. intros a; lia.
Qed.

Lemma percentile_spec vals p :
  vals <> [] -> (exists r, rank (Z.of_nat (length vals) - 1) p = Some r /\
    0 <= r <= Z.of_nat (length vals) - 1) ->
  exists r v, rank (Z.of_nat (length vals) - 1) p = Some r /\
    percentile vals p = Some v /\ exchange_sort vals !! Z.to_nat r = Some v.
Proof.
  intros Hne (r & Hr & Hrange); exists r; unfold percentile.
  destruct vals as [|x vals]; [done|]; simpl Nat.eqb; cbn iota.
  pose proof (Permutation_length (exchange_sort_Permutation (x :: vals))) as Hl; rewrite Hl, Hr.
  simpl; rewrite (proj2 (Z.ltb_ge r 0)) by lia.
  destruct (lookup_lt_is_Some_2 (exchange_sort (x :: vals)) (Z.to_nat r)) as [v Hv]; [lia|].
  by exists v.
Qed.

(** ** Polling ends *)

Section polling.
Context {W : Type} `{TimeLaws W}.

Lemma poll_visible_ends fuel replica key val start deadline (w : W) :
  deadline - time_of w < Z.of_nat fuel * 5000000 ->
  exists w' r, poll_visible (S fuel) replica key val start deadline w = (w', Some r).
Proof.
  revert w; induction fuel as [|fuel IH]; intros w Hf.
  - cbn [poll_visible]; pose proof (time_Now_law w) as Hn.
    destruct (time_Now w) as [w1 now]; simpl in Hn.
    rewrite (proj2 (Z.ltb_ge now deadline)) by lia; simpl; eauto.
  - remember (S fuel) as f eqn:Hfe; cbn [poll_visible]; pose proof (time_Now_law w) as Hn.
    destruct (time_Now w) as [w1 now]; simpl in Hn.
    destruct (negb _); [eauto|].
    pose proof (time_Get (Client_Client replica) (MkGetRequest key) w1) as Hg.
    destruct (client_Get _ _ w1) as [w2 [resp|e]]; simpl in Hg; [|eauto].
    destruct (_ && _)%bool; [destruct (time_Now w2); eauto|]; subst f; apply IH.
    pose proof (time_Sleep_law 5000000 w2); lia.
Qed.

Lemma poll_chain_ends fuel replica keyA valA keyB valB deadline (w : W) :
  deadline - time_of w < Z.of_nat fuel * 2000000 ->
  exists w' r, poll_chain (S fuel) replica keyA valA keyB valB deadline w = (w', Some r).
Proof.
  revert w; induction fuel as [|fuel IH]; intros w Hf.
  - cbn [poll_chain]; pose proof (time_Now_law w) as Hn.
    destruct (time_Now w) as [w1 now]; simpl in Hn.
    rewrite (proj2 (Z.ltb_ge now deadline)) by lia; simpl; eauto.
  - remember (S fuel) as f eqn:Hfe; cbn [poll_chain]; pose proof (time_Now_law w) as Hn.
    destruct (time_Now w) as [w1 now]; simpl in Hn.
    destruct (negb _); [eauto|].
    pose proof (time_Get (Client_Client replica) (MkGetRequest keyB) w1) as Hg.
    destruct (client_Get _ _ w1) as [w2 [respB|e]]; simpl in Hg; [|eauto].
    pose proof (time_Get (Client_Client replica) (MkGetRequest keyA) w2) as Hg2.
    destruct (client_Get _ _ w2) as [w3 [respA|e]]; simpl in Hg2; [|eauto].
    destruct (_ && _)%bool; [destruct (_ || _)%bool; eauto|]; subst f; apply IH.
    pose proof (time_Sleep_law 2000000 w3); lia.
Qed.

Lemma pollCausalViolation_ends replica keyA valA keyB valB window (w : W) :
  exists w' r, pollCausalViolation replica keyA valA keyB valB window w = (w', Some r).
Proof.
  unfold pollCausalViolation; pose proof (time_Now_law w) as Hn.
  destruct (time_Now w) as [w1 now]; simpl in Hn.
  replace (Z.to_nat (window / 2000000) + 2)%nat
    with (S (Z.to_nat (window / 2000000) + 1))%nat by lia.
  apply poll_chain_ends; pose proof (Z.mul_succ_div_gt window 2000000 ltac:(done)); lia.
Qed.

Lemma staleness_trial_ends origin replica i (w : W) :
  exists w' r, staleness_trial origin replica i w = (w', Some r).
Proof.
  unfold staleness_trial; destruct (time_Now w) as [w1 t1].
  destruct (client_Put _ _ w1) as [w2 [resp|e]]; [|eauto].
  pose proof (time_Now_law w2) as Hn2; destruct (time_Now w2) as [w3 t3]; simpl in Hn2.
  pose proof (time_Now_law w3) as Hn3; destruct (time_Now w3) as [w4 t4]; simpl in Hn3.
  apply (poll_visible_ends 1001); lia.
Qed.

Lemma chain_trial_ends origin replica i (w : W) :
  exists w' r, chain_trial origin replica i w = (w', Some r).
Proof.
  unfold chain_trial; destruct (client_Put _ _ w) as [w1 [r1|e]]; [|eauto].
  destruct (client_Get _ _ w1) as [w2 [r2|e]]; [|eauto].
  destruct (client_Put _ _ w2) as [w3 [r3|e]]; [|eauto].
  match goal with |- context [pollCausalViolation ?a ?b ?c ?d ?e ?f w3] =>
    destruct (pollCausalViolation_ends a b c d e f w3) as (w' & r & ->) end; eauto.
Qed.

(** The counters of the trials done so far. *)
Definition staleness_ok (r0 : StalenessResult) (n : nat) (r : StalenessResult)
    (samples : list spec_float) : Prop :=
  SR_Trials r = SR_Trials r0 /\ SR_Visible r = Z.of_nat (length samples) /\
  SR_Visible r + SR_Timeouts r = Z.of_nat n /\ 0 <= SR_Timeouts r.

Lemma staleness_trials_ok origin replica ids r0 n r samples (w : W) :
  staleness_ok r0 n r samples ->
  exists w' r' samples' err,
    staleness_trials origin replica ids r samples w = (w', Some (r', samples', err)) /\
    (err = None -> staleness_ok r0 (n + length ids) r' samples').
Proof.
  revert n r samples w; induction ids as [|i ids IH]; intros n r samples w Hok; simpl.
  - do 4 eexists; split; [done|]; intros _; by rewrite Nat.add_0_r.
  - destruct (staleness_trial_ends origin replica i w) as (w1 & [[ms|]|e] & ->).
    + rewrite <- Nat.add_succ_comm; apply IH.
      destruct Hok as (? & ? & ? & ?); split_and!; simpl; rewrite ?length_app; simpl; lia || done.
    + rewrite <- Nat.add_succ_comm; apply IH.
      destruct Hok as (? & ? & ? & ?); split_and!; simpl; lia || done.
    + do 4 eexists; split; [done|]; done.
Qed.

Lemma chain_trials_ok origin replica ids r (w : W) :
  CC_Violations r = Z.of_nat (length (filter (fun b => b = true) (CC_TrialViolations r))) ->
  exists w' r' err, chain_trials origin replica ids r w = (w', Some (r', err)) /\
    CC_Trials r' = CC_Trials r /\
    CC_Violations r' = Z.of_nat (length (filter (fun b => b = true) (CC_TrialViolations r'))) /\
    (err = None -> length (CC_TrialViolations r') = (length (CC_TrialViolations r) + length ids)%nat).
Proof.
  revert r w; induction ids as [|i ids IH]; intros r w Hok; simpl.
  - exists w, r, None; split_and!; try done; lia.
  - destruct (chain_trial_ends origin replica i w) as (w1 & [violated|e] & ->).
    + edestruct IH as (w' & r' & err & -> & Ht & Hv & Hl).
      2: { do 3 eexists; split; [done|]; split_and!; [exact Ht|exact Hv|].
           intros He; rewrite (Hl He); simpl; rewrite length_app; simpl; lia. }
      simpl; rewrite filter_app, length_app, Hok; destruct violated; simpl; lia.
    + do 3 eexists; split; [done|]; done.
Qed.

End polling.

(** ** Properties *)

Lemma rank_p95_range n :
  0 < n <= 2 ^ 53 -> exists r, rank (n - 1) p95 = Some r /\ 0 <= r <= n - 1.
Proof.
  intros Hn; destruct (ranks_ordered (n - 1)) as (a & b & d & _ & Hb & _ & ? & ?); [lia|].
  exists b; split; [done|lia].
Qed.

(** The staleness experiment: on a number of trials whose samples can be made it always ends (if time does not run backwards and
    a sleep lasts as long as asked), and without an error every trial is counted
    once, as visible or timed out, there is one sample per visible trial, and
    with samples the 95th percentile is one of them. *)
Theorem MeasureStaleness_correct {W : Type} `{TimeLaws W} origin replica trials (w : W) :
  make_ok 8 trials = true ->
  exists w' r err, MeasureStaleness origin replica trials w = (w', Some (r, err)) /\
    (err = None -> SR_Trials r = trials /\ SR_Visible r + SR_Timeouts r = trials /\
       SR_Visible r = Z.of_nat (length (SR_SamplesMs r)) /\ 0 <= SR_Timeouts r /\
       (SR_SamplesMs r <> [] -> SR_P95Ms r ∈ SR_SamplesMs r)).
Proof.
  intros Htr; unfold MeasureStaleness; rewrite Htr; apply make_ok_spec in Htr; cbn [negb].
  destruct (staleness_trials_ok origin replica (trial_ids trials)
    (MkStalenessResult trials 0 fzero fzero 0 []) 0 (MkStalenessResult trials 0 fzero fzero 0 []) [] w)
    as (w' & r & samples & err & -> & Hok); [by split_and!|].
  destruct err as [e|]; [by do 3 eexists|].
  destruct (Hok eq_refl) as (Ht & Hv & Hsum & Hto).
  unfold trial_ids in Hsum; rewrite length_map, length_seq in Hsum; simpl in Ht, Hsum.
  destruct samples as [|s samples]; simpl.
  - do 3 eexists; split; [done|]; simpl; intros _; split_and!; simpl in *; try lia; done.
  - destruct (percentile_spec (s :: samples) p95) as (k & v & _ & -> & Hk); [done| |].
    { apply rank_p95_range; simpl in *; lia. }
    do 3 eexists; split; [done|]; simpl; intros _; split_and!; simpl in *; try lia; try done.
    intros _; apply list_elem_of_lookup_2 in Hk; by rewrite exchange_sort_Permutation in Hk.
Qed.

Definition c_origin : Client := MkClient "o" 0 None.
Definition c_replica : Client := MkClient "r" 1 None.

(** The replica shows the first trial's value from the start, the second's never. *)
Definition c_stale : fixture :=
  MkFixture
    (fun c key now => if String.eqb key (staleness_key 0)
                      then Ok (MkGetResponse (staleness_val 0 0) None true)
                      else Ok (MkGetResponse [] None false))
    (fun _ _ _ => Ok (MkPutResponse None)) 0 [] [].

Lemma MeasureStaleness_correct_witness :
  option_map (fun r => (SR_Visible (fst r), SR_Timeouts (fst r)))
    (snd (MeasureStaleness c_origin c_replica 2 c_stale)) = Some (1, 1) /\
  exists w' r err, MeasureStaleness c_origin c_replica 2 c_stale = (w', Some (r, err)).
Proof.
  split; [vm_compute; reflexivity|].
  destruct (MeasureStaleness_correct c_origin c_replica 2 c_stale) as (w' & r & err & Hr & _).
  - reflexivity.
  - exists w', r, err; exact Hr.
Defined.

(** The causal-chain experiment: on a number of trials whose verdicts can be made it always ends, and without an error it reports
    one verdict per trial and as many violations as verdicts that say so. *)
Theorem MeasureCausalChains_correct {W : Type} `{TimeLaws W} origin replica trials (w : W) :
  make_ok 1 trials = true ->
  exists w' r err, MeasureCausalChains origin replica trials w = (w', Some (r, err)) /\
    CC_Trials r = trials /\
    CC_Violations r = Z.of_nat (length (filter (fun b => b = true) (CC_TrialViolations r))) /\
    (err = None -> Z.of_nat (length (CC_TrialViolations r)) = trials).
Proof.
  intros Htr; unfold MeasureCausalChains; rewrite Htr; apply make_ok_spec in Htr; cbn [negb].
  destruct (chain_trials_ok origin replica (trial_ids trials) (MkCausalChainResult trials 0 []) w)
    as (w' & r & err & -> & Ht & Hv & Hl); [done|].
  do 3 eexists; split; [done|]; split_and!; [done|done|].
  intros He; rewrite (Hl He); unfold trial_ids; rewrite length_map, length_seq; simpl; lia.
Qed.

Lemma MeasureCausalChains_correct_witness :
  exists w' r err, MeasureCausalChains c_origin c_replica 3 c_stale = (w', Some (r, err)).
Proof.
  destruct (MeasureCausalChains_correct c_origin c_replica 3 c_stale) as (w' & r & err & Hr & _); [reflexivity|].
  exists w', r, err; exact Hr.
Defined.

(** The percentile of the experiments: for samples that are numbers the double
    loop leaves a sorted permutation of them, and the percentile is the sample
    at the rank rounded down. *)
Theorem percentile_exchange_sort vals p :
  Forall (fun f => is_number f = true) vals -> vals <> [] ->
  (exists r, rank (Z.of_nat (length vals) - 1) p = Some r /\ 0 <= r <= Z.of_nat (length vals) - 1) ->
  exchange_sort vals ≡ₚ vals /\
  (forall a b x y, (a < b)%nat -> exchange_sort vals !! a = Some x ->
     exchange_sort vals !! b = Some y -> flt y x = false) /\
  exists r v, rank (Z.of_nat (length vals) - 1) p = Some r /\ percentile vals p = Some v /\
    exchange_sort vals !! Z.to_nat r = Some v.
Proof.
  intros Hnum Hne Hr; pose proof (exchange_sort_Permutation vals) as Hp.
  split_and!; [done| |by apply percentile_spec].
  intros a b x y Hab Hx Hy; apply not_true_iff_false; intros Hf.
  assert (Hn : Forall (fun f => is_number f = true) (exchange_sort vals)) by (by rewrite Hp).
  pose proof (proj1 (Forall_lookup _ _) Hn _ _ Hx) as Hnx.
  pose proof (proj1 (Forall_lookup _ _) Hn _ _ Hy) as Hny.
  apply (flt_spec y x Hny Hnx) in Hf; revert Hf.
  eapply (exchange_sort_sorted vals Hnum a b); try done.
  apply lookup_lt_Some in Hx; by rewrite Hp in Hx.
Qed.

Lemma percentile_exchange_sort_witness :
  map to_int (exchange_sort (map of_int [30; 10; 20])) = [Some 10; Some 20; Some 30] /\
  exists r v, rank 2 p95 = Some r /\ percentile (map of_int [30; 10; 20]) p95 = Some v.
Proof.
  split; [vm_compute; reflexivity|].
  destruct (percentile_exchange_sort (map of_int [30; 10; 20]) p95) as (_ & _ & r & v & Hr & Hv & _).
  - by repeat constructor.
  - discriminate.
  - exists 1; split; [vm_compute; reflexivity|simpl; lia].
  - exists r, v; split; [exact Hr|exact Hv].
Defined.
