(* ===== verification/Trial.v ===== *)
(** * The causal-chain experiment on a causal cluster

    [MeasureCausalChains] of [Experiments.v] run against the cluster of [World.v] in
    causal mode: RPCs are delivered in any order and lost, and other clients work,
    before each call of the tool and in its waits.  The experiment never reports
    a violation. *)

From S2P Require Import Prelude Hlc Store Buffer Wire Replication Server Cluster Converge.
From S2P Require Import Env World Process Experiments.

(** ** Definitions *)

(** The stores, and the writes in flight and held, of a cluster. *)
Record tidy (S : Store -> Prop) (Q : write -> Prop) (c : cluster) : Prop := {
  ti_store : forall i n, nodes c !! i = Some n -> S (Node_Store n);
  ti_net : forall p req pts, (p, req) ∈ net c -> RR_Timestamp req = Some pts -> Q (request_write req pts);
  ti_held : forall i n w, nodes c !! i = Some n -> w ∈ held n -> Q w
}.

(** No node has or will have the key. *)
Definition untouched (key : string) : cluster -> Prop :=
  tidy (fun s => s !! key = None) (fun w => write_key w <> key).

(** The keys of trial [i]. *)
Definition chain_key (a : bool) (i : Z) : string :=
  (if a then "chain-a-" else "chain-b-") +:+ fmt_d i.

(** A step of the others: it writes no chain key, and nothing at the origin. *)
Definition bystander (origin : nat) (lb : label) : Prop :=
  apart (fun key => exists a i, key = chain_key a i) lb /\ label_origin lb <> Some origin.

(** A reading of a clock after 1970. *)
Definition reading_pos (now : Z) : Prop := reading_ok now = true /\ (0 < now)%Z.

(** The write of [A] is the only one, and every write of [B] depends on it. *)
Definition store_chained (A B : string) (vA : Value) (s : Store) : Prop :=
  (forall v, s !! A = Some v -> v = vA) /\ (s !! B <> None -> s !! A <> None).
Definition write_chained (A B : string) (vA : Value) (w : write) : Prop :=
  (write_key w = A -> write_stored w = vA) /\
  (write_key w = B -> MkDependency A (Value_Timestamp vA) ∈ write_deps w).
Definition chained (A B : string) (vA : Value) : cluster -> Prop :=
  tidy (store_chained A B vA) (write_chained A B vA).

(** ** Lemmas *)

Lemma chain_key_inj a i a' i' : chain_key a i = chain_key a' i' -> a = a' /\ i = i'.
Proof.
  unfold chain_key; destruct a, a'; simpl; intros [= Heq]; by apply fmt_d_inj in Heq.
Qed.

(** A local write, where its store and its messages are in order. *)
Lemma tidy_wrote S Q c i n w n' msgs mode :
  nodes c !! i = Some n -> wrote mode n w n' msgs -> tidy S Q c ->
  S (<[write_key w := write_stored w]> (Node_Store n)) ->
  (forall p req pts, (p, req) ∈ msgs -> RR_Timestamp req = Some pts -> Q (request_write req pts)) ->
  tidy S Q (MkCluster (<[i := n']> (nodes c)) (net c ++ msgs)).
Proof.
  intros Hi Hw [Hs Hn Hh] HS HQ; split; simpl.
  - intros j x [[<- <-]|[_ Hj]]%insert_lookup_cases; [by rewrite (wr_store _ _ _ _ _ Hw)|by eapply Hs].
  - intros p req pts [Hr|Hr]%elem_of_app; eauto.
  - intros j x y [[<- <-]|[_ Hj]]%insert_lookup_cases; [rewrite (wr_held _ _ _ _ _ Hw)|]; eauto.
Qed.

(** The messages of a put are the write itself. *)
Lemma wrote_request n w n' msgs p req pts :
  wrote "causal" n w n' msgs -> wire_faithful (write_val w) ->
  (p, req) ∈ msgs -> RR_Timestamp req = Some pts -> request_write req pts = w.
Proof.
  intros Hw Hf Hr; destruct (wr_msgs _ _ _ _ _ Hw _ _ Hr) as (deps & -> & Hd).
  rewrite (Hd eq_refl); by apply request_of_write.
Qed.

(** Invariants of the chains: kept by writes of other keys and by deliveries. *)
Record about_chains (S : Store -> Prop) (Q : write -> Prop) : Prop := {
  ac_deliver : forall s w, S s -> Q w -> depsSatisfied s (write_deps w) = true -> S (apply_write s w);
  ac_store : forall s key v, S s -> (forall a i, key <> chain_key a i) -> S (<[key := v]> s);
  ac_write : forall w, (forall a i, write_key w <> chain_key a i) -> Q w
}.

Lemma about_chains_run S Q s ws s' :
  about_chains S Q -> causal_run s ws s' -> (forall w, w ∈ ws -> Q w) -> S s -> S s'.
Proof.
  intros Ha; induction 1 as [|s w ws s' Hd _ IH]; intros HQ Hs; [done|]; apply IH.
  - intros x Hx; apply HQ; by right.
  - apply (ac_deliver _ _ Ha); [done|apply HQ; left|done].
Qed.

Section others.
Context (N o : nat).

(** One step of the others. *)
Definition others (c c' : cluster) : Prop :=
  cluster_ok "causal" N c /\ exists lb, bystander o lb /\ happened "causal" lb c c'.

Lemma others_tidy S Q c c' : about_chains S Q -> rtc others c c' -> tidy S Q c -> tidy S Q c'.
Proof.
  intros Ha; induction 1 as [|c c1 c' [Hok (lb & [[_ Hkey] _] & Hh)] _ IH]; intros Hc; [done|apply IH; clear IH].
  destruct Hh as [i n w n' msgs Hlb Hi Hw ->|i n key Hi ->|m i req pts n n' ws Hm Hq Hi Hr ->|msgs -> Hin].
  - assert (Hk : forall a j, write_key w <> chain_key a j).
    { intros a j Heq; eapply (Hkey (write_key w)); [unfold label_key; by rewrite Hlb|by eexists _, _]. }
    eapply tidy_wrote; [done..|by apply (ac_store _ _ Ha); [eapply Hc|]|].
    intros p req pts Hr Hpts; destruct (wr_msgs _ _ _ _ _ Hw _ _ Hr) as (deps & -> & _).
    by apply (ac_write _ _ Ha).
  - destruct Hc as [Hs Hn Hh]; split; simpl; [| |].
    + intros j x [[<- <-]|[_ Hj]]%insert_lookup_cases; [rewrite (proj1 (Node_Get_frame _ n))|]; by eapply Hs.
    + done.
    + intros j x y [[<- <-]|[_ Hj]]%insert_lookup_cases; rewrite ?held_get; eauto.
  - destruct Hc as [Hs Hn Hh]; assert (Hnew : forall w, w ∈ ws \/ w ∈ held n' -> Q w).
    { intros w Hw; destruct (received_from _ _ _ _ w Hr Hw) as [?| ->]; [by eapply Hh|].
      eapply Hn; [by eapply list_elem_of_lookup_2|apply Hq]. }
    split; simpl.
    + intros j x [[<- <-]|[_ Hj]]%insert_lookup_cases; [|by eapply Hs].
      eapply about_chains_run; [exact Ha|apply (rc_causal _ _ _ _ Hr)|intros w Hw; apply Hnew; by left|by eapply Hs].
      apply (no_buffer "causal"); [|done]; by eapply (co_nodes _ _ _ Hok).
    + intros p x y Hx; apply (Hn p); by eapply list_elem_of_delete_inv.
    + intros j x y [[<- <-]|[_ Hj]]%insert_lookup_cases; [intros Hy; apply Hnew; by right|by eapply Hh].
  - destruct Hc as [Hs Hn Hh]; split; simpl; [done| |done]; intros p req pts Hr; apply (Hn p), Hin, Hr.
Qed.

(** What the others leave at a node: keys stay, and at the origin what was read. *)
Record grown (i : nat) (n n' : Node AnyHandler) : Prop := {
  gn_keys : forall key, Node_Store n !! key <> None -> Node_Store n' !! key <> None;
  gn_pending : i = o -> forall dep, dep ∈ pending_deps n -> dep ∈ pending_deps n'
}.

Lemma grown_refl i n : grown i n n.
Proof. by split. Qed.

Lemma grown_trans i n1 n2 n3 : grown i n1 n2 -> grown i n2 n3 -> grown i n1 n3.
Proof. intros [? ?] [? ?]; split; auto. Qed.

Lemma apply_writes_present key ws s : s !! key <> None -> apply_writes s ws !! key <> None.
Proof.
  revert s; induction ws as [|w ws IH]; intros s Hs; [done|]; apply IH.
  rewrite apply_write_lookup; case_decide; [|done]; by destruct (lww_ge (s !! key) (write_stored w)) as (v & -> & _).
Qed.

Lemma others_grown c c' i n : rtc others c c' -> nodes c !! i = Some n ->
  exists n', nodes c' !! i = Some n' /\ grown i n n'.
Proof.
  intros Hr; revert n; induction Hr as [c|c c1 c' [_ (lb & [_ Ho] & Hh)] _ IH]; intros n Hi.
  { exists n; split; [done|apply grown_refl]. }
  assert (H1 : exists n1, nodes c1 !! i = Some n1 /\ grown i n n1).
  { assert (Hput : forall j x x' msgs, nodes c !! j = Some x -> grown j x x' -> c1 = MkCluster (<[j := x']> (nodes c)) msgs ->
      exists n1, nodes c1 !! i = Some n1 /\ grown i n n1).
    { intros j x x' msgs Hj Hg ->; simpl; destruct (decide (j = i)) as [->|Hne].
      - exists x'; rewrite list_lookup_insert_eq by (by eapply lookup_lt_Some); by simplify_eq.
      - exists n; rewrite list_lookup_insert_ne by done; split; [done|apply grown_refl]. }
    destruct Hh as [j x w x' msgs Hlb Hj Hw Hc|j x key Hj Hc|m j req pts x x' ws _ _ Hj Hx Hc|msgs -> _];
      try (eapply Hput; [exact Hj| |exact Hc]; split).
    - intros key Hk; rewrite (wr_store _ _ _ _ _ Hw); destruct (decide (write_key w = key)) as [->|Hne];
        [by rewrite lookup_insert_eq|by rewrite lookup_insert_ne].
    - intros ->; by unfold label_origin in Ho; rewrite Hlb in Ho.
    - by rewrite (proj1 (Node_Get_frame _ x)).
    - intros _ dep Hd; rewrite (proj1 (Node_Get_deps key x)); apply elem_of_app; by left.
    - intros key Hk; rewrite (rc_store _ _ _ _ Hx); by apply apply_writes_present.
    - intros _; by rewrite (rc_pending _ _ _ _ Hx).
    - exists n; split; [done|apply grown_refl]. }
  destruct H1 as (n1 & Hn1 & Hg1); destruct (IH n1 Hn1) as (n' & Hn' & Hg); exists n'; split; [done|].
  by eapply grown_trans.
Qed.

End others.

(** ** The calls of the tool *)

Section trial.
Context (N o : nat).
Implicit Types (w : deployed).

Record trial_world w : Prop := {
  tw_ok : cluster_ok "causal" N (dp_cluster w);
  tw_readings : Forall reading_pos (dp_readings w);
  tw_batches : Forall (Forall (bystander o)) (dp_batches w)
}.

Notation others := (others N o).

Lemma causal_async : async "causal".
Proof. by right. Qed.

Lemma happen_others batch c :
  cluster_ok "causal" N c -> Forall (bystander o) batch ->
  cluster_ok "causal" N (happen batch c) /\ rtc others c (happen batch c).
Proof.
  intros Hc Hb; revert c Hc; induction Hb as [|lb batch Hlb _ IH]; intros c Hc; [split; [done|apply rtc_refl]|].
  cbn [happen foldl]; fold (happen batch (default c (step lb c))).
  destruct (step lb c) as [c1|] eqn:Hs; cbn [default]; [|by apply IH].
  destruct (step_happened "causal" causal_async N lb c c1 Hc (proj1 (proj1 Hlb)) Hs) as [Hc1 Hh].
  destruct (IH c1 Hc1) as [? ?]; split; [done|]; eapply rtc_l; [|done]; by split; [|exists lb].
Qed.

Lemma pause_others d w :
  trial_world w -> trial_world (deployed_pause d w) /\ rtc others (dp_cluster w) (dp_cluster (deployed_pause d w)).
Proof.
  intros [Hok Hr Hb]; assert (Hhd : Forall (bystander o) (hd [] (dp_batches w)) /\
    Forall (Forall (bystander o)) (tl (dp_batches w))) by (by destruct Hb).
  destruct Hhd as [Hhd Htl]; destruct (happen_others _ _ Hok Hhd) as [? ?]; split; [by split|done].
Qed.

(** A read returns what the node stores, and is recorded. *)
Lemma get_others i key w :
  trial_world w ->
  let '(w', r) := client_Get i (MkGetRequest key) w in
  trial_world w' /\ rtc others (dp_cluster w) (dp_cluster w') /\
  forall resp, r = Ok resp -> exists n, nodes (dp_cluster w') !! i = Some n /\
    match Node_Store n !! key with
    | Some v => if Value_Deleted v then GetResp_Found resp = false
                else GetResp_Found resp = true /\ GetResp_Value resp = Value_Data v /\
                     MkDependency key (Value_Timestamp v) ∈ pending_deps n
    | None => GetResp_Found resp = false
    end.
Proof.
  intros Hw; destruct (pause_others 0 w Hw) as [Hw1 Hr1]; simpl; unfold deployed_Get.
  revert Hw1 Hr1; generalize (deployed_pause 0 w); intros w1 [Hok Hr Hb] Hr1; cbn zeta.
  destruct (nodes (dp_cluster w1) !! i) as [n|] eqn:Hn; [|by split_and!].
  pose proof (co_nodes _ _ _ Hok _ _ Hn) as Hno; pose proof (Node_Get_spec (MkGetRequest key) n) as Hsp.
  destruct (Node_Get_ok "causal" key n Hno) as [Hn' _]; pose proof (proj1 (Node_Get_frame (MkGetRequest key) n)) as Hst.
  pose proof (proj1 (Node_Get_deps key n)) as Hp; destruct (no_tracker _ _ Hno eq_refl) as [rt Hrt].
  rewrite Hrt in Hp; unfold read_dep in Hp.
  assert (Hstep : others (dp_cluster w1) (MkCluster (<[i := fst (Node_Get (MkGetRequest key) n)]> (nodes (dp_cluster w1)))
    (net (dp_cluster w1)))).
  { split; [done|]; exists (LGet i (MkGetRequest key)); split; [done|by eapply hp_read]. }
  destruct (Node_Get _ n) as [n' r]; simpl in *; split; [|split].
  - split; simpl; try done; eapply cluster_ok_insert; [done..|apply Hok].
  - eapply rtc_r; [exact Hr1|exact Hstep].
  - intros resp ->; exists n'; rewrite list_lookup_insert_eq by (by eapply lookup_lt_Some); split; [done|].
    rewrite Hst, Hp; destruct (Node_Store n !! key) as [v|]; [|by simplify_eq].
    destruct (Value_Deleted v); simplify_eq; [done|]; split_and!; [done..|].
    apply elem_of_app; right; left.
Qed.

(** A put that succeeds is a write whose dependencies are what had been read. *)
Lemma put_others key data w :
  trial_world w ->
  let '(w', r) := client_Put o (MkPutRequest key data) w in
  forall resp, r = Ok resp -> trial_world w' /\ exists c n n' ts msgs,
    let x := MkWrite key (MkValue data ts (pending_deps n) false) in
    rtc others (dp_cluster w) c /\ nodes c !! o = Some n /\ wrote "causal" n x n' msgs /\
    ts_lt zeroTimestamp ts /\ dp_cluster w' = MkCluster (<[o := n']> (nodes c)) (net c ++ msgs).
Proof.
  intros Hw; destruct (pause_others 0 w Hw) as [Hw1 Hr1]; simpl; unfold deployed_Put.
  revert Hw1 Hr1; generalize (deployed_pause 0 w); intros w1 [Hok Hr Hb] Hr1; cbn zeta.
  destruct (nodes (dp_cluster w1) !! o) as [n|] eqn:Hn; [|done].
  assert (Hhd : reading_pos (hd 1%Z (dp_readings w1)) /\ Forall reading_pos (tl (dp_readings w1))) by (by destruct Hr).
  destruct Hhd as [[Hnow Hpos] Htl]; revert Hnow Hpos; generalize (hd 1%Z (dp_readings w1)); intros now Hnow Hpos.
  rewrite Node_Put_write; simpl; destruct (node_write now key data false [] n) as [[n' rpcs] r] eqn:Hwr.
  destruct (node_write_wrote "causal" causal_async _ _ _ _ _ _ _ _ (co_nodes _ _ _ Hok _ _ Hn) Hnow Hwr)
    as [(-> & _)|(ts & -> & Hn' & Hle & Hwrote)]; [by intros resp|intros resp _].
  destruct (write_happened "causal" causal_async N _ _ _ now key data false (LPut o now (MkPutRequest key data))
    _ _ _ Hok Hn Hnow eq_refl Hwr) as [Hok' _].
  split; [by split|]; exists (dp_cluster w1), n, n', ts, (messages rpcs); split_and!; try done.
  unfold ts_lt; simpl; lia.
Qed.

(** ** One trial *)

Lemma untouched_chains a i :
  about_chains (fun s => s !! chain_key a i = None) (fun x => write_key x <> chain_key a i).
Proof.
  split.
  - intros s w Hs Hw _; by rewrite apply_write_lookup, decide_False.
  - intros s key v Hs Hkey; by rewrite lookup_insert_ne.
  - auto.
Qed.

Lemma chained_chains i vA :
  ts_lt zeroTimestamp (Value_Timestamp vA) ->
  about_chains (store_chained (chain_key true i) (chain_key false i) vA)
    (write_chained (chain_key true i) (chain_key false i) vA).
Proof.
  intros Hpos; assert (Hne : chain_key false i <> chain_key true i) by (intros [? _]%chain_key_inj; done).
  split.
  - intros s w [HA HB] [HwA HwB] Hd; unfold store_chained; rewrite !apply_write_lookup.
    destruct (decide (write_key w = chain_key true i)) as [Hk|Hk].
    + rewrite Hk, decide_False by congruence; rewrite (HwA Hk).
      assert (Hl : lww (s !! chain_key true i) vA = Some vA).
      { unfold lww; destruct (s !! _) as [v|]; [|done]; rewrite (HA v eq_refl); by case_decide. }
      rewrite Hl; split; [by intros v [= <-]|done].
    + split; [done|]; case_decide as HkB; [|done]; intros _.
      specialize (HwB HkB); rewrite depsSatisfied_spec, Forall_forall in Hd; specialize (Hd _ HwB).
      unfold version, Store_GetVersion in Hd; simpl in Hd; destruct (s !! chain_key true i); [done|].
      exfalso; simpl in Hd; ts_order.
  - intros s key v [HA HB] Hkey; unfold store_chained; by rewrite !lookup_insert_ne.
  - intros w Hw; by split; intros Heq; destruct (Hw _ _ Heq).
Qed.

(** The chain from the put of A on. *)
Record chain_world (i : Z) (vA : Value) w : Prop := {
  cw_world : trial_world w;
  cw_chained : chained (chain_key true i) (chain_key false i) vA (dp_cluster w);
  cw_put : Value_Deleted vA = false;
  cw_data : Value_Data vA = bytes_of ("a-" +:+ fmt_d i);
  cw_pos : ts_lt zeroTimestamp (Value_Timestamp vA);
  cw_later : forall a j, (i < j)%Z -> untouched (chain_key a j) (dp_cluster w)
}.

Lemma chain_world_others i vA w w' :
  chain_world i vA w -> trial_world w' -> rtc others (dp_cluster w) (dp_cluster w') -> chain_world i vA w'.
Proof.
  intros [Hw Hc Hp Hd Hpos Hl] Hw' Hr; split; try done.
  - eapply others_tidy; [by apply chained_chains|done..].
  - intros a j Hj; eapply others_tidy; [apply untouched_chains|done|by apply Hl].
Qed.

(** A store that shows B shows A, and what it shows of A is the one write. *)
Lemma poll_chain_ok fuel replica i vA valB deadline w :
  chain_world i vA w ->
  let '(w', r) := poll_chain fuel replica (chain_key true i) (Value_Data vA) (chain_key false i) valB deadline w in
  r <> Some true /\ chain_world i vA w'.
Proof.
  revert w; induction fuel as [|fuel IH]; intros w Hw; cbn [poll_chain]; [done|].
  cbn [time_Now deployed_time]; destruct (negb _); [done|].
  pose proof (get_others (Client_Client replica) (chain_key false i) w (cw_world _ _ _ Hw)) as HgB.
  destruct (client_Get _ _ w) as [w1 rB]; destruct HgB as (Ht1 & Hr1 & HgB).
  pose proof (chain_world_others _ _ _ _ Hw Ht1 Hr1) as Hw1; destruct rB as [respB|eB]; [|done].
  destruct (HgB _ eq_refl) as (nB & HnB & HshB); clear HgB.
  pose proof (get_others (Client_Client replica) (chain_key true i) w1 Ht1) as HgA.
  destruct (client_Get _ _ w1) as [w2 rA]; destruct HgA as (Ht2 & Hr2 & HgA).
  pose proof (chain_world_others _ _ _ _ Hw1 Ht2 Hr2) as Hw2; destruct rA as [respA|eA]; [|done].
  destruct (HgA _ eq_refl) as (nA & HnA & HshA); clear HgA.
  destruct (GetResp_Found respB && _)%bool eqn:HB.
  - assert (HvB : Node_Store nB !! chain_key false i <> None).
    { intros Hnone; rewrite Hnone in HshB; by rewrite HshB in HB. }
    pose proof (proj2 (ti_store _ _ _ (cw_chained _ _ _ Hw1) _ _ HnB) HvB) as HvA.
    destruct (others_grown _ _ _ _ _ _ Hr2 HnB) as (x & Hx & [Hkeys _]); rewrite HnA in Hx; injection Hx as <-.
    specialize (Hkeys _ HvA); destruct (Node_Store nA !! chain_key true i) as [v|] eqn:Hv; [|done].
    pose proof (proj1 (ti_store _ _ _ (cw_chained _ _ _ Hw2) _ _ HnA) _ Hv) as ->.
    rewrite (cw_put _ _ _ Hw2) in HshA; destruct HshA as (-> & -> & _).
    unfold bytes_eqb; rewrite bool_decide_true by done; by simpl.
  - destruct (pause_others 2000000 w2 Ht2) as [Ht3 Hr3].
    apply IH; by eapply chain_world_others.
Qed.

(** What the trials find of their keys. *)
Record ready (i : Z) w : Prop := {
  rd_world : trial_world w;
  rd_untouched : forall a j, (i <= j)%Z -> untouched (chain_key a j) (dp_cluster w)
}.

(** The put of A starts the chain. *)
Lemma put_A i w :
  ready i w ->
  let '(w', r) := client_Put o (MkPutRequest (chain_key true i) (bytes_of ("a-" +:+ fmt_d i))) w in
  forall resp, r = Ok resp -> exists vA, chain_world i vA w' /\
    exists n, nodes (dp_cluster w') !! o = Some n /\ Node_Store n !! chain_key true i <> None.
Proof.
  intros [Hw Hu]; pose proof (put_others (chain_key true i) (bytes_of ("a-" +:+ fmt_d i)) w Hw) as HA.
  destruct (client_Put _ _ w) as [w1 r]; intros resp Hr.
  destruct (HA resp Hr) as (Ht1 & c & n & n' & ts & msgs & Hrt & Hn & Hwr & Hpos & Hc); clear HA.
  set (x := MkWrite _ _) in Hwr; exists (write_val x).
  assert (Huc : forall a j, (i <= j)%Z -> untouched (chain_key a j) c).
  { intros a j Hj; eapply others_tidy; [apply untouched_chains|done|by apply Hu]. }
  assert (Hx : forall p req pts, (p, req) ∈ msgs -> RR_Timestamp req = Some pts -> request_write req pts = x).
  { intros; by eapply wrote_request. }
  assert (Hne : chain_key false i <> chain_key true i) by (intros [? _]%chain_key_inj; done).
  split; [split; try done|].
  - rewrite Hc; destruct (Huc true i ltac:(lia)) as [HsA HnA HhA], (Huc false i ltac:(lia)) as [HsB HnB HhB].
    eapply tidy_wrote; [exact Hn|exact Hwr| | |].
    + split; [intros j m Hm|intros p req pts Hreq Hpts|intros j m y Hm Hy].
      * split; [intros v; by rewrite (HsA _ _ Hm)|by rewrite (HsB _ _ Hm)].
      * split; intros Hk; [by destruct (HnA _ _ _ Hreq Hpts)|by destruct (HnB _ _ _ Hreq Hpts)].
      * split; intros Hk; [by destruct (HhA _ _ _ Hm Hy)|by destruct (HhB _ _ _ Hm Hy)].
    + split; simpl; [rewrite lookup_insert_eq; by intros v [= <-]|by rewrite lookup_insert_eq].
    + intros p req pts Hreq Hpts; rewrite (Hx _ _ _ Hreq Hpts); split; simpl; [done|by intros ?].
  - intros a j Hj; rewrite Hc; assert (Hxk : write_key x <> chain_key a j) by (simpl; intros [_ ->]%chain_key_inj; lia).
    eapply tidy_wrote; [exact Hn|exact Hwr|apply Huc; lia| |].
    + rewrite lookup_insert_ne by done; apply (ti_store _ _ _ (Huc a j ltac:(lia)) _ _ Hn).
    + intros p req pts Hreq Hpts; by rewrite (Hx _ _ _ Hreq Hpts).
  - exists n'; rewrite Hc; simpl; rewrite list_lookup_insert_eq by (by eapply lookup_lt_Some); split; [done|].
    by rewrite (wr_store _ _ _ _ _ Hwr), lookup_insert_eq.
Qed.

(** The put of B, after A was read at the origin, extends it. *)
Lemma put_B i vA n0 w :
  chain_world i vA w -> nodes (dp_cluster w) !! o = Some n0 -> Node_Store n0 !! chain_key true i <> None ->
  MkDependency (chain_key true i) (Value_Timestamp vA) ∈ pending_deps n0 ->
  let '(w', r) := client_Put o (MkPutRequest (chain_key false i) (bytes_of ("b-" +:+ fmt_d i))) w in
  forall resp, r = Ok resp -> chain_world i vA w'.
Proof.
  intros Hw Hn0 HA0 Hp0.
  pose proof (put_others (chain_key false i) (bytes_of ("b-" +:+ fmt_d i)) w (cw_world _ _ _ Hw)) as HB.
  destruct (client_Put _ _ w) as [w1 r]; intros resp Hr.
  destruct (HB resp Hr) as (Ht1 & c & n & n' & ts & msgs & Hrt & Hn & Hwr & _ & Hc); clear HB.
  set (x := MkWrite _ _) in Hwr.
  destruct (others_grown _ _ _ _ _ _ Hrt Hn0) as (y & Hy & [Hkeys Hpend]); rewrite Hn in Hy; injection Hy as <-.
  assert (Hx : forall p req pts, (p, req) ∈ msgs -> RR_Timestamp req = Some pts -> request_write req pts = x).
  { intros; by eapply wrote_request. }
  assert (Hne : chain_key false i <> chain_key true i) by (intros [? _]%chain_key_inj; done).
  destruct Hw as [Hw Hch Hp Hd Hpos Hl]; split; try done.
  - assert (Hcc : chained (chain_key true i) (chain_key false i) vA c)
      by (eapply others_tidy; [by apply chained_chains|done..]).
    rewrite Hc; eapply tidy_wrote; [exact Hn|exact Hwr|exact Hcc| |].
    + destruct (ti_store _ _ _ Hcc _ _ Hn) as [HA _]; split; simpl;
        rewrite (lookup_insert_ne _ (chain_key false i) (chain_key true i)) by done; [done|]; intros _; by apply Hkeys.
    + intros p req pts Hreq Hpts; rewrite (Hx _ _ _ Hreq Hpts); split; simpl; [by intros ?|intros _].
      by apply Hpend.
  - intros a j Hj; rewrite Hc; assert (Hxk : write_key x <> chain_key a j) by (simpl; intros [_ ->]%chain_key_inj; lia).
    assert (Hu : untouched (chain_key a j) c) by (eapply others_tidy; [apply untouched_chains|done|by apply Hl]).
    eapply tidy_wrote; [exact Hn|exact Hwr|exact Hu| |].
    + rewrite lookup_insert_ne by done; apply (ti_store _ _ _ Hu _ _ Hn).
    + intros p req pts Hreq Hpts; by rewrite (Hx _ _ _ Hreq Hpts).
Qed.

Lemma chain_trial_ok origin replica i w :
  Client_Client origin = o -> ready i w ->
  let '(w', r) := chain_trial origin replica i w in
  r <> Some (Ok true) /\ (forall b, r = Some (Ok b) -> ready (i + 1) w').
Proof.
  intros Ho Hw; unfold chain_trial; rewrite Ho; fold (chain_key true i) (chain_key false i).
  pose proof (put_A i w Hw) as HA; destruct (client_Put _ _ w) as [w1 [rA|e]]; [|done].
  destruct (HA _ eq_refl) as (vA & Hw1 & n1 & Hn1 & HA1); clear HA.
  pose proof (get_others o (chain_key true i) w1 (cw_world _ _ _ Hw1)) as HG.
  destruct (client_Get _ _ w1) as [w2 [rG|e]]; destruct HG as (Ht2 & Hr2 & HG); [|done].
  pose proof (chain_world_others _ _ _ _ Hw1 Ht2 Hr2) as Hw2; destruct (HG _ eq_refl) as (n2 & Hn2 & Hsh); clear HG.
  destruct (others_grown _ _ _ _ _ _ Hr2 Hn1) as (x & Hx & [Hkeys _]); rewrite Hn2 in Hx; injection Hx as <-.
  specialize (Hkeys _ HA1); destruct (Node_Store n2 !! chain_key true i) as [v|] eqn:Hv; [|done].
  pose proof (proj1 (ti_store _ _ _ (cw_chained _ _ _ Hw2) _ _ Hn2) _ Hv) as ->.
  rewrite (cw_put _ _ _ Hw2) in Hsh; destruct Hsh as (_ & _ & Hp).
  pose proof (put_B i vA n2 w2 Hw2 Hn2 ltac:(by rewrite Hv) Hp) as HB.
  destruct (client_Put _ _ w2) as [w3 [rB|e]]; [|done]; specialize (HB _ eq_refl).
  unfold pollCausalViolation; cbn [time_Now deployed_time]; rewrite <- (cw_data _ _ _ HB).
  match goal with |- context [poll_chain ?f _ _ _ _ ?v ?dl w3] => pose proof (poll_chain_ok f replica i vA v dl w3 HB) as Hpoll end.
  destruct (poll_chain _ _ _ _ _ _ _ w3) as [w4 r]; destruct Hpoll as [Hno Hw4].
  split; [by destruct r as [[|]|]|]; intros b _; split; [apply Hw4|]; intros a j Hj; apply (cw_later _ _ _ Hw4); lia.
Qed.

Lemma chain_trials_clean origin replica m s r w :
  Client_Client origin = o -> ready (Z.of_nat s) w ->
  CC_Violations r = 0%Z -> Forall (fun b => b = false) (CC_TrialViolations r) ->
  let '(w', x) := chain_trials origin replica (map Z.of_nat (seq s m)) r w in
  forall r' err, x = Some (r', err) ->
    CC_Violations r' = 0%Z /\ Forall (fun b => b = false) (CC_TrialViolations r').
Proof.
  intros Ho; revert s r w; induction m as [|m IH]; intros s r w Hw Hv Hvs; cbn [seq map chain_trials].
  { by intros r' err [= <- <-]. }
  pose proof (chain_trial_ok origin replica (Z.of_nat s) w Ho Hw) as Htrial.
  destruct (chain_trial _ _ _ w) as [w1 [[violated|e]|]]; destruct Htrial as [Hno Hnext];
    [|by intros r' err [= <- <-]|by intros r' err [=]].
  destruct violated; [done|]; specialize (Hnext false eq_refl).
  replace (Z.of_nat s + 1)%Z with (Z.of_nat (S s)) in Hnext by lia.
  apply (IH (S s) _ w1); try done; simpl.
  apply Forall_app; split; [done|by constructor].
Qed.

End trial.

(** ** Properties *)

(** C20: the causal-chain experiment passes on a causal cluster: at any point of a
    run, for any number of trials, with any two nodes as origin and replica, with
    RPCs delivered in any order or lost and other clients at work between and
    during the polls, the experiment ends and reports no violation in any trial.
    It needs its keys to itself, that is, no node stores or holds a write of a
    chain key and none is in flight when it starts, and nobody else writes one; no
    other client writes at the origin meanwhile (such a write would take the read
    of A with it); the readings of the origin's clock at its puts are positive,
    all others are int64s from the epoch on; and one slot per trial can be made. *)
Theorem causal_experiment_clean opts nows c0 ls c now readings batches origin replica trials :
  Forall (fun now => reading_ok now = true) nows -> init_cluster "causal" opts nows = Some c0 ->
  forallb label_timed ls = true -> run ls c0 = Some c ->
  (forall a i, (0 <= i)%Z -> untouched (chain_key a i) c) ->
  Forall reading_pos readings -> Forall (Forall (bystander (Client_Client origin))) batches ->
  make_ok 1 trials = true ->
  exists w' r err,
    MeasureCausalChains origin replica trials (MkDeployed c now readings batches) =
      (w', Some (r, err)) /\
    CC_Violations r = 0%Z /\ Forall (fun b => b = false) (CC_TrialViolations r).
Proof.
  intros Hnows Hinit Hls Hrun Hu Hr Hb Htr; set (w := MkDeployed c now readings batches).
  assert (Hw : ready (length nows) (Client_Client origin) 0 w).
  { split; [split; try done; by eapply run_cluster_ok; [apply causal_async|..]|exact Hu]. }
  unfold MeasureCausalChains; rewrite Htr; cbn [negb].
  destruct (chain_trials_ok origin replica (trial_ids trials) (MkCausalChainResult trials 0 []) w)
    as (w' & r & err & Heq & _); [done|].
  pose proof (chain_trials_clean _ _ origin replica (Z.to_nat trials) 0
    (MkCausalChainResult trials 0 []) w eq_refl Hw eq_refl (List.Forall_nil _)) as Hc.
  exists w', r, err; split; [exact Heq|]; unfold trial_ids in Heq; rewrite Heq in Hc; by eapply Hc.
Qed.

(** Two nodes; the network delivers B's RPC while A's is still in flight, then A's,
    and another client writes and reads at the replica. *)
Definition c_pair (mode : string) : cluster :=
  default (MkCluster [] []) (init_cluster mode c_opts [100; 100]%Z).
Definition c_chain_others : list (list label) :=
  [[LPut 1 150 (MkPutRequest "x" [x7a])]; []; [LDeliver 0 250%Z]; [LDeliver 1 400%Z]; [];
   [LGet 1 (MkGetRequest "x")]; [LDeliver 0 500%Z]].
Definition c_sched (mode : string) : deployed :=
  MkDeployed (c_pair mode) 0 [200; 300]%Z c_chain_others.

Lemma causal_experiment_clean_witness :
  option_map (fun r => CC_TrialViolations (fst r))
    (snd (MeasureCausalChains c_origin c_replica 1 (c_sched "causal"))) = Some [false] /\
  exists w' r err, MeasureCausalChains c_origin c_replica 1 (c_sched "causal") = (w', Some (r, err)) /\
    CC_Violations r = 0%Z.
Proof.
  split; [vm_compute; reflexivity|].
  destruct (causal_experiment_clean c_opts [100; 100]%Z (c_pair "causal") [] (c_pair "causal") 0
    [200; 300]%Z c_chain_others c_origin c_replica 1)
    as (w' & r & err & Hr & Hv & _); try reflexivity.
  - by repeat constructor.
  - intros a i _; split.
    + intros j n Hn; destruct j as [|[|j]]; vm_compute in Hn; [injection Hn as <-..|discriminate Hn]; reflexivity.
    + intros p req pts Hreq; vm_compute in Hreq; by apply not_elem_of_nil in Hreq.
    + intros j n w Hn Hw; destruct j as [|[|j]]; vm_compute in Hn; [injection Hn as <-..|discriminate Hn];
        vm_compute in Hw; by apply not_elem_of_nil in Hw.
  - repeat constructor; lia.
  - repeat constructor; try discriminate; intros key Hk; vm_compute in Hk; try discriminate Hk;
      injection Hk as <-; intros ([|] & i & Heq); discriminate Heq.
  - exists w', r, err; split; [exact Hr|exact Hv].
Defined.

(** The experiment can tell: on an eventual cluster, with the network delivering B
    before A, it reports a violation. *)
Theorem eventual_experiment_violates :
  exists w' r, MeasureCausalChains c_origin c_replica 1 (c_sched "eventual") = (w', Some (r, None)) /\
    CC_Violations r = 1%Z /\ CC_TrialViolations r = [true].
Proof. do 2 eexists; split; [vm_compute; reflexivity|]; done. Qed.
