(* ===== verification/Checker.v ===== *)
(** * The convergence checker ([src/internal/checker/checker.go])

    [CheckKeys] reads every key from every node and compares the answers;
    [WaitForConvergence] polls it until they agree or a deadline passes.  The
    nodes and the time are reached through the interfaces of [Env.v]. *)

From S2P Require Import Prelude Hlc Store Wire Env.

(** ** Data *)

Record NodeValue := MkNodeValue {
  NV_Address : string;
  NV_Value : list byte;
  NV_Found : bool
}.

Record KeyReport := MkKeyReport {
  KR_Key : string;
  KR_Consistent : bool;
  KR_Nodes : list NodeValue
}.

Record Report := MkReport {
  Report_KeysChecked : Z;
  Report_Consistent : bool;
  Report_Keys : list KeyReport
}.

Record NamedClient := MkNamedClient { NC_Address : string; NC_Client : client }.

Record Checker := MkChecker { Checker_Clients : list NamedClient }.

Definition checker_New (clients : list NamedClient) : Checker := MkChecker clients.

(** ** Operations *)

Definition bytesEqual (a b : list byte) : bool :=
  if negb (Nat.eqb (length a) (length b)) then false
  else forallb (fun i => match a !! i, b !! i with
                         | Some x, Some y => Byte.eqb x y
                         | _, _ => false
                         end) (seq 0 (length a)).

(** The variables of the loop over the clients: [kr], [report.Consistent],
    [ref], [refFound] and [haveRef]. *)
Record key_loop := MkKeyLoop {
  kl_nodes : list NodeValue;
  kl_kr_consistent : bool;
  kl_report_consistent : bool;
  kl_ref : list byte;
  kl_refFound : bool;
  kl_haveRef : bool
}.

(** The body of the loop over the clients, after the call has answered. *)
Definition check_answer (addr : string) (ans : res GetResponse) (l : key_loop) : key_loop :=
  match ans with
  | Err _ =>
      MkKeyLoop (kl_nodes l ++ [MkNodeValue addr [] false]) false false
        (kl_ref l) (kl_refFound l) (kl_haveRef l)
  | Ok resp =>
      let nv := MkNodeValue addr (GetResp_Value resp) (GetResp_Found resp) in
      let nodes := kl_nodes l ++ [nv] in
      if negb (kl_haveRef l) then
        MkKeyLoop nodes (kl_kr_consistent l) (kl_report_consistent l)
          (NV_Value nv) (NV_Found nv) true
      else if negb (Bool.eqb (NV_Found nv) (kl_refFound l)) || negb (bytesEqual (NV_Value nv) (kl_ref l))
      then MkKeyLoop nodes false false (kl_ref l) (kl_refFound l) (kl_haveRef l)
      else MkKeyLoop nodes (kl_kr_consistent l) (kl_report_consistent l)
             (kl_ref l) (kl_refFound l) (kl_haveRef l)
  end.

Section checker.
Context {W : Type} `{KVService W} `{Time W} `{Format}.

Fixpoint check_clients (key : string) (ncs : list NamedClient) (w : W) (l : key_loop)
    : W * key_loop :=
  match ncs with
  | [] => (w, l)
  | nc :: ncs =>
      let '(w, ans) := client_Get (NC_Client nc) (MkGetRequest key) w in
      check_clients key ncs w (check_answer (NC_Address nc) ans l)
  end.

Fixpoint check_keys (clients : list NamedClient) (keys : list string) (w : W) (report : Report)
    : W * Report :=
  match keys with
  | [] => (w, report)
  | key :: keys =>
      let '(w, l) := check_clients key clients w
                       (MkKeyLoop [] true (Report_Consistent report) [] false false) in
      check_keys clients keys w
        (MkReport (Report_KeysChecked report) (kl_report_consistent l)
           (Report_Keys report ++ [MkKeyReport key (kl_kr_consistent l) (kl_nodes l)]))
  end.

Definition CheckKeys (c : Checker) (keys : list string) (w : W) : W * Report :=
  check_keys (Checker_Clients c) keys w (MkReport (Z.of_nat (length keys)) true []).

Definition poll_interval : Z := 100000000.   (* 100 ms *)

(** The polling loop: [None] when [fuel] polls did not end it. *)
Fixpoint wait_loop (fuel : nat) (c : Checker) (keys : list string) (settle deadline : Z) (w : W)
    : W * option (Report * option string) :=
  match fuel with
  | O => (w, None)
  | S fuel =>
      let '(w, last) := CheckKeys c keys w in
      if Report_Consistent last then (w, Some (last, None))
      else
        let '(w, now) := time_Now w in
        if (deadline <? now)%Z then
          (w, Some (last, Some ("nodes did not converge within " +:+ fmt_duration settle)))
        else
          match ctx_wait poll_interval w with
          | (w, Some e) => (w, Some (last, Some e))
          | (w, None) => wait_loop fuel c keys settle deadline w
          end
  end.

(** One poll per interval of the settling time, and two more, are enough
    ([WaitForConvergence_terminates]). *)
Definition WaitForConvergence (c : Checker) (keys : list string) (settle : Z) (w : W)
    : W * option (Report * option string) :=
  let '(w, now) := time_Now w in
  wait_loop (Z.to_nat (settle / poll_interval) + 2) c keys settle (now + settle)%Z w.

Definition node_line (node : NodeValue) : string :=
  "    " +:+ NV_Address node +:+ " found=" +:+ (if NV_Found node then "true" else "false")
    +:+ " value=" +:+ fmt_quote (NV_Value node) +:+ newline.

Definition Report_String (r : Report) : string :=
  let status := if negb (Report_Consistent r) then "INCONSISTENT" else "CONSISTENT" in
  let out := status +:+ ": checked " +:+ fmt_d (Report_KeysChecked r) +:+ " keys" +:+ newline in
  foldl (fun out key =>
           if KR_Consistent key then out
           else foldl (fun out node => out +:+ node_line node)
                  (out +:+ "  key " +:+ KR_Key key +:+ ":" +:+ newline) (KR_Nodes key))
    out (Report_Keys r).

(** ** Specification *)

(** The answers of the clients, asked for every key in the order of the source. *)
Fixpoint ask_clients (key : string) (ncs : list NamedClient) (w : W)
    : W * list (string * res GetResponse) :=
  match ncs with
  | [] => (w, [])
  | nc :: ncs =>
      let '(w, ans) := client_Get (NC_Client nc) (MkGetRequest key) w in
      let '(w, answers) := ask_clients key ncs w in
      (w, (NC_Address nc, ans) :: answers)
  end.

Fixpoint ask_keys (clients : list NamedClient) (keys : list string) (w : W)
    : W * list (list (string * res GetResponse)) :=
  match keys with
  | [] => (w, [])
  | key :: keys =>
      let '(w, answers) := ask_clients key clients w in
      let '(w, rest) := ask_keys clients keys w in
      (w, answers :: rest)
  end.

End checker.

(** What is compared of an answer. *)
Definition shown (ans : res GetResponse) : option (list byte * bool) :=
  match ans with
  | Ok resp => Some (GetResp_Value resp, GetResp_Found resp)
  | Err _ => None
  end.

(** No call failed and all answers show the same value. *)
Definition agree (answers : list (string * res GetResponse)) : Prop :=
  exists v, Forall (fun a => shown (snd a) = Some v) answers.

Definition node_value (a : string * res GetResponse) : NodeValue :=
  let '(v, f) := default ([], false) (shown (snd a)) in MkNodeValue (fst a) v f.

(** ** Lemmas *)

Lemma bytesEqual_spec a b : bytesEqual a b = true <-> a = b.
Proof.
  unfold bytesEqual; destruct (Nat.eqb_spec (length a) (length b)) as [Hl|Hl]; simpl.
  - rewrite forallb_forall; split.
    + intros Hf; apply list_eq_same_length with (length b); [done|done|].
      intros i x y Hi Hx Hy; specialize (Hf i).
      rewrite Hx, Hy, in_seq in Hf; apply Byte.byte_dec_bl, Hf.
      apply lookup_lt_Some in Hx; lia.
    + intros -> i Hi%in_seq.
      destruct (lookup_lt_is_Some_2 b i) as [x Hx]; [lia|]; rewrite Hx.
      by apply Byte.byte_dec_lb.
  - split; [done|by intros ->].
Qed.

Lemma check_clients_ask {W : Type} `{KVService W} key ncs (w : W) l :
  check_clients key ncs w l =
  let '(w', answers) := ask_clients key ncs w in
  (w', foldl (fun l a => check_answer (fst a) (snd a) l) l answers).
Proof.
  revert w l; induction ncs as [|nc ncs IH]; intros w l; simpl; [done|].
  destruct (client_Get _ _ w) as [w1 ans]; rewrite IH.
  by destruct (ask_clients key ncs w1).
Qed.

Lemma check_answer_ref addr ans l :
  kl_haveRef l = true ->
  let c := bool_decide (shown ans = Some (kl_ref l, kl_refFound l)) in
  check_answer addr ans l =
  MkKeyLoop (kl_nodes l ++ [node_value (addr, ans)]) (kl_kr_consistent l && c)
    (kl_report_consistent l && c) (kl_ref l) (kl_refFound l) true.
Proof.
  intros Hr c; unfold check_answer; rewrite Hr; destruct ans as [resp|e]; cbn [negb NV_Value NV_Found].
  - rewrite <- negb_andb; destruct (Bool.eqb _ _ && bytesEqual _ _) eqn:Heq; cbn [negb].
    + apply andb_true_iff in Heq as [Hf%Bool.eqb_prop Hv%bytesEqual_spec].
      subst c; rewrite bool_decide_true by (simpl; congruence); by rewrite !andb_true_r.
    + subst c; rewrite bool_decide_false, !andb_false_r; [done|]; intros [= Hv Hf].
      rewrite Hf, Bool.eqb_reflx, (proj2 (bytesEqual_spec _ _) Hv) in Heq; done.
  - subst c; by rewrite bool_decide_false, !andb_false_r.
Qed.

Lemma check_answer_first addr ans l :
  kl_haveRef l = false ->
  check_answer addr ans l =
  match shown ans with
  | Some (v, f) => MkKeyLoop (kl_nodes l ++ [node_value (addr, ans)]) (kl_kr_consistent l)
                     (kl_report_consistent l) v f true
  | None => MkKeyLoop (kl_nodes l ++ [node_value (addr, ans)]) false false
              (kl_ref l) (kl_refFound l) false
  end.
Proof. intros Hr; destruct ans as [resp|e]; simpl; rewrite ?Hr; done. Qed.

Lemma check_answer_fold answers l :
  let l' := foldl (fun l a => check_answer (fst a) (snd a) l) l answers in
  kl_nodes l' = kl_nodes l ++ map node_value answers /\
  exists b : bool,
    kl_kr_consistent l' = (kl_kr_consistent l && b)%bool /\
    kl_report_consistent l' = (kl_report_consistent l && b)%bool /\
    (b = true <-> if kl_haveRef l
      then Forall (fun a => shown (snd a) = Some (kl_ref l, kl_refFound l)) answers
      else agree answers).
Proof.
  revert l; induction answers as [|[addr ans] answers IH]; intros l.
  - simpl; rewrite app_nil_r; split; [done|]; exists true; rewrite !andb_true_r; split_and!; try done.
    destruct (kl_haveRef l); split; intros _; first [done | by exists ([], false) | constructor].
  - cbn [foldl fst snd map]; destruct (kl_haveRef l) eqn:Hl.
    + rewrite (check_answer_ref _ _ _ Hl); set (c := bool_decide _).
      match goal with |- context [foldl _ ?l1 answers] => destruct (IH l1) as (-> & b & -> & -> & Hb) end.
      simpl in *; rewrite <- app_assoc; split; [done|]. exists (c && b)%bool.
      rewrite !andb_assoc; split_and!; try done.
      subst c; rewrite Forall_cons, andb_true_iff, bool_decide_eq_true, Hb; done.
    + rewrite (check_answer_first _ _ _ Hl); destruct (shown ans) as [[v f]|] eqn:Ha;
        match goal with |- context [foldl _ ?l1 answers] =>
          destruct (IH l1) as (-> & b & -> & -> & Hb)
        end; simpl in *; rewrite <- app_assoc; (split; [done|]).
      * exists b; split_and!; try done. rewrite Hb; unfold agree; split.
        -- intros Hf; exists (v, f); by constructor.
        -- intros (x & [Hx Hf]%Forall_cons); simpl in Hx; by simplify_eq.
      * exists false; rewrite !andb_false_r; split_and!; try done. split; [done|].
        intros (x & [Hx _]%Forall_cons); simpl in Hx; congruence.
Qed.

(** What the loop over the keys does, from a report already started. *)
Lemma check_keys_spec {W : Type} `{KVService W} clients keys (w : W) report :
  let '(w', rep) := check_keys clients keys w report in
  let '(w2, answers) := ask_keys clients keys w in
  w' = w2 /\ Report_KeysChecked rep = Report_KeysChecked report /\
  exists krs, Report_Keys rep = Report_Keys report ++ krs /\
    map KR_Key krs = keys /\ map KR_Nodes krs = map (map node_value) answers /\
    Forall2 (fun kr a => KR_Consistent kr = true <-> agree a) krs answers /\
    (Report_Consistent rep = true <-> Report_Consistent report = true /\ Forall agree answers).
Proof.
  revert w report; induction keys as [|key keys IH]; intros w report; simpl.
  - split_and!; try done. exists []; rewrite app_nil_r; split_and!; try done.
    split; [by split|by intros [? _]].
  - rewrite check_clients_ask; destruct (ask_clients key clients w) as [w1 answers].
    destruct (check_answer_fold answers
      (MkKeyLoop [] true (Report_Consistent report) [] false false)) as (Hn & b & Hk & Hr & Hb).
    set (l := foldl _ _ answers) in *; simpl in *.
    specialize (IH w1 (MkReport (Report_KeysChecked report) (kl_report_consistent l)
      (Report_Keys report ++ [MkKeyReport key (kl_kr_consistent l) (kl_nodes l)]))).
    destruct (check_keys _ keys _ _) as [w' rep], (ask_keys clients keys w1) as [w2 rest].
    destruct IH as (-> & Hc & krs & Hkrs & Hkeys & Hnodes & Hall & Hcons); simpl in *.
    split_and!; try done. exists (MkKeyReport key (kl_kr_consistent l) (kl_nodes l) :: krs).
    rewrite Hkrs, <- app_assoc; simpl; split_and!; try congruence.
    + constructor; [simpl; by rewrite Hk|done].
    + rewrite Hcons, Hr, Forall_cons, andb_true_iff, Hb; tauto.
Qed.

Section waiting.
Context {W : Type} `{TimeLaws W} `{Format}.

Lemma check_clients_time key ncs (w : W) l :
  (time_of w <= time_of (fst (check_clients key ncs w l)))%Z.
Proof.
  revert w l; induction ncs as [|nc ncs IH]; intros w l; simpl; [lia|].
  pose proof (time_Get (NC_Client nc) (MkGetRequest key) w) as Hg.
  destruct (client_Get _ _ w) as [w1 ans]; simpl in Hg.
  specialize (IH w1 (check_answer (NC_Address nc) ans l)); lia.
Qed.

Lemma check_keys_time clients keys (w : W) rep :
  (time_of w <= time_of (fst (check_keys clients keys w rep)))%Z.
Proof.
  revert w rep; induction keys as [|key keys IH]; intros w rep; simpl; [lia|].
  match goal with |- context [check_clients key clients w ?l] =>
    pose proof (check_clients_time key clients w l) as Hc;
    destruct (check_clients key clients w l) as [w1 l1] end; simpl in Hc.
  etrans; [exact Hc|apply IH].
Qed.

(** A finished loop: the report of its last poll, and an error if inconsistent. *)
Definition wait_result (c : Checker) (keys : list string)
    (r : W * option (Report * option string)) : Prop :=
  exists w0 w1 w' rep err, r = (w', Some (rep, err)) /\
    CheckKeys c keys w0 = (w1, rep) /\ (err = None <-> Report_Consistent rep = true).

(** One poll: the loop ends, or goes on one interval later. *)
Lemma wait_poll fuel c keys settle deadline (w : W) :
  ((time_of w <= deadline)%Z -> forall w', (time_of w + poll_interval <= time_of w')%Z ->
     wait_result c keys (wait_loop fuel c keys settle deadline w')) ->
  wait_result c keys (wait_loop (S fuel) c keys settle deadline w).
Proof.
  intros Hnext; cbn [wait_loop].
  pose proof (check_keys_time (Checker_Clients c) keys w (MkReport (Z.of_nat (length keys)) true []))
    as Hc; fold (CheckKeys c keys w) in Hc.
  destruct (CheckKeys c keys w) as [w1 last] eqn:Hck; simpl in Hc.
  destruct (Report_Consistent last) eqn:Hcons; [by exists w, w1, w1, last, None|].
  pose proof (time_Now_law w1) as Hn; destruct (time_Now w1) as [w2 now]; simpl in Hn.
  destruct (Z.ltb_spec deadline now).
  { do 5 eexists; split_and!; [done|done|by split; rewrite ?Hcons]. }
  pose proof (ctx_wait_law poll_interval w2 ltac:(done)) as Hw.
  destruct (ctx_wait poll_interval w2) as [w3 [e|]]; simpl in Hw.
  { do 5 eexists; split_and!; [done|done|by split; rewrite ?Hcons]. }
  specialize (Hw eq_refl); apply Hnext; lia.
Qed.

(** The loop ends within one poll per interval up to the deadline, and one more. *)
Lemma wait_loop_ends fuel c keys settle deadline (w : W) :
  (deadline - time_of w < Z.of_nat fuel * poll_interval)%Z ->
  wait_result c keys (wait_loop (S fuel) c keys settle deadline w).
Proof.
  revert w; induction fuel as [|fuel IH]; intros w Hfuel; apply wait_poll; intros Hd w' Hw';
    [lia|apply IH; lia].
Qed.

Lemma wait_ends c keys settle (w : W) :
  wait_result c keys (WaitForConvergence c keys settle w).
Proof.
  unfold WaitForConvergence; pose proof (time_Now_law w) as Hn.
  destruct (time_Now w) as [w1 now]; simpl in Hn.
  replace (Z.to_nat (settle / poll_interval) + 2)
    with (S (Z.to_nat (settle / poll_interval) + 1)) by lia.
  apply wait_loop_ends.
  pose proof (Z.mul_succ_div_gt settle poll_interval ltac:(done)) as Hd.
  unfold poll_interval in *; lia.
Qed.

End waiting.

(** ** Properties *)

(** C30: what a report says: [CheckKeys] asks every node for every key, in order, and
    its report lists for each key what each node answered; a key is marked
    consistent exactly when no call failed and all nodes show the same value, and
    the report exactly when every key is. *)
Theorem CheckKeys_correct {W : Type} `{KVService W} c keys (w : W) :
  let '(w', rep) := CheckKeys c keys w in
  let '(w2, answers) := ask_keys (Checker_Clients c) keys w in
  w' = w2 /\ Report_KeysChecked rep = Z.of_nat (length keys) /\
  map KR_Key (Report_Keys rep) = keys /\
  map KR_Nodes (Report_Keys rep) = map (map node_value) answers /\
  Forall2 (fun kr a => KR_Consistent kr = true <-> agree a) (Report_Keys rep) answers /\
  (Report_Consistent rep = true <-> Forall agree answers).
Proof.
  pose proof (check_keys_spec (Checker_Clients c) keys w
    (MkReport (Z.of_nat (length keys)) true [])) as Hs; unfold CheckKeys.
  destruct (check_keys _ _ _ _) as [w' rep], (ask_keys _ _ _) as [w2 answers].
  destruct Hs as (-> & Hc & krs & -> & Hkeys & Hnodes & Hall & Hcons); simpl in *.
  split_and!; try done. rewrite Hcons; tauto.
Qed.

(** C32: polling ends: if time does not run backwards and a wait lasts as long as
    asked, [WaitForConvergence] returns after at most one poll per interval of
    the settling time and two more, with the report of its last poll, and with an
    error exactly when that report is inconsistent. *)
Theorem WaitForConvergence_terminates {W : Type} `{TimeLaws W} `{Format} c keys settle (w : W) :
  exists w0 w1 w' rep err, WaitForConvergence c keys settle w = (w', Some (rep, err)) /\
    CheckKeys c keys w0 = (w1, rep) /\ (err = None <-> Report_Consistent rep = true).
Proof. apply wait_ends. Qed.

(** Two nodes: the second answers the new value only after 250 ms. *)
Definition c_answer (c : client) (key : string) (now : Z) : res GetResponse :=
  if Nat.eqb c 1 && (now <? 250000000)%Z then Ok (MkGetResponse [] None false)
  else Ok (MkGetResponse [x61] None true).
Definition c_world : fixture :=
  MkFixture c_answer (fun _ _ _ => Ok (MkPutResponse None)) 0 [] [].
Definition c_checker : Checker := checker_New [MkNamedClient "n1" 0; MkNamedClient "n2" 1].

Lemma WaitForConvergence_terminates_witness :
  (exists w0 w1 w' rep err,
    WaitForConvergence c_checker ["k"] 3000000000 c_world = (w', Some (rep, err)) /\
    CheckKeys c_checker ["k"] w0 = (w1, rep) /\ (err = None <-> Report_Consistent rep = true)) /\
  option_map (fun r => (Report_Consistent (fst r), snd r))
    (snd (WaitForConvergence c_checker ["k"] 3000000000 c_world)) = Some (true, None) /\
  option_map (fun r => (Report_Consistent (fst r), isSome (snd r)))
    (snd (WaitForConvergence c_checker ["k"] 100000000 c_world)) = Some (false, true).
Proof.
  split; [|split; vm_compute; reflexivity].
  exact (WaitForConvergence_terminates c_checker ["k"] 3000000000 c_world).
Defined.
