(* ===== verification/Deploy.v ===== *)
(** * The checker on a running cluster ([src/internal/checker])

    [CheckKeys] of [Checker.v] run against the world of [World.v]: it accepts a
    cluster that has converged, while the clients go on reading. *)

From S2P Require Import Prelude Hlc Store Buffer Wire Replication Server Cluster Converge Env World Checker.

(** ** Lemmas *)

(** [N] nodes, all with the store [s], nothing in flight and nobody writing. *)
Record same_store (s : Store) (N : nat) (w : deployed) : Prop := {
  ss_length : length (nodes (dp_cluster w)) = N;
  ss_stores : Forall (fun n => Node_Store n = s) (nodes (dp_cluster w));
  ss_net : net (dp_cluster w) = [];
  ss_reads : Forall (Forall (fun lb => label_write lb = None)) (dp_batches w)
}.

(** What a [Get] of a key shows, given the node's store. *)
Definition store_shows (s : Store) (key : string) : list byte * bool :=
  let '(v, ok) := Store_Get key s in (Value_Data v, ok).

Lemma Node_Get_shown {H} `{Handler H} key (n : Node H) :
  shown (snd (Node_Get (MkGetRequest key) n)) = Some (store_shows (Node_Store n) key).
Proof.
  rewrite Node_Get_spec; unfold store_shows, Store_Get; simpl.
  destruct (_ !! _) as [v|]; [by destruct (Value_Deleted v)|done].
Qed.

(** Reads leave the stores as they are. *)
Lemma same_store_get s N n n' i req c :
  length (nodes c) = N -> Forall (fun n => Node_Store n = s) (nodes c) -> nodes c !! i = Some n ->
  n' = fst (Node_Get req n) ->
  length (<[i := n']> (nodes c)) = N /\ Forall (fun n => Node_Store n = s) (<[i := n']> (nodes c)).
Proof.
  intros Hl Hs Hi ->; rewrite length_insert; split; [done|]; apply Forall_insert; [done|].
  rewrite (proj1 (Node_Get_frame req n)); exact (proj1 (Forall_lookup _ _) Hs _ _ Hi).
Qed.

Lemma happen_same s N batch c :
  Forall (fun lb => label_write lb = None) batch ->
  length (nodes c) = N -> Forall (fun n => Node_Store n = s) (nodes c) -> net c = [] ->
  let c' := happen batch c in
  length (nodes c') = N /\ Forall (fun n => Node_Store n = s) (nodes c') /\ net c' = [].
Proof.
  intros Hb; revert c; induction Hb as [|lb batch Hlb _ IH]; intros c Hl Hs Hnet; cbn zeta; [done|].
  cbn [happen foldl]; fold (happen batch (default c (step lb c))).
  destruct lb as [| i req | |m now|m]; try discriminate; cbn [step].
  - destruct (nodes c !! i) as [n|] eqn:Hi; cbn [mbind option_bind default]; [|by apply IH].
    destruct (Node_Get req n) as [n' r] eqn:Hg; destruct (same_store_get s N n n' i req c Hl Hs Hi) as [? ?]; [by rewrite Hg|].
    by apply IH.
  - rewrite Hnet; by apply IH.
  - rewrite Hnet; by apply IH.
Qed.

Lemma pause_same s N d w : same_store s N w -> same_store s N (deployed_pause d w).
Proof.
  intros [Hl Hs Hn Hb]; assert (Hhd : Forall (fun lb => label_write lb = None) (hd [] (dp_batches w)) /\
    Forall (Forall (fun lb => label_write lb = None)) (tl (dp_batches w))) by (by destruct Hb).
  destruct Hhd as [Hhd Htl]; destruct (happen_same s N _ _ Hhd Hl Hs Hn) as (? & ? & ?); by split.
Qed.

Lemma deployed_Get_same s N i key w :
  same_store s N w -> i < N ->
  let '(w', ans) := deployed_Get i (MkGetRequest key) w in
  same_store s N w' /\ shown ans = Some (store_shows s key).
Proof.
  intros Hw Hi; unfold deployed_Get; apply (pause_same _ _ 0) in Hw; revert Hw; generalize (deployed_pause 0 w).
  intros w1 [Hl Hs Hnet Hb]; cbn zeta.
  destruct (lookup_lt_is_Some_2 (nodes (dp_cluster w1)) i) as [n Hn]; [lia|]; rewrite Hn.
  pose proof (proj1 (Forall_lookup _ _) Hs _ _ Hn) as Hst; simpl in Hst.
  pose proof (Node_Get_shown key n) as Hsh.
  destruct (Node_Get _ n) as [n' r] eqn:Hg; simpl in *; rewrite Hst in *.
  destruct (same_store_get s N n n' i (MkGetRequest key) (dp_cluster w1) Hl Hs Hn) as [? ?]; [by rewrite Hg|].
  split; [by split|done].
Qed.

Lemma ask_clients_same s N key ncs w :
  same_store s N w -> Forall (fun nc => NC_Client nc < N) ncs ->
  let '(w', answers) := ask_clients key ncs w in
  same_store s N w' /\ Forall (fun a => shown (snd a) = Some (store_shows s key)) answers.
Proof.
  intros Hw Hncs; revert w Hw; induction Hncs as [|nc ncs Hnc _ IH]; intros w Hw; simpl; [done|].
  pose proof (deployed_Get_same s N (NC_Client nc) key w Hw Hnc) as Hg.
  destruct (deployed_Get _ _ w) as [w1 ans]; destruct Hg as [Hw1 Ha].
  specialize (IH w1 Hw1); destruct (ask_clients key ncs w1) as [w2 answers].
  destruct IH as [? ?]; split; [done|by constructor].
Qed.

Lemma ask_keys_same s N ncs keys w :
  same_store s N w -> Forall (fun nc => NC_Client nc < N) ncs ->
  Forall agree (snd (ask_keys ncs keys w)).
Proof.
  intros Hw Hncs; revert w Hw; induction keys as [|key keys IH]; intros w Hw; simpl; [done|].
  pose proof (ask_clients_same s N key ncs w Hw Hncs) as Ha.
  destruct (ask_clients key ncs w) as [w1 answers]; destruct Ha as [Hw1 Ha].
  specialize (IH w1 Hw1); destruct (ask_keys ncs keys w1) as [w2 rest]; simpl in *.
  constructor; [by exists (store_shows s key)|done].
Qed.

(** ** Properties *)

(** C31: the checker accepts a converged cluster: after a run of a causal or eventual
    cluster in which no RPC was lost or refused, no put was empty, no delivery tied
    with its receiver's clock while ahead of it, no two nodes gave one timestamp to
    writes of one key and the clocks read int64s from the epoch on, once every RPC
    has been delivered and as long as nobody writes, [CheckKeys] over its nodes
    reports any keys consistent.  (A lost RPC
    or a tie leaves replicas apart, which is what the checker is there to
    report.) *)
Theorem checker_accepts_converged mode opts nows c0 ls c now readings batches clients keys :
  async mode -> Forall (fun now => reading_ok now = true) nows ->
  init_cluster mode opts nows = Some c0 -> run_ok ls c0 = true -> run ls c0 = Some c ->
  run_lossless ls c0 = true -> ties_apart (history ls c0) -> net c = [] ->
  Forall (Forall (fun lb => label_write lb = None)) batches ->
  Forall (fun nc => NC_Client nc < length nows) clients ->
  Report_Consistent (snd (CheckKeys (checker_New clients) keys (MkDeployed c now readings batches))) = true.
Proof.
  intros Ha Hnows Hinit Hok Hrun Hless Hnd Hnet Hb Hcl.
  pose proof (run_quiet _ _ _ _ _ _ Ha Hnows Hinit Hok Hrun Hless Hnd Hnet) as Hq.
  pose proof (cs_length _ _ _ _ (run_safe _ _ _ _ _ _
    (init_cluster_safe _ _ _ _ Ha Hnows Hinit) Hok Hrun)) as Hlen.
  assert (Hw : same_store (apply_writes ∅ (hist_writes (history ls c0))) (length nows)
                 (MkDeployed c now readings batches)).
  { split; [done| |done..]. eapply Forall_impl; [exact Hq|]; by intros n [_ ?]. }
  pose proof (ask_keys_same _ _ clients keys _ Hw Hcl) as Hall.
  pose proof (check_keys_spec clients keys (MkDeployed c now readings batches)
    (MkReport (Z.of_nat (length keys)) true [])) as Hs; unfold CheckKeys; simpl in *.
  destruct (check_keys _ _ _ _) as [w' rep], (ask_keys _ _ _) as [w2 answers].
  destruct Hs as (_ & _ & krs & _ & _ & _ & _ & Hcons); simpl in *; by rewrite Hcons.
Qed.

Definition c_clients : list NamedClient :=
  [MkNamedClient "n1" 0; MkNamedClient "n2" 1; MkNamedClient "n3" 2].

Lemma checker_accepts_converged_witness :
  Report_Consistent (snd (CheckKeys (checker_New c_clients) ["x"; "y"; "z"]
    (MkDeployed c_quiet 400 [] [[LGet 0 (MkGetRequest "x")]; [LDrop 0]; [LGet 2 (MkGetRequest "y")]]))) = true /\
  Report_Consistent (snd (CheckKeys (checker_New c_clients) ["x"; "y"; "z"]
    (MkDeployed c_after 400 [] []))) = false.
Proof.
  split; [|vm_compute; reflexivity].
  apply (checker_accepts_converged "causal" c_opts [100; 100; 100]%Z c_cluster c_all_labels c_quiet);
    [by right|exact c_nows_ok|by apply isSome_default|vm_compute; reflexivity
    |by apply isSome_default; vm_compute|vm_compute; reflexivity|
    |vm_compute; reflexivity|repeat constructor|].
  - apply (bool_decide_unpack _); vm_compute; exact I.
  - repeat constructor; simpl; lia.
Defined.
