(* ===== verification/Bench.v ===== *)
(** * The benchmark against a running cluster ([src/bench/ycsb_driver.go])

    The load phase and the run of [Driver.v] with a node of the cluster of
    [World.v] behind the client, while RPCs are delivered and other clients work. *)

From S2P Require Import Prelude Hlc Store Buffer Wire Replication Server Cluster.
From S2P Require Import Converge Float Env World Process Workload Driver.

(** ** Definitions *)

(** The keys the load phase writes. *)
Definition loaded_keys (wl : Workload) : list string :=
  map (fun i => KeyFor wl (Z.of_nat i)) (seq 0 (Z.to_nat (W_RecordCount wl))).

(** Node [i] has every key of the list, with data of which [P] holds, to stay. *)
Definition keeps_all (P : list byte -> Prop) (i : nat) (keys : list string) (c : cluster) : Prop :=
  Forall (fun key => exists v, keeps i key v c /\ Value_Deleted v = false /\ P (Value_Data v)) keys.

(** Drawing random numbers changes nothing of the cluster and its schedule. *)
Record same_world (w w' : deployed) : Prop := {
  sw_cluster : dp_cluster w' = dp_cluster w;
  sw_readings : dp_readings w' = dp_readings w;
  sw_batches : dp_batches w' = dp_batches w
}.

(** ** Lemmas *)

Lemma same_world_trans w1 w2 w3 : same_world w1 w2 -> same_world w2 w3 -> same_world w1 w3.
Proof. intros [? ? ?] [? ? ?]; split; congruence. Qed.

Lemma loaded_keys_elem wl idx :
  (0 <= idx < W_RecordCount wl)%Z -> KeyFor wl idx ∈ loaded_keys wl.
Proof.
  intros Hi; apply list_elem_of_In, in_map_iff; exists (Z.to_nat idx); rewrite in_seq, Z2Nat.id by lia.
  split; [done|lia].
Qed.

Lemma loaded_keys_make wl : map (KeyFor wl) (make (W_RecordCount wl) id) = loaded_keys wl.
Proof. unfold loaded_keys, make; by rewrite map_map. Qed.

Section bench.
Context `{RandomLaws deployed} `{Math}.
Context (rand_Float64_same : forall w : deployed, same_world w (fst (rand_Float64 w))).
Context (rand_Intn_same : forall n (w : deployed), same_world w (fst (rand_Intn n w))).
Context (mode : string) (Ha : async mode) (N : nat) (d : Driver).
Notation wl := (D_Workload d).
Notation i := (D_Client d).
Notation own := (fun key => key ∈ loaded_keys (D_Workload d)).
Notation runs := (runs mode N (D_Client d) (fun key => key ∈ loaded_keys (D_Workload d))).
Implicit Types (w : deployed).

(** A put of one of the keys, before the others or again. *)
Lemma put_keeps P k key data pre w :
  own key -> (forall x, x ∈ pre -> own x) -> (0 <= k)%Z -> P data ->
  runs (k + 1)%Z w -> keeps_all P i pre (dp_cluster w) ->
  exists w' resp, client_Put i (MkPutRequest key data) w = (w', Ok resp) /\ runs k w' /\
    keeps_all P i (pre ++ [key]) (dp_cluster w').
Proof.
  intros Hkey Hpre Hk HP Hw Hall.
  destruct (put_runs mode Ha N i _ k key data w Hkey Hk Hw) as (w' & resp & v & Hput & Hw' & Hv & Hd & Hx & Hother).
  exists w', resp; split; [exact Hput|]; split; [exact Hw'|].
  assert (Hnew : exists v, keeps i key v (dp_cluster w') /\ Value_Deleted v = false /\ P (Value_Data v)).
  { exists v; by rewrite Hx. }
  apply Forall_app; split; [|by constructor]; unfold keeps_all in Hall; rewrite Forall_forall in Hall |- *.
  intros x Hin; destruct (decide (x = key)) as [->|Hne]; [done|].
  destruct (Hall _ Hin) as (vx & Hvx & ? & ?); exists vx; split_and!; auto.
Qed.

Lemma load_loop_runs value ids pre k w :
  (forall x, x ∈ pre -> own x) -> (forall x, x ∈ map (KeyFor wl) ids -> own x) -> (0 <= k)%Z ->
  runs (k + Z.of_nat (length ids))%Z w -> keeps_all (eq value) i pre (dp_cluster w) ->
  exists w', load_loop d value ids w = (w', None) /\ runs k w' /\
    keeps_all (eq value) i (pre ++ map (KeyFor wl) ids) (dp_cluster w').
Proof.
  revert pre w; induction ids as [|id ids IH]; intros pre w Hpre Hids Hk Hw Hall; simpl.
  { exists w; rewrite app_nil_r; split_and!; [done| |done]; by rewrite Z.add_0_r in Hw. }
  replace (k + Z.of_nat (length (id :: ids)))%Z with (k + Z.of_nat (length ids) + 1)%Z in Hw by (simpl; lia).
  assert (Hid : own (KeyFor wl id)) by (apply Hids; left).
  destruct (put_keeps (eq value) (k + Z.of_nat (length ids))%Z (KeyFor wl id) value pre w Hid Hpre ltac:(lia) eq_refl Hw Hall)
    as (w1 & resp & Hput & Hw1 & Hall1); simpl in Hput; rewrite Hput.
  destruct (IH (pre ++ [KeyFor wl id]) w1) as (w' & -> & Hw' & Hall'); try done.
  - by intros x [?| ->%list_elem_of_singleton]%elem_of_app; auto.
  - intros x Hx; apply Hids; by right.
  - exists w'; by rewrite <- app_assoc in Hall'.
Qed.

Lemma pick_same w : same_world w (fst (pickKey d (fst (pickOperation d w)))).
Proof.
  assert (Hop : same_world w (fst (pickOperation d w))).
  { unfold pickOperation; pose proof (rand_Float64_same w) as Hf; destruct (rand_Float64 w) as [w1 r].
    by destruct (flt r _); [|destruct (flt _ _)]. }
  eapply same_world_trans; [exact Hop|]; generalize (fst (pickOperation d w)); intros w1.
  unfold pickKey, scrambledZipfianIndex, zipfianIndex.
  pose proof (rand_Float64_same w1) as Hf; pose proof (rand_Intn_same (W_RecordCount wl) w1) as Hn.
  destruct (rand_Float64 w1) as [w2 u], (rand_Intn _ w1) as [w3 idx].
  by destruct (String.eqb _ _); [destruct (_ <=? 1)%Z|].
Qed.

(** Data of the workload's length. *)
Definition sized (data : list byte) : Prop := Z.of_nat (length data) = W_FieldLength wl.

Hypothesis Hrec : (0 < W_RecordCount wl)%Z.
Hypothesis Hfield : make_ok 1 (W_FieldLength wl) = true.

Lemma run_value_sized j : exists value, run_value wl j = Some value /\ sized value.
Proof.
  unfold run_value; rewrite Hfield; eexists; split; [done|]; apply make_length; by apply make_ok_spec in Hfield as [? _].
Qed.

Lemma run_op_runs j t k w :
  (0 <= k)%Z -> runs (k + 1)%Z w -> keeps_all sized i (loaded_keys wl) (dp_cluster w) ->
  exists w' t', run_op d j t w = (w', Some t') /\ runs k w' /\
    keeps_all sized i (loaded_keys wl) (dp_cluster w') /\ t_errors t' = t_errors t.
Proof.
  intros Hk Hw Hall; unfold run_op; destruct (pick_same w) as [Hc Hr Hb]; pose proof (pickOperation_cases d w) as Hop.
  destruct (pickOperation d w) as [w1 op]; simpl in Hc, Hr, Hb, Hop.
  destruct (pickKey_index d w1 Hrec) as (idx & Hkey & Hidx).
  destruct (pickKey d w1) as [w2 key]; simpl in Hc, Hr, Hb, Hkey; subst key.
  pose proof (loaded_keys_elem _ _ Hidx) as Hown; simpl.
  pose proof (runs_same mode N i _ _ _ _ Hc Hr Hb Hw) as Hw2; rewrite <- Hc in Hall; destruct Hop as [->|Hop].
  - destruct (get_runs mode Ha N i _ _ (KeyFor wl idx) w2 Hw2) as (w3 & resp & Hg & Hw3 & Hkeep & _).
    simpl in Hg; simpl; rewrite Hg; do 2 eexists; split; [reflexivity|]; split; [|split; [|done]].
    + eapply runs_weaken; [|exact Hw3]; lia.
    + unfold keeps_all in *; rewrite Forall_forall in Hall |- *; intros x Hx.
      destruct (Hall _ Hx) as (v & Hv & ?); exists v; split; [by apply Hkeep|done].
  - destruct (run_value_sized j) as (value & Hval & Hs).
    destruct (put_keeps sized k (KeyFor wl idx) value (loaded_keys wl) w2 Hown (fun x Hx => Hx) Hk Hs Hw2 Hall)
      as (w3 & resp & Hp & Hw3 & Hall3); simpl in Hp; apply Forall_app in Hall3 as [Hall3 _].
    destruct Hop as [->| ->]; simpl; rewrite Hval, Hp; by do 2 eexists.
Qed.

Lemma run_ops_runs ids t k w :
  (0 <= k)%Z -> runs (k + Z.of_nat (length ids))%Z w -> keeps_all sized i (loaded_keys wl) (dp_cluster w) ->
  exists w' t', run_ops d ids t w = (w', Some t') /\ runs k w' /\
    keeps_all sized i (loaded_keys wl) (dp_cluster w') /\ t_errors t' = t_errors t.
Proof.
  intros Hk; revert t w; induction ids as [|j ids IH]; intros t w Hw Hall; simpl.
  { exists w, t; by rewrite Z.add_0_r in Hw. }
  replace (k + Z.of_nat (length (j :: ids)))%Z with (k + Z.of_nat (length ids) + 1)%Z in Hw by (simpl; lia).
  destruct (run_op_runs j t (k + Z.of_nat (length ids))%Z w ltac:(lia) Hw Hall) as (w1 & t1 & -> & Hw1 & Hall1 & He).
  destruct (IH t1 w1 Hw1 Hall1) as (w' & t' & Hrun & ? & ? & He'); exists w', t'; split_and!; [done..|congruence].
Qed.

(** What the node answers for the keys, then and at any later time. *)
Lemma keeps_all_found P k w key :
  runs k w -> keeps_all P i (loaded_keys wl) (dp_cluster w) -> own key ->
  exists resp, snd (client_Get i (MkGetRequest key) w) = Ok resp /\ GetResp_Found resp = true /\
    P (GetResp_Value resp).
Proof.
  intros Hw Hall Hkey; unfold keeps_all in Hall; rewrite Forall_forall in Hall.
  destruct (Hall _ Hkey) as (v & Hv & Hd & HP).
  destruct (get_runs mode Ha N i _ k key w Hw) as (w' & resp & -> & _ & _ & Hr).
  destruct (Hr v Hkey Hv) as [Hf Hx]; exists resp; rewrite Hf, Hd, (Hx Hd); by split_and!.
Qed.

(** Load and run, with room for all the writes. *)
Lemma bench_runs w :
  run_makes wl = true -> (0 < W_OperationCount wl)%Z -> runs (W_RecordCount wl + W_OperationCount wl)%Z w ->
  exists value w1, load_value wl = Some value /\ sized value /\ Load d w = (w1, Some None) /\
    runs (W_OperationCount wl) w1 /\ keeps_all (eq value) i (loaded_keys wl) (dp_cluster w1) /\
    exists w2 res, Run d w1 = (w2, Some res) /\ Res_Errors res = 0%Z /\ runs 0 w2 /\
      keeps_all sized i (loaded_keys wl) (dp_cluster w2).
Proof.
  intros Hmk Hop Hw; unfold Load.
  assert (Hval : exists value, load_value wl = Some value /\ sized value).
  { unfold load_value; rewrite Hfield; eexists; split; [done|]; apply make_length; by apply make_ok_spec in Hfield as [? _]. }
  destruct Hval as (value & Hval & Hs); rewrite Hval.
  rewrite Z.add_comm, <- (make_length (W_RecordCount wl) (id : Z -> Z)) in Hw by lia.
  destruct (load_loop_runs value (make (W_RecordCount wl) id) [] (W_OperationCount wl) w) as (w1 & Hld & Hw1 & Hall);
    [by intros x ?%not_elem_of_nil|by rewrite loaded_keys_make|lia|done|constructor|].
  rewrite loaded_keys_make in Hall; simpl in Hall; exists value, w1; rewrite Hld; split_and!; [done..|].
  assert (Hall2 : keeps_all sized i (loaded_keys wl) (dp_cluster w1)).
  { eapply Forall_impl; [exact Hall|]; intros key (v & ? & ? & Hv); exists v; split_and!; [done|done|by rewrite <- Hv]. }
  assert (Hw1' : runs (0 + Z.of_nat (length (make (W_OperationCount wl) (id : Z -> Z))))%Z w1)
    by (rewrite make_length by lia; exact Hw1).
  destruct (run_ops_runs (make (W_OperationCount wl) id) (MkTally [] 0 0 0 0) 0 w1 ltac:(lia) Hw1' Hall2)
    as (w2 & t & Hrun & Hw2 & Hall3 & He).
  pose proof (run_ends d w1 Hop) as Hend; unfold Run in *.
  unfold run_makes in Hmk; apply andb_true_iff in Hmk as [Hmk _]; rewrite Hmk in *; simpl in *; rewrite Hrun in *; simpl in *.
  destruct (summarize (t_latencies t)) as [[[[v50 v95] v99] avg]|]; simpl in *.
  - do 2 eexists; split; [reflexivity|]; by split_and!.
  - unfold run_makes in Hend; by rewrite Hmk, Hfield in Hend.
Qed.

End bench.

(** ** Properties *)

(** C37: the benchmark against a running cluster: with a node of a causal or eventual
    cluster behind the client, at any point of a run, with RPCs delivered in any
    order or lost and other clients at work between its calls, the load phase
    succeeds and every loaded key reads back with the loaded bytes, which have the
    workload's length; the run ends and counts no error; and every loaded key is
    still found, with that length.  It needs the records' keys to itself: no other
    client writes them meanwhile, and no version of them that is later than the
    node's clock is in flight to the node or held there.  It needs room in the
    logical counters, of the clocks and in flight, for its records and operations
    and the steps of the others; a workload with records and operations whose
    slices can be made; a source of random numbers in range that leaves the cluster
    alone; and clocks that read int64s from the epoch on. *)
Theorem bench_run_clean `{RandomLaws deployed} `{Math} mode opts nows c0 ls c d now readings batches :
  (forall w : deployed, same_world w (fst (rand_Float64 w))) ->
  (forall n (w : deployed), same_world w (fst (rand_Intn n w))) ->
  async mode -> Forall (fun now => reading_ok now = true) nows ->
  init_cluster mode opts nows = Some c0 -> forallb label_timed ls = true -> run ls c0 = Some c ->
  let wl := D_Workload d in
  D_Client d < length nows ->
  (0 < W_RecordCount wl)%Z -> (0 < W_OperationCount wl)%Z -> run_makes wl = true ->
  Forall (fun now => reading_ok now = true) readings ->
  Forall (Forall (apart (fun key => key ∈ loaded_keys wl))) batches ->
  (forall key, key ∈ loaded_keys wl -> quiet (D_Client d) key c) ->
  counters_to (maxLogical - (W_RecordCount wl + W_OperationCount wl) - Z.of_nat (length (concat batches))) c ->
  exists value w1 w2 res,
    load_value wl = Some value /\ Z.of_nat (length value) = W_FieldLength wl /\
    Load d (MkDeployed c now readings batches) = (w1, Some None) /\
    Run d w1 = (w2, Some res) /\ Res_Errors res = 0%Z /\
    forall key, key ∈ loaded_keys wl ->
      (exists resp, snd (client_Get (D_Client d) (MkGetRequest key) w1) = Ok resp /\ GetResp_Found resp = true /\
         GetResp_Value resp = value) /\
      (exists resp, snd (client_Get (D_Client d) (MkGetRequest key) w2) = Ok resp /\ GetResp_Found resp = true /\
         Z.of_nat (length (GetResp_Value resp)) = W_FieldLength wl).
Proof.
  intros Hf Hi Ha Hnows Hinit Hls Hrun wl Hlt Hr Ho Hmk Hrd Hb Hq Hroom.
  assert (Hw : runs mode (length nows) (D_Client d) (fun key => key ∈ loaded_keys wl)
    (W_RecordCount wl + W_OperationCount wl) (MkDeployed c now readings batches)).
  { split; try done; by eapply run_cluster_ok. }
  assert (Hfl : make_ok 1 (W_FieldLength wl) = true) by (by apply andb_true_iff in Hmk as [_ ?]).
  destruct (bench_runs Hf Hi mode Ha (length nows) d Hr Hfl _ Hmk Ho Hw)
    as (value & w1 & Hval & Hs & Hld & Hw1 & Hall1 & w2 & res & Hrn & He & Hw2 & Hall2).
  exists value, w1, w2, res; split_and!; [done..|]; intros key Hkey; split.
  - destruct (keeps_all_found mode Ha _ d _ _ _ _ Hw1 Hall1 Hkey) as (resp & ? & ? & ?); by exists resp.
  - exact (keeps_all_found mode Ha _ d (sized d) _ _ _ Hw2 Hall2 Hkey).
Qed.

(** A random source that is not one: every operation is an update of the first key. *)
#[export] Instance fixed_random : Random deployed := {|
  rand_Float64 w := (w, lit 3 4);
  rand_Intn n w := (w, 0%Z)
|}.

#[export] Instance fixed_random_laws : RandomLaws deployed.
Proof. constructor; intros n w Hn; simpl; lia. Defined.

(** Others at work during the load and the run. *)
Definition c_bench_others : list (list label) :=
  [[LPut 0 400 (MkPutRequest "x" [x7a])]; [LDeliver 0 410; LGet 2 (MkGetRequest "user1")]; [];
   [LDeliver 1 415; LPut 1 420 (MkPutRequest "y" [x7a]); LDrop 0]; [LDeliver 1 430]].
Definition c_benched : deployed := MkDeployed c_quiet 400 [405; 425]%Z c_bench_others.

Lemma bench_run_clean_witness :
  (exists w1 w2 res, Load c_driver c_benched = (w1, Some None) /\ Run c_driver w1 = (w2, Some res) /\
     Res_Errors res = 0%Z) /\
  option_map (fun r => (Res_Operations r, Res_Writes r)) (snd (Run c_driver (fst (Load c_driver c_benched)))) =
    Some (4, 4)%Z.
Proof.
  split; [|vm_compute; reflexivity].
  destruct (bench_run_clean "causal" c_opts [100; 100; 100]%Z c_cluster c_all_labels c_quiet c_driver
    400 [405; 425]%Z c_bench_others) as (value & w1 & w2 & res & _ & _ & ? & ? & ? & _).
  - done.
  - done.
  - by right.
  - exact c_nows_ok.
  - by apply isSome_default.
  - vm_compute; reflexivity.
  - by apply isSome_default; vm_compute.
  - simpl; lia.
  - simpl; lia.
  - simpl; lia.
  - vm_compute; reflexivity.
  - repeat constructor.
  - repeat constructor; intros key Hk; vm_compute in Hk;
      (discriminate Hk || (injection Hk as <-; apply (bool_decide_unpack _); vm_compute; exact I)).
  - intros key _ n Hn; vm_compute in Hn; injection Hn as <-; split.
    + intros req pts Hreq; vm_compute in Hreq; by apply not_elem_of_nil in Hreq.
    + intros n w Hn Hin; vm_compute in Hn; injection Hn as <-; vm_compute in Hin; by apply not_elem_of_nil in Hin.
  - split; [|intros q req pts Hreq; vm_compute in Hreq; by apply not_elem_of_nil in Hreq].
    intros j n Hn; destruct j as [|[|[|j]]]; vm_compute in Hn; [injection Hn as <-..|discriminate Hn];
      vm_compute; discriminate.
  - exists w1, w2, res; split; [assumption|split; assumption].
Defined.
