(* ===== verification/Flags.v ===== *)
(** * Lists in flags ([parsePeers] of [src/cmd/node], [parseList] of [src/cmd/checker])

    The comma-separated address lists of the commands, as the standard library
    splits and trims them, and their round trip. *)

From S2P Require Import Prelude Hlc Store Wire Float Env.

(** ** Definitions *)

Definition comma : Ascii.ascii := Ascii.ascii_of_nat 44.

(** The ASCII white space of [strings.TrimSpace]; addresses are ASCII. *)
Definition is_space (c : Ascii.ascii) : bool :=
  let k := Ascii.nat_of_ascii c in ((9 <=? k) && (k <=? 13) || (k =? 32))%nat.

(** [strings.Split] on one character. *)
Fixpoint split_on (sep : Ascii.ascii) (s : string) : list string :=
  match s with
  | EmptyString => [EmptyString]
  | String c s =>
      if Ascii.eqb c sep then EmptyString :: split_on sep s
      else match split_on sep s with
           | [] => [String c EmptyString]
           | p :: ps => String c p :: ps
           end
  end.

Fixpoint trim_left (s : string) : string :=
  match s with
  | String c s' => if is_space c then trim_left s' else s
  | EmptyString => s
  end.

Fixpoint trim_right (s : string) : string :=
  match s with
  | String c s' =>
      match trim_right s' with
      | EmptyString => if is_space c then EmptyString else String c EmptyString
      | s'' => String c s''
      end
  | EmptyString => s
  end.

Definition TrimSpace (s : string) : string := trim_right (trim_left s).

Definition parsePeers (raw : string) : list string :=
  foldl (fun out p =>
           let p := TrimSpace p in
           if negb (String.eqb p "") then out ++ [p] else out)
    [] (split_on comma raw).

Definition parseList (raw : string) : list string :=
  foldl (fun out part =>
           let part := TrimSpace part in
           if negb (String.eqb part "") then out ++ [part] else out)
    [] (split_on comma raw).

(** [strings.Join] *)
Fixpoint join (sep : string) (l : list string) : string :=
  match l with
  | [] => ""
  | [a] => a
  | a :: l => a +:+ sep +:+ join sep l
  end.

(** ** Lemmas *)

(** An address as it survives parsing: not empty, without comma, trimmed. *)
Definition addr_ok (a : string) : bool :=
  negb (String.eqb a "") && negb (existsb (Ascii.eqb comma) (String.list_ascii_of_string a))
  && String.eqb (TrimSpace a) a.

Definition sep_free (sep : Ascii.ascii) (a : string) : bool :=
  negb (existsb (Ascii.eqb sep) (String.list_ascii_of_string a)).

Lemma split_on_free sep a : sep_free sep a = true -> split_on sep a = [a].
Proof.
  unfold sep_free; induction a as [|c a IH]; simpl; [done|].
  rewrite (Ascii.eqb_sym sep c); destruct (Ascii.eqb c sep); simpl; [done|].
  intros Ha; by rewrite IH.
Qed.

Lemma split_on_app sep a s :
  sep_free sep a = true -> split_on sep (a +:+ String sep s) = a :: split_on sep s.
Proof.
  unfold sep_free; induction a as [|c a IH]; simpl; [by rewrite Ascii.eqb_refl|].
  rewrite (Ascii.eqb_sym sep c); destruct (Ascii.eqb c sep); simpl; [done|].
  intros Ha; by rewrite IH.
Qed.

Lemma split_on_join sep l :
  l <> [] -> Forall (fun a => sep_free sep a = true) l ->
  split_on sep (join (String sep "") l) = l.
Proof.
  intros Hne Hl; induction Hl as [|a l Ha Hl IH]; [done|].
  destruct l as [|b l]; [by apply split_on_free|].
  etrans; [exact (split_on_app sep a (join (String sep "") (b :: l)) Ha)|]; by rewrite IH.
Qed.

Lemma parse_fold_ok l out :
  Forall (fun a => addr_ok a = true) l ->
  foldl (fun out p => let p := TrimSpace p in
           if negb (String.eqb p "") then out ++ [p] else out) out l = out ++ l.
Proof.
  intros Hl; revert out; induction Hl as [|a l Ha Hl IH]; intros out; cbn [foldl];
    [by rewrite app_nil_r|].
  unfold addr_ok in Ha; bool_facts; match goal with H : TrimSpace a = a |- _ => rewrite H end.
  cbn zeta; rewrite (proj2 (String.eqb_neq a "")) by done; simpl; by rewrite IH, <- app_assoc.
Qed.

(** ** Properties *)

(** The address lists round-trip: joining addresses that are not empty, hold no
    comma and are trimmed, and parsing the result, gives them back, in order,
    in the node's command and in the checker's. *)
Theorem parse_join addrs :
  Forall (fun a => addr_ok a = true) addrs ->
  parsePeers (join (String comma "") addrs) = addrs /\
  parseList (join (String comma "") addrs) = addrs.
Proof.
  intros Ha; change parseList with parsePeers; split; unfold parsePeers.
  all: destruct (decide (addrs = [])) as [->|Hne]; [done|].
  all: rewrite split_on_join; [by apply parse_fold_ok|done|].
  all: eapply Forall_impl; [exact Ha|]; intros a Hok; unfold addr_ok in Hok; by bool_facts;
    unfold sep_free; apply negb_true_iff.
Qed.

Lemma parse_join_witness :
  parsePeers (join (String comma "") ["localhost:50052"; "localhost:50053"]) =
    ["localhost:50052"; "localhost:50053"] /\
  parsePeers " a:1 ,, b:2" = ["a:1"; "b:2"].
Proof.
  split; [|vm_compute; reflexivity].
  apply (parse_join ["localhost:50052"; "localhost:50053"]).
  by repeat constructor.
Defined.
