(* ===== verification/Args.v ===== *)
(** * Command lines

    What the commands use of the packages [flag], [strconv] and [time] of Go's
    standard library: the scan of the arguments, and the values of a flag, down
    to the digits.  A flag set is a list of named setters on a record of flags.
    The layout follows the library's functions of the same names. *)

From S2P Require Import Prelude Hlc Store Wire Float Env Process.
#[local] Open Scope Z_scope.

(** ** Definitions: strconv *)

Definition ErrSyntax : string := "invalid syntax".
Definition ErrRange : string := "value out of range".

Definition code (c : Ascii.ascii) : Z := Z.of_nat (Ascii.nat_of_ascii c).

(** [c | ('x' - 'X')] *)
Definition lower (c : Ascii.ascii) : Z := Z.lor (code c) 32.

Definition is_digit (c : Ascii.ascii) : bool := (48 <=? code c) && (code c <=? 57).

(** The value of a digit, of any base. *)
Definition digit (c : Ascii.ascii) : option Z :=
  if is_digit c then Some (code c - 48)
  else if (97 <=? lower c) && (lower c <=? 122) then Some (lower c - 97 + 10)
  else None.

(** The loop of [ParseUint] in base 0 and 64 bits, underscores among the digits. *)
Fixpoint uint_loop (base n : Z) (underscores : bool) (s : string) : res (Z * bool) :=
  match s with
  | EmptyString => Ok (n, underscores)
  | String c s =>
      if code c =? 95 then uint_loop base n true s
      else match digit c with
      | None => Err ErrSyntax
      | Some d =>
          if base <=? d then Err ErrSyntax
          else if 18446744073709551615 / base + 1 <=? n then Err ErrRange
          else
            let n := uint64 (n * base) in
            let n1 := uint64 (n + d) in
            if n1 <? n then Err ErrRange else uint_loop base n1 underscores s
      end
  end.

(** The base a literal names, and its digits. *)
Definition base_prefix (s : string) : Z * string :=
  match s with
  | String c s1 =>
      if code c =? 48 then
        match s1 with
        | String p (String _ _ as s2) =>
            if lower p =? 98 then (2, s2)
            else if lower p =? 111 then (8, s2)
            else if lower p =? 120 then (16, s2)
            else (8, s1)
        | _ => (8, s1)
        end
      else (10, s)
  | EmptyString => (10, s)
  end.

(** The last character [underscoreOK] saw. *)
Inductive saw := SawStart | SawDigit | SawUnderscore | SawOther.

Fixpoint underscore_loop (hex : bool) (last : saw) (s : string) : bool :=
  match s with
  | EmptyString => match last with SawUnderscore => false | _ => true end
  | String c s =>
      if is_digit c || (hex && (97 <=? lower c) && (lower c <=? 102))
      then underscore_loop hex SawDigit s
      else if code c =? 95 then
        match last with SawDigit => underscore_loop hex SawUnderscore s | _ => false end
      else match last with SawUnderscore => false | _ => underscore_loop hex SawOther s end
  end.

Definition strip_sign (s : string) : string :=
  match s with
  | String c s' => if (code c =? 45) || (code c =? 43) then s' else s
  | EmptyString => s
  end.

Definition underscoreOK (s : string) : bool :=
  let s := strip_sign s in
  match s with
  | String z (String p s2) =>
      if (code z =? 48) && ((lower p =? 98) || (lower p =? 111) || (lower p =? 120))
      then underscore_loop (lower p =? 120) SawDigit s2
      else underscore_loop false SawStart s
  | _ => underscore_loop false SawStart s
  end.

(** [ParseUint(s, 0, 64)] *)
Definition ParseUint (s : string) : res Z :=
  match s with
  | EmptyString => Err ErrSyntax
  | _ =>
      let '(base, ds) := base_prefix s in
      match uint_loop base 0 false ds with
      | Err e => Err e
      | Ok (n, underscores) => if underscores && negb (underscoreOK s) then Err ErrSyntax else Ok n
      end
  end.

(** [ParseInt(s, 0, 64)]; out of range, [ParseUint] returns a value that is out of
    range here too. *)
Definition ParseInt (s : string) : res Z :=
  match s with
  | EmptyString => Err ErrSyntax
  | String c _ =>
      let neg := code c =? 45 in
      match ParseUint (strip_sign s) with
      | Err e => Err e
      | Ok un =>
          let cutoff := 9223372036854775808 in
          if negb neg && (cutoff <=? un) then Err ErrRange
          else if neg && (cutoff <? un) then Err ErrRange
          else Ok (if neg then - un else un)
      end
  end.

Definition ParseBool (s : string) : res bool :=
  if existsb (String.eqb s) ["1"; "t"; "T"; "true"; "TRUE"; "True"] then Ok true
  else if existsb (String.eqb s) ["0"; "f"; "F"; "false"; "FALSE"; "False"] then Ok false
  else Err ErrSyntax.

(** ** Definitions: time.ParseDuration

    Its errors are all one to package [flag]: here [None]. *)

Fixpoint leadingInt (x : Z) (s : string) : option (Z * string) :=
  match s with
  | String c s' =>
      if is_digit c then
        if 9223372036854775808 / 10 <? x then None
        else let x := x * 10 + (code c - 48) in
             if 9223372036854775808 <? x then None else leadingInt x s'
      else Some (x, s)
  | EmptyString => Some (x, s)
  end.

Fixpoint leadingFraction (x : Z) (scale : spec_float) (overflow : bool) (s : string)
    : Z * spec_float * string :=
  match s with
  | String c s' =>
      if is_digit c then
        if overflow || (9223372036854775807 / 10 <? x) then leadingFraction x scale true s'
        else let y := x * 10 + (code c - 48) in
             if 9223372036854775808 <? y then leadingFraction x scale true s'
             else leadingFraction y (fmul scale (of_int 10)) false s'
      else (x, scale, s)
  | EmptyString => (x, scale, s)
  end.

(** The characters up to the next number, and the rest. *)
Fixpoint span_unit (s : string) : string * string :=
  match s with
  | String c s' =>
      if (code c =? 46) || is_digit c then ("", s)
      else let '(u, rest) := span_unit s' in (String c u, rest)
  | EmptyString => ("", s)
  end.

(** The letter mu and the micro sign are two bytes each. *)
Definition bytes2 (a b : nat) (s : string) : string :=
  String (Ascii.ascii_of_nat a) (String (Ascii.ascii_of_nat b) s).

Definition unitMap (u : string) : option Z :=
  if String.eqb u "ns" then Some 1
  else if String.eqb u "us" || String.eqb u (bytes2 194 181 "s") || String.eqb u (bytes2 206 188 "s")
  then Some 1000
  else if String.eqb u "ms" then Some 1000000
  else if String.eqb u "s" then Some 1000000000
  else if String.eqb u "m" then Some 60000000000
  else if String.eqb u "h" then Some 3600000000000
  else None.

(** A number and a unit at the front of [s], in nanoseconds. *)
Definition duration_part (s : string) : option (Z * string) :=
  match s with
  | EmptyString => None
  | String c _ =>
      if negb ((code c =? 46) || is_digit c) then None
      else
        '(v, s1) ← leadingInt 0 s;
        let pre := is_digit c in
        let '(f, scale, s2, post) :=
          match s1 with
          | String c1 s1' =>
              if code c1 =? 46 then
                let '(f, scale, s2) := leadingFraction 0 (of_int 1) false s1' in
                (f, scale, s2, negb (Nat.eqb (String.length s1') (String.length s2)))
              else (0, of_int 1, s1, false)
          | EmptyString => (0, of_int 1, s1, false)
          end in
        if negb pre && negb post then None
        else
          let '(u, s3) := span_unit s2 in
          unit ← unitMap u;
          if 9223372036854775808 / unit <? v then None
          else
            let v := v * unit in
            (* at most an hour in nanoseconds: always an integer of 64 bits *)
            let frac := default 0 (to_int (fmul (of_int f) (fdiv (of_int unit) scale))) in
            let v := if 0 <? f then v + frac else v in
            if 9223372036854775808 <? v then None else Some (v, s3)
  end.

(** Every part has a character: the length of [s] is fuel enough. *)
Fixpoint duration_loop (fuel : nat) (d : Z) (s : string) : option Z :=
  match s, fuel with
  | EmptyString, _ => Some d
  | _, O => None
  | _, S fuel =>
      '(v, s) ← duration_part s;
      let d := uint64 (d + v) in
      if 9223372036854775808 <? d then None else duration_loop fuel d s
  end.

Definition ParseDuration (s : string) : option Z :=
  let neg := match s with String c _ => code c =? 45 | EmptyString => false end in
  let s := strip_sign s in
  if String.eqb s "0" then Some 0
  else match s with
  | EmptyString => None
  | _ =>
      d ← duration_loop (String.length s) 0 s;
      if neg then Some (- d)
      else if 9223372036854775807 <? d then None else Some d
  end.

(** ** Definitions: package flag *)

(** A flag: its name, whether it can go without a value, and [Value.Set] on the
    variables [F] of the command. *)
Record flag (F : Type) := MkFlag {
  fl_name : string;
  fl_bool : bool;
  fl_Set : string -> F -> res F
}.
Arguments MkFlag {F}.
Arguments fl_name {F}.
Arguments fl_bool {F}.
Arguments fl_Set {F}.

Definition errParse : string := "parse error".

Definition numError (e : string) : string :=
  if String.eqb e ErrSyntax then errParse else if String.eqb e ErrRange then ErrRange else e.

Definition flag_String {F} (name : string) (set : string -> F -> F) : flag F :=
  MkFlag name false (fun s f => Ok (set s f)).

(** [flag.Int], [flag.Int64] *)
Definition flag_Int {F} (name : string) (set : Z -> F -> F) : flag F :=
  MkFlag name false (fun s f =>
    match ParseInt s with Ok v => Ok (set v f) | Err e => Err (numError e) end).

Definition flag_Bool {F} (name : string) (set : bool -> F -> F) : flag F :=
  MkFlag name true (fun s f =>
    match ParseBool s with Ok v => Ok (set v f) | Err _ => Err errParse end).

Definition flag_Duration {F} (name : string) (set : Z -> F -> F) : flag F :=
  MkFlag name false (fun s f =>
    match ParseDuration s with Some v => Ok (set v f) | None => Err errParse end).

(** What an argument is to [parseOne]. *)
Inductive token :=
| TPlain                                        (* not a flag *)
| TTerminator                                   (* two dashes *)
| TBadSyntax
| TFlag (name : string) (value : option string).

Definition dash (c : Ascii.ascii) : bool := code c =? 45.
Definition dash_char : Ascii.ascii := Ascii.ascii_of_nat 45.
Definition equals (c : Ascii.ascii) : bool := code c =? 61.

(** The name up to an equals sign, which is not the first character. *)
Fixpoint cut_value (name : string) : string * option string :=
  match name with
  | EmptyString => ("", None)
  | String c rest =>
      if equals c then ("", Some rest)
      else let '(n, v) := cut_value rest in (String c n, v)
  end.

Definition flag_name (name : string) : token :=
  match name with
  | EmptyString => TBadSyntax
  | String c _ =>
      if dash c || equals c then TBadSyntax
      else let '(n, v) := cut_value name in TFlag n v
  end.

Definition tokenize (s : string) : token :=
  match s with
  | String c0 (String c1 rest as s1) =>
      if negb (dash c0) then TPlain
      else if dash c1 then
        match rest with EmptyString => TTerminator | _ => flag_name rest end
      else flag_name s1
  | _ => TPlain
  end.

(** How the scan ends: the variables and the arguments left, or an error. *)
Inductive parsed (F : Type) :=
| Parsed (f : F) (args : list string)
| ParseHelp
| ParseFailed (msg : string).
Arguments Parsed {F}.
Arguments ParseHelp {F}.
Arguments ParseFailed {F}.

Definition lookup_flag {F} (fs : list (flag F)) (name : string) : option (flag F) :=
  List.find (fun fl => String.eqb (fl_name fl) name) fs.

Section flag.
Context {F : Type} `{Format} (fs : list (flag F)).

Definition bad_value (bool_ : bool) (name value err : string) : string :=
  "invalid " +:+ (if bool_ then "boolean value " else "value ") +:+ fmt_quote (bytes_of value) +:+
  (if bool_ then " for -" else " for flag -") +:+ name +:+ ": " +:+ err.

(** The loop of [Parse]; [parseOne] takes one argument, or two. *)
Fixpoint flag_loop (args : list string) (f : F) : parsed F :=
  match args with
  | [] => Parsed f []
  | s :: rest =>
      match tokenize s with
      | TPlain => Parsed f args
      | TTerminator => Parsed f rest
      | TBadSyntax => ParseFailed ("bad flag syntax: " +:+ s)
      | TFlag name value =>
          match lookup_flag fs name with
          | None =>
              if String.eqb name "help" || String.eqb name "h" then ParseHelp
              else ParseFailed ("flag provided but not defined: -" +:+ name)
          | Some fl =>
              if fl_bool fl then
                match fl_Set fl (default "true" value) f with
                | Ok f => flag_loop rest f
                | Err e => ParseFailed (bad_value true name (default "true" value) e)
                end
              else
                match value, rest with
                | Some v, _ =>
                    match fl_Set fl v f with
                    | Ok f => flag_loop rest f
                    | Err e => ParseFailed (bad_value false name v e)
                    end
                | None, v :: rest =>
                    match fl_Set fl v f with
                    | Ok f => flag_loop rest f
                    | Err e => ParseFailed (bad_value false name v e)
                    end
                | None, [] => ParseFailed ("flag needs an argument: -" +:+ name)
                end
          end
      end
  end.

(** [flag.Parse] of a command with the given usage text, on the arguments after
    the program's name. *)
Definition flag_Parse {W : Type} (usage : list string) (args : list string) (f : F) : cmd W F :=
  match flag_loop args f with
  | Parsed f _ => mret f
  | ParseHelp => for_each log_printf usage;; os_exit 0
  | ParseFailed msg => log_printf msg;; for_each log_printf usage;; os_exit 2
  end.

End flag.

(** An argument that gives a flag its value. *)
Definition flag_arg (name value : string) : string := "-" +:+ name +:+ "=" +:+ value.

(** ** Decimal numbers *)

(** [n] and then the decimal digits of [x], as a number. *)
Definition char_value (c : Ascii.ascii) : Z := code c - 48.

Lemma pretty_char_digit x :
  (x < 10)%N -> is_digit (pretty_N_char x) = true /\ char_value (pretty_N_char x) = Z.of_N x.
Proof.
  intros Hx; assert (Hcase : x ∈ [0;1;2;3;4;5;6;7;8;9]%N) by (rewrite !elem_of_cons; lia).
  repeat (apply elem_of_cons in Hcase as [->|Hcase]; [by vm_compute|]); by apply not_elem_of_nil in Hcase.
Qed.

(** A loop over digits that takes a digit to [10 * n + digit] while the result is
    at most [max], reads back what [pretty] writes. *)
Lemma pretty_digits {A} (loop : Z -> string -> A) (max : Z) :
  (forall n c s, is_digit c = true -> 0 <= n -> n * 10 + char_value c <= max ->
     loop n (String c s) = loop (n * 10 + char_value c) s) ->
  forall x s, Z.of_N x <= max -> loop 0 (pretty_N_go x s) = loop (Z.of_N x) s.
Proof.
  intros Hloop x; induction (N.lt_wf_0 x) as [x _ IH]; intros s Hx.
  destruct (decide (x = 0)%N) as [->|Hne]; [by rewrite pretty_N_go_0|].
  rewrite pretty_N_go_step by lia.
  assert (Hr : (x mod 10 < 10)%N) by (by apply N.mod_lt); destruct (pretty_char_digit _ Hr) as [Hd Hc].
  assert (Heq : Z.of_N (x / 10) * 10 + Z.of_N (x mod 10) = Z.of_N x).
  { rewrite N2Z.inj_div, N2Z.inj_mod; pose proof (Z.div_mod (Z.of_N x) 10); lia. }
  assert (Hlt : (x / 10 < x)%N) by (apply N.div_lt; lia); revert Hr Hd Hc Heq Hlt.
  generalize (x / 10)%N (x mod 10)%N; intros q r Hr Hd Hc Heq Hlt.
  rewrite IH by (done || lia); rewrite Hloop by (rewrite ?Hc; (done || lia)).
  by rewrite Hc, Heq.
Qed.

(** The first digit of a positive number is not zero. *)
Lemma pretty_first x s :
  (0 < x)%N -> exists c s', pretty_N_go x s = String c s' /\ is_digit c = true /\ 0 < char_value c.
Proof.
  revert s; induction (N.lt_wf_0 x) as [x _ IH]; intros s Hx; rewrite pretty_N_go_step by done.
  destruct (decide (x < 10)%N) as [Hlt|Hge].
  - rewrite N.div_small, pretty_N_go_0 by done; rewrite N.mod_small by done.
    destruct (pretty_char_digit _ Hlt) as [Hd Hc]; do 2 eexists; split_and!; [done..|lia].
  - apply IH; [apply N.div_lt; lia|]; apply N.div_str_pos; lia.
Qed.

Lemma is_digit_range c : is_digit c = true -> 48 <= code c <= 57.
Proof. unfold is_digit; intros; bool_facts; lia. Qed.

Lemma uint_loop_digit max n c s :
  max <= 9223372036854775808 -> is_digit c = true -> 0 <= n -> n * 10 + char_value c <= max ->
  uint_loop 10 n false (String c s) = uint_loop 10 (n * 10 + char_value c) false s.
Proof.
  intros Hmax Hd Hn Hle; pose proof (is_digit_range _ Hd) as Hc; unfold char_value in *; cbn [uint_loop].
  rewrite (proj2 (Z.eqb_neq _ _)) by lia; unfold digit; rewrite Hd.
  rewrite (proj2 (Z.leb_gt 10 _)) by lia; change (18446744073709551615 / 10 + 1) with 1844674407370955162.
  rewrite (proj2 (Z.leb_gt 1844674407370955162 _)) by lia.
  assert (Hu : forall z, 0 <= z < 18446744073709551616 -> uint64 z = z).
  { intros z Hz; unfold uint64, wrap_u; by rewrite Z.mod_small. }
  rewrite (Hu (n * 10)) by lia; rewrite Hu by lia; by rewrite (proj2 (Z.ltb_ge _ _)) by lia.
Qed.

Lemma base_prefix_ten c s : is_digit c = true -> 0 < char_value c -> base_prefix (String c s) = (10, String c s).
Proof. intros Hd Hc; unfold char_value in Hc; simpl; by rewrite (proj2 (Z.eqb_neq _ _)) by lia. Qed.

(** [ParseUint] on the digits of a positive number. *)
Lemma ParseUint_go x :
  (0 < x)%N -> Z.of_N x <= 9223372036854775808 -> ParseUint (pretty_N_go x "") = Ok (Z.of_N x).
Proof.
  intros Hx Hle; destruct (pretty_first x "" Hx) as (c & s & Heq & Hd & Hc).
  unfold ParseUint; rewrite Heq, base_prefix_ten, <- Heq by done.
  by rewrite (pretty_digits (fun n s => uint_loop 10 n false s) 9223372036854775808)
    by (try done; intros; by eapply uint_loop_digit).
Qed.

Lemma strip_digit c s : is_digit c = true -> strip_sign (String c s) = String c s.
Proof. intros Hd%is_digit_range; simpl; rewrite !(proj2 (Z.eqb_neq _ _)) by lia; done. Qed.

(** What is written of an integer: its sign and its digits. *)
Lemma fmt_d_shape z :
  (z = 0 /\ fmt_d z = "0") \/
  exists x, (0 < x)%N /\ Z.of_N x = Z.abs z /\
    fmt_d z = (if z <? 0 then "-" +:+ pretty_N_go x "" else pretty_N_go x "").
Proof.
  unfold fmt_d, pretty, pretty_Z; destruct z as [|x|x]; [by left|..]; right; exists (Npos x);
    (split; [lia|]; split; [lia|]; unfold pretty, pretty_positive, pretty, pretty_N; by case_decide).
Qed.

Lemma ParseInt_fmt_d z : in_int64 z -> ParseInt (fmt_d z) = Ok z.
Proof.
  unfold in_int64; intros Hz; destruct (fmt_d_shape z) as [[-> ->]|(x & Hx & Habs & ->)]; [done|].
  pose proof (ParseUint_go x Hx ltac:(lia)) as Hp.
  destruct (pretty_first x "" Hx) as (c & s & Heq & Hd & Hc).
  destruct (Z.ltb_spec z 0).
  - unfold ParseInt; change ("-" +:+ pretty_N_go x "")%string with (String dash_char (pretty_N_go x "")).
    change (strip_sign (String _ (pretty_N_go x ""))) with (pretty_N_go x ""); rewrite Hp; cbn [negb andb].
    change (code dash_char =? 45) with true; cbn [negb andb].
    rewrite (proj2 (Z.ltb_ge _ _)) by lia; f_equal; lia.
  - rewrite Heq in *; unfold ParseInt; rewrite strip_digit, Hp by done.
    apply is_digit_range in Hd; rewrite (proj2 (Z.eqb_neq _ _)) by lia; cbn [negb andb].
    rewrite (proj2 (Z.leb_gt _ _)) by lia; f_equal; lia.
Qed.

Lemma pretty_N_go_app x s : pretty_N_go x s = (pretty_N_go x "" +:+ s)%string.
Proof.
  assert (Hgen : forall t, pretty_N_go x (t +:+ s)%string = (pretty_N_go x t +:+ s)%string); [|by rewrite <- (Hgen "")].
  induction (N.lt_wf_0 x) as [x _ IH]; intros t; destruct (decide (x = 0)%N) as [->|Hne]; [done|].
  rewrite (pretty_N_go_step x (t +:+ s)), (pretty_N_go_step x t) by lia; exact (IH (x / 10)%N ltac:(apply N.div_lt; lia) (String _ t)).
Qed.

(** *** The fuel of [duration_loop] *)

Lemma leadingInt_length s : forall x v s', leadingInt x s = Some (v, s') ->
  (String.length s' <= String.length s)%nat.
Proof.
  induction s as [|c s IH]; intros x v s'; cbn [leadingInt]; [by intros [= <- <-]|].
  repeat case_match; intros Heq; simplify_eq; [|done].
  apply IH in Heq; cbn [String.length]; lia.
Qed.

Lemma leadingFraction_length s : forall x sc o v sc' s',
  leadingFraction x sc o s = (v, sc', s') -> (String.length s' <= String.length s)%nat.
Proof.
  induction s as [|c s IH]; intros x sc o v sc' s'; cbn [leadingFraction]; [by intros [= <- <- <-]|].
  repeat case_match; intros Heq; simplify_eq; [..|done];
    apply IH in Heq; cbn [String.length]; lia.
Qed.

Lemma span_unit_length s : forall u s', span_unit s = (u, s') ->
  (String.length u + String.length s' = String.length s)%nat.
Proof.
  induction s as [|c s IH]; intros u s'; cbn [span_unit]; [by intros [= <- <-]|].
  case_match; [by intros [= <- <-]|].
  destruct (span_unit s) as [u0 r]; intros [= <- <-].
  specialize (IH _ _ eq_refl); cbn [String.length]; lia.
Qed.

(** A unit is not empty, so a part takes a character at least. *)
Lemma duration_part_length s v s' : duration_part s = Some (v, s') ->
  (String.length s' < String.length s)%nat.
Proof.
  destruct s as [|c s]; cbn [duration_part]; [done|case_match; [done|]].
  destruct (leadingInt 0 (String c s)) as [[v1 s1]|] eqn:H1; cbn [mbind option_bind]; [|done].
  apply leadingInt_length in H1.
  set (q := match s1 with EmptyString => _ | String _ _ => _ end).
  assert (Hq : (String.length (q.1).2 <= String.length s1)%nat).
  { subst q; destruct s1 as [|c1 s1']; [done|]; case_match; [|done].
    destruct (leadingFraction _ _ _ _) as [[f sc] s2] eqn:H2; cbn.
    apply leadingFraction_length in H2; lia. }
  destruct q as [[[f sc] s2] post]; cbn in Hq.
  case_match; [done|]; destruct (span_unit s2) as [u s3] eqn:H3; apply span_unit_length in H3.
  destruct u as [|cu u]; [done|]; destruct (unitMap _); cbn [mbind option_bind]; [|done].
  repeat case_match; intros [= <- <-]; cbn [String.length] in *; lia.
Qed.

(** More fuel than the text's length changes nothing. *)
Lemma duration_loop_enough n : forall d s, (String.length s <= n)%nat ->
  duration_loop n d s = duration_loop (String.length s) d s.
Proof.
  enough (H : forall m d s, (String.length s <= m)%nat -> (String.length s <= n)%nat ->
    duration_loop n d s = duration_loop m d s) by (intros; by apply H).
  induction n as [|n IH]; intros [|m] d [|c s] Hm Hn; try done; cbn [String.length] in *; try lia.
  cbn [duration_loop].
  destruct (duration_part (String c s)) as [[v s']|] eqn:Hp; cbn [mbind option_bind]; [|done].
  apply duration_part_length in Hp; cbn [String.length] in Hp.
  case_match; [done|]; apply IH; lia.
Qed.

Lemma leadingInt_digit n c s :
  is_digit c = true -> 0 <= n -> n * 10 + char_value c <= 9223372036854775808 ->
  leadingInt n (String c s) = leadingInt (n * 10 + char_value c) s.
Proof.
  intros Hd Hn Hle; pose proof (is_digit_range _ Hd) as Hc; unfold char_value in *; cbn [leadingInt].
  rewrite Hd; change (9223372036854775808 / 10) with 922337203685477580; cbv zeta.
  by rewrite !(proj2 (Z.ltb_ge _ _)) by lia.
Qed.

Lemma duration_ns x :
  (0 < x)%N -> Z.of_N x <= 9223372036854775808 ->
  duration_part (pretty_N_go x "ns") = Some (Z.of_N x, "").
Proof.
  intros Hx Hle; destruct (pretty_first x "ns" Hx) as (c & s & Heq & Hd & Hc).
  unfold duration_part; rewrite Heq; cbn [is_digit]; rewrite Hd, orb_true_r; cbn [negb]; rewrite <- Heq.
  rewrite (pretty_digits leadingInt 9223372036854775808) by (done || by intros; apply leadingInt_digit).
  simpl; rewrite (proj2 (Z.ltb_ge _ _)) by (change (9223372036854775808 / 1) with 9223372036854775808; lia).
  by rewrite Z.mul_1_r, (proj2 (Z.ltb_ge _ _)) by lia.
Qed.

(** [fmt.Sprint] of a number of nanoseconds, with its unit. *)
Definition fmt_ns (d : Z) : string := fmt_d d +:+ "ns".

Lemma ParseDuration_fmt_ns d : in_int64 d -> ParseDuration (fmt_ns d) = Some d.
Proof.
  unfold in_int64, fmt_ns; intros Hd; destruct (fmt_d_shape d) as [[-> ->]|(x & Hx & Habs & ->)]; [done|].
  destruct (pretty_first x "ns" Hx) as (c & s & Heq & Hdig & Hc).
  assert (Hloop : forall n, duration_loop (S n) 0 (String c s) = Some (Z.of_N x)).
  { intros n; cbn [duration_loop]; rewrite <- Heq, duration_ns by (done || lia); cbn [mbind option_bind].
    unfold uint64, wrap_u; rewrite Z.add_0_l, Z.mod_small by (change (2 ^ 64) with 18446744073709551616; lia).
    cbv zeta; rewrite (proj2 (Z.ltb_ge _ _)) by lia; by destruct n. }
  assert (Hz : String.eqb (String c s) "0" = false).
  { apply String.eqb_neq; intros [= -> _]; by vm_compute in Hc. }
  destruct (Z.ltb_spec d 0).
  - change (("-" +:+ pretty_N_go x "") +:+ "ns")%string with (String dash_char (pretty_N_go x "" +:+ "ns")%string).
    rewrite <- pretty_N_go_app; unfold ParseDuration; change (strip_sign (String dash_char ?s)) with s.
    rewrite Heq, Hz; cbn [String.length]; rewrite Hloop; simpl; f_equal; lia.
  - rewrite <- pretty_N_go_app; unfold ParseDuration; rewrite Heq, strip_digit, Hz by done.
    cbn [String.length]; rewrite Hloop; simpl; apply is_digit_range in Hdig.
    rewrite (proj2 (Z.eqb_neq _ _)), (proj2 (Z.ltb_ge _ _)) by lia; f_equal; lia.
Qed.

(** ** Arguments that give a flag its value *)

Definition name_ok (name : string) : bool :=
  match name with
  | EmptyString => false
  | String c _ => negb (dash c) && negb (existsb equals (String.list_ascii_of_string name))
  end.

Lemma cut_value_free name value :
  existsb equals (String.list_ascii_of_string name) = false ->
  cut_value (name +:+ "=" +:+ value) = (name, Some value).
Proof.
  induction name as [|c name IH]; [done|]; intros [Hc Hn]%orb_false_iff.
  change (String c name +:+ "=" +:+ value)%string with (String c (name +:+ "=" +:+ value)).
  cbn [cut_value]; by rewrite Hc, IH.
Qed.

Lemma tokenize_flag_arg name value :
  name_ok name = true -> tokenize (flag_arg name value) = TFlag name (Some value).
Proof.
  unfold name_ok; destruct name as [|c name]; [done|]; intros [Hd He]%andb_true_iff.
  apply negb_true_iff in Hd, He; pose proof (cut_value_free _ value He) as Hcut.
  apply orb_false_iff in He as [Hc _].
  change (flag_arg (String c name) value) with (String dash_char (String c (name +:+ "=" +:+ value))).
  change (String c name +:+ "=" +:+ value)%string with (String c (name +:+ "=" +:+ value)) in Hcut.
  unfold tokenize; change (dash dash_char) with true; cbn [negb]; rewrite Hd; unfold flag_name.
  by rewrite Hd, Hc, Hcut.
Qed.

Lemma flag_loop_arg {F} `{Format} (fs : list (flag F)) name fl value rest f f' :
  name_ok name = true -> lookup_flag fs name = Some fl -> fl_Set fl value f = Ok f' ->
  flag_loop fs (flag_arg name value :: rest) f = flag_loop fs rest f'.
Proof.
  intros Hn Hl Hs; cbn [flag_loop]; rewrite (tokenize_flag_arg _ _ Hn), Hl; simpl.
  by destruct (fl_bool fl); rewrite Hs.
Qed.

Lemma Set_Int {F} name set z (f : F) : in_int64 z -> fl_Set (flag_Int name set) (fmt_d z) f = Ok (set z f).
Proof. intros Hz; simpl; by rewrite ParseInt_fmt_d. Qed.

Lemma Set_Duration {F} name set d (f : F) :
  in_int64 d -> fl_Set (flag_Duration name set) (fmt_ns d) f = Ok (set d f).
Proof. intros Hd; simpl; by rewrite ParseDuration_fmt_ns. Qed.

Lemma Set_Bool {F} name set (b : bool) (f : F) :
  fl_Set (flag_Bool name set) (if b then "true" else "false") f = Ok (set b f).
Proof. by destruct b. Qed.

(** How a command line that is not taken ends the process. *)
Lemma flag_Parse_spec {F W} `{Format} (fs : list (flag F)) usage args f0 (p : process W) :
  wp (flag_Parse fs usage args f0) (fun p' o =>
    match flag_loop fs args f0 with
    | Parsed f _ => p' = p /\ o = Returned f
    | ParseHelp => o = Exited 0 /\
        p' = MkProcess (pr_world p) (pr_stdout p) (pr_log p ++ usage) (pr_files p) (pr_conns p)
    | ParseFailed msg => o = Exited 2 /\
        p' = MkProcess (pr_world p) (pr_stdout p) (pr_log p ++ msg :: usage) (pr_files p) (pr_conns p)
    end) p.
Proof.
  assert (Hlog : forall us (q : process W), for_each log_printf us q =
    (MkProcess (pr_world q) (pr_stdout q) (pr_log q ++ us) (pr_files q) (pr_conns q), Returned tt)).
  { induction us as [|u us IH]; intros q; simpl; [rewrite app_nil_r; by destruct q|].
    unfold for_each; fold (@for_each W string); unfold mbind, cmd_bind; simpl.
    rewrite IH; simpl; by rewrite <- app_assoc. }
  unfold flag_Parse; destruct (flag_loop fs args f0) as [f l| |msg]; [by apply wp_ret|..].
  - apply wp_bind; unfold wp at 1; rewrite Hlog; by split.
  - apply wp_bind; unfold wp at 1, log_printf; cbn [and_then]; apply wp_bind; unfold wp at 1; rewrite Hlog.
    split; [done|]; simpl; by rewrite <- app_assoc.
Qed.

#[global] Arguments ParseInt : simpl never.
#[global] Arguments ParseDuration : simpl never.
