(* ===== verification/NodeCmd.v ===== *)
(** * The node's command ([src/cmd/node/main.go])

    [main]: the mode test, dialling the peers, the node it builds, the listener,
    the server, the printed lines, and the shutdown on a signal. *)

From S2P Require Import Prelude Hlc Store Buffer Wire Replication Server Cluster.
From S2P Require Import Float Env Process Flags.

(** ** Definitions *)

Record node_flags := MkNodeFlags {
  nf_mode : string;
  nf_port : Z;
  nf_peers : string;
  nf_delayPrefix : string;
  nf_delay : Z;
  nf_peerDelay : Z;
  nf_pprofAddr : string
}.

(** The flags of an empty command line. *)
Definition node_defaults : node_flags := MkNodeFlags "eventual" 50051 "" "" 0 0 "".

(** The operating system and the servers: the errors of listening and of the
    profiling server, and what ends the wait for a signal: the signal, or an
    error of [Serve] after [main] has printed some of its lines. *)
Class Host (W : Type) := {
  net_Listen : string -> W -> W * option string;
  http_ListenAndServe : string -> W -> W * option string;
  grpc_Serve : Node AnyHandler -> W -> W * option (nat * string);
  grpc_GracefulStop : W -> W
}.

(** [%v] of a list of strings. *)
Definition fmt_strings (l : list string) : string := "[" +:+ join " " l +:+ "]".

Section node.
Context {W : Type} `{Time W} `{Host W} `{Format} (dial : string -> res peer).

(** Peers that cannot be dialled are left out with a warning. *)
Fixpoint dialPeers (peerList : list string) : cmd W (list peer * list nat) :=
  match peerList with
  | [] => mret ([], [])
  | addr :: peerList =>
      r ← grpc_NewClient dial addr;
      match r with
      | Err err =>
          log_printf ("warning: failed to dial peer " +:+ addr +:+ ": " +:+ err);;
          dialPeers peerList
      | Ok (client, conn) =>
          '(clients, conns) ← dialPeers peerList;
          mret (client :: clients, conn :: conns)
      end
  end.

Definition closeConns (conns : list nat) : cmd W unit := for_each conn_Close conns.

(** The goroutine of the profiling server, as if it ran when it is started. *)
Definition serve_pprof (addr : string) : cmd W unit :=
  log_printf ("pprof: http://" +:+ addr +:+ "/debug/pprof/");;
  err ← in_world (http_ListenAndServe addr);
  match err with
  | Some e => log_printf ("pprof server: " +:+ e)
  | None => mret tt
  end.

(** What [main] prints once the server has been started. *)
Definition banner (f : node_flags) (peerList : list string) : list string :=
  ["Node starting...";
   "Mode: " +:+ nf_mode f;
   "Port: " +:+ fmt_d (nf_port f);
   "Peers: " +:+ fmt_strings peerList] ++
  (if (0 <? nf_peerDelay f)%Z then ["Peer delay: " +:+ fmt_duration (nf_peerDelay f)] else []) ++
  (if negb (String.eqb (nf_pprofAddr f) "") then ["Pprof: " +:+ nf_pprofAddr f] else []) ++
  ["Node running. Press Ctrl+C to stop."].

(** From the listener to the shutdown.  [main] returns nothing; the result here is
    the node it has served. *)
Definition run_server (f : node_flags) (peerList : list string) (node : Node AnyHandler)
    : cmd W (Node AnyHandler) :=
  (if negb (String.eqb (nf_pprofAddr f) "") then serve_pprof (nf_pprofAddr f) else mret tt);;
  err ← in_world (net_Listen (":" +:+ fmt_d (nf_port f)));
  match err with
  | Some e => log_fatal ("listen: " +:+ e)
  | None =>
      ended ← in_world (grpc_Serve node);
      match ended with
      | Some (k, e) =>
          for_each printf (take k (banner f peerList));;
          log_fatal ("serve: " +:+ e)
      | None =>
          for_each printf (banner f peerList);;
          printf "Shutting down.";;
          in_world (fun w => (grpc_GracefulStop w, tt));;
          mret node
      end
  end.

Definition node_main (f : node_flags) : cmd W (Node AnyHandler) :=
  if negb (contains validModes (nf_mode f)) then
    log_fatal ("invalid --mode " +:+ fmt_quote (bytes_of (nf_mode f)) +:+ ": must be one of " +:+
               fmt_strings validModes)
  else
    let peerList := parsePeers (nf_peers f) in
    now ← in_world time_Now;
    '(peerClients, conns) ← dialPeers peerList;
    with_defer (closeConns conns)
      match start_node (nf_mode f) peerClients
              (MkOptions (nf_delayPrefix f) (nf_delay f) (nf_peerDelay f)) now with
      | Some node => run_server f peerList node
      | None => panic
      end.

(** ** Lemmas *)

(** The peers that could be dialled, and the warnings for the others. *)
Definition dialled (peerList : list string) : list peer :=
  omap (fun addr => match dial addr with Ok c => Some c | Err _ => None end) peerList.

Definition dial_warnings (peerList : list string) : list string :=
  omap (fun addr => match dial addr with
                    | Ok _ => None
                    | Err err => Some ("warning: failed to dial peer " +:+ addr +:+ ": " +:+ err)
                    end) peerList.

Implicit Types (p : process W).

Lemma dialPeers_run l p :
  dialPeers l p =
    (MkProcess (pr_world p) (pr_stdout p) (pr_log p ++ dial_warnings l) (pr_files p)
       (pr_conns p ++ replicate (length (dialled l)) true),
     Returned (dialled l, seq (length (pr_conns p)) (length (dialled l)))).
Proof.
  revert p; induction l as [|a l IH]; intros p; unfold dialled, dial_warnings in *; simpl.
  { rewrite !app_nil_r; by destruct p. }
  unfold grpc_NewClient, mbind, cmd_bind; destruct (dial a) as [c|e]; simpl.
  - fold (cmd W (list peer * list nat)); rewrite IH; simpl.
    by rewrite length_app, Nat.add_1_r, <- app_assoc.
  - rewrite IH; simpl; by rewrite <- app_assoc.
Qed.

Lemma start_node_valid mode peers opts now :
  contains validModes mode = true -> exists n, start_node mode peers opts now = Some n.
Proof.
  unfold start_node; intros Hm; rewrite Hm; simpl.
  assert (Hin : mode = "eventual" \/ mode = "causal" \/ mode = "strong").
  { cbn [contains validModes] in Hm.
    destruct (String.eqb_spec "eventual" mode); [by left|].
    destruct (String.eqb_spec "causal" mode); [by right; left|].
    destruct (String.eqb_spec "strong" mode); [by right; right|done]. }
  destruct Hin as [->|[->| ->]]; by eexists.
Qed.

(** How the part of [main] after the node is built can end. *)
Lemma run_server_spec f l node p :
  wp (run_server f l node) (fun p' o =>
    pr_conns p' = pr_conns p /\ pr_files p' = pr_files p /\ pr_log p `prefix_of` pr_log p' /\
    match o with
    | Returned n => n = node /\ pr_stdout p' = pr_stdout p ++ banner f l ++ ["Shutting down."]
    | Exited c => c = 1%Z /\ pr_log p <> pr_log p' /\
        exists lines, lines `prefix_of` banner f l /\ pr_stdout p' = pr_stdout p ++ lines
    | Panicked => False
    end) p.
Proof.
  unfold run_server; generalize (banner f l) as bn; intros bn; apply wp_bind.
  assert (Hpp : wp (if negb (String.eqb (nf_pprofAddr f) "") then serve_pprof (nf_pprofAddr f) else mret tt)
    (fun p' o => pr_conns p' = pr_conns p /\ pr_files p' = pr_files p /\
       pr_stdout p' = pr_stdout p /\ pr_log p `prefix_of` pr_log p' /\ o = Returned tt) p).
  { destruct (negb _); [|apply wp_ret; by split_and!].
    unfold serve_pprof, wp, mbind, cmd_bind, in_world; simpl.
    destruct (http_ListenAndServe _ _) as [w [e|]]; simpl; split_and!; try done;
      rewrite <- ?app_assoc; by eexists. }
  eapply wp_mono; [exact Hpp|]; clear Hpp; intros p1 o (Hc & Hf & Ho & Hl & ->); simpl.
  unfold wp, mbind at 1, cmd_bind, in_world at 1.
  destruct (net_Listen _ _) as [w [e|]]; simpl.
  { rewrite Hc, Hf, Ho; destruct Hl as [ls Hl]; rewrite Hl; split_and!; try done.
    - rewrite <- app_assoc; by eexists.
    - rewrite <- app_assoc; intros Heq; apply (f_equal length) in Heq; rewrite !length_app in Heq;
        simpl in Heq; lia.
    - exists []; split; [by eexists|by rewrite app_nil_r]. }
  unfold mbind at 1, cmd_bind, in_world at 1; simpl.
  destruct (grpc_Serve _ _) as [w' [[k e]|]]; simpl; unfold mbind at 1, cmd_bind; rewrite printf_run; simpl.
  - rewrite Hc, Hf, Ho; destruct Hl as [ls Hl]; rewrite Hl; split_and!; try done.
    + rewrite <- app_assoc; by eexists.
    + rewrite <- app_assoc; intros Heq; apply (f_equal length) in Heq; rewrite !length_app in Heq;
        simpl in Heq; lia.
    + exists (take k bn); split; [by apply prefix_take|done].
  - unfold mret, cmd_ret; rewrite Hc, Hf, Ho; split_and!; try done; by rewrite <- app_assoc.
Qed.

End node.

(** The whole of [main] on a valid mode is the server on the node built from the
    peers that could be dialled, the connections closed after it. *)
Lemma node_main_valid {W} `{Time W} `{Host W} `{Format} dial f (p : process W) :
  contains validModes (nf_mode f) = true ->
  exists n l, l = parsePeers (nf_peers f) /\
    start_node (nf_mode f) (dialled dial l)
      (MkOptions (nf_delayPrefix f) (nf_delay f) (nf_peerDelay f)) (snd (time_Now (pr_world p))) = Some n /\
    forall Q, wp (run_server f l n) (fun p' o =>
      match o with
      | Exited c => Q p' (Exited c)
      | o => Q (with_conns (pr_conns p ++ replicate (length (dialled dial l)) false) p') o
      end)
      (MkProcess (fst (time_Now (pr_world p))) (pr_stdout p) (pr_log p ++ dial_warnings dial l)
         (pr_files p) (pr_conns p ++ replicate (length (dialled dial l)) true)) ->
    wp (node_main dial f) Q p.
Proof.
  intros Hm; set (l := parsePeers (nf_peers f)).
  destruct (start_node_valid (nf_mode f) (dialled dial l)
    (MkOptions (nf_delayPrefix f) (nf_delay f) (nf_peerDelay f)) (snd (time_Now (pr_world p))) Hm)
    as [n Hn].
  exists n, l; split_and!; [done|done|]; intros Q HQ.
  unfold node_main; rewrite Hm; cbn [negb]; fold l; apply wp_bind.
  unfold wp, in_world; destruct (time_Now _) as [w now]; cbn [and_then fst snd] in *.
  apply wp_bind; unfold wp; rewrite dialPeers_run; cbn [and_then pr_conns with_world].
  apply wp_defer; rewrite Hn; cbn in HQ |- *.
  pose proof (run_server_spec f l n (MkProcess w (pr_stdout p) (pr_log p ++ dial_warnings dial l)
    (pr_files p) (pr_conns p ++ replicate (length (dialled dial l)) true))) as Hspec.
  unfold wp in *; cbn in Hspec |- *.
  destruct (run_server _ _ _ _) as [p' [n'|c|]]; [|done|]; destruct Hspec as [Hc _];
    unfold closeConns; by rewrite (close_run _ _ _ Hc).
Qed.

Lemma node_main_returns {W} `{Time W} `{Host W} `{Format} dial f (p p' : process W) n :
  node_main dial f p = (p', Returned n) ->
  start_node (nf_mode f) (dialled dial (parsePeers (nf_peers f)))
    (MkOptions (nf_delayPrefix f) (nf_delay f) (nf_peerDelay f)) (snd (time_Now (pr_world p))) = Some n.
Proof.
  intros Hmain; destruct (contains validModes (nf_mode f)) eqn:Hm.
  - destruct (node_main_valid dial f p Hm) as (n0 & l & -> & Hn & Hwp).
    specialize (Hwp (fun _ o => forall n, o = Returned n -> n = n0)); unfold wp in Hwp at 2.
    rewrite Hmain in Hwp; rewrite (Hwp ltac:(eapply wp_mono; [apply run_server_spec|];
      intros p1 [n1|c|] (_ & _ & _ & Ho); [by destruct Ho as [-> _]; intros ? [= <-]|done|done]) n eq_refl).
    exact Hn.
  - unfold node_main in Hmain; rewrite Hm in Hmain; discriminate Hmain.
Qed.

(** ** Properties *)

(** How the node's command ends. *)
Definition node_ends {W} `{Time W} `{Format} (dial : string -> res peer) (f : node_flags)
    (p p' : process W) (o : outcome (Node AnyHandler)) : Prop :=
  let l := parsePeers (nf_peers f) in
  match o with
  | Returned n =>
      contains validModes (nf_mode f) = true /\
      start_node (nf_mode f) (dialled dial l) (MkOptions (nf_delayPrefix f) (nf_delay f) (nf_peerDelay f))
        (snd (time_Now (pr_world p))) = Some n /\
      pr_stdout p' = pr_stdout p ++ banner f l ++ ["Shutting down."] /\
      pr_log p ++ dial_warnings dial l `prefix_of` pr_log p' /\
      pr_conns p' = pr_conns p ++ replicate (length (dialled dial l)) false
  | Exited c =>
      c = 1%Z /\ pr_log p <> pr_log p' /\
      (exists lines, lines `prefix_of` banner f l /\ pr_stdout p' = pr_stdout p ++ lines) /\
      (contains validModes (nf_mode f) = false -> pr_stdout p' = pr_stdout p /\ pr_conns p' = pr_conns p)
  | Panicked => False
  end.

Lemma node_main_ends {W} `{Time W} `{Host W} `{Format} dial f (p : process W) :
  wp (node_main dial f) (node_ends dial f p) p.
Proof.
  unfold node_ends; cbv zeta.
  destruct (contains validModes (nf_mode f)) eqn:Hm.
  - destruct (node_main_valid dial f p Hm) as (n & ? & -> & Hn & Hwp).
    apply Hwp; eapply wp_mono; [apply run_server_spec|].
    intros p' [n'|c|] (Hc & _ & Hlog & Ho); simpl in *; [|destruct Ho as (-> & Hne & Hl)|done].
    + destruct Ho as [-> Ho]; split_and!; eauto.
    + split_and!; [done| |done|done]; destruct Hlog as [ls Hlog]; rewrite Hlog.
      rewrite <- app_assoc; intros Heq; apply (f_equal length) in Heq; rewrite !length_app in Heq.
      apply Hne; rewrite Hlog; destruct ls; [by rewrite app_nil_r|simpl in Heq; lia].
  - unfold node_main; rewrite Hm; apply wp_fatal; simpl; split_and!; try done.
    + intros Heq; apply (f_equal length) in Heq; rewrite length_app in Heq; simpl in Heq; lia.
    + exists []; split; [by eexists|by rewrite app_nil_r].
Qed.

(** C29: peers that cannot be dialled shrink the quorum: a strong node none of whose
    peers could be dialled starts all the same, and acknowledges writes that no
    other node was asked to take, however many peers its command line names. *)
Theorem dial_failures_shrink_quorum {W} `{Time W} `{Host W} `{Format} dial f (p p' : process W) n now req rs :
  nf_mode f = "strong" -> (forall addr, addr ∈ parsePeers (nf_peers f) -> is_ok (dial addr) = false) ->
  node_main dial f p = (p', Returned n) ->
  exists n' resp, Node_Put now req rs n = (n', [], Ok resp) /\
    isSome (Node_Store n' !! PutReq_Key req) = true.
Proof.
  intros Hmode Hdial Hn%node_main_returns; rewrite Hmode in Hn.
  assert (Hnone : dialled dial (parsePeers (nf_peers f)) = []).
  { clear Hn; unfold dialled; revert Hdial; induction (parsePeers (nf_peers f)) as [|a l IH]; intros Hd; [done|].
    pose proof (Hd a (list_elem_of_here _ _)) as Ha; simpl.
    destruct (dial a); [done|]; apply IH; intros b Hb; by apply Hd; right. }
  rewrite Hnone in Hn; injection Hn as <-.
  unfold Node_Put; simpl; unfold Clock_Send; simpl.
  destruct (_ =? _)%Z; simpl; do 2 eexists; (split; [done|]); unfold Store_Put; simpl; by rewrite lookup_insert_eq.
Qed.

(** A host on which the port is free and the server runs until a signal. *)
#[export] Instance fixture_host : Host fixture := {|
  net_Listen _ w := (w, None);
  http_ListenAndServe _ w := (w, None);
  grpc_Serve _ w := (w, None);
  grpc_GracefulStop w := w
|}.

Definition c_start : process fixture :=
  init_process (MkFixture (fun _ _ _ => Ok (MkGetResponse [] None false)) (fun _ _ _ => Ok (MkPutResponse None))
    100 [] []).

Definition c_strong_flags : node_flags := MkNodeFlags "strong" 50051 "n2, n3" "" 0 0 "".

Definition c_alone : process fixture * outcome (Node AnyHandler) :=
  node_main (fun _ => Err "bad target") c_strong_flags c_start.

Definition c_alone_node : Node AnyHandler :=
  match snd c_alone with
  | Returned n => n
  | _ => NewNode "" store_New (hlc_New 0) None (HStrong (MkStrong [] 1 (MkOptions "" 0 0)))
  end.

Lemma dial_failures_shrink_quorum_witness :
  pr_log (fst c_alone) = ["warning: failed to dial peer n2: bad target";
                          "warning: failed to dial peer n3: bad target"] /\
  exists n' resp, Node_Put 200 (MkPutRequest "x" [x61]) [] c_alone_node = (n', [], Ok resp).
Proof.
  split; [vm_compute; reflexivity|].
  assert (Hr : node_main (fun _ => Err "bad target") c_strong_flags c_start = (fst c_alone, Returned c_alone_node)) by (vm_compute; reflexivity).
  destruct (dial_failures_shrink_quorum (fun _ => Err "bad target") c_strong_flags c_start (fst c_alone)
    c_alone_node 200 (MkPutRequest "x" [x61]) [] eq_refl (fun _ _ => eq_refl) Hr) as (n' & resp & Heq & _).
  exists n', resp; exact Heq.
Defined.

(** With its peers the same node waits for them. *)
Example dialled_node_waits :
  match snd (node_main (fun a => Ok (if String.eqb a "n2" then 1 else 2)) c_strong_flags c_start) with
  | Returned n => snd (Node_Put 200 (MkPutRequest "x" [x61]) [] n) = Err errQuorum
  | _ => False
  end.
Proof. vm_compute. reflexivity. Qed.
