(* ===== verification/Cmd.v ===== *)
(** * The tools' commands ([src/cmd/checker], [src/cmd/experiments], [src/cmd/bench])

    What their [main] functions do with their flags, as processes of
    [Process.v]: the connections, the work, the files, the printed lines and the
    exit status.  [grpc.NewClient] is a function [dial] that may fail; reading
    and decoding the workload file are functions too. *)

From S2P Require Import Prelude Hlc Store Wire Float Env Process Csv Workload Driver Experiments Checker Flags.

(** ** Definitions: cmd/checker *)

Record checker_flags := MkCheckerFlags {
  cf_nodes : string;
  cf_keyPrefix : string;
  cf_keyCount : Z;
  cf_settle : Z;
  cf_timeout : Z
}.

Definition checker_defaults : checker_flags :=
  MkCheckerFlags "localhost:50051,localhost:50052,localhost:50053" "user" 100 3000000000 30000000000.

(** The loop over the addresses; a failure ends the process. *)
Fixpoint dialNodes {W : Type} (dial : string -> res client) (nodeList : list string)
    : cmd W (list NamedClient * list nat) :=
  match nodeList with
  | [] => mret ([], [])
  | addr :: nodeList =>
      r ← grpc_NewClient dial addr;
      match r with
      | Err err => log_fatal ("dial " +:+ addr +:+ ": " +:+ err)
      | Ok (c, conn) =>
          '(clients, conns) ← dialNodes dial nodeList;
          mret (MkNamedClient addr c :: clients, conn :: conns)
      end
  end.

(** A string is two words. *)
Definition checker_keys (keyPrefix : string) (keyCount : Z) : option (list string) :=
  if make_ok 16 keyCount then Some (make keyCount (fun i => keyPrefix +:+ fmt_d i)) else None.

(** The deadline [cf_timeout] of the context is the world's ([ctx_wait] and the
    calls).  [main] returns nothing; the result is the report. *)
Definition checker_main {W : Type} `{KVService W} `{Time W} `{Format}
    (dial : string -> res client) (f : checker_flags) : cmd W Report :=
  let nodeList := parseList (cf_nodes f) in
  if Nat.eqb (length nodeList) 0 then log_fatal "no nodes provided"
  else
    '(clients, conns) ← dialNodes dial nodeList;
    with_defer (for_each conn_Close conns)
      (keys ← in_world_run (fun w => (w, checker_keys (cf_keyPrefix f) (cf_keyCount f)));
       let chk := checker_New clients in
       '(report, err) ← in_world_run (WaitForConvergence chk keys (cf_settle f));
       printf (Report_String report);;
       match err with
       | Some e => log_fatal ("check failed: " +:+ e)
       | None => if negb (Report_Consistent report) then os_exit 1 else mret report
       end).

(** ** Definitions: cmd/experiments *)

Record experiments_flags := MkExperimentsFlags {
  ef_test : string;
  ef_origin : string;
  ef_replica : string;
  ef_mode : string;
  ef_trials : Z;
  ef_output : string
}.

Definition experiments_defaults : experiments_flags :=
  MkExperimentsFlags "all" "localhost:50051" "localhost:50052" "eventual" 30
    "bench/results/paper/experiments.csv".

Definition trialHeader : list string := ["mode"; "test"; "trial"; "staleness_ms"; "violation"].

(** The command's own copies of two helpers of [bench/ycsb_driver.go]. *)
Definition dirOf (path : string) : string := dir_loop (String.length path) path.

Definition fileExists {W : Type} (path : string) : cmd W bool := os_Stat path.

Section experiments_main.
Context {W : Type} `{KVService W} `{Time W} `{Files W} `{Format}.

(** The errors of [Write], [Flush] and [Close] are not looked at. *)
Definition appendTrialRow (path : string) (row : list string) : cmd W unit :=
  err ← in_world (os_MkdirAll (dirOf path));
  match err with
  | Some e => log_fatal e
  | None =>
      exists_ ← fileExists path;
      err ← open_append path;
      match err with
      | Some e => log_fatal e
      | None =>
          let w := csv_NewWriter path in
          w ← (if negb exists_ then csv_Write trialHeader w else mret w);
          w ← csv_Write row w;
          csv_Flush w;;
          mret tt
      end
  end.

Definition visible_rows (mode : string) (r : StalenessResult) : list (list string) :=
  imap (fun i ms => [mode; "staleness"; fmt_d (Z.of_nat i); fmt_float 2 ms; ""]) (SR_SamplesMs r).

Definition timeout_rows (mode : string) (trials : Z) (r : StalenessResult) : list (list string) :=
  map (fun i => [mode; "staleness"; fmt_d (Z.of_nat i); ""; "timeout"])
    (seq (length (SR_SamplesMs r)) (Z.to_nat trials - length (SR_SamplesMs r))).

Definition runStaleness (mode : string) (origin replica : Client) (trials : Z) (output : string)
    : cmd W unit :=
  '(r, err) ← in_world_run (MeasureStaleness origin replica trials);
  match err with
  | Some e => log_fatal ("staleness: " +:+ e)
  | None =>
      for_each (appendTrialRow output) (visible_rows mode r);;
      for_each (appendTrialRow output) (timeout_rows mode trials r);;
      printf ("staleness [" +:+ mode +:+ "]: visible=" +:+ fmt_d (SR_Visible r) +:+ "/" +:+
              fmt_d trials +:+ " mean=" +:+ fmt_float 1 (SR_MeanMs r) +:+ "ms p95=" +:+
              fmt_float 1 (SR_P95Ms r) +:+ "ms timeouts=" +:+ fmt_d (SR_Timeouts r))
  end.

Definition causal_rows (mode : string) (r : CausalChainResult) : list (list string) :=
  imap (fun i violated =>
          let val := if (violated : bool) then "1" else "0" in
          [mode; "causal_chain"; fmt_d (Z.of_nat i); ""; val]) (CC_TrialViolations r).

Definition runCausal (mode : string) (origin replica : Client) (trials : Z) (output : string)
    : cmd W unit :=
  '(r, err) ← in_world_run (MeasureCausalChains origin replica trials);
  match err with
  | Some e => log_fatal ("causal: " +:+ e)
  | None =>
      for_each (appendTrialRow output) (causal_rows mode r);;
      let rate := if (0 <? trials)%Z
                  then fmul (fdiv (of_int (CC_Violations r)) (of_int trials)) (of_int 100)
                  else fzero in
      printf ("causal_chain [" +:+ mode +:+ "]: violations=" +:+ fmt_d (CC_Violations r) +:+ "/" +:+
              fmt_d trials +:+ " (" +:+ fmt_float 1 rate +:+ "%)")
  end.

(** The 10-minute deadline of the context is the world's. *)
Definition experiments_main (dial : string -> res client) (f : experiments_flags) : cmd W unit :=
  originClient ← Dial dial (ef_origin f);
  match originClient with
  | Err e => log_fatal e
  | Ok originClient =>
      with_defer (Client_Close originClient)
        (replicaClient ← Dial dial (ef_replica f);
         match replicaClient with
         | Err e => log_fatal e
         | Ok replicaClient =>
             with_defer (Client_Close replicaClient)
               (if String.eqb (ef_test f) "staleness" then
                  runStaleness (ef_mode f) originClient replicaClient (ef_trials f) (ef_output f)
                else if String.eqb (ef_test f) "causal" then
                  runCausal (ef_mode f) originClient replicaClient (ef_trials f) (ef_output f)
                else if String.eqb (ef_test f) "all" then
                  runStaleness (ef_mode f) originClient replicaClient (ef_trials f) (ef_output f);;
                  runCausal (ef_mode f) originClient replicaClient (ef_trials f) (ef_output f)
                else log_fatal ("unknown test " +:+ fmt_quote (bytes_of (ef_test f))))
         end)
  end.

End experiments_main.

(** ** Definitions: cmd/bench *)

Record bench_flags := MkBenchFlags {
  bf_target : string;
  bf_workload : string;
  bf_mode : string;
  bf_output : string;
  bf_seed : Z;
  bf_peerDelayMs : Z;
  bf_skipLoad : bool;
  bf_timeout : Z
}.

Definition bench_defaults : bench_flags :=
  MkBenchFlags "localhost:50051" "bench/workloads/workload_a.yaml" "eventual"
    "bench/results/summary.csv" 0 0 false 300000000000.

Definition with_PeerDelayMs (d : Z) (r : Result) : Result :=
  MkResult (Res_Mode r) (Res_Workload r) (Res_Seed r) d (Res_Operations r) (Res_Reads r)
    (Res_Writes r) (Res_Errors r) (Res_Duration r) (Res_Throughput r) (Res_LatencyP50NS r)
    (Res_LatencyP95NS r) (Res_LatencyP99NS r) (Res_LatencyAvgNS r).

Definition bench_lines `{Format} (output : string) (r : Result) : list string :=
  ["Benchmark complete";
   "  mode:       " +:+ Res_Mode r;
   "  workload:   " +:+ Res_Workload r;
   "  operations: " +:+ fmt_d (Res_Operations r) +:+ " (reads=" +:+ fmt_d (Res_Reads r) +:+
   " writes=" +:+ fmt_d (Res_Writes r) +:+ " errors=" +:+ fmt_d (Res_Errors r) +:+ ")";
   "  throughput: " +:+ fmt_float 2 (Res_Throughput r) +:+ " ops/s";
   "  latency p50: " +:+ fmt_duration (Res_LatencyP50NS r);
   "  results:    " +:+ output].

Section bench_main.
Context {W : Type} `{KVService W} `{Time W} `{Random W} `{Files W} `{Format} `{Math}.
Context (readFile : string -> res (list byte)) (unmarshal : list byte -> res Workload).
Context (dial : string -> res client).

Definition load_phase (f : bench_flags) (workload : Workload) (driver : Driver) : cmd W unit :=
  if negb (bf_skipLoad f) then
    log_printf ("loading " +:+ fmt_d (W_RecordCount workload) +:+ " records...");;
    err ← in_world_run (Load driver);
    match err with
    | Some e => log_fatal ("load: " +:+ e)
    | None => mret tt
    end
  else mret tt.

(** The result is the one written; the error of [Run] is always nil. *)
Definition bench_main (f : bench_flags) : cmd W Result :=
  let '(workload, err) := LoadWorkload (readFile (bf_workload f)) unmarshal in
  match err with
  | Some e => log_fatal ("load workload: " +:+ e)
  | None =>
      r ← grpc_NewClient dial (bf_target f);
      match r with
      | Err e => log_fatal ("dial: " +:+ e)
      | Ok (client, conn) =>
          with_defer (conn_Close conn)
            (driver ← in_world (NewDriver client workload (bf_mode f) (bf_seed f));
             load_phase f workload driver;;
             log_printf ("running " +:+ fmt_d (W_OperationCount workload) +:+ " operations (mode=" +:+
                         bf_mode f +:+ ")...");;
             result ← in_world_run (Run driver);
             let result := with_PeerDelayMs (bf_peerDelayMs f) result in
             err ← WriteSummaryCSV (bf_output f) result;
             match err with
             | Some e => log_fatal ("write csv: " +:+ e)
             | None => for_each printf (bench_lines (bf_output f) result);; mret result
             end)
      end
  end.

End bench_main.

(** ** Specification *)

(** The tests a command line asks for, as the rows name them. *)
Definition tests_of (test : string) : list string :=
  if String.eqb test "staleness" then ["staleness"]
  else if String.eqb test "causal" then ["causal_chain"]
  else if String.eqb test "all" then ["staleness"; "causal_chain"]
  else [].

(** The test and trial columns of a row. *)
Definition row_trial (row : list string) : option string * option string := (row !! 1, row !! 2).

Definition trials_of (trials : Z) (tests : list string) : list (option string * option string) :=
  flat_map (fun test => map (fun i => (Some test, Some (fmt_d i))) (trial_ids trials)) tests.

(** ** Lemmas *)

(** The end of both: a writer for a new or an old file, the header, the record. *)
Lemma header_spec {W} `{Files W} header path fs old (p : process W) :
  given fs old [] (csv_NewWriter path) p ->
  wp (if negb (isSome (fs !! path)) then csv_Write header (csv_NewWriter path) else mret (csv_NewWriter path))
    (fun p' o => writing fs old (if isSome (fs !! path) then [] else csv_line header) (csv_NewWriter path) p p' o) p.
Proof.
  intros Hg; destruct (isSome (fs !! path)); simpl; [|by apply (bufio_writes_spec _ _ [])].
  apply wp_ret; eexists; split; [done|]; split; [done|]; split; [apply same_output_refl|done].
Qed.

(** [WriteSummaryCSV]: without an error the record is in the file; an error leaves
    the other files as they were, and may leave the beginning of the record. *)
Lemma WriteSummaryCSV_spec {W} `{Files W} `{Format} path res (p : process W) :
  wp (WriteSummaryCSV path res) (fun p' o => same_output p p' /\
    match o with
    | Returned None => pr_files p' = add_row SummaryHeader path (pr_files p) (Row res)
    | Returned (Some _) => pr_files p' = pr_files p \/
        gained W path (record_text SummaryHeader path (pr_files p) (Row res)) (pr_files p) (pr_files p')
    | _ => False
    end) p.
Proof.
  unfold WriteSummaryCSV; apply wp_bind; unfold wp at 1, in_world at 1.
  destruct (os_MkdirAll _ _) as [w1 [e|]]; cbn [and_then].
  { apply wp_ret; split; [by split|by left]. }
  apply wp_bind; unfold wp at 1, Driver.fileExists, os_Stat; cbn [and_then]; set (p1 := with_world w1 p).
  apply wp_bind; eapply wp_mono; [apply open_append_spec|]; intros p2 [[e|]|c|] [Hs2 Hg]; cbn [and_then]; [| |done..].
  { apply wp_ret; split; [by destruct Hs2|by left]. }
  apply wp_bind; eapply wp_mono; [apply header_spec, Hg|]; intros p3 o (w3 & -> & Hp3 & Hs3 & Hg3); cbn [and_then].
  pose proof (same_output_trans _ _ _ Hs2 Hs3) as Hs23; destruct (cw_err w3) as [e|] eqn:He3.
  { apply wp_ret; split; [by destruct Hs23|]; right; apply (given_gained _ _ _ w3); [done| |by rewrite He3].
    apply given_more; [done|by rewrite He3]. }
  apply wp_bind; eapply wp_mono; [apply bufio_writes_spec, Hg3|]; intros p4 o (w4 & -> & Hp4 & Hs4 & Hg4);
    cbn [and_then].
  pose proof (same_output_trans _ _ _ Hs23 Hs4) as Hs24; rewrite Hp3 in Hp4; destruct (cw_err w4) as [e|] eqn:He4.
  { apply wp_ret; split; [by destruct Hs24|]; right; apply (given_gained _ _ _ w4); [done|done|by rewrite He4]. }
  apply wp_bind; eapply wp_mono; [apply bufio_Flush_spec, Hg4|]; intros p5 o ((w5 & -> & Hp5 & Hs5 & Hg5) & Hbuf).
  rewrite Hp4 in Hp5; pose proof (same_output_trans _ _ _ Hs24 Hs5) as Hs25; cbn [and_then]; apply wp_ret.
  destruct (given_gained _ _ _ _ _ Hp5 Hg5 (Hbuf _ eq_refl)) as [Hgain Hadd].
  split; [by destruct Hs25|]; unfold csv_Error; destruct (cw_err w5); [by right|by apply Hadd].
Qed.

Section append.
Context {W : Type} `{Files W}.
Implicit Types (p : process W).

(** What a step that only appends trial rows, or ends the process, does. *)
Definition appended (path : string) (rows : list (list string)) p p' (o : outcome unit) : Prop :=
  pr_stdout p' = pr_stdout p /\ pr_conns p' = pr_conns p /\
  match o with
  | Returned _ => pr_log p' = pr_log p /\ gained_rows W trialHeader path rows (pr_files p) (pr_files p')
  | Exited c => c = 1%Z /\ exists line, pr_log p' = pr_log p ++ [line]
  | Panicked => False
  end.

Lemma appendTrialRow_spec path row p : wp (appendTrialRow path row) (appended path [row] p) p.
Proof.
  unfold appendTrialRow; apply wp_bind; unfold wp at 1, in_world at 1.
  destruct (os_MkdirAll _ _) as [w1 [e|]]; cbn [and_then].
  { apply wp_fatal; split_and!; [done..|by eexists]. }
  apply wp_bind; unfold wp at 1, fileExists, os_Stat; cbn [and_then]; set (p1 := with_world w1 p).
  apply wp_bind; eapply wp_mono; [apply open_append_spec|]; intros p2 [[e|]|c|] [Hs2 Hg]; cbn [and_then]; [| |done..].
  { destruct Hs2 as [Ho Hl Hc]; apply wp_fatal; unfold appended; simpl; rewrite Ho, Hl, Hc; split_and!; [done..|by eexists]. }
  apply wp_bind; eapply wp_mono; [apply header_spec, Hg|]; intros p3 o (w3 & -> & Hp3 & Hs3 & Hg3); cbn [and_then].
  apply wp_bind; eapply wp_mono; [apply bufio_writes_spec, Hg3|]; intros p4 o (w4 & -> & Hp4 & Hs4 & Hg4);
    cbn [and_then].
  apply wp_bind; eapply wp_mono; [apply bufio_Flush_spec, Hg4|]; intros p5 o ((w5 & -> & Hp5 & Hs5 & Hg5) & Hbuf).
  rewrite Hp4, Hp3 in Hp5; cbn [and_then]; apply wp_ret.
  destruct (given_gained _ _ _ _ _ Hp5 Hg5 (Hbuf _ eq_refl)) as [Hgain _].
  destruct (same_output_trans _ _ _ (same_output_trans _ _ _ Hs2 Hs3) (same_output_trans _ _ _ Hs4 Hs5)) as [Ho Hl Hc].
  split; [done|]; split; [done|]; split; [done|]; by eexists.
Qed.

Lemma append_all path rows p :
  wp (for_each (appendTrialRow path) rows) (appended path rows p) p.
Proof.
  eapply wp_mono; [apply (wp_for_each (appendTrialRow path)
    (fun pre p' => appended path pre p p' (Returned tt))
    (fun p' o => appended path rows p p' o) rows [])|].
  - by split_and!.
  - intros pre row p1 (Ho & Hc & Hl & Hf) _; eapply wp_mono; [apply appendTrialRow_spec|].
    unfold appended; rewrite Ho, Hc, Hl; intros p2 [[]|c|] (? & ? & Hr); try done.
    destruct Hr as [? Hr]; split_and!; [done..|by eapply gained_rows_app].
  - by intros p' [[]|c|].
Qed.

End append.

Lemma map_imap_seq {A B C} (f : nat -> A -> B) (g : B -> C) (h : nat -> C) (l : list A) :
  (forall i x, g (f i x) = h i) -> map g (imap f l) = map h (seq 0 (length l)).
Proof.
  intros Hfg; apply list_eq; intros i; rewrite !list_lookup_fmap, list_lookup_imap.
  destruct (l !! i) as [x|] eqn:Hi; simpl.
  - rewrite lookup_seq_lt by (by eapply lookup_lt_Some); simpl; by rewrite Hfg.
  - rewrite lookup_seq_ge by (by apply lookup_ge_None_1); done.
Qed.

Lemma Forall_imap_all {A B} (f : nat -> A -> B) (P : B -> Prop) (l : list A) :
  (forall i x, P (f i x)) -> Forall P (imap f l).
Proof.
  intros Hf; apply Forall_lookup; intros i y; rewrite list_lookup_imap.
  destruct (l !! i); simpl; [intros [= <-]; apply Hf|done].
Qed.

Section tests.
Context {W : Type} `{TimeLaws W} `{Files W} `{Format}.
Context (mode : string) (origin replica : Client) (trials : Z) (output : string).
Implicit Types (p : process W).

Definition row_ok (row : list string) : Prop :=
  length row = length trialHeader /\ row !! 0 = Some mode.

(** How tests end: with a row per trial, or status 1 and a log line. *)
Definition ran (tests : list string) p p' (o : outcome unit) : Prop :=
  pr_conns p' = pr_conns p /\
  match o with
  | Returned _ => exists rows, pr_log p' = pr_log p /\
      gained_rows W trialHeader output rows (pr_files p) (pr_files p') /\
      map row_trial rows = trials_of trials tests /\ Forall row_ok rows
  | Exited c => c = 1%Z /\ exists line, pr_log p' = pr_log p ++ [line]
  | Panicked => make_ok 8 trials = false
  end.

Lemma staleness_rows_ok r :
  (Z.of_nat (length (SR_SamplesMs r)) <= trials)%Z ->
  map row_trial (visible_rows mode r ++ timeout_rows mode trials r) = trials_of trials ["staleness"] /\
  Forall row_ok (visible_rows mode r ++ timeout_rows mode trials r).
Proof.
  intros Hle; split.
  - unfold trials_of, trial_ids; simpl; rewrite app_nil_r, map_app, map_map.
    unfold visible_rows, timeout_rows.
    rewrite (map_imap_seq _ row_trial (fun i => (Some "staleness", Some (fmt_d (Z.of_nat i))))) by done.
    rewrite map_map; cbn [row_trial lookup list_lookup].
    rewrite <- map_app, <- seq_app; do 2 f_equal; lia.
  - apply Forall_app; split; [by apply Forall_imap_all|].
    apply Forall_forall; intros row Hr; apply list_elem_of_In, in_map_iff in Hr as (i & <- & _); done.
Qed.

Lemma causal_rows_ok r :
  Z.of_nat (length (CC_TrialViolations r)) = trials ->
  map row_trial (causal_rows mode r) = trials_of trials ["causal_chain"] /\
  Forall row_ok (causal_rows mode r).
Proof.
  intros Hl; split; [|by apply Forall_imap_all].
  unfold trials_of, trial_ids, causal_rows; simpl; rewrite app_nil_r, map_map.
  rewrite (map_imap_seq _ row_trial (fun i => (Some "causal_chain", Some (fmt_d (Z.of_nat i))))) by done.
  do 2 f_equal; lia.
Qed.

(** Rows appended and a line printed. *)
Lemma append_print tests rows1 rows2 line p p0 :
  pr_conns p0 = pr_conns p -> pr_log p0 = pr_log p -> pr_files p0 = pr_files p ->
  map row_trial (rows1 ++ rows2) = trials_of trials tests -> Forall row_ok (rows1 ++ rows2) ->
  wp (for_each (appendTrialRow output) rows1;; for_each (appendTrialRow output) rows2;; printf line)
    (ran tests p) p0.
Proof.
  intros Hc Hl Hf Hrows Hok; apply wp_bind; eapply wp_mono; [apply append_all|].
  intros p1 [[]|c|] (_ & Hc1 & Hr1); cbn [and_then]; unfold ran; rewrite ?Hc1, ?Hc; [|by rewrite <- Hl|done].
  apply wp_bind; eapply wp_mono; [apply append_all|].
  destruct Hr1 as [Hl1 Hf1].
  intros p2 [[]|c|] (_ & Hc2 & Hr2); cbn [and_then]; unfold ran; rewrite ?Hc2, ?Hc1, ?Hc; [| |done].
  - unfold wp; simpl; split; [by rewrite Hc2, Hc1, Hc|]; destruct Hr2 as [Hl2 Hf2].
    exists (rows1 ++ rows2); rewrite Hf in Hf1; split_and!; [congruence|by eapply gained_rows_app|done..].
  - by rewrite <- Hl, <- Hl1.
Qed.

Lemma runStaleness_spec p :
  wp (runStaleness mode origin replica trials output) (ran ["staleness"] p) p.
Proof.
  apply wp_bind; unfold wp, in_world_run; destruct (make_ok 8 trials) eqn:Hmake.
  2: { unfold MeasureStaleness, ran; rewrite Hmake; simpl; by split. }
  destruct (MeasureStaleness_correct origin replica trials (pr_world p)) as (w & r & err & -> & Hr); [done|].
  apply make_ok_spec in Hmake.
  destruct err as [e|]; cbn [and_then]; [apply wp_fatal; split; [done|]; split; [done|]; by eexists|].
  destruct (Hr eq_refl) as (_ & Hsum & Hvis & Hto & _).
  destruct (staleness_rows_ok r) as [? ?]; [lia|].
  by apply append_print.
Qed.

Lemma runCausal_spec p :
  wp (runCausal mode origin replica trials output) (ran ["causal_chain"] p) p.
Proof.
  apply wp_bind; unfold wp, in_world_run.
  destruct (make_ok 1 trials) eqn:Hmake.
  2: { unfold MeasureCausalChains, ran; rewrite Hmake; simpl; split; [done|].
       unfold make_ok, maxAlloc in *; apply not_true_iff_false; rewrite andb_true_iff, !Z.leb_le.
       apply not_true_iff_false in Hmake; rewrite andb_true_iff, !Z.leb_le in Hmake; lia. }
  destruct (MeasureCausalChains_correct origin replica trials (pr_world p)) as (w & r & err & -> & _ & _ & Hr);
    [done|].
  destruct err as [e|]; cbn [and_then]; [apply wp_fatal; split; [done|]; split; [done|]; by eexists|].
  destruct (causal_rows_ok r) as [? ?]; [by apply Hr|].
  apply (append_print ["causal_chain"] [] (causal_rows mode r)); done.
Qed.

End tests.

(** Two tests one after the other. *)
Lemma ran_app {W} `{TimeLaws W} `{Files W} mode trials output t1 t2 (m1 m2 : cmd W unit) p :
  wp m1 (ran mode trials output [t1] p) p ->
  (forall p1, wp m2 (ran mode trials output [t2] p1) p1) ->
  wp (m1;; m2) (ran mode trials output [t1; t2] p) p.
Proof.
  intros Hm1 Hm2; apply wp_bind; eapply wp_mono; [exact Hm1|].
  intros p1 [[]|c|] [Hc1 Hr1]; cbn [and_then]; [|by split..].
  destruct Hr1 as (rows1 & Hl1 & Hf1 & Hrows1 & Hok1).
  eapply wp_mono; [apply Hm2|]; intros p2 o [Hc2 Hr2]; split; [by rewrite Hc2|].
  destruct o as [[]|c|]; [|by rewrite <- Hl1|done].
  destruct Hr2 as (rows2 & Hl2 & Hf2 & Hrows2 & Hok2); exists (rows1 ++ rows2).
  rewrite map_app, Hrows1, Hrows2, Hl2; split_and!; [done|by eapply gained_rows_app| |by apply Forall_app].
  unfold trials_of; simpl; by rewrite !app_nil_r.
Qed.

Lemma Dial_spec {W} (dial : string -> res client) addr (p : process W) :
  wp (Dial dial addr) (fun p' o =>
    match dial addr with
    | Err e => p' = p /\ o = Returned (Err e)
    | Ok c => p' = with_conns (pr_conns p ++ [true]) p /\
              o = Returned (Ok (MkClient addr c (Some (length (pr_conns p)))))
    end) p.
Proof. unfold wp, Dial, mbind, cmd_bind, grpc_NewClient; by destruct (dial addr). Qed.

(** The body of a command with the connection it opened, before the [later] ones,
    closed at its return. *)
Lemma wp_closing {W A} (m : cmd W A) old later (Q : process W -> outcome A -> Prop) p :
  wp m (fun p' o =>
    match o with
    | Exited c => Q p' (Exited c)
    | o => pr_conns p' = old ++ true :: later /\ Q (with_conns (old ++ false :: later) p') o
    end) p ->
  wp (with_defer (conn_Close (length old)) m) Q p.
Proof.
  intros Hm; apply wp_defer; eapply wp_mono; [exact Hm|].
  intros p' [a|c|]; [|done|]; intros [Hc HQ]; by apply (wp_close_conn old later).
Qed.

(** The experiments' command on every branch. *)
Lemma experiments_main_spec {W : Type} `{TimeLaws W} `{Files W} `{Format} dial f (p : process W) :
  wp (experiments_main dial f) (fun p' o =>
    match o with
    | Returned _ => exists rows,
        gained_rows W trialHeader (ef_output f) rows (pr_files p) (pr_files p') /\
        tests_of (ef_test f) <> [] /\ map row_trial rows = trials_of (ef_trials f) (tests_of (ef_test f)) /\
        Forall (row_ok (ef_mode f)) rows /\
        pr_log p' = pr_log p /\ pr_conns p' = pr_conns p ++ [false; false]
    | Exited c => c = 1%Z /\ exists line, pr_log p' = pr_log p ++ [line]
    | Panicked => make_ok 8 (ef_trials f) = false
    end) p.
Proof.
  unfold experiments_main; apply wp_bind; eapply wp_mono; [apply Dial_spec|].
  intros p1 o Ho; destruct (dial (ef_origin f)) as [c1|e]; destruct Ho as [-> ->]; cbn [and_then];
    [|apply wp_fatal; split; [done|by eexists]].
  apply wp_closing with (later := [false]), wp_bind; eapply wp_mono; [apply Dial_spec|].
  intros p2 o Ho; destruct (dial (ef_replica f)) as [c2|e]; destruct Ho as [-> ->]; cbn [and_then];
    [|apply wp_fatal; split; [done|by eexists]].
  apply wp_closing with (later := []); simpl.
  set (p0 := with_conns _ _); set (co := MkClient _ c1 _); set (cr := MkClient _ c2 _).
  enough (Hran : wp (if String.eqb (ef_test f) "staleness" then
             runStaleness (ef_mode f) co cr (ef_trials f) (ef_output f)
           else if String.eqb (ef_test f) "causal" then
             runCausal (ef_mode f) co cr (ef_trials f) (ef_output f)
           else if String.eqb (ef_test f) "all" then
             runStaleness (ef_mode f) co cr (ef_trials f) (ef_output f);;
             runCausal (ef_mode f) co cr (ef_trials f) (ef_output f)
           else log_fatal ("unknown test " +:+ fmt_quote (bytes_of (ef_test f))))
    (fun p' o => ran (ef_mode f) (ef_trials f) (ef_output f) (tests_of (ef_test f)) p0 p' o /\
       (is_returned o = true -> tests_of (ef_test f) <> [])) p0).
  { eapply wp_mono; [exact Hran|]; intros p' [[]|c|] [[Hc Hr] Hne]; simpl in *; [|done|].
    - destruct Hr as (rows & Hl & Hf & Hrows & Hok); split; [done|]; split; [by rewrite <- app_assoc|].
      exists rows; split_and!; try done; by apply Hne.
    - split; [done|]; split; [by rewrite <- app_assoc|done]. }
  unfold tests_of; destruct (String.eqb _ "staleness").
  { eapply wp_mono; [apply runStaleness_spec|done]. }
  destruct (String.eqb _ "causal").
  { eapply wp_mono; [apply runCausal_spec|done]. }
  destruct (String.eqb _ "all").
  { eapply wp_mono; [apply ran_app; [apply runStaleness_spec|intros; apply runCausal_spec]|done]. }
  apply wp_fatal; split; [|done]; split; [done|]; split; [done|by eexists].
Qed.

(** ** Properties *)

(** How the experiments' command ends. *)
Definition experiments_ends {W : Type} `{Files W} `{Format} (f : experiments_flags)
    (p p' : process W) (o : outcome unit) : Prop :=
  match o with
  | Returned _ => exists rows,
      gained_rows W trialHeader (ef_output f) rows (pr_files p) (pr_files p') /\
      (writes_succeed W -> pr_files p' = add_rows trialHeader (ef_output f) rows (pr_files p)) /\
      tests_of (ef_test f) <> [] /\ map row_trial rows = trials_of (ef_trials f) (tests_of (ef_test f)) /\
      Forall (row_ok (ef_mode f)) rows /\
      pr_log p' = pr_log p /\ pr_conns p' = pr_conns p ++ [false; false]
  | Exited c => c = 1%Z /\ exists line, pr_log p' = pr_log p ++ [line]
  | Panicked => make_ok 8 (ef_trials f) = false
  end.

Lemma experiments_main_ends {W : Type} `{TimeLaws W} `{Files W} `{Format} dial f (p : process W) :
  wp (experiments_main dial f) (experiments_ends f p) p.
Proof.
  eapply wp_mono; [by apply experiments_main_spec|]; intros p' [[]|c|]; [|done..].
  intros (rows & Hf & Hr); exists rows; split; [done|]; split; [|done]; intros Ha; by apply gained_rows_succeed.
Qed.

Definition c_dial (addr : string) : res client :=
  if String.eqb addr "n1" then Ok 0 else if String.eqb addr "n2" then Ok 1 else Err "no such host".

Definition c_experiments : experiments_flags :=
  MkExperimentsFlags "all" "n1" "n2" "eventual" 2 "out/x.csv".

Definition c_experiments_end : process fixture * outcome unit :=
  experiments_main c_dial c_experiments (init_process c_stale).

(** C39: a disk that is full goes unnoticed: when no write to a file gets through, the
    experiments' command that returns has logged nothing and added nothing to
    its file: the errors of the CSV writer are dropped.  In the run below it
    prints the summaries of all trials. *)
Theorem full_disk_unnoticed {W : Type} `{TimeLaws W} `{Files W} `{Format} dial f (p : process W) :
  writes_fail W ->
  wp (experiments_main dial f) (fun p' o =>
    is_returned o = true -> pr_log p' = pr_log p /\
      default [] (pr_files p' !! ef_output f) = default [] (pr_files p !! ef_output f) /\
      forall path, path <> ef_output f -> pr_files p' !! path = pr_files p !! path) p.
Proof.
  intros Hno; eapply wp_mono; [apply experiments_main_spec|]; intros p' [[]|c|]; [|done..].
  intros (rows & Hf & _ & _ & _ & Hl & _) _; split; [done|]; by apply gained_rows_fail in Hf.
Qed.

Definition c_full_end : process fixture * outcome unit :=
  experiments_main (H1 := full_disk) c_dial c_experiments (init_process c_stale).

Lemma full_disk_unnoticed_witness :
  is_returned (snd c_full_end) = true /\ pr_stdout (fst c_full_end) = pr_stdout (fst c_experiments_end) /\
  pr_files (fst c_full_end) !! "out/x.csv" = Some [] /\ pr_log (fst c_full_end) = [].
Proof.
  do 3 (split; [vm_compute; reflexivity|]).
  refine (proj1 (wp_run _ _ _ (full_disk_unnoticed (H2 := full_disk) c_dial c_experiments (init_process c_stale) _) _)).
  - intros path data w; by eexists.
  - vm_compute; reflexivity.
Defined.

(** C38: round trip of the trial rows: whatever their fields hold (commas, quotes, line
    breaks), when no write fails and the output file could be read as CSV or was
    absent, then after the rows are appended, one call each, it reads as what it
    had, or the header, followed by these rows. *)
Theorem trial_rows_read_back {W : Type} `{Files W} path rows old (p : process W) :
  writes_succeed W -> rows <> [] -> Forall (fun r => r <> []) rows ->
  match pr_files p !! path with Some text => csv_read text | None => Some [map bytes_of trialHeader] end = Some old ->
  wp (for_each (appendTrialRow path) rows) (fun p' o =>
    is_returned o = true ->
    csv_read (default [] (pr_files p' !! path)) = Some (old ++ map (map bytes_of) rows)) p.
Proof.
  intros Hok Hne Hrows Hold; eapply wp_mono; [apply append_all|]; intros p' [[]|c|]; [|done..].
  intros (_ & _ & _ & Hf) _; apply gained_rows_succeed in Hf as ->; [|done]; by apply add_rows_read.
Qed.

(** A row with a comma and a line break, and one with quotes. *)
Definition c_odd_rows : list (list string) :=
  [["a,b"; "x" +:+ newline]; [String (Ascii.ascii_of_nat 34) "q"; " lead"]].

Lemma trial_rows_read_back_witness :
  option_map length (pr_files (fst (for_each (appendTrialRow "t.csv") c_odd_rows (init_process c_stale))) !! "t.csv")
    = Some 64 /\
  csv_read (default [] (pr_files (fst (for_each (appendTrialRow "t.csv") c_odd_rows (init_process c_stale))) !! "t.csv"))
    = Some (map (map bytes_of) (trialHeader :: c_odd_rows)).
Proof.
  split; [vm_compute; reflexivity|].
  refine (wp_run _ _ _ (trial_rows_read_back "t.csv" c_odd_rows [map bytes_of trialHeader] (init_process c_stale) _ _ _ _) _);
    [done|done|by repeat constructor|reflexivity|vm_compute; reflexivity].
Defined.

(** The trial column of the staleness rows is the index of the sample, not of the
    trial: here the first trial times out and the second is visible, and the row
    of trial 0 carries the sample while trial 1 is the timeout. *)
Definition c_first_stale : fixture :=
  MkFixture
    (fun c key now => if String.eqb key (staleness_key 1)
                      then Ok (MkGetResponse (staleness_val 1 5005000000) None true)
                      else Ok (MkGetResponse [] None false))
    (fun _ _ _ => Ok (MkPutResponse None)) 0 [] [].
Remark staleness_rows_mislabelled :
  option_map (fun r => (SR_Visible (fst r), SR_Timeouts (fst r),
      map (fun row => (row !! 2, row !! 4)) (visible_rows "eventual" (fst r) ++ timeout_rows "eventual" 2 (fst r))))
    (snd (MeasureStaleness c_origin c_replica 2 c_first_stale)) =
  Some (1%Z, 1%Z, [(Some "0", Some ""); (Some "1", Some "timeout")]).
Proof. vm_compute. reflexivity. Qed.

(** The addresses of the checker, dialled one by one. *)
Lemma dialNodes_spec {W} (dial : string -> res client) l (p : process W) :
  wp (dialNodes dial l) (fun p' o =>
    match o with
    | Returned (ncs, conns) => map NC_Address ncs = l /\ conns = seq (length (pr_conns p)) (length l) /\
        p' = with_conns (pr_conns p ++ replicate (length l) true) p
    | Exited c => c = 1%Z /\ pr_stdout p' = pr_stdout p /\ exists line, pr_log p' = pr_log p ++ [line]
    | Panicked => False
    end) p.
Proof.
  revert p; induction l as [|a l IH]; intros p; simpl.
  { apply wp_ret; split_and!; try done; rewrite app_nil_r; by destruct p. }
  apply wp_bind; unfold wp, grpc_NewClient; destruct (dial a) as [c|e]; cbn [and_then];
    [|split_and!; try done; by eexists].
  apply wp_bind; eapply wp_mono; [apply IH|]; simpl.
  intros p' [[ncs conns]|code|]; cbn [and_then]; [|done..].
  intros (<- & -> & ->); apply wp_ret; simpl; rewrite length_map, length_app, Nat.add_1_r.
  split_and!; try done; unfold with_conns; simpl; by rewrite <- app_assoc.
Qed.

(** How the checker's command ends, with its flags, started in [p]. *)
Definition checker_ends {W : Type} `{KVService W} `{Time W} `{Format} (f : checker_flags)
    (p p' : process W) (o : outcome Report) : Prop :=
  let l := parseList (cf_nodes f) in
  match o with
  | Returned rep => exists ncs keys w0 w1, map NC_Address ncs = l /\
      checker_keys (cf_keyPrefix f) (cf_keyCount f) = Some keys /\
      CheckKeys (checker_New ncs) keys w0 = (w1, rep) /\ Report_Consistent rep = true /\
      pr_stdout p' = pr_stdout p ++ [Report_String rep] /\ pr_log p' = pr_log p /\
      pr_conns p' = pr_conns p ++ replicate (length l) false
  | Exited c => c = 1%Z /\ exists line, pr_log p' = pr_log p ++ [line]
  | Panicked => make_ok 16 (cf_keyCount f) = false
  end.

Lemma checker_main_ends {W : Type} `{TimeLaws W} `{Format} dial f (p : process W) :
  wp (checker_main dial f) (checker_ends f p) p.
Proof.
  unfold checker_ends; simpl; unfold checker_main; destruct (Nat.eqb _ 0); [apply wp_fatal; split; [done|by eexists]|].
  apply wp_bind; eapply wp_mono; [apply dialNodes_spec|].
  intros p1 [[ncs conns]|c|]; cbn [and_then]; [|by intros (-> & _ & ?)|done].
  intros (Hncs & -> & ->); apply wp_defer, wp_bind; unfold wp at 1, in_world_run at 1.
  unfold checker_keys; destruct (make_ok 16 (cf_keyCount f)) eqn:Hmake; cbn [and_then].
  2: { unfold wp; by rewrite (close_run (pr_conns p) (length (parseList (cf_nodes f)))) by done. }
  set (keys := make _ _); apply wp_bind; unfold wp at 1, in_world_run at 1; simpl.
  destruct (wait_ends (checker_New ncs) keys (cf_settle f) (pr_world p))
    as (w0 & w1 & w' & rep & err & -> & Hck & Herr); cbn [and_then].
  apply wp_bind; unfold wp at 1, printf at 1; cbn [and_then].
  destruct err as [e|]; [apply wp_fatal; split; [done|by eexists]|].
  pose proof (proj1 Herr eq_refl) as Hc; rewrite Hc; apply wp_ret.
  unfold wp; rewrite (close_run (pr_conns p) (length (parseList (cf_nodes f)))) by done.
  exists ncs, keys, w0, w1; by split_and!.
Qed.

Definition c_checker_flags : checker_flags := MkCheckerFlags "n1, n2" "user" 3 3000000000 30000000000.

Lemma NewDriver_workload {W} `{Time W} client wl mode seed (w : W) :
  D_Workload (snd (NewDriver client wl mode seed w)) = wl.
Proof. unfold NewDriver; destruct (seed =? 0)%Z; [by destruct (time_Now w)|done]. Qed.

(** The load phase goes on with the files and connections as they were, or ends
    the process. *)
Lemma load_phase_spec {W} `{KVService W} `{Time W} `{Random W} f wl drv (p : process W) :
  wp (load_phase f wl drv) (fun p' o =>
    pr_files p' = pr_files p /\ pr_conns p' = pr_conns p /\ pr_stdout p' = pr_stdout p /\
    pr_log p `prefix_of` pr_log p' /\
    match o with
    | Returned _ => True
    | Exited c => c = 1%Z /\ pr_log p' <> pr_log p
    | Panicked => make_ok 1 (W_FieldLength (D_Workload drv)) = false
    end) p.
Proof.
  unfold load_phase; destruct (negb _); [|apply wp_ret; by split_and!].
  unfold wp, mbind, cmd_bind, in_world_run, Load, load_value; simpl.
  destruct (make_ok _ _); [|split_and!; simpl; try done; by eexists].
  destruct (load_loop drv _ _ _) as [w [e|]]; simpl; split_and!; try done; rewrite <- ?app_assoc; try by eexists.
  intros Heq; apply (f_equal length) in Heq; rewrite length_app in Heq; simpl in Heq; lia.
Qed.

(** How the benchmark's command ends. *)
Definition bench_ends {W : Type} `{Files W} `{Format} (readFile : string -> res (list byte))
    (unmarshal : list byte -> res Workload) (f : bench_flags) (p p' : process W) (o : outcome Result) : Prop :=
  match o with
  | Returned res =>
      pr_files p' = add_row SummaryHeader (bf_output f) (pr_files p) (Row res) /\
      length (Row res) = length SummaryHeader /\
      Res_Operations res = W_OperationCount (fst (LoadWorkload (readFile (bf_workload f)) unmarshal)) /\
      (Res_Reads res + Res_Writes res = Res_Operations res)%Z /\
      pr_stdout p' = pr_stdout p ++ bench_lines (bf_output f) res /\
      pr_conns p' = pr_conns p ++ [false]
  | Exited c => c = 1%Z /\ pr_log p' <> pr_log p /\
      (pr_files p' = pr_files p \/ exists res,
         gained W (bf_output f) (record_text SummaryHeader (bf_output f) (pr_files p) (Row res))
           (pr_files p) (pr_files p'))
  | Panicked => run_makes (fst (LoadWorkload (readFile (bf_workload f)) unmarshal)) = false
  end.

Lemma bench_main_ends {W : Type} `{TimeLaws W} `{Random W} `{Files W} `{Format} `{Math}
    readFile unmarshal dial f (p : process W) :
  wp (bench_main readFile unmarshal dial f) (bench_ends readFile unmarshal f p) p.
Proof.
  unfold bench_ends, bench_main.
  pose proof (LoadWorkload_correct (readFile (bf_workload f)) unmarshal) as Hload.
  assert (Hlong : forall (l l' : list string) (x : string), l `prefix_of` l' -> l' ++ [x] <> l).
  { intros l l' x [k ->] Heq; apply (f_equal length) in Heq; rewrite !length_app in Heq; simpl in Heq; lia. }
  destruct (LoadWorkload _ unmarshal) as [wl [e|]].
  { apply wp_fatal; split_and!; [done| |by left]; by apply Hlong. }
  destruct (proj1 (proj1 Hload) eq_refl) as [_ Hok]; apply wp_bind.
  unfold wp at 1, grpc_NewClient; destruct (dial (bf_target f)) as [c|e]; cbn [and_then].
  2: { apply wp_fatal; split_and!; [done| |by left]; by apply Hlong. }
  apply wp_closing with (later := []), wp_bind; unfold wp at 1, in_world.
  pose proof (NewDriver_workload c wl (bf_mode f) (bf_seed f) (pr_world p)) as Hwl; simpl.
  destruct (NewDriver _ _ _ _ _) as [w1 drv]; cbn [and_then fst snd] in *.
  apply wp_bind; eapply wp_mono; [apply load_phase_spec|]; simpl.
  intros p2 o2 (Hf2 & Hc2 & Ho2 & Hl2 & Hr2); destruct o2 as [[]|code|]; cbn [and_then]; [|split_and!;
    [apply Hr2|apply Hr2|by left]|].
  2: { split; [by rewrite Hc2|]; unfold run_makes; simpl; rewrite <- Hwl, Hr2; by rewrite andb_false_r. }
  apply wp_bind; unfold wp at 1, log_printf at 1; cbn [and_then].
  apply wp_bind; unfold wp at 1, in_world_run; simpl.
  pose proof (run_ends drv (pr_world p2)) as Hrun; rewrite Hwl in Hrun; specialize (Hrun (wo_operations _ Hok)).
  destruct (Run drv (pr_world p2)) as [w3 [res|]]; cbn [snd] in Hrun;
    [destruct Hrun as (Hn & _ & _ & Hsum & _)|cbn [and_then]; by rewrite Hc2].
  cbn [and_then]; apply wp_bind; eapply wp_mono; [apply WriteSummaryCSV_spec|]; simpl.
  intros p4 [[e|]|code|] [[Ho4 Hl4 Hc4] Hf4]; simpl in *; cbn [and_then]; [| |done..].
  - apply wp_fatal; simpl; rewrite Hl4; split_and!; [done| |].
    + apply Hlong; destruct Hl2 as [k ->]; rewrite <- app_assoc; by eexists.
    + rewrite Hf2 in Hf4; destruct Hf4 as [Hf4|Hf4]; [by left|right; by eexists].
  - apply wp_bind; unfold wp at 1; rewrite printf_run; apply wp_ret; simpl.
    rewrite Hf4, Hf2, Ho4, Ho2, Hc4, Hc2; by split_and!.
Qed.

Definition c_unmarshal (d : list byte) : res Workload :=
  if Nat.eqb (length d) 0 then Err "EOF" else Ok c_workload.

Definition c_bench_flags : bench_flags := MkBenchFlags "n1" "a.yaml" "causal" "out/s.csv" 1 0 true 0.

