(* ===== verification/Commands.v ===== *)
(** * The commands from their command lines ([src/cmd/*/main.go])

    The flags each [main] declares, and the commands run on the arguments they
    are given: [flag.Parse], then the [main] functions of [NodeCmd.v] and [Cmd.v]. *)

From S2P Require Import Prelude Hlc Store Buffer Wire Replication Server Cluster.
From S2P Require Import Float Env Process Csv Workload Driver Experiments Checker Flags NodeCmd Cmd Args.

(** ** Definitions: the flag sets *)

Definition node_flag_set : list (flag node_flags) :=
  [flag_String "mode" (fun v f => MkNodeFlags v (nf_port f) (nf_peers f) (nf_delayPrefix f) (nf_delay f)
     (nf_peerDelay f) (nf_pprofAddr f));
   flag_Int "port" (fun v f => MkNodeFlags (nf_mode f) v (nf_peers f) (nf_delayPrefix f) (nf_delay f)
     (nf_peerDelay f) (nf_pprofAddr f));
   flag_String "peers" (fun v f => MkNodeFlags (nf_mode f) (nf_port f) v (nf_delayPrefix f) (nf_delay f)
     (nf_peerDelay f) (nf_pprofAddr f));
   flag_String "replicate-delay-prefix" (fun v f => MkNodeFlags (nf_mode f) (nf_port f) (nf_peers f) v
     (nf_delay f) (nf_peerDelay f) (nf_pprofAddr f));
   flag_Duration "replicate-delay" (fun v f => MkNodeFlags (nf_mode f) (nf_port f) (nf_peers f)
     (nf_delayPrefix f) v (nf_peerDelay f) (nf_pprofAddr f));
   flag_Duration "peer-delay" (fun v f => MkNodeFlags (nf_mode f) (nf_port f) (nf_peers f)
     (nf_delayPrefix f) (nf_delay f) v (nf_pprofAddr f));
   flag_String "pprof" (fun v f => MkNodeFlags (nf_mode f) (nf_port f) (nf_peers f) (nf_delayPrefix f)
     (nf_delay f) (nf_peerDelay f) v)].

Definition checker_flag_set : list (flag checker_flags) :=
  [flag_String "nodes" (fun v f => MkCheckerFlags v (cf_keyPrefix f) (cf_keyCount f) (cf_settle f) (cf_timeout f));
   flag_String "key-prefix" (fun v f => MkCheckerFlags (cf_nodes f) v (cf_keyCount f) (cf_settle f) (cf_timeout f));
   flag_Int "key-count" (fun v f => MkCheckerFlags (cf_nodes f) (cf_keyPrefix f) v (cf_settle f) (cf_timeout f));
   flag_Duration "settle" (fun v f => MkCheckerFlags (cf_nodes f) (cf_keyPrefix f) (cf_keyCount f) v (cf_timeout f));
   flag_Duration "timeout" (fun v f => MkCheckerFlags (cf_nodes f) (cf_keyPrefix f) (cf_keyCount f) (cf_settle f) v)].

Definition experiments_flag_set : list (flag experiments_flags) :=
  [flag_String "test" (fun v f => MkExperimentsFlags v (ef_origin f) (ef_replica f) (ef_mode f) (ef_trials f) (ef_output f));
   flag_String "origin" (fun v f => MkExperimentsFlags (ef_test f) v (ef_replica f) (ef_mode f) (ef_trials f) (ef_output f));
   flag_String "replica" (fun v f => MkExperimentsFlags (ef_test f) (ef_origin f) v (ef_mode f) (ef_trials f) (ef_output f));
   flag_String "mode" (fun v f => MkExperimentsFlags (ef_test f) (ef_origin f) (ef_replica f) v (ef_trials f) (ef_output f));
   flag_Int "trials" (fun v f => MkExperimentsFlags (ef_test f) (ef_origin f) (ef_replica f) (ef_mode f) v (ef_output f));
   flag_String "output" (fun v f => MkExperimentsFlags (ef_test f) (ef_origin f) (ef_replica f) (ef_mode f) (ef_trials f) v)].

Definition bench_flag_set : list (flag bench_flags) :=
  [flag_String "target" (fun v f => MkBenchFlags v (bf_workload f) (bf_mode f) (bf_output f) (bf_seed f)
     (bf_peerDelayMs f) (bf_skipLoad f) (bf_timeout f));
   flag_String "workload" (fun v f => MkBenchFlags (bf_target f) v (bf_mode f) (bf_output f) (bf_seed f)
     (bf_peerDelayMs f) (bf_skipLoad f) (bf_timeout f));
   flag_String "mode" (fun v f => MkBenchFlags (bf_target f) (bf_workload f) v (bf_output f) (bf_seed f)
     (bf_peerDelayMs f) (bf_skipLoad f) (bf_timeout f));
   flag_String "output" (fun v f => MkBenchFlags (bf_target f) (bf_workload f) (bf_mode f) v (bf_seed f)
     (bf_peerDelayMs f) (bf_skipLoad f) (bf_timeout f));
   flag_Int "seed" (fun v f => MkBenchFlags (bf_target f) (bf_workload f) (bf_mode f) (bf_output f) v
     (bf_peerDelayMs f) (bf_skipLoad f) (bf_timeout f));
   flag_Int "peer-delay-ms" (fun v f => MkBenchFlags (bf_target f) (bf_workload f) (bf_mode f) (bf_output f)
     (bf_seed f) v (bf_skipLoad f) (bf_timeout f));
   flag_Bool "skip-load" (fun v f => MkBenchFlags (bf_target f) (bf_workload f) (bf_mode f) (bf_output f)
     (bf_seed f) (bf_peerDelayMs f) v (bf_timeout f));
   flag_Duration "timeout" (fun v f => MkBenchFlags (bf_target f) (bf_workload f) (bf_mode f) (bf_output f)
     (bf_seed f) (bf_peerDelayMs f) (bf_skipLoad f) v)].

(** ** Definitions: the commands *)

Section commands.
Context {W : Type} `{KVService W} `{Time W} `{Random W} `{Files W} `{Host W} `{Format} `{Math}.
Context (dial : string -> res client) (usage : list string).

Definition node_command (args : list string) : cmd W (Node AnyHandler) :=
  f ← flag_Parse node_flag_set usage args node_defaults; node_main dial f.

Definition checker_command (args : list string) : cmd W Report :=
  f ← flag_Parse checker_flag_set usage args checker_defaults; checker_main dial f.

Definition experiments_command (args : list string) : cmd W unit :=
  f ← flag_Parse experiments_flag_set usage args experiments_defaults; experiments_main dial f.

Definition bench_command (readFile : string -> res (list byte)) (unmarshal : list byte -> res Workload)
    (args : list string) : cmd W Result :=
  f ← flag_Parse bench_flag_set usage args bench_defaults; bench_main readFile unmarshal dial f.

End commands.

(** ** Command lines that say everything *)

Definition node_args (f : node_flags) : list string :=
  [flag_arg "mode" (nf_mode f); flag_arg "port" (fmt_d (nf_port f)); flag_arg "peers" (nf_peers f);
   flag_arg "replicate-delay-prefix" (nf_delayPrefix f); flag_arg "replicate-delay" (fmt_ns (nf_delay f));
   flag_arg "peer-delay" (fmt_ns (nf_peerDelay f)); flag_arg "pprof" (nf_pprofAddr f)].

Definition checker_args (f : checker_flags) : list string :=
  [flag_arg "nodes" (cf_nodes f); flag_arg "key-prefix" (cf_keyPrefix f);
   flag_arg "key-count" (fmt_d (cf_keyCount f)); flag_arg "settle" (fmt_ns (cf_settle f));
   flag_arg "timeout" (fmt_ns (cf_timeout f))].

Definition experiments_args (f : experiments_flags) : list string :=
  [flag_arg "test" (ef_test f); flag_arg "origin" (ef_origin f); flag_arg "replica" (ef_replica f);
   flag_arg "mode" (ef_mode f); flag_arg "trials" (fmt_d (ef_trials f)); flag_arg "output" (ef_output f)].

Definition bench_args (f : bench_flags) : list string :=
  [flag_arg "target" (bf_target f); flag_arg "workload" (bf_workload f); flag_arg "mode" (bf_mode f);
   flag_arg "output" (bf_output f); flag_arg "seed" (fmt_d (bf_seed f));
   flag_arg "peer-delay-ms" (fmt_d (bf_peerDelayMs f));
   flag_arg "skip-load" (if bf_skipLoad f then "true" else "false"); flag_arg "timeout" (fmt_ns (bf_timeout f))].

Definition node_flags_typed (f : node_flags) : Prop :=
  in_int64 (nf_port f) /\ in_int64 (nf_delay f) /\ in_int64 (nf_peerDelay f).
Definition checker_flags_typed (f : checker_flags) : Prop :=
  in_int64 (cf_keyCount f) /\ in_int64 (cf_settle f) /\ in_int64 (cf_timeout f).
Definition bench_flags_typed (f : bench_flags) : Prop :=
  in_int64 (bf_seed f) /\ in_int64 (bf_peerDelayMs f) /\ in_int64 (bf_timeout f).

(** Reads the next argument, which is made by [flag_arg]. *)
Ltac read_flag :=
  erewrite flag_loop_arg;
  [|vm_compute; reflexivity|reflexivity
   |first [by apply Set_Int|by apply Set_Duration|apply Set_Bool|reflexivity]];
  cbn [nf_mode nf_port nf_peers nf_delayPrefix nf_delay nf_peerDelay nf_pprofAddr
       cf_nodes cf_keyPrefix cf_keyCount cf_settle cf_timeout
       ef_test ef_origin ef_replica ef_mode ef_trials ef_output
       bf_target bf_workload bf_mode bf_output bf_seed bf_peerDelayMs bf_skipLoad bf_timeout].

Lemma node_args_read `{Format} f f0 :
  node_flags_typed f -> flag_loop node_flag_set (node_args f) f0 = Parsed f [].
Proof. intros (? & ? & ?); unfold node_args; repeat read_flag; by destruct f. Qed.

Lemma checker_args_read `{Format} f f0 :
  checker_flags_typed f -> flag_loop checker_flag_set (checker_args f) f0 = Parsed f [].
Proof. intros (? & ? & ?); unfold checker_args; repeat read_flag; by destruct f. Qed.

Lemma experiments_args_read `{Format} f f0 :
  in_int64 (ef_trials f) -> flag_loop experiments_flag_set (experiments_args f) f0 = Parsed f [].
Proof. intros ?; unfold experiments_args; repeat read_flag; by destruct f. Qed.

Lemma bench_args_read `{Format} f f0 :
  bench_flags_typed f -> flag_loop bench_flag_set (bench_args f) f0 = Parsed f [].
Proof. intros (? & ? & ?); unfold bench_args; repeat read_flag; by destruct f. Qed.

(** ** Commands *)

(** How a command ends: as its [main] does on the flags read, or, when they are
    not taken, with the usage text and status 0 or 2 before it has done anything. *)
Definition command_ends {W F A : Type} (r : parsed F) (usage : list string)
    (ends : F -> process W -> process W -> outcome A -> Prop) (p p' : process W) (o : outcome A) : Prop :=
  match r with
  | Parsed f _ => ends f p p' o
  | ParseHelp => o = Exited 0 /\
      p' = MkProcess (pr_world p) (pr_stdout p) (pr_log p ++ usage) (pr_files p) (pr_conns p)
  | ParseFailed msg => o = Exited 2 /\
      p' = MkProcess (pr_world p) (pr_stdout p) (pr_log p ++ msg :: usage) (pr_files p) (pr_conns p)
  end.

Lemma wp_command {W F A} `{Format} (fs : list (flag F)) usage args f0 (main : F -> cmd W A) ends (p : process W) :
  (forall f rest, flag_loop fs args f0 = Parsed f rest -> wp (main f) (ends f p) p) ->
  wp (f ← flag_Parse fs usage args f0; main f) (command_ends (flag_loop fs args f0) usage ends p) p.
Proof.
  intros Hmain; apply wp_bind; eapply wp_mono; [apply flag_Parse_spec|].
  intros p' o; unfold command_ends; destruct (flag_loop fs args f0) as [f rest| |msg] eqn:Hl; intros [H1 H2].
  - subst; by eapply Hmain.
  - subst o p'; by split.
  - subst o p'; by split.
Qed.

(** ** Properties *)

(** C28: command lines round-trip: for every command, the arguments that spell out
    all of its flags, integers in decimal and durations in nanoseconds, are read
    back as exactly these flags with no argument left, for all values of the
    flags' types, extreme ones included. *)
Theorem command_lines_read_back `{Format} nf cf ef bf :
  node_flags_typed nf -> checker_flags_typed cf -> in_int64 (ef_trials ef) -> bench_flags_typed bf ->
  flag_loop node_flag_set (node_args nf) node_defaults = Parsed nf [] /\
  flag_loop checker_flag_set (checker_args cf) checker_defaults = Parsed cf [] /\
  flag_loop experiments_flag_set (experiments_args ef) experiments_defaults = Parsed ef [] /\
  flag_loop bench_flag_set (bench_args bf) bench_defaults = Parsed bf [].
Proof.
  intros Hn Hc He Hb; split_and!; [by apply node_args_read|by apply checker_args_read|
    by apply experiments_args_read|by apply bench_args_read].
Qed.

Definition c_extreme_node : node_flags :=
  MkNodeFlags "causal" (-9223372036854775808) "a:1,b:2" "-x=" 9223372036854775807 (-1) "".
Definition c_extreme_bench : bench_flags :=
  MkBenchFlags "n1" "w=1" "" "o.csv" (-9223372036854775808) 9223372036854775807 true (-9223372036854775808).

Lemma command_lines_read_back_witness :
  node_args c_extreme_node !! 4 = Some "-replicate-delay=9223372036854775807ns" /\
  flag_loop node_flag_set (node_args c_extreme_node) node_defaults = Parsed c_extreme_node [] /\
  flag_loop bench_flag_set (bench_args c_extreme_bench) bench_defaults = Parsed c_extreme_bench [].
Proof.
  split; [vm_compute; reflexivity|].
  destruct (command_lines_read_back c_extreme_node checker_defaults experiments_defaults c_extreme_bench)
    as (Hn & _ & _ & Hb); [unfold node_flags_typed, checker_flags_typed, bench_flags_typed, in_int64; simpl; lia..|].
  split; [exact Hn|exact Hb].
Defined.





(** A command line is refused before anything is dialled. *)
Example checker_command_refuses :
  map (fun args => let '(p, o) := checker_command c_dial ["Usage"] args (init_process c_world) in
                   (match o with Exited c => c | _ => (-1)%Z end, pr_log p, pr_conns p))
    [["-h"]; ["-count=3"]; ["-key-count"; "9223372036854775808"]; ["-settle=5"]; ["-nodes"]; ["-=3"]] =
  [(0%Z, ["Usage"], []); (2%Z, ["flag provided but not defined: -count"; "Usage"], []);
   (2%Z, ["invalid value 19 for flag -key-count: value out of range"; "Usage"], []);
   (2%Z, ["invalid value 1 for flag -settle: parse error"; "Usage"], []);
   (2%Z, ["flag needs an argument: -nodes"; "Usage"], []); (2%Z, ["bad flag syntax: -=3"; "Usage"], [])].
Proof. vm_compute. reflexivity. Qed.

(** C34: the experiments' command: given that time does not run backwards it always
    ends; when it returns, it has appended to the output file, after a header if
    it is new, exactly one row of the header's length per trial of each test
    asked for, in order, with the mode label, all of them there if no write to a
    file fails (else each with what a failing write left of it), no other file
    has changed, and both connections are closed; otherwise it ends with status
    1 and a log line, with status 0 or 2 on a command line that does not parse,
    or with the panic of a number of trials that is negative or whose slice is too
    large to be made. *)
Theorem experiments_command_rows {W : Type} `{TimeLaws W} `{Files W} `{Format} dial usage args (p : process W) :
  wp (experiments_command dial usage args)
    (command_ends (flag_loop experiments_flag_set args experiments_defaults) usage experiments_ends p) p.
Proof. apply wp_command; intros f rest _; apply experiments_main_ends. Qed.

Definition c_experiments_args : list string := ["-origin=n1"; "-replica"; "n2"; "-trials"; "2"; "-output=out/x.csv"].
Definition c_experiments_command_end : process fixture * outcome unit :=
  experiments_command c_dial ["Usage"] c_experiments_args (init_process c_stale).

Lemma experiments_command_rows_witness :
  option_map (map (fun row => (row !! 1, row !! 2)))
    (text ← pr_files (fst c_experiments_command_end) !! "out/x.csv"; csv_read text) =
    Some (map (fun c => (Some (bytes_of c.1), Some (bytes_of c.2)))
      [("test", "trial"); ("staleness", "0"); ("staleness", "1"); ("causal_chain", "0"); ("causal_chain", "1")]) /\
  wp (experiments_command c_dial ["Usage"] c_experiments_args) (fun p' o =>
    match o with Panicked => False | _ => True end) (init_process c_stale).
Proof.
  assert (Hf : flag_loop experiments_flag_set c_experiments_args experiments_defaults = Parsed c_experiments [])
    by (vm_compute; reflexivity).
  split; [vm_compute; reflexivity|].
  eapply wp_mono;
    [apply (experiments_command_rows c_dial ["Usage"] c_experiments_args (init_process c_stale))|].
  intros p' [[]|c|]; [intros _; exact I|intros _; exact I|].
  rewrite Hf; discriminate.
Defined.

(** C35: the benchmark's command: when it returns, exactly one row, that of its
    result, has been appended to the output file, after a header if the file is
    new, the result counts every operation, and its connection is closed;
    otherwise it ends with status 1 and a log line, all files as they were but for
    what a failing write left of the row, with status 0 or 2 on a command line
    that does not parse, or with the panic of a workload whose operations or whose
    field are too many for a slice; it panics in no other way. *)
Theorem bench_command_appends {W : Type} `{TimeLaws W} `{Random W} `{Files W} `{Format} `{Math}
    readFile unmarshal dial usage args (p : process W) :
  wp (bench_command dial usage readFile unmarshal args)
    (command_ends (flag_loop bench_flag_set args bench_defaults) usage (bench_ends readFile unmarshal) p) p.
Proof. apply wp_command; intros f rest _; apply bench_main_ends. Qed.

Definition c_bench_args : list string :=
  ["-target=n1"; "-workload"; "a.yaml"; "--mode=causal"; "-output=out/s.csv"; "-seed=1"; "-skip-load"].

Lemma bench_command_appends_witness :
  option_map length (text ← pr_files (fst (bench_command c_dial ["Usage"] (fun _ => Ok [x61]) c_unmarshal c_bench_args
    (init_process c_bench))) !! "out/s.csv"; csv_read text) = Some 2 /\
  wp (bench_command c_dial ["Usage"] (fun _ => Ok [x61]) c_unmarshal c_bench_args) (fun p' o =>
    match o with Panicked => False | _ => True end) (init_process c_bench).
Proof.
  assert (Hf : flag_loop bench_flag_set c_bench_args bench_defaults =
    Parsed (MkBenchFlags "n1" "a.yaml" "causal" "out/s.csv" 1 0 true 300000000000) []) by (vm_compute; reflexivity).
  split; [vm_compute; reflexivity|].
  eapply wp_mono; [apply (bench_command_appends (fun _ => Ok [x61]) c_unmarshal c_dial ["Usage"] c_bench_args)|].
  intros p' [res|c|]; [intros _; exact I|intros _; exact I|].
  rewrite Hf; discriminate.
Defined.

(** Command lines of the README. *)
Example readme_command_lines :
  flag_loop node_flag_set
    ["--mode=strong"; "--port=50051"; "--peers=localhost:50052,localhost:50053"; "--peer-delay=20ms"]
    node_defaults =
  Parsed (MkNodeFlags "strong" 50051 "localhost:50052,localhost:50053" "" 0 20000000 "") [] /\
  flag_loop bench_flag_set
    ["--target=localhost:50051"; "--workload=bench/workloads/workload_a.yaml"; "--mode=causal";
     "--output=bench/results/causal.csv"; "--seed=42"; "--timeout=5m"] bench_defaults =
  Parsed (MkBenchFlags "localhost:50051" "bench/workloads/workload_a.yaml" "causal" "bench/results/causal.csv"
    42 0 false 300000000000) [].
Proof. split; vm_compute; reflexivity. Qed.

(** ** Clusters from command lines *)

(** The addresses of all nodes but [i], as [--peers] has them. *)
Definition peer_addrs (addrs : list string) (i : nat) : list string :=
  omap (fun j => addrs !! j) (other_peers (length addrs) i).

(** The command line of node [i]. *)
Definition cluster_args (mode : string) (opts : Options) (addrs : list string) (port : Z) (i : nat) : list string :=
  node_args (MkNodeFlags mode port (join (String comma "") (peer_addrs addrs i)) (Options_DelayPrefix opts)
    (Options_Delay opts) (Options_PeerDelay opts) "").

Lemma dialled_peers dial addrs i :
  (forall j a, addrs !! j = Some a -> dial a = Ok j) ->
  dialled dial (peer_addrs addrs i) = other_peers (length addrs) i.
Proof.
  intros Hdial; unfold peer_addrs, dialled.
  assert (Hin : forall j, j ∈ other_peers (length addrs) i -> j < length addrs)
    by (intros j Hj; by apply other_peers_spec in Hj as [? _]).
  induction (other_peers (length addrs) i) as [|j l IH]; [done|]; simpl.
  destruct (lookup_lt_is_Some_2 addrs j) as [a Ha]; [apply Hin; left|].
  rewrite Ha; simpl; rewrite (Hdial _ _ Ha); f_equal; apply IH; intros k Hk; apply Hin; by right.
Qed.

(** C27: the nodes of a cluster: when each of the addresses is dialled as its node and
    every node is started with the command line that names the others in
    [--peers] and the same mode and delays, the nodes the commands serve are
    together the initial cluster of the protocol's theorems, with the readings
    of the clocks at their starts. *)
Theorem node_commands_make_cluster {W} `{Time W} `{Host W} `{Format} dial usage mode opts addrs ports
    (ps : list (process W)) ns :
  Forall (fun a => addr_ok a = true) addrs -> (forall j a, addrs !! j = Some a -> dial a = Ok j) ->
  in_int64 (Options_Delay opts) -> in_int64 (Options_PeerDelay opts) -> (forall i, (i < length addrs)%nat -> in_int64 (ports i)) ->
  length ps = length addrs -> length ns = length addrs ->
  (forall i p n, ps !! i = Some p -> ns !! i = Some n -> exists p',
     node_command dial usage (cluster_args mode opts addrs (ports i) i) p = (p', Returned n)) ->
  init_cluster mode opts (map (fun p => snd (time_Now (pr_world p))) ps) = Some (MkCluster ns []).
Proof.
  intros Haddrs Hdial Hd Hpd Hports Hps Hns Hrun; unfold init_cluster; rewrite length_map, Hps.
  rewrite (proj2 (mapM_Some _ _ ns)); [done|].
  apply Forall2_same_length_lookup; split; [by rewrite length_imap, length_map, Hps|].
  intros i [j now] n Hj Hn; rewrite list_lookup_imap, list_lookup_fmap, fmap_Some in Hj.
  destruct Hj as (now' & Hnow & [= -> ->]); apply fmap_Some in Hnow as (p & Hp & ->).
  destruct (Hrun i p n Hp Hn) as (p' & Hmain); unfold node_command, cluster_args in Hmain.
  pose proof (flag_Parse_spec node_flag_set usage (cluster_args mode opts addrs (ports i) i) node_defaults p) as Hparse.
  unfold wp, cluster_args in Hparse; rewrite node_args_read in Hparse by (split_and!; [apply Hports; by apply lookup_lt_Some in Hn; lia|done|done]).
  unfold mbind, cmd_bind in Hmain; destruct (flag_Parse _ _ _ _ p) as [p1 o]; destruct Hparse as [-> ->].
  apply node_main_returns in Hmain; simpl in Hmain |- *.
  assert (Hok : Forall (fun a => addr_ok a = true) (peer_addrs addrs i))
    by (apply Forall_forall; intros a (k & _ & Hk)%list_elem_of_omap; by eapply Forall_lookup_1 in Haddrs).
  rewrite (proj1 (parse_join _ Hok)), dialled_peers in Hmain; [by destruct opts|done].
Qed.

Definition c_addrs : list string := ["localhost:50051"; "localhost:50052"; "localhost:50053"].
Definition c_dial_node (addr : string) : res peer :=
  match list_find (fun a => a = addr) c_addrs with Some (j, _) => Ok j | None => Err "no such host" end.
Definition c_port (i : nat) : Z := (50051 + Z.of_nat i)%Z.
Definition c_node_end (i : nat) : process fixture * outcome (Node AnyHandler) :=
  node_command c_dial_node ["Usage"] (cluster_args "causal" (MkOptions "" 0 0) c_addrs (c_port i) i) c_start.
Definition c_served (i : nat) : Node AnyHandler :=
  match snd (c_node_end i) with Returned n => n | _ => c_alone_node end.

Lemma node_commands_make_cluster_witness :
  let ps := [c_start; c_start; c_start] in
  cluster_args "causal" (MkOptions "" 0 0) c_addrs 50052 1 !! 2 = Some "-peers=localhost:50051,localhost:50053" /\
  map (fun p => snd (time_Now (pr_world p))) ps = [100; 100; 100]%Z /\
  init_cluster "causal" (MkOptions "" 0 0) (map (fun p => snd (time_Now (pr_world p))) ps) =
    Some (MkCluster (map c_served [0; 1; 2]) []).
Proof.
  split; [vm_compute; reflexivity|]; split; [vm_compute; reflexivity|].
  apply (node_commands_make_cluster c_dial_node ["Usage"] "causal" (MkOptions "" 0 0) c_addrs c_port
    [c_start; c_start; c_start] (map c_served [0; 1; 2])).
  - repeat (constructor; [vm_compute; reflexivity|]); constructor.
  - intros [|[|[|j]]] a Ha; [..|discriminate Ha]; injection Ha as <-; vm_compute; reflexivity.
  - unfold in_int64; simpl; lia.
  - unfold in_int64; simpl; lia.
  - intros i Hi; unfold in_int64, c_port; simpl in Hi; lia.
  - reflexivity.
  - reflexivity.
  - intros i p n Hp Hn; rewrite list_lookup_fmap in Hn; apply fmap_Some in Hn as (j & Hj & ->).
    exists (fst (c_node_end i)); destruct i as [|[|[|i]]]; [..|discriminate Hp]; injection Hp as <-;
      injection Hj as <-; vm_compute; reflexivity.
Defined.
