(* ===== verification/Probe.v ===== *)
(** * The probes ([src/scripts/test_client.go], [src/scripts/wait_grpc.go])

    The smoke test of a running node, put, get, delete, get, and the program that
    waits for a port.  The smoke test is run against the cluster of [World.v]. *)

From S2P Require Import Prelude Hlc Store Buffer Wire Replication Server Cluster.
From S2P Require Import Converge Float Env World Process Experiments.

(** ** Definitions *)

(** The address on the command line, [os.Args] with the program's name first. *)
Definition probe_addr (args : list string) : string :=
  match args with
  | _ :: addr :: _ => addr
  | _ => "localhost:50051"
  end.

Definition smoke_key : string := "e2e-smoke-key".

(** A line on standard error and [os.Exit(1)]. *)
Definition die {W A : Type} (line : string) : cmd W A := log_printf line;; os_exit 1.

(** [%v] of a bool. *)
Definition fmt_bool (b : bool) : string := if b then "true" else "false".

Definition smoke_main {W : Type} `{KVService W} `{Format} (dial : string -> res client)
    (args : list string) : cmd W unit :=
  r ← grpc_NewClient dial (probe_addr args);
  match r with
  | Err e => die ("dial: " +:+ e)
  | Ok (client, conn) =>
      with_defer (conn_Close conn)
        (r ← in_world (client_Put client (MkPutRequest smoke_key (bytes_of "hello")));
         match r with
         | Err e => die ("put: " +:+ e)
         | Ok _ =>
             r ← in_world (client_Get client (MkGetRequest smoke_key));
             match r with
             | Err e => die ("get: " +:+ e)
             | Ok resp =>
                 if negb (GetResp_Found resp) || negb (bytes_eqb (GetResp_Value resp) (bytes_of "hello"))
                 then die ("unexpected get: found=" +:+ fmt_bool (GetResp_Found resp) +:+ " value=" +:+
                           fmt_quote (GetResp_Value resp))
                 else
                   r ← in_world (client_Delete client (MkDeleteRequest smoke_key));
                   match r with
                   | Err e => die ("delete: " +:+ e)
                   | Ok _ =>
                       r ← in_world (client_Get client (MkGetRequest smoke_key));
                       match r with
                       | Err e => die ("get after delete: " +:+ e)
                       | Ok resp =>
                           if GetResp_Found resp then die "expected key to be deleted" else mret tt
                       end
                   end
             end
         end)
  end.

(** [dialTimeout] is [net.DialTimeout("tcp", addr, 2*time.Second)]; its connection
    is closed at once. *)
Definition wait_main {W : Type} (dialTimeout : string -> W -> W * option string) (args : list string)
    : cmd W unit :=
  err ← in_world (dialTimeout (probe_addr args));
  match err with
  | Some _ => os_exit 1
  | None => printf "ready"
  end.

(** ** Properties *)

(** C36: the smoke test passes: against any node of a causal or eventual cluster, at
    any point of a run, with RPCs delivered in any order or lost and other clients
    at work between its calls, the test puts, finds, deletes and no longer finds
    its key; it ends well with its connection closed and nothing reported, and
    leaves the key deleted.  It needs its key to itself: no other client writes it
    meanwhile, and no version of it that is later than the node's clock is in
    flight to the node or held there (an earlier one may be: it loses).  And it
    needs room in the logical counters, of the clocks and in flight, for its two
    writes and the steps of the others, and clocks that read int64s from the epoch
    on. *)
Theorem smoke_test_passes `{Format} mode opts nows c0 ls c now readings batches dial args i (p : process deployed) :
  async mode -> Forall (fun now => reading_ok now = true) nows ->
  init_cluster mode opts nows = Some c0 -> forallb label_timed ls = true -> run ls c0 = Some c ->
  i < length nows -> dial (probe_addr args) = Ok i ->
  pr_world p = MkDeployed c now readings batches ->
  Forall (fun now => reading_ok now = true) readings -> Forall (Forall (apart (eq smoke_key))) batches ->
  quiet i smoke_key c -> counters_to (maxLogical - 2 - Z.of_nat (length (concat batches))) c ->
  wp (smoke_main dial args) (fun p' o =>
    o = Returned tt /\ pr_log p' = pr_log p /\ pr_conns p' = pr_conns p ++ [false] /\
    exists n, nodes (dp_cluster (pr_world p')) !! i = Some n /\
      snd (Store_Get smoke_key (Node_Store n)) = false) p.
Proof.
  intros Ha Hnows Hinit Hls Hrun Hi Hdial Hw Hr Hb Hq Hroom.
  assert (Hw0 : runs mode (length nows) i (eq smoke_key) (0 + 1 + 1) (pr_world p)).
  { rewrite Hw; split; try done; [by eapply run_cluster_ok|by intros key <-]. }
  unfold smoke_main; apply wp_bind; unfold wp at 1, grpc_NewClient; rewrite Hdial; cbn [and_then].
  apply wp_defer, wp_bind; unfold wp at 1, in_world; cbn [pr_world with_conns].
  destruct (put_runs mode Ha _ i _ (0 + 1) smoke_key (bytes_of "hello") _ eq_refl ltac:(lia) Hw0)
    as (w1 & r1 & v1 & -> & Hw1 & Hk1 & Hd1 & Hv1 & _).
  cbn [and_then]; apply wp_bind; unfold wp at 1, in_world; cbn [pr_world with_conns with_world].
  destruct (get_runs mode Ha _ i _ (0 + 1) smoke_key _ Hw1) as (w2 & r2 & -> & Hw2 & _ & Hg2).
  destruct (Hg2 v1 eq_refl Hk1) as [Hf2 Hx2]; cbn [and_then]; rewrite Hf2, Hd1, (Hx2 Hd1), Hv1.
  change (negb (negb false) || negb (bytes_eqb (bytes_of "hello") (bytes_of "hello")))%bool with false; cbv iota.
  apply wp_bind; unfold wp at 1, in_world; cbn [pr_world with_conns with_world].
  destruct (delete_runs mode Ha _ i _ 0 smoke_key _ eq_refl ltac:(lia) Hw2) as (w3 & r3 & v3 & -> & Hw3 & Hk3 & Hd3).
  cbn [and_then]; apply wp_bind; unfold wp at 1, in_world; cbn [pr_world with_conns with_world].
  destruct (get_runs mode Ha _ i _ 0 smoke_key _ Hw3) as (w4 & r4 & -> & Hw4 & Hkeep & Hg4).
  destruct (Hg4 v3 eq_refl Hk3) as [Hf4 _]; cbn [and_then]; rewrite Hf4, Hd3.
  apply wp_ret, (wp_close_conn (pr_conns p) []); [done|]; split_and!; try done.
  destruct (Hkeep smoke_key v3 eq_refl Hk3) as [(n & Hn & Hv) _]; exists n; split; [done|].
  unfold Store_Get; by rewrite Hv, Hd3.
Qed.

(** Others at work: a put is delivered, a client reads the key of the test, another
    one writes elsewhere. *)
Definition c_others : list (list label) :=
  [[LPut 0 400 (MkPutRequest "x" [x7a])]; [LDeliver 0 410; LGet 2 (MkGetRequest smoke_key)];
   [LPut 1 420 (MkPutRequest "y" [x7a]); LDrop 0]; [LDeliver 1 430]].
Definition c_smoked : process deployed := init_process (MkDeployed c_quiet 400 [405; 425]%Z c_others).

Lemma smoke_test_passes_witness :
  map (fun n => Value_Data <$> Node_Store n !! "x")
    (nodes (dp_cluster (pr_world (fst (smoke_main (fun _ => Ok 1) ["test_client"] c_smoked))))) =
    [Some [x7a]; Some [x7a]; Some [x78]] /\
  wp (smoke_main (fun _ => Ok 1) ["test_client"]) (fun p' o => o = Returned tt) c_smoked.
Proof.
  split; [vm_compute; reflexivity|].
  eapply wp_mono; [apply (smoke_test_passes "causal" c_opts [100; 100; 100]%Z c_cluster c_all_labels c_quiet
    400 [405; 425]%Z c_others (fun _ => Ok 1) ["test_client"] 1)|by intros p' o [-> _]].
  - by right.
  - exact c_nows_ok.
  - by apply isSome_default.
  - vm_compute; reflexivity.
  - by apply isSome_default; vm_compute.
  - simpl; lia.
  - done.
  - done.
  - repeat constructor.
  - repeat constructor; intros key Hk; vm_compute in Hk; intros Heq; rewrite <- Heq in Hk; discriminate Hk.
  - intros n Hn; vm_compute in Hn; injection Hn as <-; split.
    + intros req pts Hreq; vm_compute in Hreq; by apply not_elem_of_nil in Hreq.
    + intros n w Hn Hin; vm_compute in Hn; injection Hn as <-; vm_compute in Hin; by apply not_elem_of_nil in Hin.
  - split; [|intros q req pts Hreq; vm_compute in Hreq; by apply not_elem_of_nil in Hreq].
    intros j n Hn; destruct j as [|[|[|j]]]; vm_compute in Hn; [injection Hn as <-..|discriminate Hn];
      vm_compute; discriminate.
Defined.
